(* ===== verification/_CoqProject ===== *)
-Q . S2P
Prelude.v
Float64.v
Decimal.v
Types.v
Time.v
Balances.v
Sha256.v
Chain.v
Distributions.v
Datastore.v
Positions.v
Trading.v
Lock.v
HotPairs.v
Execution.v
Ledger.v
Coalescing.v
TaskQueue.v
Inflight.v
Queueing.v
Workers.v
Lineage.v
Matching.v
Reconciliation.v
ReconciliationSafety.v
Brokerage.v
Orders.v
Encoding.v
Aes.v
Tokenization.v
Identities.v
Snapshots.v
Monitors.v
BalanceQueries.v
ApiKeys.v
FilterParse.v
Filters.v
ApiErrors.v
Replies.v
Requests.v
TransactionsApi.v
Accounts.v
RecordsApi.v
Hooks.v
