(* ===== verification/Prelude.v ===== *)
(** * Blnk ledger: a verification development

    Blnk is a double-entry ledger server.  Clients post transactions over HTTP;
    a transaction moves an amount from a source balance to a destination
    balance, at once, through a task queue, or as an inflight hold that a later
    request commits or voids.  The ledger lives in PostgreSQL, the queue and
    the distributed locks in Redis.  This library models the Go code between
    the HTTP handlers and the two stores and proves it correct.

    ** How a transaction runs, and where each step is modelled

    - [model/]: the structs ([Types]), money on a balance ([Balances]), splits
      over several sources or destinations ([Distributions]).
    - [transaction_queue.go]: [QueueTransaction] stamps and splits the
      transaction, persists a QUEUED row and enqueues a copy ([Queueing]), into
      a task queue chosen by the hash of the source or by the contention of the
      pair ([TaskQueue], [HotPairs]).
    - [cmd/workers.go], [queue_recovery.go]: workers take tasks and settle,
      retry or reject them; a recovery pass replays rows the queue lost
      ([Workers]).
    - [transaction_coalescing.go]: a worker may settle several queued
      transactions in one database transaction ([Coalescing]).
    - [transaction_execution.go]: the path every transaction ends in: lock both
      balances ([Lock]), check the reference, read, apply in memory, persist
      transaction, balances and lineage outbox together ([Execution], over
      [Datastore]).
    - [transaction_inflight.go], [lineage_shadow.go]: commits and voids of holds
      ([Inflight]).
    - [lineage_*.go], [database/lineage.go]: which provider's money a balance
      holds: shadow transactions posted by the outbox worker ([Lineage]).
    - [chain_worker.go], [model/chain.go], [database/chain.go]: rows are sealed
      onto a hash chain that a verifier replays ([Chain], over [Sha256] and
      [Time]).
    - [brokerage.go], [model/brokerage.go], [database/brokerage.go]: security
      positions, trades and settlement on top of the ledger ([Positions],
      [Trading], [Brokerage]).
    - [order.go], [model/order.go], [database/order.go]: orders that are
      checked, approved and executed into trades ([Orders], over [Brokerage]).
    - [reconciliation.go], [database/reconciliation.go]: matching external
      statements against the ledger: the rules and comparisons ([Matching]), the
      runs ([Reconciliation]), claims of groups and the rule table
      ([ReconciliationSafety]).
    - [identity.go], [database/identity.go], [internal/tokenization/]: identity
      records and the tokens that may stand in their personal fields
      ([Identities], [Tokenization]; base64 and UTF-8 in [Encoding], the cipher
      in [Aes]).
    - [balance.go], [database/balance.go]: daily snapshots and the balance at
      a past time ([Snapshots]), balance monitors ([Monitors]), reads of
      balances ([BalanceQueries]).
    - [api/middleware/], [api/apikeys.go], [database/api_key.go]: master and API
      keys, their scopes, and the check every request passes ([ApiKeys]).
    - [internal/filter/]: list filters, from the query string or a JSON body to
      the SQL query with its parameters ([FilterParse], [Filters]).
    - [api/transactions.go], [api/model/], [api/errors.go],
      [internal/apierror/]: the transaction endpoints: requests and what is
      required of them ([Requests]), the handlers and their replies
      ([TransactionsApi]), the catalogue of errors and which error gets which
      code and status ([ApiErrors]), what all handlers share ([Replies]).
    - [ledger.go], [account.go], [metadata.go] and their tables: ledgers, bank
      accounts of balances, and metadata of every entity ([Accounts]); the
      endpoints on these, on balances, monitors and identities ([RecordsApi]).
    - [internal/hooks/], [api/hooks.go]: the registry of user webhooks, their
      queue and their execution ([Hooks]).
    - [Ledger] is the abstract specification: workers that interleave freely.
      [Execution], [Inflight] and [Coalescing] are shown to refine it.

    ** State and operations

    A Go method that reads and writes a store and may fail is a program
    ([prog S A], below): a function from the store to the store it leaves and a
    [result]; effects before an error stay.  A method that only computes is a
    function, into [result] when it fails.  Every SQL statement is one function
    on the tables of [Datastore.db]; a database transaction that fails leaves
    the tables as they were.  The stores nest the way the code nests them:
    [Execution.world] (tables, Redis, id supply), [Inflight.qworld] (and the
    task queue), [Queueing.sys] (and goroutines that were started and have not
    run), [Lineage.lsys] (and lineage mappings and identities);
    [Brokerage.bworld] adds the brokerage's tables to the first two and
    [Orders.oworld] orders and reference data to that; [Reconciliation.rworld]
    has its tables and cached pages beside the ledger's.  Programs of an
    inner store are lifted to the outer ones.  A pointer a Go function writes
    through is part of the state where the caller can see it
    ([Queueing.with_txn]); the shared metadata map of a split is threaded
    through its legs.

    Arguments stand for what the code does not decide: the time, generated ids,
    which Redis call loses its connection ([hot_fault] and the like), a
    pre-hook's verdict, the moment a goroutine is scheduled.  Theorems hold for
    all of them.  Code outside the repository is an interface: decimals
    ([Decimal.Decimal], laws stated through exact rationals), the asynq queue
    ([TaskQueue.Asynq]), the order in which Go ranges over a map
    ([Distributions.MapIter]), the edit distance ([Matching.Levenshtein]) and
    PostgreSQL's text forms ([Reconciliation.PostgresText]).  Each has an
    instance, on which the witnesses run.  Go's own strings, sorting, [big.Int]
    ([Z]), [float64] ([Float64]), dates ([Time]), SHA-256 ([Sha256]), base64 and
    UTF-8 ([Encoding]), AES-GCM and HMAC ([Aes]) are defined.

    ** What is proved

    - The ledger ([Ledger]): in every database workers can reach, whatever the
      interleaving and without trusting the locks, debits equal credits,
      balances are the replay of the committed postings, no update is lost,
      references are unique.  [Execution], [Inflight] and [Coalescing] stay
      inside that system; a batch equals its members one after the other.
    - The service ([Queueing], [Workers], [Inflight]): the transaction table and
      the lineage outbox are append-only through every call; a task is
      acknowledged only when it is settled; recovery terminates; holds are never
      settled beyond their amount, and a retried action has no second effect.
    - Money ([Balances], [Distributions], [Trading], [Positions]): the exact
      effect of each operation, its error branches, rounding bounds.
    - Lineage: allocation is bounded, complete and in order; each outbox entry
      is attempted at most its maximum number of times and settles.
    - Orders: however requests interleave, terms never change and only executed
      orders carry a trade; in sequence they follow the transition table.
    - Reconciliation: a one-to-one run records exactly what its specification
      says under any scheduling, groups are claimed once, stored rules are well
      formed.
    - Identities: a token gives back the value it was made from, and tokenizing
      fields loses nothing.
    - Past balances: the balance computed from a snapshot and the transactions
      after it is the one computed from all transactions; after a commit
      exactly the monitors are notified whose stored condition the balance
      meets.
    - Access ([ApiKeys], [Filters]): no chain of keys created by keys exceeds
      what the master key granted; an accepted key was issued, not expired and
      not revoked longer ago than the cache lives; no text of a list filter
      reaches SQL except as a numbered parameter, and no filter is dropped.
    - The endpoints ([Requests], [ApiErrors], [TransactionsApi]): validation is
      exactly its specification; every request has a reply, an error has a
      status of 400 or more and an internal text is never its message; a posted
      transaction adds its one row exactly when the reply says so, and no
      endpoint rewrites the tables.
    - Accounts ([Accounts]): ids and numbers stay unique and foreign keys
      present; a new account is its balance's; metadata is merged under one id.
      Requests ([RecordsApi]) keep all references of accounts and balances, and
      one answered with an error has changed nothing.
    - Hooks ([Hooks]): the list of a type is exactly the stored hooks of the
      type, on any network; running hooks cannot stop a transaction; a queue of
      tasks drains; the outcome written is the outcome returned.
    - The chain: the verifier accepts what an honest server sealed, under any
      interleaving, and detects changes to it unless SHA-256 collides.
    - Infrastructure ([Lock], [HotPairs], [TaskQueue]): mutual exclusion of
      leases, termination of waiting, FIFO lanes never mixed, enqueue and
      lookup round trip.

    Lemmas that exhibit a defect of the code are kept beside the theorems; the
    manifest lists them as findings.

    ** Fuel and bounds

    Recursion that the code bounds only by its data takes fuel.
    [Lock.WaitLock] takes as much as the wait timeout in nanoseconds, since
    every round of backoff advances the clock; [WaitLock_terminates] shows that
    this is always enough.  [Trading.ComputeSettleDate] uses the code's own
    366-day look-ahead.  [Execution.executeTransactionPlan] falls back once, so
    2 is enough.  [Inflight.queueShadowWork] recurses from a hold to the shadow
    of the hold; its fuel is the argument [s_shadow_fuel], and theorems hold
    for every value.  [Queueing.QueueTransaction] is re-entered by the refunds
    of a rolled-back batch, one level per nested batch.  Paged reads
    ([Inflight.collect_pages], [Queueing.run_batches], [Reconciliation.pool],
    [Reconciliation.group_loop], [Chain.VerifyChain]) take a fuel computed from
    the number of rows they can be given; [Reconciliation.pool_ends] shows it
    is enough for its pool; [Snapshots.TakeBalanceSnapshots] takes the number of
    balances plus one.  Amounts are [big.Int] in the
    code and unbounded here; times are [int64] nanoseconds in the code and
    unbounded here.

    ** Not modelled

    The endpoints of orders, brokerage, reconciliation and reindexing decode a
    request, call one operation and encode its result.  Routing and JSON
    decoding belong to libraries: a handler here takes a decoded request or the
    error of decoding it.  Process wiring and migrations ([cmd/]),
    configuration loading, metrics, traces, logging, outgoing notifications,
    search indexing, backups and file parsing call other services or libraries
    and do not decide what the ledger does.  Caches are those of one server
    process: the copies other processes keep are not modelled.  SQL isolation is
    modelled as one atomic step per database transaction, which the row locks
    and version checks of the code are meant to give.  See the manifest for each part. *)

From Stdlib Require Export ZArith Lia Ascii String Sorting.Sorted Sorting.Permutation.
From Stdlib Require Import DecimalString DecimalZ.
From stdpp Require Export base option list gmap strings fin_maps sorting.

#[global] Set Default Goal Selector "!".
#[global] Open Scope Z_scope.

(** ** Go errors

    A Go [error] value as the code builds it: [errors.New]/[fmt.Errorf] without
    [%w] is a fresh text; a package-level sentinel has an identity;
    [apierror.APIError] carries a code; [fmt.Errorf("p: %w", e)] wraps. *)

Inductive sentinel : Type :=
| ErrNoRows          (* database/sql *)
| ErrLockHeld        (* internal/lock *)
| ErrLockWaitTimeout (* internal/lock *)
| ErrCtxCanceled     (* context.Canceled *)
| ErrInflightActionQueued (* queue.go *)
| ErrTokenizationDisabled (* internal/tokenization *)
| ErrTaskIDConflict (* asynq *)
| ErrAPIKeyNotFound (* database/api_key.go *)
| ErrInvalidAPIKey (* database/api_key.go *)
| ErrPrecisionMustBeInteger (* api/model/model.go *)
| ErrEntityNotFound. (* metadata.go *)

#[global] Instance sentinel_eq_dec : EqDecision sentinel.
Proof. unfold EqDecision, Decision. decide equality. Defined.

Inductive error : Type :=
| ENew (msg : string)
| ESentinel (s : sentinel) (msg : string)
| EAPI (code msg : string)
| EWrap (prefix : string) (e : error)
| EPanic (msg : string)  (* a run-time panic, which unwinds like an error *)
| EMsg (msg : string) (e : error) (* custom error type: own text, Unwrap = e *).

#[global] Instance error_eq_dec : EqDecision error.
Proof.
  unfold EqDecision, Decision. decide equality; first [apply string_dec | apply sentinel_eq_dec].
Defined.

(** [err.Error()]. *)
Fixpoint error_text (e : error) : string :=
  match e with
  | ENew m | EPanic m => m
  | ESentinel _ m => m
  | EAPI c m => c +:+ ": " +:+ m
  | EWrap p e => p +:+ ": " +:+ error_text e
  | EMsg m _ => m
  end.

(** [errors.Is(err, sentinel)]: walks the [Unwrap] chain. *)
Fixpoint errors_is (e : error) (s : sentinel) : bool :=
  match e with
  | ENew _ | EAPI _ _ | EPanic _ => false
  | ESentinel s' _ => bool_decide (s = s')
  | EWrap _ e | EMsg _ e => errors_is e s
  end.

(** [err == sentinel]: identity of the outermost value, no unwrapping. *)
Definition error_is_exactly (e : error) (s : sentinel) : bool :=
  match e with ESentinel s' _ => bool_decide (s = s') | _ => false end.

(** The code of an [apierror.APIError] asserted with [err.(apierror.APIError)]. *)
Definition api_code (e : error) : option string :=
  match e with EAPI c _ => Some c | _ => None end.

(** ** Results of fallible calls *)

Inductive result (A : Type) : Type :=
| Ok (a : A)
| Err (e : error).
Arguments Ok {A} a.
Arguments Err {A} e.

#[global] Instance result_ret : MRet result := @Ok.
#[global] Instance result_bind : MBind result := λ A B f r,
  match r with Ok a => f a | Err e => Err e end.
#[global] Instance result_fmap : FMap result := λ A B f r,
  match r with Ok a => Ok (f a) | Err e => Err e end.

#[global] Instance result_eq_dec {A} `{EqDecision A} : EqDecision (result A).
Proof.
  unfold EqDecision, Decision. decide equality; [apply EqDecision0 | apply error_eq_dec].
Defined.

(** [fmt.Errorf("p: %w", err)] on the error branch. *)
Definition wrap_err {A} (p : string) (r : result A) : result A :=
  match r with Ok a => Ok a | Err e => Err (EWrap p e) end.

Definition is_ok {A} (r : result A) : bool :=
  match r with Ok _ => true | Err _ => false end.

Lemma bind_Ok {A B} (f : A → result B) (r : result A) b :
  (r ≫= f) = Ok b ↔ ∃ a, r = Ok a ∧ f a = Ok b.
Proof.
  destruct r as [a|e]; split.
  - simpl. intros H. by exists a.
  - by intros (x & [= ->] & Hf).
  - done.
  - by intros (x & ? & _).
Qed.

Lemma bind_Err {A B} (f : A → result B) (r : result A) e :
  (r ≫= f) = Err e ↔ r = Err e ∨ ∃ a, r = Ok a ∧ f a = Err e.
Proof.
  destruct r as [a|e']; split.
  - simpl. intros H. right. by exists a.
  - by intros [?|(x & [= ->] & Hf)].
  - simpl. intros [= ->]. by left.
  - by intros [[= ->]|(x & ? & _)].
Qed.

Lemma wrap_err_Ok {A} p (r : result A) a : wrap_err p r = Ok a ↔ r = Ok a.
Proof. destruct r; simpl; naive_solver. Qed.

(** [if cond { return err }]. *)
Definition fail_if (b : bool) (e : error) : result unit :=
  if b then Err e else Ok tt.

Lemma fail_if_Ok b e u : fail_if b e = Ok u ↔ b = false.
Proof. destruct b, u; simpl; naive_solver. Qed.

(** ** Fallible programs over a state that survives errors

    A Go method that touches the database or Redis and returns an error keeps
    the effects it had before the error. *)

Definition prog (S A : Type) : Type := S → S * result A.

#[global] Instance prog_ret {S} : MRet (prog S) := λ A a s, (s, Ok a).
#[global] Instance prog_bind {S} : MBind (prog S) := λ A B f m s,
  match m s with
  | (s', Ok a) => f a s'
  | (s', Err e) => (s', Err e)
  end.

Definition raise {S A} (e : error) : prog S A := λ s, (s, Err e).
Definition lift {S A} (r : result A) : prog S A := λ s, (s, r).
Definition get_state {S} : prog S S := λ s, (s, Ok s).
Definition put_state {S} (s : S) : prog S unit := λ _, (s, Ok tt).
(** [if err != nil { return ..., f(err) }]. *)
Definition map_err {S A} (f : error → error) (m : prog S A) : prog S A := λ s,
  match m s with (s', Ok a) => (s', Ok a) | (s', Err e) => (s', Err (f e)) end.
Definition ctx_err {S A} (p : string) : prog S A → prog S A := map_err (EWrap p).

Lemma prog_bind_Ok {S A B} (f : A → prog S B) (m : prog S A) s s' b :
  (m ≫= f) s = (s', Ok b) ↔ ∃ s1 a, m s = (s1, Ok a) ∧ f a s1 = (s', Ok b).
Proof.
  unfold mbind, prog_bind. destruct (m s) as [s1 [a|e]]; split.
  - intros E. by exists s1, a.
  - by intros (? & ? & [= -> ->] & E).
  - done.
  - by intros (? & ? & ? & _).
Qed.

Lemma prog_bind_Err {S A B} (f : A → prog S B) (m : prog S A) s s' e :
  (m ≫= f) s = (s', Err e) ↔
  m s = (s', Err e) ∨ ∃ s1 a, m s = (s1, Ok a) ∧ f a s1 = (s', Err e).
Proof.
  unfold mbind, prog_bind. destruct (m s) as [s1 [a|e1]]; split.
  - intros E. right. by exists s1, a.
  - by intros [?|(? & ? & [= -> ->] & E)].
  - intros [= -> ->]. by left.
  - by intros [[= -> ->]|(? & ? & ? & _)].
Qed.

Lemma map_err_Ok {S A} f (m : prog S A) s s' a :
  map_err f m s = (s', Ok a) ↔ m s = (s', Ok a).
Proof. unfold map_err. destruct (m s) as [? [?|?]]; naive_solver. Qed.

Lemma map_err_state {S A} f (m : prog S A) s : (map_err f m s).1 = (m s).1.
Proof. unfold map_err. by destruct (m s) as [? [?|?]]. Qed.

(** Inverts hypotheses about successful sequences of fallible calls. *)
Ltac inv_result :=
  repeat match goal with
  | H : Ok _ = Ok _ |- _ => injection H as H; subst
  | H : Ok _ = Err _ |- _ => discriminate H
  | H : Err _ = Ok _ |- _ => discriminate H
  | H : Err _ = Err _ |- _ => injection H as H; subst
  | H : mret _ = Ok _ |- _ => unfold mret, result_ret in H
  | H : (_ ≫= _) = Ok _ |- _ =>
      apply bind_Ok in H; destruct H as (? & ? & H); simpl in H
  | H : fail_if _ _ = Ok _ |- _ => apply fail_if_Ok in H
  | H : wrap_err _ _ = Ok _ |- _ => apply wrap_err_Ok in H
  end.

(** The same for programs. *)
Ltac inv_prog :=
  repeat match goal with
  | H : (_, Ok _) = (_, Err _) |- _ => discriminate H
  | H : (_, Err _) = (_, Ok _) |- _ => discriminate H
  | H : (_, Ok _) = (_, Ok _) |- _ => injection H as H; subst
  | H : (_, Err _) = (_, Err _) |- _ => injection H as H; subst
  | H : mret _ _ = (_, _) |- _ => unfold mret, prog_ret in H
  | H : raise _ _ = (_, _) |- _ => unfold raise in H
  | H : lift _ _ = (_, _) |- _ => unfold lift in H
  | H : get_state _ = (_, _) |- _ => unfold get_state in H
  | H : put_state _ _ = (_, _) |- _ => unfold put_state in H
  | H : ctx_err _ _ _ = (_, Ok _) |- _ => unfold ctx_err in H
  | H : map_err _ _ _ = (_, Ok _) |- _ => apply map_err_Ok in H
  | H : (_ ≫= _) _ = (_, Ok _) |- _ =>
      apply prog_bind_Ok in H; destruct H as (? & ? & ? & H)
  end.

(** ** Triples over programs

    From a state satisfying [P], [m] returns [a] in a state satisfying [Q a],
    or fails in a state satisfying [X]. *)

Definition triple {S A} (P : S → Prop) (m : prog S A) (Q : A → S → Prop) (X : S → Prop) : Prop :=
  ∀ s, P s → match m s with (s', Ok a) => Q a s' | (s', Err _) => X s' end.

Section triple.
Context {S : Type}.
Implicit Types (P X : S → Prop).

Lemma triple_bind {A B} P (m : prog S A) Q (f : A → prog S B) R X :
  triple P m Q X → (∀ a, triple (Q a) (f a) R X) → triple P (m ≫= f) R X.
Proof.
  intros Hm Hf s Hs. specialize (Hm s Hs). unfold mbind, prog_bind.
  destruct (m s) as [s1 [a|e]]; [|done]. by apply Hf.
Qed.

Lemma triple_weaken {A} P P' (m : prog S A) Q Q' X X' :
  triple P m Q X → (∀ s, P' s → P s) → (∀ a s, Q a s → Q' a s) → (∀ s, X s → X' s) →
  triple P' m Q' X'.
Proof.
  intros Hm HP HQ HX s Hs. specialize (Hm s (HP s Hs)). destruct (m s) as [s1 [a|e]]; auto.
Qed.

Lemma triple_ret {A} P (a : A) X : triple P (mret a) (λ b s, b = a ∧ P s) X.
Proof. by intros s Hs. Qed.

Lemma triple_raise {A} P e (Q : A → S → Prop) : triple P (raise e) Q P.
Proof. by intros s Hs. Qed.

Lemma triple_lift {A} P (r : result A) : triple P (lift r) (λ a s, r = Ok a ∧ P s) P.
Proof. intros s Hs. unfold lift. by destruct r. Qed.

Lemma triple_err {A} P (m : prog S A) f Q X : triple P m Q X → triple P (map_err f m) Q X.
Proof.
  intros Hm s Hs. specialize (Hm s Hs). unfold map_err. by destruct (m s) as [s1 [a|e]].
Qed.

(** A fact about no state can be assumed. *)
Lemma triple_pure {A} P (φ : Prop) (m : prog S A) Q X :
  (φ → triple P m Q X) → triple (λ s, φ ∧ P s) m Q X.
Proof. intros Hm s [Hφ Hs]. by apply Hm. Qed.
End triple.

(** Evaluates a closed call known to succeed, naming its value. *)
Tactic Notation "run_ok" constr(call) "as" simple_intropattern(pat) ident(E) :=
  destruct call as [pat|?] eqn:E; [|vm_compute in E; discriminate E].

(** Splits on the scrutinee of the next [match]/[if] of a goal or hypothesis. *)
Ltac case_goal :=
  match goal with
  | |- context [match ?x with _ => _ end] =>
      lazymatch x with
      | context [match _ with _ => _ end] => fail
      | _ => destruct x eqn:?
      end
  end.

Ltac case_hyp H :=
  match type of H with
  | context [match ?x with _ => _ end] =>
      lazymatch x with
      | context [match _ with _ => _ end] => fail
      | _ => destruct x eqn:?
      end
  end.

(** Turns boolean integer comparisons into propositions. *)
Ltac zbool :=
  repeat match goal with
  | H : (_ <? _) = true |- _ => apply Z.ltb_lt in H
  | H : (_ <? _) = false |- _ => apply Z.ltb_ge in H
  | H : (_ <=? _) = true |- _ => apply Z.leb_le in H
  | H : (_ <=? _) = false |- _ => apply Z.leb_gt in H
  | H : (_ =? _) = true |- _ => apply Z.eqb_eq in H
  | H : (_ =? _) = false |- _ => apply Z.eqb_neq in H
  | H : (_ && _)%bool = true |- _ => apply andb_true_iff in H; destruct H
  | H : (_ || _)%bool = false |- _ => apply orb_false_iff in H; destruct H
  | H : negb _ = true |- _ => apply negb_true_iff in H
  | H : negb _ = false |- _ => apply negb_false_iff in H
  | H : bool_decide _ = true |- _ => apply bool_decide_eq_true in H
  | H : bool_decide _ = false |- _ => apply bool_decide_eq_false in H
  end.

(** ** Strings of the Go standard library *)

(** [strings.HasPrefix(s, p)]. *)
Definition has_prefix (p s : string) : bool := String.prefix p s.

(** [strings.Contains(s, sub)]. *)
Fixpoint contains (s sub : string) : bool :=
  String.prefix sub s
  || match s with EmptyString => false | String _ s' => contains s' sub end.

(** [strings.HasSuffix(s, suf)]. *)
Fixpoint has_suffix (s suf : string) : bool :=
  String.eqb s suf
  || match s with EmptyString => false | String _ s' => has_suffix s' suf end.

(** [strings.Split] for a separator that is not empty: the part at hand and the
    parts after it.  [skip] counts the bytes of a separator still to pass. *)
Fixpoint split_at (sep : string) (skip : nat) (s : string) : string * list string :=
  match s with
  | "" => ("", [])
  | String c s' =>
      match skip with
      | S k => split_at sep k s'
      | O =>
          if String.prefix sep s then
            let '(part, parts) := split_at sep (String.length sep - 1) s' in ("", part :: parts)
          else
            let '(part, parts) := split_at sep 0 s' in (String c part, parts)
      end
  end.
Definition split (sep s : string) : list string :=
  let '(part, parts) := split_at sep 0 s in part :: parts.

(** [strings.ToLower]/[ToUpper] on ASCII text. *)
Definition ascii_lower (c : ascii) : ascii :=
  let n := N_of_ascii c in
  if ((65 <=? n) && (n <=? 90))%N then ascii_of_N (n + 32) else c.
Definition ascii_upper (c : ascii) : ascii :=
  let n := N_of_ascii c in
  if ((97 <=? n) && (n <=? 122))%N then ascii_of_N (n - 32) else c.
Fixpoint string_map (f : ascii → ascii) (s : string) : string :=
  match s with
  | EmptyString => EmptyString
  | String c s' => String (f c) (string_map f s')
  end.
Definition to_lower : string → string := string_map ascii_lower.
Definition to_upper : string → string := string_map ascii_upper.

(** [strings.Join(l, sep)]. *)
Fixpoint join (sep : string) (l : list string) : string :=
  match l with
  | [] => ""
  | [s] => s
  | s :: l' => s +:+ sep +:+ join sep l'
  end.

(** [z.String()] / [%d]. *)
Definition Z_to_string (z : Z) : string := NilEmpty.string_of_int (Z.to_int z).

(** [new(big.Int).SetString(s, 10)]. *)
Definition Z_of_string (s : string) : option Z :=
  Z.of_int <$> NilEmpty.int_of_string s.

Lemma Z_of_to_string z : Z_of_string (Z_to_string z) = Some z.
Proof.
  unfold Z_of_string, Z_to_string. rewrite NilEmpty.isi. simpl. by rewrite DecimalZ.of_to.
Qed.

#[global] Instance Z_to_string_inj : Inj (=) (=) Z_to_string.
Proof.
  intros x y E. apply (f_equal Z_of_string) in E. rewrite !Z_of_to_string in E.
  by injection E.
Qed.

Lemma string_app_nil_l (s : string) : "" +:+ s = s.
Proof. done. Qed.

Lemma string_app_cons c (s t : string) : String c s +:+ t = String c (s +:+ t).
Proof. done. Qed.

Lemma string_app_nil_r (s : string) : s +:+ "" = s.
Proof. induction s as [|c s IH]; [done|]. by rewrite string_app_cons, IH. Qed.

Lemma string_app_assoc (a b c : string) : (a +:+ b) +:+ c = a +:+ (b +:+ c).
Proof. induction a as [|x a IH]; [done|]. by rewrite !string_app_cons, IH. Qed.

Lemma string_app_inj_l (a b c : string) : a +:+ b = a +:+ c → b = c.
Proof. induction a as [|x a IH]; [done|]. rewrite !string_app_cons. intros [=]. auto. Qed.

Lemma string_length_app (a b : string) :
  String.length (a +:+ b) = (String.length a + String.length b)%nat.
Proof. induction a as [|x a IH]; [done|]. rewrite string_app_cons. simpl. by rewrite IH. Qed.

Lemma string_app_inj_r (a b c : string) : a +:+ c = b +:+ c → a = b.
Proof.
  intros E. assert (Hl : String.length a = String.length b).
  { apply (f_equal String.length) in E. rewrite !string_length_app in E. lia. }
  revert b Hl E. induction a as [|x a IH]; intros [|y b] Hl; try done.
  rewrite !string_app_cons. intros [= -> E]. f_equal. apply IH; [|done].
  simpl in Hl. lia.
Qed.

Lemma prefix_app (p s : string) : String.prefix p (p +:+ s) = true.
Proof.
  induction p as [|c p IH]; [by destruct s|]. rewrite string_app_cons. simpl.
  destruct (Ascii.ascii_dec c c); [done|congruence].
Qed.

Lemma contains_prefix (s sub : string) : String.prefix sub s = true → contains s sub = true.
Proof. intros H. by destruct s; cbn [contains]; rewrite H. Qed.

(** A text contains what it was built around. *)
Lemma contains_mid (a sub b : string) : contains (a +:+ sub +:+ b) sub = true.
Proof.
  induction a as [|c a IH].
  - rewrite string_app_nil_l. apply contains_prefix, prefix_app.
  - rewrite string_app_cons. cbn [contains]. rewrite IH. apply orb_true_r.
Qed.

Lemma contains_wrap (p : string) (t sub : string) :
  contains t sub = true → contains (p +:+ t) sub = true.
Proof.
  intros H. induction p as [|c p IH]; [done|].
  rewrite string_app_cons. cbn [contains]. rewrite IH. apply orb_true_r.
Qed.

(** ** Sums over lists *)

Fixpoint sumZ {A} (f : A → Z) (l : list A) : Z :=
  match l with [] => 0 | x :: l' => f x + sumZ f l' end.

Section sumZ.
Context {A : Type}.
Implicit Types (f g : A → Z) (l : list A).

Lemma sumZ_app f l1 l2 : sumZ f (l1 ++ l2) = sumZ f l1 + sumZ f l2.
Proof. induction l1; simpl; lia. Qed.

Lemma sumZ_perm f l1 l2 : Permutation l1 l2 → sumZ f l1 = sumZ f l2.
Proof. induction 1; simpl; lia. Qed.

Lemma sumZ_ext f g l : (∀ x, x ∈ l → f x = g x) → sumZ f l = sumZ g l.
Proof.
  induction l as [|x l IH]; simpl; [done|]. intros H.
  rewrite H, IH; [done| |].
  - intros y Hy. apply H. by right.
  - by left.
Qed.

Lemma sumZ_add f g l : sumZ (λ x, f x + g x) l = sumZ f l + sumZ g l.
Proof. induction l; simpl; lia. Qed.

Lemma sumZ_sub f g l : sumZ (λ x, f x - g x) l = sumZ f l - sumZ g l.
Proof. induction l; simpl; lia. Qed.

Lemma sumZ_nonneg f l : (∀ x, x ∈ l → 0 <= f x) → 0 <= sumZ f l.
Proof.
  induction l as [|x l IH]; simpl; [lia|]. intros H.
  assert (0 <= f x) by (apply H; by left).
  assert (0 <= sumZ f l) by (apply IH; intros; apply H; by right). lia.
Qed.

Lemma sumZ_zero f l : (∀ x, x ∈ l → f x = 0) → sumZ f l = 0.
Proof.
  induction l as [|x l IH]; simpl; [done|]. intros H.
  rewrite H, IH; [done| |by left]. intros; apply H; by right.
Qed.
End sumZ.

Lemma sumZ_map {A B} (g : A → B) (f : B → Z) l :
  sumZ f (map g l) = sumZ (λ x, f (g x)) l.
Proof. induction l; simpl; congruence. Qed.

(** Sum of a measure over the values of a map. *)
Definition sum_map {K V} `{Countable K} (f : V → Z) (m : gmap K V) : Z :=
  sumZ (λ kv, f kv.2) (map_to_list m).

Section sum_map.
Context {K V : Type} `{Countable K}.
Implicit Types (f : V → Z) (m : gmap K V).

Lemma sum_map_empty f : sum_map f (∅ : gmap K V) = 0.
Proof. unfold sum_map. by rewrite map_to_list_empty. Qed.

Lemma sum_map_insert_new f m k v :
  m !! k = None → sum_map f (<[k:=v]> m) = f v + sum_map f m.
Proof.
  intros Hk. unfold sum_map.
  rewrite (sumZ_perm _ _ _ (map_to_list_insert m k v Hk)). done.
Qed.

Lemma sum_map_delete f m k v :
  m !! k = Some v → sum_map f m = f v + sum_map f (delete k m).
Proof.
  intros Hk. rewrite <- (sum_map_insert_new f (delete k m) k v) by apply lookup_delete_eq.
  by rewrite insert_delete_id.
Qed.

(** Overwriting an entry changes the sum by the difference of the values. *)
Lemma sum_map_insert f m k v w :
  m !! k = Some v → sum_map f (<[k:=w]> m) = sum_map f m - f v + f w.
Proof.
  intros Hk. rewrite (sum_map_delete f m k v Hk).
  rewrite (sum_map_delete f (<[k:=w]> m) k w) by apply lookup_insert_eq.
  rewrite delete_insert_eq. lia.
Qed.

Lemma sum_map_ext f g m :
  (∀ k v, m !! k = Some v → f v = g v) → sum_map f m = sum_map g m.
Proof.
  intros Hfg. unfold sum_map. apply sumZ_ext. intros [k v] Hin.
  apply (Hfg k). by apply elem_of_map_to_list.
Qed.
End sum_map.

(** ** Functional record update

    [r <| f := v |>] is the struct [r] after the assignment [r.f = v]. *)

Class Eta (R : Type) := eta : R → R.
Class Setter {R T} (getter : R → T) := set : (T → T) → R → R.
Arguments set {R T} getter {Setter} f r /.

Ltac solve_setter :=
  match goal with
  | |- @Setter ?R ?T ?g =>
      let i := eval cbv beta in (_ : Eta R) in
      let e := eval cbv delta [i] in i in
      match eval pattern g in e with
      | ?s _ => exact (λ f r, s (λ r', f (g r')) r)
      end
  end.
#[global] Hint Extern 1 (Setter _) => solve_setter : typeclass_instances.

Notation "r <| f := v |>" := (set f (λ _, v) r)
  (at level 1, left associativity, f at next level, v at level 100,
   format "r  <| f  :=  v |>").

(** ** Lists *)

Lemma map_reverse {A B} (f : A → B) l : map f (reverse l) = reverse (map f l).
Proof. exact (fmap_reverse f l). Qed.

(** ** Iteration over a Go map

    [for k, v := range m] visits the entries in an unspecified order: any
    function listing them.  Code whose result depends on the order takes it as
    this interface. *)

Class MapIter := {
  map_iter : ∀ {A : Type}, gmap string A → list (string * A);
  map_iter_perm : ∀ {A : Type} (m : gmap string A), map_iter m ≡ₚ map_to_list m;
}.

#[export] Program Instance map_iter_default : MapIter := {| map_iter := λ A m, map_to_list m |}.
Next Obligation. done. Qed.

Lemma sumZ_map_iter `{MapIter} {A} (f : A → Z) (m : gmap string A) :
  sumZ (λ kv, f kv.2) (map_iter m) = sum_map f m.
Proof. apply sumZ_perm, map_iter_perm. Qed.

Lemma elem_of_map_iter `{MapIter} {A} (m : gmap string A) k v :
  (k, v) ∈ map_iter m ↔ m !! k = Some v.
Proof. by rewrite map_iter_perm, elem_of_map_to_list. Qed.

(** ** Sorting strings: [sort.Strings] orders bytewise. *)

Definition sort_strings (l : list string) : list string := merge_sort String.le l.

Lemma sort_strings_perm l : Permutation (sort_strings l) l.
Proof. apply merge_sort_Permutation. Qed.

Lemma sort_strings_sorted l : StronglySorted String.le (sort_strings l).
Proof. apply StronglySorted_merge_sort; apply _. Qed.

Lemma elem_of_sort_strings x l : x ∈ sort_strings l ↔ x ∈ l.
Proof. by rewrite sort_strings_perm. Qed.

Lemma NoDup_sort_strings l : NoDup l → NoDup (sort_strings l).
Proof. by rewrite sort_strings_perm. Qed.

(** The order a set of names is processed in does not depend on the order it
    was collected in. *)
Lemma sort_strings_unique l1 l2 :
  Permutation l1 l2 → sort_strings l1 = sort_strings l2.
Proof.
  intros Hp. apply (StronglySorted_unique String.le).
  - apply sort_strings_sorted.
  - apply sort_strings_sorted.
  - by rewrite !sort_strings_perm.
Qed.

(** [ORDER BY key ASC] / [DESC]. *)
Definition key_le {A} (key : A → Z) : relation A := λ x y, key x <= key y.
Definition key_ge {A} (key : A → Z) : relation A := λ x y, key y <= key x.
#[global] Instance key_le_dec {A} (key : A → Z) : RelDecision (key_le key).
Proof. intros x y. unfold key_le. apply _. Defined.
#[global] Instance key_ge_dec {A} (key : A → Z) : RelDecision (key_ge key).
Proof. intros x y. unfold key_ge. apply _. Defined.

Definition order_asc {A} (key : A → Z) (l : list A) : list A := merge_sort (key_le key) l.
Definition order_desc {A} (key : A → Z) (l : list A) : list A := merge_sort (key_ge key) l.

Lemma order_asc_sorted {A} (key : A → Z) l : StronglySorted (key_le key) (order_asc key l).
Proof.
  apply StronglySorted_merge_sort.
  - intros x y z. unfold key_le. lia.
  - intros x y. unfold key_le. lia.
Qed.

Lemma order_asc_perm {A} (key : A → Z) l : order_asc key l ≡ₚ l.
Proof. apply merge_sort_Permutation. Qed.
Lemma order_desc_perm {A} (key : A → Z) l : order_desc key l ≡ₚ l.
Proof. apply merge_sort_Permutation. Qed.

(** Rows with distinct keys have one order. *)
Definition key_lt {A} (key : A → Z) : relation A := λ x y, key x < key y.

Lemma order_asc_unique {A} (key : A → Z) l l' :
  StronglySorted (key_lt key) l → l' ≡ₚ l → order_asc key l' = l.
Proof.
  intros Hs Hp.
  assert (Hkey : ∀ x y, x ∈ l → y ∈ l → key x = key y → x = y).
  { clear Hp. induction Hs as [|a l Hs IH Ha]; intros x y Hx Hy E; [by apply not_elem_of_nil in Hx|].
    rewrite Forall_forall in Ha. unfold key_lt in Ha.
    apply elem_of_cons in Hx as [->|Hx], Hy as [->|Hy]; [done| | |by apply IH].
    - specialize (Ha y Hy). lia.
    - specialize (Ha x Hx). lia. }
  apply (StronglySorted_unique_strong (key_le key)).
  - intros x y Hx Hy H1 H2. rewrite order_asc_perm, Hp in Hx.
    apply Hkey; [done|done|]. unfold key_le in *. lia.
  - apply order_asc_sorted.
  - clear -Hs. induction Hs as [|a l Hs IH Ha]; constructor; [done|].
    eapply Forall_impl; [exact Ha|]. intros x. unfold key_lt, key_le. lia.
  - by rewrite order_asc_perm.
Qed.

Lemma StronglySorted_filter {A} (R : relation A) (p : A → bool) l :
  StronglySorted R l → StronglySorted R (List.filter p l).
Proof.
  induction 1 as [|a l Hs IH Ha]; simpl; [constructor|].
  destruct (p a); [|done]. constructor; [done|]. rewrite Forall_forall in Ha |- *.
  intros x Hx. apply Ha. apply list_elem_of_In. apply list_elem_of_In in Hx.
  by apply filter_In in Hx as [? _].
Qed.

#[global] Instance list_filter_perm {A} (p : A → bool) :
  Proper ((≡ₚ) ==> (≡ₚ)) (List.filter p).
Proof.
  induction 1 as [|x l l' _ IH|x y l|l1 l2 l3 _ IH1 _ IH2]; simpl.
  - done.
  - destruct (p x); [by f_equiv|done].
  - destruct (p x), (p y); try done. constructor.
  - by etrans.
Qed.

Lemma list_filter_none {A} (p : A → bool) l : (∀ x, x ∈ l → p x = false) → List.filter p l = [].
Proof.
  induction l as [|x l IH]; intros H; [done|]. simpl. rewrite (H x) by by left.
  apply IH. intros y Hy. apply H. by right.
Qed.

Lemma list_filter_all {A} (p : A → bool) l : (∀ x, x ∈ l → p x = true) → List.filter p l = l.
Proof.
  induction l as [|x l IH]; intros H; [done|]. simpl. rewrite (H x) by by left.
  f_equal. apply IH. intros y Hy. apply H. by right.
Qed.

Lemma elem_of_list_filter {A} (p : A → bool) l x : x ∈ List.filter p l ↔ x ∈ l ∧ p x = true.
Proof. by rewrite !list_elem_of_In, filter_In. Qed.

(** A list splits into what passes a test and what does not. *)
Lemma list_filter_split {A} (p : A → bool) (l : list A) :
  l ≡ₚ List.filter p l ++ List.filter (λ x, negb (p x)) l.
Proof.
  induction l as [|x l IH]; simpl; [done|]. destruct (p x); simpl; [by f_equiv|].
  rewrite <- Permutation_middle. by f_equiv.
Qed.

(** [LIMIT n OFFSET k]. *)
Definition limit_offset {A} (limit offset : nat) (l : list A) : list A :=
  take limit (drop offset l).

(** ** Automation *)

Create HintDb blnk.
Create Rewrite HintDb blnk_sum.

(** ** Lists without duplicate keys *)

Lemma NoDup_map_eq {A B} (f : A → B) l a b :
  NoDup (map f l) → a ∈ l → b ∈ l → f a = f b → a = b.
Proof.
  induction l as [|x l IH]; cbn [map]; [by intros _ ?%elem_of_nil|].
  intros [Hx Hnd]%NoDup_cons [->|Ha]%elem_of_cons [->|Hb]%elem_of_cons Ef; [done| | |auto].
  - destruct Hx. rewrite Ef. by apply list_elem_of_fmap_2.
  - destruct Hx. rewrite <- Ef. by apply list_elem_of_fmap_2.
Qed.

Lemma NoDup_map_filter {A B} (f : A → B) p l : NoDup (map f l) → NoDup (map f (List.filter p l)).
Proof.
  induction l as [|x l IH]; cbn [map List.filter]; [done|]. intros [Hx Hnd]%NoDup_cons.
  destruct (p x); [|auto]. cbn [map]. apply NoDup_cons. split; [|auto].
  intros (y & E & Hy)%list_elem_of_fmap. apply Hx, list_elem_of_fmap. exists y. split; [done|].
  apply list_elem_of_In in Hy. apply filter_In in Hy as [Hy _]. by apply list_elem_of_In.
Qed.

#[export] Hint Resolve sort_strings_perm sort_strings_sorted NoDup_sort_strings : blnk.
#[export] Hint Resolve contains_mid contains_wrap prefix_app : blnk.
#[export] Hint Rewrite @sumZ_app @sumZ_map : blnk_sum.
