(* ===== verification/Float64.v ===== *)
(** * Go [float64]: IEEE 754 binary64

    Amounts, precisions and limits of the ledger are [float64].  A value is a
    Standard Library [spec_float] at precision 53, maximal exponent 1024; the
    operations are the correctly rounded ones the Go specification requires.
    The file also has [strconv.FormatFloat(x, 'f', prec, 64)] for the two
    precisions the code uses, [-1] (shortest text that reads back as [x]) and
    [0] (nearest integer). *)

From Stdlib Require Import Floats.SpecFloat QArith.
From Stdlib Require DecimalString DecimalPos.
From S2P Require Import Prelude.

Abbreviation float64 := spec_float.

Module Float64.

Definition prec : Z := 53.
Definition emax : Z := 1024.

#[global] Instance float64_eq_dec : EqDecision float64.
Proof. unfold EqDecision, Decision. repeat decide equality. Defined.

Definition zero : float64 := S754_zero false.

(** [float64(z)] of an integer, correctly rounded. *)
Definition of_Z (z : Z) : float64 := binary_normalize prec emax z 0 false.

Definition add : float64 → float64 → float64 := SFadd prec emax.
Definition sub : float64 → float64 → float64 := SFsub prec emax.
Definition mul : float64 → float64 → float64 := SFmul prec emax.
Definition div : float64 → float64 → float64 := SFdiv prec emax.

(** The float nearest to the rational [n / d] (ties to even): a quotient of at
    least 66 bits with a sticky bit is normalised. *)
Definition of_ratio (n d : Z) : float64 :=
  let s := Z.max 0 (Z.log2 d - Z.log2 (Z.abs n) + 66) in
  let a := Z.abs n * 2 ^ s in
  let q := 2 * (a / d) + (if a mod d =? 0 then 0 else 1) in
  binary_normalize prec emax (if n <? 0 then - q else q) (- s - 1) false.

(** The decimal literal [c * 10^e], as [strconv.ParseFloat] reads it. *)
Definition of_decimal (c e : Z) : float64 :=
  if 0 <=? e then of_Z (c * 10 ^ e) else of_ratio c (10 ^ (- e)).

(** Go comparisons: false when an operand is NaN. *)
Definition eqb (x y : float64) : bool := SFeqb x y.
Definition ltb (x y : float64) : bool := SFltb x y.
Definition leb (x y : float64) : bool := SFleb x y.
Definition gtb (x y : float64) : bool := SFltb y x.
Definition geb (x y : float64) : bool := SFleb y x.

(** [math.Abs]. *)
Definition abs (x : float64) : float64 := SFabs x.

(** The exact value of a finite number. *)
Definition to_Q (x : float64) : Q :=
  match x with
  | S754_finite s m e =>
      let z := if s then Zneg m else Zpos m in
      if 0 <=? e then inject_Z (z * 2 ^ e)
      else Qmake z (Z.to_pos (2 ^ (- e)))
  | _ => 0%Q
  end.

Definition is_finite (x : float64) : bool :=
  match x with S754_zero _ | S754_finite _ _ _ => true | _ => false end.

(** ** [strconv.FormatFloat(x, 'f', -1, 64)] *)

(** Compares [a * 2^p] with [c * 10^q]. *)
Definition cmp_bin_dec (a p c q : Z) : comparison :=
  (a * 2 ^ Z.max p 0 * 10 ^ Z.max (- q) 0
   ?= c * 10 ^ Z.max q 0 * 2 ^ Z.max (- p) 0).

(** Floor of [a * 2^p / 10^q]. *)
Definition div_bin_dec (a p q : Z) : Z :=
  (a * 2 ^ Z.max p 0 * 10 ^ Z.max (- q) 0) / (10 ^ Z.max q 0 * 2 ^ Z.max (- p) 0).

(** The least [k] with [m * 2^e < 10^k], searched upwards from an
    underestimate. *)
Fixpoint find_dp (fuel : nat) (m e k : Z) : Z :=
  match fuel with
  | O => k
  | S f => match cmp_bin_dec m e 1 k with Lt => k | _ => find_dp f m e (k + 1) end
  end.
Definition decimal_point (m e : Z) : Z :=
  find_dp 6 m e ((Z.log2 m + e) * 1233 / 4096 - 1).

Fixpoint strip_zeros (fuel : nat) (c q : Z) : Z * Z :=
  match fuel with
  | O => (c, q)
  | S f => if (c mod 10 =? 0) && negb (c =? 0) then strip_zeros f (c / 10) (q + 1)
           else (c, q)
  end.

(** The search of [roundShortest]: with [n] digits, may the exact value be cut
    or rounded up and still read back as the same float?  The interval is
    open at both ends when the mantissa is odd. *)
Definition shortest_at (m e k n : Z) : option (Z * Z) :=
  let q := k - n in
  let down := div_bin_dec m e q in
  let up := down + 1 in
  let low_gap := if (m =? 2 ^ 52) && (-1074 <? e) then 1 else 2 in
  let inclusive := Z.even m in
  let okdown :=
    match cmp_bin_dec (4 * m - low_gap) (e - 2) down q with
    | Lt => true | Eq => inclusive | Gt => false end in
  let okup :=
    match cmp_bin_dec (4 * m + 2) (e - 2) up q with
    | Gt => true | Eq => inclusive | Lt => false end in
  let nearest :=
    match cmp_bin_dec (2 * m) e (2 * down + 1) q with
    | Lt => down | Gt => up | Eq => if Z.even down then down else up end in
  if okdown && okup then Some (nearest, q)
  else if okdown then Some (down, q)
  else if okup then Some (up, q)
  else None.

Fixpoint shortest_from (fuel : nat) (m e k n : Z) : Z * Z :=
  match shortest_at m e k n, fuel with
  | Some cq, _ => cq
  | None, O => (div_bin_dec m e (k - n), k - n)
  | None, S f => shortest_from f m e k (n + 1)
  end.

(** Coefficient and power of ten of the shortest decimal of [m * 2^e]; 17
    digits always suffice for binary64. *)
Definition shortest (m e : Z) : Z * Z :=
  let '(c, q) := shortest_from 17 m e (decimal_point m e) 1 in
  strip_zeros 20 c q.

Definition digit_char (d : Z) : ascii := ascii_of_N (Z.to_N (48 + d)).

(** The [k] last digits of [n]. *)
Fixpoint frac_digits (k : nat) (n : Z) : string :=
  match k with
  | O => ""
  | S k' => String (digit_char ((n / 10 ^ Z.of_nat k') mod 10)) (frac_digits k' n)
  end.

(** [c * 10^q] as Go prints it in format 'f'. *)
Definition dec_to_string (c q : Z) : string :=
  if 0 <=? q then Z_to_string (c * 10 ^ q)
  else
    let d := 10 ^ (- q) in
    let a := Z.abs c in
    (if c <? 0 then "-" else "") +:+ Z_to_string (a / d) +:+ "."
      +:+ frac_digits (Z.to_nat (- q)) (a mod d).

Definition format_shortest (x : float64) : string :=
  match x with
  | S754_zero s => if s then "-0" else "0"
  | S754_infinity s => if s then "-Inf" else "+Inf"
  | S754_nan => "NaN"
  | S754_finite s m e =>
      let '(c, q) := shortest (Zpos m) e in
      dec_to_string (if s then - c else c) q
  end.

(** The decimal value the shortest text denotes. *)
Definition shortest_Q (x : float64) : Q :=
  match x with
  | S754_finite s m e =>
      let '(c, q) := shortest (Zpos m) e in
      let c := if s then - c else c in
      if 0 <=? q then inject_Z (c * 10 ^ q) else Qmake c (Z.to_pos (10 ^ (- q)))
  | _ => 0%Q
  end.

(** ** [strconv.FormatFloat(x, 'f', 0, 64)]: nearest integer, ties to even *)

Definition round_half_even (n d : Z) : Z :=
  let q := n / d in
  match (2 * (n mod d) ?= d) with
  | Lt => q | Gt => q + 1 | Eq => if Z.even q then q else q + 1 end.

Definition nearest_int (m e : Z) : Z :=
  if 0 <=? e then m * 2 ^ e else round_half_even m (2 ^ (- e)).

Definition format_int (x : float64) : string :=
  match x with
  | S754_zero s => if s then "-0" else "0"
  | S754_infinity s => if s then "-Inf" else "+Inf"
  | S754_nan => "NaN"
  | S754_finite s m e =>
      (if s then "-" else "") +:+ Z_to_string (nearest_int (Zpos m) e)
  end.

(** [fmt.Sprintf("%.2f", x)] *)
Definition format_fixed2 (x : float64) : string :=
  match x with
  | S754_zero s => if s then "-0.00" else "0.00"
  | S754_infinity s => if s then "-Inf" else "+Inf"
  | S754_nan => "NaN"
  | S754_finite s m e =>
      let n := if 0 <=? e then 100 * Zpos m * 2 ^ e
               else round_half_even (100 * Zpos m) (2 ^ (- e)) in
      (if s then "-" else "") +:+ Z_to_string (n / 100) +:+ "." +:+ frac_digits 2 (n mod 100)
  end.

Definition int_Q (x : float64) : Z :=
  match x with
  | S754_finite s m e => let n := nearest_int (Zpos m) e in if s then - n else n
  | _ => 0
  end.

(** [int64(x)]: truncation (for values in range). *)
Definition to_int (x : float64) : Z :=
  match x with
  | S754_finite s m e =>
      let n := if 0 <=? e then Zpos m * 2 ^ e else Zpos m / 2 ^ (- e) in
      if s then - n else n
  | _ => 0
  end.

(** ** [strconv.ParseFloat(s, 64)] and [strconv.ParseInt(s, 10, 64)]

    Decimal texts: an optional sign, digits with at most one point, an optional
    exponent; the words for infinity and NaN.  (Go also reads hexadecimal
    mantissas; those texts are errors here.)  A magnitude beyond the range is
    an error. *)

Definition digit_of (c : ascii) : option Z :=
  let n := Z.of_N (N_of_ascii c) in
  if (48 <=? n) && (n <=? 57) then Some (n - 48) else None.

(** Reads digits: value, count, rest. *)
Fixpoint read_digits (s : string) (acc cnt : Z) : Z * Z * string :=
  match s with
  | String c s' =>
      match digit_of c with
      | Some d => read_digits s' (10 * acc + d) (cnt + 1)
      | None => (acc, cnt, s)
      end
  | EmptyString => (acc, cnt, s)
  end.

Definition read_sign (s : string) : bool * string :=
  match s with
  | String "-" s' => (true, s')
  | String "+" s' => (false, s')
  | _ => (false, s)
  end.

Definition read_exponent (s : string) : option Z :=
  match s with
  | EmptyString => Some 0
  | String ("e"%char | "E"%char) s' =>
      let '(neg, s') := read_sign s' in
      let '(v, n, rest) := read_digits s' 0 0 in
      if (n =? 0) || negb (String.eqb rest "") then None
      else Some (if neg then - v else v)
  | _ => None
  end.

Definition read_special (s : string) : option float64 :=
  let '(neg, t) := read_sign (to_lower s) in
  if String.eqb t "inf" || String.eqb t "infinity" then Some (S754_infinity neg)
  else if String.eqb (to_lower s) "nan" then Some S754_nan else None.

Definition parse_float (s : string) : option float64 :=
  let '(neg, t) := read_sign s in
  let '(ip, n1, t) := read_digits t 0 0 in
  let '(v, n2, t) :=
    match t with String "." t' => read_digits t' ip 0 | _ => (ip, 0, t) end in
  if n1 + n2 =? 0 then read_special s
  else match read_exponent t with
       | None => None
       | Some e =>
           let x := of_decimal v (Z.max (-1000) (Z.min 1000 e) - n2) in
           match x with
           | S754_infinity _ => None
           | _ => Some (if neg then SFopp x else x)
           end
       end.

Definition parse_int64 (s : string) : option Z :=
  let '(neg, t) := read_sign s in
  let '(v, n, rest) := read_digits t 0 0 in
  let z := if neg then - v else v in
  if (n =? 0) || negb (String.eqb rest "") then None
  else if (- 2 ^ 63 <=? z) && (z <? 2 ^ 63) then Some z else None.

(** ** Facts *)

Lemma digit_of_char d : 0 <= d < 10 → digit_of (digit_char d) = Some d.
Proof.
  intros H. unfold digit_of, digit_char.
  rewrite N_ascii_embedding by lia. rewrite Z2N.id by lia.
  replace ((48 <=? 48 + d) && (48 + d <=? 57)) with true; [f_equal; lia|].
  symmetry. apply andb_true_intro. lia.
Qed.

Definition starts_digit (s : string) : bool :=
  match s with String c _ => bool_decide (is_Some (digit_of c)) | _ => false end.

Lemma read_digits_stop s acc cnt :
  starts_digit s = false → read_digits s acc cnt = (acc, cnt, s).
Proof. destruct s as [|c s]; simpl; [done|]. destruct (digit_of c); [|done].
  rewrite bool_decide_true by eauto. done. Qed.

(** Reading back a fixed-width fraction. *)
Lemma read_frac_digits k n rest acc cnt :
  starts_digit rest = false →
  read_digits (frac_digits k n +:+ rest) acc cnt
  = (acc * 10 ^ Z.of_nat k + n mod 10 ^ Z.of_nat k, cnt + Z.of_nat k, rest).
Proof.
  intros Hr. revert acc cnt. induction k as [|k IH]; intros acc cnt.
  - simpl frac_digits. rewrite string_app_nil_l, read_digits_stop by done.
    change (10 ^ Z.of_nat 0) with 1. rewrite Z.mod_1_r. repeat f_equal; lia.
  - cbn [frac_digits]. rewrite string_app_cons. cbn [read_digits].
    set (p := 10 ^ Z.of_nat k).
    assert (Hp : 0 < p) by (apply Z.pow_pos_nonneg; lia).
    rewrite digit_of_char by (apply Z.mod_pos_bound; lia).
    rewrite IH. fold p.
    assert (E : 10 ^ Z.of_nat (S k) = p * 10).
    { unfold p. rewrite Nat2Z.inj_succ, Z.pow_succ_r by lia. lia. }
    rewrite E, (Z.rem_mul_r n p 10) by lia. rewrite Nat2Z.inj_succ.
    generalize ((n / p) mod 10) (n mod p). intros x y.
    do 2 f_equal; lia.
Qed.

(** Value of a decimal numeral read from the left. *)
Fixpoint uint_val (u : Decimal.uint) (acc : Z) : Z :=
  match u with
  | Decimal.Nil => acc
  | Decimal.D0 u => uint_val u (10 * acc)
  | Decimal.D1 u => uint_val u (10 * acc + 1)
  | Decimal.D2 u => uint_val u (10 * acc + 2)
  | Decimal.D3 u => uint_val u (10 * acc + 3)
  | Decimal.D4 u => uint_val u (10 * acc + 4)
  | Decimal.D5 u => uint_val u (10 * acc + 5)
  | Decimal.D6 u => uint_val u (10 * acc + 6)
  | Decimal.D7 u => uint_val u (10 * acc + 7)
  | Decimal.D8 u => uint_val u (10 * acc + 8)
  | Decimal.D9 u => uint_val u (10 * acc + 9)
  end.

Lemma of_uint_acc_val u acc : Zpos (Pos.of_uint_acc u acc) = uint_val u (Zpos acc).
Proof.
  revert acc. induction u as [|u IH|u IH|u IH|u IH|u IH|u IH|u IH|u IH|u IH|u IH];
    intros acc; cbn [Pos.of_uint_acc uint_val]; [done|..]; rewrite IH; f_equal; lia.
Qed.

Lemma of_uint_val u : Z.of_N (Pos.of_uint u) = uint_val u 0.
Proof.
  induction u as [|u IH|u IH|u IH|u IH|u IH|u IH|u IH|u IH|u IH|u IH];
    cbn [Pos.of_uint uint_val]; [done|done|..]; apply of_uint_acc_val.
Qed.

Lemma read_uint u rest acc cnt :
  starts_digit rest = false → ∃ cnt',
  read_digits (DecimalString.NilEmpty.string_of_uint u +:+ rest) acc cnt
  = (uint_val u acc, cnt', rest) ∧ cnt <= cnt' ∧ (u ≠ Decimal.Nil → cnt < cnt').
Proof.
  intros Hr. revert acc cnt.
  induction u as [|u IH|u IH|u IH|u IH|u IH|u IH|u IH|u IH|u IH|u IH]; intros acc cnt;
    cbn [DecimalString.NilEmpty.string_of_uint];
    [exists cnt; rewrite string_app_nil_l, read_digits_stop by done; done|..];
    rewrite string_app_cons; cbn [read_digits uint_val];
    match goal with |- context [digit_of ?c] =>
      let v := eval vm_compute in (digit_of c) in change (digit_of c) with v end;
    cbv beta iota; match goal with |- context [read_digits _ ?a ?b] =>
      destruct (IH a b) as (cnt' & -> & ? & _) end;
    exists cnt'; (split; [|lia]); repeat f_equal; lia.
Qed.

(** Reading back a printed natural number. *)
Lemma read_Z_to_string z rest cnt :
  0 <= z → starts_digit rest = false → ∃ cnt',
  read_digits (Z_to_string z +:+ rest) 0 cnt = (z, cnt', rest) ∧ cnt < cnt'.
Proof.
  intros Hz Hr. unfold Z_to_string.
  destruct z as [|p|p]; [|simpl Z.to_int; cbn [DecimalString.NilEmpty.string_of_int]|lia].
  - change (DecimalString.NilEmpty.string_of_int (Z.to_int 0)) with "0".
    rewrite string_app_cons, string_app_nil_l. cbn [read_digits]. 
    change (digit_of "0") with (Some 0). cbv beta iota.
    rewrite read_digits_stop by done. exists (cnt + 1). split; [done|lia].
  - destruct (read_uint (Pos.to_uint p) rest 0 cnt Hr) as (cnt' & -> & _ & Hlt).
    exists cnt'. split.
    + rewrite <- of_uint_val, DecimalPos.Unsigned.of_to. done.
    + apply Hlt. apply DecimalPos.Unsigned.to_uint_nonnil.
Qed.

Example format_1e_6 : format_shortest (of_decimal 1 (-6)) = "0.000001".
Proof. vm_compute. reflexivity. Qed.
Example format_sum : format_shortest (add (of_decimal 1 (-1)) (of_decimal 2 (-1)))
  = "0.30000000000000004".
Proof. vm_compute. reflexivity. Qed.
Example format_big : format_shortest (of_Z 123456789012345678) = "123456789012345680".
Proof. vm_compute. reflexivity. Qed.
Example format_cents : format_shortest (of_decimal 10 (-2)) = "0.1".
Proof. vm_compute. reflexivity. Qed.
Example format_int_100 : format_int (of_Z 100) = "100".
Proof. vm_compute. reflexivity. Qed.
Example format_int_half : format_int (of_decimal 25 (-1)) = "2".
Proof. vm_compute. reflexivity. Qed.

Example parse_tenth : parse_float "0.1" = Some (of_decimal 1 (-1)).
Proof. vm_compute. reflexivity. Qed.
Example parse_neg : parse_float "-12.50e1" = Some (of_Z (-125)).
Proof. vm_compute. reflexivity. Qed.
Example parse_bad : parse_float "12x" = None ∧ parse_float "." = None ∧ parse_float "" = None.
Proof. vm_compute. auto. Qed.
Example parse_int_max : parse_int64 "9223372036854775807" = Some (2 ^ 63 - 1)
  ∧ parse_int64 "9223372036854775808" = None ∧ parse_int64 "-5" = Some (-5).
Proof. vm_compute. auto. Qed.

End Float64.
