(* ===== verification/Decimal.v ===== *)
(** * Interface to the decimal arithmetic package

    The code computes fractional money with [github.com/shopspring/decimal],
    which is not part of the repository.  Its values and operations are the
    class [Decimal]; the laws are the package's documented behaviour, stated
    through the exact rational value [dval] of a decimal.  [decimal_Q] is one
    instance of the class: rationals with the same operations. *)

From Stdlib Require Import QArith Qround Qpower Floats.SpecFloat.
From S2P Require Import Prelude Float64.

(** ** Rounding of rationals *)

(** Half away from zero, to an integer. *)
Definition q_round0 (q : Q) : Z :=
  let n := Z.abs (Qnum q) in
  let d := Zpos (Qden q) in
  Z.sgn (Qnum q) * ((2 * n + d) / (2 * d)).

(** Half to even, to an integer. *)
Definition q_round_even0 (q : Q) : Z :=
  Z.sgn (Qnum q) * Float64.round_half_even (Z.abs (Qnum q)) (Zpos (Qden q)).

(** Towards zero. *)
Definition q_trunc (q : Q) : Z := Z.quot (Qnum q) (Zpos (Qden q)).

Definition q_at (f : Q → Z) (places : Z) (q : Q) : Q :=
  Qred (inject_Z (f (q * inject_Z (10 ^ places))%Q) / inject_Z (10 ^ places))%Q.

(** ** The interface *)

Class Decimal := {
  decimal : Type;
  dval : decimal → Q;
  dec_of_string : string → option decimal;   (* NewFromString *)
  dec_of_float : float64 → decimal;          (* NewFromFloat *)
  dec_of_Z : Z → decimal;                    (* NewFromInt, NewFromBigInt(_, 0) *)
  dec_add : decimal → decimal → decimal;
  dec_sub : decimal → decimal → decimal;
  dec_mul : decimal → decimal → decimal;
  dec_div : decimal → decimal → decimal;     (* 16 digits after the point *)
  dec_cmp : decimal → decimal → comparison;
  dec_round : decimal → decimal;             (* Round(0) *)
  dec_round_bank : Z → decimal → decimal;    (* RoundBank(places) *)
  dec_big_int : decimal → Z;                 (* BigInt: integer part *)
  dec_int_part : decimal → Z;                (* IntPart: int64 *)
  dec_string : decimal → string;
  dec_float : decimal → float64;             (* Float64 *)
  dec_string_fixed : Z → decimal → string;   (* StringFixed(places) *)

  dec_of_string_law : ∀ c q, ∃ d, dec_of_string (Float64.dec_to_string c q) = Some d
    ∧ (dval d == inject_Z c * (inject_Z 10) ^ q)%Q;
  dec_of_Z_law : ∀ z, (dval (dec_of_Z z) == inject_Z z)%Q;
  dec_of_float_law : ∀ x, Float64.is_finite x = true →
    (dval (dec_of_float x) == Float64.shortest_Q x)%Q;
  dec_add_law : ∀ a b, (dval (dec_add a b) == dval a + dval b)%Q;
  dec_sub_law : ∀ a b, (dval (dec_sub a b) == dval a - dval b)%Q;
  dec_mul_law : ∀ a b, (dval (dec_mul a b) == dval a * dval b)%Q;
  dec_div_law : ∀ a b, ¬ (dval b == 0)%Q →
    (dval (dec_div a b) == q_at q_round0 16 (dval a / dval b))%Q;
  dec_cmp_law : ∀ a b, dec_cmp a b = (dval a ?= dval b)%Q;
  dec_round_law : ∀ a, (dval (dec_round a) == inject_Z (q_round0 (dval a)))%Q;
  dec_round_bank_law : ∀ p a, 0 <= p →
    (dval (dec_round_bank p a) == q_at q_round_even0 p (dval a))%Q;
  dec_big_int_law : ∀ a, dec_big_int a = q_trunc (dval a);
  dec_int_part_law : ∀ a, - 2 ^ 63 <= q_trunc (dval a) < 2 ^ 63 →
    dec_int_part a = q_trunc (dval a);
  dec_string_fixed_law : ∀ p a, 0 <= p →
    dec_string_fixed p a
    = Float64.dec_to_string (q_round0 (dval a * inject_Z (10 ^ p))%Q) (- p);
  dec_string_law : ∀ a z, (dval a == inject_Z z)%Q → dec_string a = Z_to_string z;
}.

Section derived.
Context `{Decimal}.

Definition dec_zero : decimal := dec_of_Z 0.

(** [a.GreaterThan(b)], [a.Sign()], [a.IsZero()] through [Cmp]. *)
Definition dec_gtb (a b : decimal) : bool :=
  match dec_cmp a b with Gt => true | _ => false end.
Definition dec_ltb (a b : decimal) : bool :=
  match dec_cmp a b with Lt => true | _ => false end.
Definition dec_eqb (a b : decimal) : bool :=
  match dec_cmp a b with Eq => true | _ => false end.
Definition dec_sign (a : decimal) : Z :=
  match dec_cmp a dec_zero with Lt => -1 | Eq => 0 | Gt => 1 end.
Definition dec_is_zero (a : decimal) : bool := dec_eqb a dec_zero.
(** [d, _ := decimal.NewFromString(s)]: the zero value on a bad text. *)
Definition dec_of_string_or_zero (s : string) : decimal :=
  match dec_of_string s with Some d => d | None => dec_zero end.
End derived.

(** ** Lemmas on the roundings *)

Lemma q_trunc_inject z : q_trunc (inject_Z z) = z.
Proof. unfold q_trunc. simpl. apply Z.quot_1_r. Qed.

Lemma q_round0_inject z : q_round0 (inject_Z z) = z.
Proof.
  unfold q_round0. simpl.
  replace (2 * Z.abs z + 1) with (1 + Z.abs z * 2) by lia.
  rewrite Z.div_add by lia. change (1 / 2) with 0. rewrite Z.add_0_l, Z.mul_comm.
  apply Z.abs_sgn.
Qed.

#[global] Instance q_trunc_proper : Proper (Qeq ==> eq) q_trunc.
Proof.
  intros [a b] [c d] E. unfold Qeq, q_trunc in *. simpl in *.
  rewrite <- (Z.quot_mul_cancel_r a (Zpos b) (Zpos d)) by lia.
  rewrite <- (Z.quot_mul_cancel_r c (Zpos d) (Zpos b)) by lia.
  rewrite E. f_equal. lia.
Qed.

Lemma sgn_mul_pos a b : 0 < b → Z.sgn (a * b) = Z.sgn a.
Proof. intros. rewrite Z.sgn_mul, (Z.sgn_pos b) by lia. lia. Qed.

#[global] Instance q_round0_proper : Proper (Qeq ==> eq) q_round0.
Proof.
  intros [a b] [c d] E. unfold Qeq, q_round0 in *. simpl in *.
  assert (Hs : Z.sgn a = Z.sgn c).
  { rewrite <- (sgn_mul_pos a (Zpos d)), <- (sgn_mul_pos c (Zpos b)) by lia. by rewrite E. }
  rewrite Hs. f_equal.
  rewrite <- (Z.div_mul_cancel_r (2 * Z.abs a + Zpos b) (2 * Zpos b) (Zpos d)) by lia.
  rewrite <- (Z.div_mul_cancel_r (2 * Z.abs c + Zpos d) (2 * Zpos d) (Zpos b)) by lia.
  f_equal; [|lia].
  assert (Z.abs a * Zpos d = Z.abs c * Zpos b); [|lia].
  rewrite <- (Z.abs_eq (Zpos d)), <- (Z.abs_eq (Zpos b)), <- !Z.abs_mul by lia. by rewrite E.
Qed.

Lemma round_half_even_scale n d k :
  0 < d → 0 < k → Float64.round_half_even (n * k) (d * k) = Float64.round_half_even n d.
Proof.
  intros Hd Hk. unfold Float64.round_half_even.
  rewrite Z.div_mul_cancel_r, Zmult_mod_distr_r by lia.
  replace (2 * (n mod d * k) ?= d * k) with (2 * (n mod d) ?= d); [done|].
  destruct (Z.compare_spec (2 * (n mod d)) d), (Z.compare_spec (2 * (n mod d * k)) (d * k)); nia || done.
Qed.

#[global] Instance q_round_even0_proper : Proper (Qeq ==> eq) q_round_even0.
Proof.
  intros [a b] [c d] E. unfold Qeq, q_round_even0 in *. simpl in *.
  assert (Hs : Z.sgn a = Z.sgn c).
  { rewrite <- (sgn_mul_pos a (Zpos d)), <- (sgn_mul_pos c (Zpos b)) by lia. by rewrite E. }
  rewrite Hs. f_equal.
  rewrite <- (round_half_even_scale (Z.abs a) (Zpos b) (Zpos d)) by lia.
  rewrite <- (round_half_even_scale (Z.abs c) (Zpos d) (Zpos b)) by lia.
  f_equal; [|lia].
  rewrite <- (Z.abs_eq (Zpos d)), <- (Z.abs_eq (Zpos b)), <- !Z.abs_mul by lia. by rewrite E.
Qed.

#[global] Instance q_at_proper f p : Proper (Qeq ==> eq) f → Proper (Qeq ==> eq) (q_at f p).
Proof.
  intros Hf x y E. unfold q_at. rewrite (Hf (x * inject_Z (10 ^ p))%Q (y * inject_Z (10 ^ p))%Q); [done|].
  by rewrite E.
Qed.

(** A rounding that is at most half a unit off is at most half a unit of the
    last place off. *)
Lemma q_at_error f p q :
  0 <= p → (∀ q, 2 * Z.abs (f q * Zpos (Qden q) - Qnum q) <= Zpos (Qden q)) →
  (- (1 # 2) * / inject_Z (10 ^ p) <= q_at f p q - q <= (1 # 2) * / inject_Z (10 ^ p))%Q.
Proof.
  intros Hp Hf. unfold q_at. rewrite Qred_correct. set (P := inject_Z (10 ^ p)).
  assert (HP : (0 < P)%Q).
  { unfold P. change 0%Q with (inject_Z 0). rewrite <- Zlt_Qlt. by apply Z.pow_pos_nonneg. }
  assert (Hne : ~ (P == 0)%Q) by (intros E; rewrite E in HP; by apply Qlt_irrefl in HP).
  assert (Hd : (- (1 # 2) <= inject_Z (f (q * P)%Q) - q * P <= 1 # 2)%Q).
  { specialize (Hf (q * P)%Q). destruct (q * P)%Q as [n d]. cbn [Qnum Qden] in Hf.
    unfold Qle, Qminus, Qplus, Qopp. cbn [Qnum Qden inject_Z]. lia. }
  set (D := (inject_Z (f (q * P)%Q) - q * P)%Q) in *.
  assert ((inject_Z (f (q * P)%Q) / P - q == D * / P)%Q) as -> by (unfold D; field; exact Hne).
  assert (Hinv : (0 <= / P)%Q) by (apply Qlt_le_weak, Qinv_lt_0_compat, HP).
  destruct Hd as [H1 H2]. split; by apply Qmult_le_compat_r.
Qed.

Lemma q_round_even0_error (q : Q) :
  2 * Z.abs (q_round_even0 q * Zpos (Qden q) - Qnum q) <= Zpos (Qden q).
Proof.
  destruct q as [n d]. unfold q_round_even0. cbn [Qnum Qden].
  assert (HD : 0 < Zpos d) by lia. generalize (Zpos d) HD. clear d HD. intros D HD.
  assert (Hr : 2 * Z.abs (Float64.round_half_even (Z.abs n) D * D - Z.abs n) <= D).
  { unfold Float64.round_half_even. pose proof (Z.div_mod (Z.abs n) D ltac:(lia)).
    pose proof (Z.mod_pos_bound (Z.abs n) D HD).
    destruct (Z.compare_spec (2 * (Z.abs n mod D)) D); [destruct (Z.even _)| |]; nia. }
  destruct (Z.lt_trichotomy n 0) as [Hn|[->|Hn]].
  - rewrite Z.sgn_neg by lia. rewrite (Z.abs_neq n) in * by lia. lia.
  - rewrite Z.sgn_0. simpl. lia.
  - rewrite Z.sgn_pos by lia. rewrite (Z.abs_eq n) in * by lia. lia.
Qed.

(** The rounding error is at most one half. *)
Lemma q_round0_error (q : Q) :
  2 * Z.abs (q_round0 q * Zpos (Qden q) - Qnum q) <= Zpos (Qden q).
Proof.
  destruct q as [n d]. unfold q_round0. cbn [Qnum Qden].
  assert (HD : 0 < Zpos d) by lia. generalize (Zpos d) HD. clear d HD. intros D HD.
  pose proof (Z.div_mod (2 * Z.abs n + D) (2 * D) ltac:(lia)) as Hdm.
  pose proof (Z.mod_pos_bound (2 * Z.abs n + D) (2 * D) ltac:(lia)) as Hmb.
  generalize dependent ((2 * Z.abs n + D) / (2 * D)).
  generalize dependent ((2 * Z.abs n + D) mod (2 * D)). intros m Hm k Hk.
  assert (HkD : 2 * (k * D) = 2 * Z.abs n + D - m) by lia.
  destruct (Z.lt_trichotomy n 0) as [Hn|[Hn|Hn]].
  - rewrite Z.sgn_neg by lia. replace (-1 * k * D - n) with (- (k * D) - n) by lia.
    rewrite (Z.abs_neq n) in * by lia. lia.
  - subst n. change (Z.sgn 0) with 0. rewrite !Z.mul_0_l. cbn. lia.
  - rewrite Z.sgn_pos by lia. rewrite Z.mul_1_l.
    rewrite (Z.abs_eq n) in * by lia. lia.
Qed.

(** ** Reading decimal texts back *)

Definition dec_parse (s : string) : option Q :=
  let '(neg, t) := Float64.read_sign s in
  let '(ip, n1, t) := Float64.read_digits t 0 0 in
  let '(v, n2, t) :=
    match t with String "." t' => Float64.read_digits t' ip 0 | _ => (ip, 0, t) end in
  if n1 + n2 =? 0 then None
  else match Float64.read_exponent t with
       | None => None
       | Some e => Some (inject_Z (if neg then - v else v) * inject_Z 10 ^ (e - n2))%Q
       end.

Lemma Z_to_string_digit z t : 0 <= z → Float64.starts_digit (Z_to_string z +:+ t) = true.
Proof.
  intros Hz. unfold Z_to_string. destruct z as [|p|p]; [done| |lia].
  simpl Z.to_int. cbn [DecimalString.NilEmpty.string_of_int].
  pose proof (DecimalPos.Unsigned.to_uint_nonnil p).
  by destruct (Pos.to_uint p).
Qed.

Lemma Z_to_string_neg z : z < 0 → Z_to_string z = "-" +:+ Z_to_string (- z).
Proof. intros Hz. by destruct z as [|p|p]; [lia|lia|]. Qed.

Lemma read_sign_digit s : Float64.starts_digit s = true → Float64.read_sign s = (false, s).
Proof.
  destruct s as [|c s]; [done|]. intros H. cbn in H.
  destruct c as [[] [] [] [] [] [] [] []]; try done.
Qed.

Lemma read_sign_minus s : Float64.read_sign ("-" +:+ s) = (true, s).
Proof. done. Qed.

(** The unsigned part [a], with [k] digits after the point. *)
Lemma dec_parse_Z z : ∃ d, dec_parse (Z_to_string z) = Some d ∧ (d == inject_Z z)%Q.
Proof.
  assert (Hpos : ∀ a neg s, 0 <= a → s = (if neg : bool then "-" else "") +:+ Z_to_string a →
    ∃ d, dec_parse s = Some d ∧ (d == inject_Z (if neg then - a else a))%Q).
  { intros a neg s Ha ->. unfold dec_parse.
    assert (Hs : Float64.read_sign ((if neg : bool then "-" else "") +:+ Z_to_string a)
                 = (neg, Z_to_string a)).
    { destruct neg; [done|]. rewrite string_app_nil_l. apply read_sign_digit.
      rewrite <- (string_app_nil_r (Z_to_string a)). by apply Z_to_string_digit. }
    rewrite Hs. cbv beta iota.
    destruct (Float64.read_Z_to_string a "" 0 Ha eq_refl) as (n & E & Hn).
    rewrite string_app_nil_r in E. rewrite E. cbv beta iota.
    replace (n + 0 =? 0) with false by (symmetry; apply Z.eqb_neq; lia).
    cbn [Float64.read_exponent]. eexists. split; [done|].
    change (inject_Z 10 ^ (0 - 0))%Q with 1%Q. apply Qmult_1_r. }
  destruct (Z.neg_nonneg_cases z) as [Hz|Hz].
  - destruct (Hpos (- z) true (Z_to_string z)) as (d & ? & Hd); [lia|by apply Z_to_string_neg|].
    exists d. split; [done|]. by rewrite Z.opp_involutive in Hd.
  - apply (Hpos z false); done.
Qed.

Lemma dec_parse_frac c k : (0 < k)%nat →
  ∃ d, dec_parse (Float64.dec_to_string c (- Z.of_nat k)) = Some d
    ∧ (d == inject_Z c * inject_Z 10 ^ (- Z.of_nat k))%Q.
Proof.
  intros Hk. unfold Float64.dec_to_string.
  replace (0 <=? - Z.of_nat k) with false by (symmetry; apply Z.leb_gt; lia).
  rewrite Z.opp_involutive, Nat2Z.id. cbv zeta.
  set (a := Z.abs c). set (p := 10 ^ Z.of_nat k).
  assert (Hp : 0 < p) by (apply Z.pow_pos_nonneg; lia).
  assert (Ha : 0 <= a / p) by (apply Z.div_pos; lia).
  unfold dec_parse.
  set (body := Z_to_string (a / p) +:+ "." +:+ Float64.frac_digits k (a mod p)).
  assert (Hs : Float64.read_sign ((if c <? 0 then "-" else "") +:+ body) = (c <? 0, body)).
  { destruct (c <? 0); [done|]. rewrite string_app_nil_l. apply read_sign_digit.
    by apply Z_to_string_digit. }
  rewrite Hs. cbv beta iota. unfold body.
  destruct (Float64.read_Z_to_string (a / p) ("." +:+ Float64.frac_digits k (a mod p)) 0 Ha
    eq_refl) as (n & E & Hn).
  rewrite E. cbv beta iota. rewrite string_app_cons, string_app_nil_l. cbv beta iota.
  pose proof (Float64.read_frac_digits k (a mod p) "" (a / p) 0 eq_refl) as Er.
  rewrite string_app_nil_r in Er. rewrite Er. cbv beta iota. fold p.
  replace (n + (0 + Z.of_nat k) =? 0) with false by (symmetry; apply Z.eqb_neq; lia).
  cbn [Float64.read_exponent]. eexists. split; [done|].
  assert (Ev : a / p * p + (a mod p) mod p = a).
  { rewrite Z.mod_mod by lia. pose proof (Z.div_mod a p). lia. }
  rewrite Ev. replace (0 - (0 + Z.of_nat k)) with (- Z.of_nat k) by lia.
  destruct (Z.ltb_spec c 0); unfold a.
  - by rewrite Z.abs_neq, Z.opp_involutive by lia.
  - by rewrite Z.abs_eq by lia.
Qed.

Lemma dec_parse_to_string c q :
  ∃ d, dec_parse (Float64.dec_to_string c q) = Some d
    ∧ (d == inject_Z c * inject_Z 10 ^ q)%Q.
Proof.
  destruct (Z.leb_spec 0 q) as [Hq|Hq].
  - unfold Float64.dec_to_string. rewrite (proj2 (Z.leb_le 0 q) Hq).
    destruct (dec_parse_Z (c * 10 ^ q)) as (d & ? & Hd). exists d. split; [done|].
    etransitivity; [exact Hd|]. rewrite inject_Z_mult, Zpower_Qpower by done. reflexivity.
  - replace q with (- Z.of_nat (Z.to_nat (- q))) by lia. apply dec_parse_frac. lia.
Qed.

(** ** An instance: rational numbers *)

Fixpoint dec_scale (fuel : nat) (n d k : Z) : string :=
  match fuel with
  | O => Float64.dec_to_string (n * 10 ^ k / d) (- k)
  | S f => if (n * 10 ^ k) mod d =? 0 then Float64.dec_to_string (n * 10 ^ k / d) (- k)
           else dec_scale f n d (k + 1)
  end.

Definition q_string (q : Q) : string :=
  if Qnum q mod Zpos (Qden q) =? 0 then Z_to_string (Qnum q / Zpos (Qden q))
  else dec_scale 40 (Qnum q) (Zpos (Qden q)) 1.

Definition wrap_int64 (z : Z) : Z := (z + 2 ^ 63) mod 2 ^ 64 - 2 ^ 63.

Lemma wrap_int64_id z : - 2 ^ 63 <= z < 2 ^ 63 → wrap_int64 z = z.
Proof. intros H. unfold wrap_int64. rewrite Z.mod_small; lia. Qed.

Lemma q_string_Z q z : (q == inject_Z z)%Q → q_string q = Z_to_string z.
Proof.
  destruct q as [n d]. unfold Qeq, q_string. cbn [Qnum Qden inject_Z]. intros E.
  replace n with (z * Zpos d) by lia.
  rewrite Z.mod_mul, Z.div_mul by lia. done.
Qed.

#[export] Program Instance decimal_Q : Decimal := {|
  decimal := Q;
  dval := λ q, q;
  dec_of_string := dec_parse;
  dec_of_float := λ x, Qred (Float64.shortest_Q x);
  dec_of_Z := inject_Z;
  dec_add := λ a b, Qred (a + b)%Q;
  dec_sub := λ a b, Qred (a - b)%Q;
  dec_mul := λ a b, Qred (a * b)%Q;
  dec_div := λ a b, q_at q_round0 16 (a / b)%Q;
  dec_cmp := Qcompare;
  dec_round := λ a, inject_Z (q_round0 a);
  dec_round_bank := λ p a, q_at q_round_even0 p a;
  dec_big_int := q_trunc;
  dec_int_part := λ a, wrap_int64 (q_trunc a);
  dec_string := q_string;
  dec_float := λ a, Float64.of_ratio (Qnum a) (Zpos (Qden a));
  dec_string_fixed := λ p a, Float64.dec_to_string (q_round0 (a * inject_Z (10 ^ p))%Q) (- p);
  dec_of_string_law := dec_parse_to_string;
|}.
Solve All Obligations with
  intros; first [reflexivity | apply Qred_correct | by apply wrap_int64_id | by apply q_string_Z].
