(* ===== verification/Types.v ===== *)
(** * Data model: the structs of package [model]

    [Transaction], [Distribution], [Balance], [AlertCondition],
    [BalanceMonitor] and [ExternalTransaction] with the fields the code reads
    or writes.  [*big.Int] is [option Z] ([None] is nil), [time.Time] is a
    number of nanoseconds since the zero time, [*time.Time] an option,
    [map[string]interface{}] a finite map to JSON values (nil and empty are
    the same map).  Fields carry the prefix of their struct. *)

From S2P Require Import Prelude Float64.

(** [interface{}] values of a metadata map, as JSON decodes them. *)
Inductive metaval : Type :=
| MStr (s : string)
| MNum (x : float64)
| MBool (b : bool)
| MNil
| MList (l : list metaval)
| MObj (l : list (string * metaval)).

Abbreviation metadata := (gmap string metaval).

(** [s, ok := v.(string)]. *)
Definition meta_string (m : metadata) (k : string) : option string :=
  match m !! k with Some (MStr s) => Some s | _ => None end.

Abbreviation time := Z (only parsing).

(** [t.IsZero()], [t.Before(u)], [t.After(u)]. *)
Definition is_zero_time (t : time) : bool := t =? 0.
Definition time_before (t u : time) : bool := t <? u.
Definition time_after (t u : time) : bool := u <? t.

Record Distribution := mkDistribution {
  d_Identifier : string;
  d_Distribution : string;
  d_PreciseDistribution : string;
  d_TransactionID : string;
}.
#[global] Instance Distribution_eta : Eta Distribution := λ d,
  mkDistribution (d_Identifier d) (d_Distribution d) (d_PreciseDistribution d)
    (d_TransactionID d).

Record Transaction := mkTransaction {
  t_PreciseAmount : option Z;
  t_Amount : float64;
  t_AmountString : string;
  t_Precision : float64;
  t_OverdraftLimit : float64;
  t_TransactionID : string;
  t_ParentTransaction : string;
  t_Source : string;
  t_Destination : string;
  t_Reference : string;
  t_Currency : string;
  t_Description : string;
  t_Status : string;
  t_Hash : string;
  t_AllowOverdraft : bool;
  t_Inflight : bool;
  t_SkipBalanceUpdate : bool;
  t_SkipQueue : bool;
  t_Atomic : bool;
  t_Sources : list Distribution;
  t_Destinations : list Distribution;
  t_CreatedAt : time;
  t_EffectiveDate : option time;
  t_ScheduledFor : time;
  t_InflightExpiryDate : time;
  t_InflightCommitDate : time;
  t_MetaData : metadata;
}.
#[global] Instance Transaction_eta : Eta Transaction := λ t,
  mkTransaction (t_PreciseAmount t) (t_Amount t) (t_AmountString t) (t_Precision t)
    (t_OverdraftLimit t) (t_TransactionID t) (t_ParentTransaction t) (t_Source t)
    (t_Destination t) (t_Reference t) (t_Currency t) (t_Description t) (t_Status t)
    (t_Hash t) (t_AllowOverdraft t) (t_Inflight t) (t_SkipBalanceUpdate t)
    (t_SkipQueue t) (t_Atomic t) (t_Sources t) (t_Destinations t) (t_CreatedAt t)
    (t_EffectiveDate t) (t_ScheduledFor t) (t_InflightExpiryDate t)
    (t_InflightCommitDate t) (t_MetaData t).

(** Evaluates field reads and updates of a transaction. *)
Ltac txn_eval :=
  cbv beta iota zeta delta
    [set t_PreciseAmount t_Amount t_AmountString t_Precision t_OverdraftLimit
     t_TransactionID t_ParentTransaction t_Source t_Destination t_Reference t_Currency
     t_Description t_Status t_Hash t_AllowOverdraft t_Inflight t_SkipBalanceUpdate
     t_SkipQueue t_Atomic t_Sources t_Destinations t_CreatedAt t_EffectiveDate
     t_ScheduledFor t_InflightExpiryDate t_InflightCommitDate t_MetaData].

(** [&model.Transaction{}]. *)
Definition empty_transaction : Transaction :=
  mkTransaction None Float64.zero "" Float64.zero Float64.zero "" "" "" "" "" "" "" "" ""
    false false false false false [] [] 0 None 0 0 0 ∅.

Record Balance := mkBalance {
  b_Balance : option Z;
  b_Version : Z;
  b_InflightBalance : option Z;
  b_CreditBalance : option Z;
  b_InflightCreditBalance : option Z;
  b_DebitBalance : option Z;
  b_InflightDebitBalance : option Z;
  b_QueuedDebitBalance : option Z;
  b_QueuedCreditBalance : option Z;
  b_LedgerID : string;
  b_IdentityID : string;
  b_BalanceID : string;
  b_Indicator : string;
  b_Currency : string;
  b_CreatedAt : time;
  b_InflightExpiresAt : time;
  b_MetaData : metadata;
  b_TrackFundLineage : bool;
  b_AllocationStrategy : string;
  b_AccountRef : string;
  b_Instrument : string;
  b_SettleDate : option time;
  b_SettleCode : option Z;
  b_WAPrice : string;
}.
#[global] Instance Balance_eta : Eta Balance := λ b,
  mkBalance (b_Balance b) (b_Version b) (b_InflightBalance b) (b_CreditBalance b)
    (b_InflightCreditBalance b) (b_DebitBalance b) (b_InflightDebitBalance b)
    (b_QueuedDebitBalance b) (b_QueuedCreditBalance b) (b_LedgerID b) (b_IdentityID b)
    (b_BalanceID b) (b_Indicator b) (b_Currency b) (b_CreatedAt b)
    (b_InflightExpiresAt b) (b_MetaData b) (b_TrackFundLineage b)
    (b_AllocationStrategy b) (b_AccountRef b) (b_Instrument b) (b_SettleDate b)
    (b_SettleCode b) (b_WAPrice b).

(** [&model.Balance{}]. *)
Definition empty_balance : Balance :=
  mkBalance None 0 None None None None None None None "" "" "" "" "" 0 0 ∅ false ""
    "" "" None None "".

Record AlertCondition := mkAlertCondition {
  a_Value : float64;
  a_Precision : float64;
  a_PreciseValue : option Z;
  a_Field : string;
  a_Operator : string;
}.

Record BalanceMonitor := mkBalanceMonitor {
  m_MonitorID : string;
  m_BalanceID : string;
  m_Description : string;
  m_CallBackURL : string;
  m_CreatedAt : time;
  m_Condition : AlertCondition;
}.

Record ExternalTransaction := mkExternalTransaction {
  e_ID : string;
  e_Amount : float64;
  e_Reference : string;
  e_Currency : string;
  e_Description : string;
  e_Date : time;
  e_Source : string;
}.

(** model/lineage.go and model/balance.go. *)
Record LineageOutbox := mkLineageOutbox {
  o_ID : Z;
  o_TransactionID : string;
  o_SourceBalanceID : string;
  o_DestinationBalanceID : string;
  o_Provider : string;
  o_LineageType : string;
  o_Payload : metadata;
  o_Status : string;
  o_Attempts : Z;
  o_MaxAttempts : Z;
  o_LastError : string;
  o_CreatedAt : time;
  o_LockedUntil : option time;
  o_Inflight : bool;
}.
#[global] Instance LineageOutbox_eta : Eta LineageOutbox := λ o,
  mkLineageOutbox (o_ID o) (o_TransactionID o) (o_SourceBalanceID o)
    (o_DestinationBalanceID o) (o_Provider o) (o_LineageType o) (o_Payload o)
    (o_Status o) (o_Attempts o) (o_MaxAttempts o) (o_LastError o) (o_CreatedAt o)
    (o_LockedUntil o) (o_Inflight o).

Record LineageMapping := mkLineageMapping {
  lm_ID : Z;
  lm_BalanceID : string;
  lm_Provider : string;
  lm_ShadowBalanceID : string;
  lm_AggregateBalanceID : string;
  lm_IdentityID : string;
  lm_CreatedAt : time;
}.

(** Transaction statuses (transaction.go). *)
Definition StatusQueued : string := "QUEUED".
Definition StatusApplied : string := "APPLIED".
Definition StatusScheduled : string := "SCHEDULED".
Definition StatusInflight : string := "INFLIGHT".
Definition StatusVoid : string := "VOID".
Definition StatusCommit : string := "COMMIT".
Definition StatusRejected : string := "REJECTED".

(** The value of an initialised [*big.Int]. *)
Definition ival (z : option Z) : Z := match z with Some z => z | None => 0 end.

#[global] Instance metaval_eq_dec : EqDecision metaval.
Proof.
  unfold EqDecision, Decision.
  fix IH 1. intros x y.
  assert (Hl : ∀ l1 l2 : list metaval, {l1 = l2} + {l1 ≠ l2}).
  { fix IHl 1. intros [|a l1] [|b l2]; [by left|by right|by right|].
    destruct (IH a b) as [->|]; [|right; congruence].
    destruct (IHl l1 l2) as [->|]; [by left|right; congruence]. }
  assert (Ho : ∀ l1 l2 : list (string * metaval), {l1 = l2} + {l1 ≠ l2}).
  { fix IHl 1. intros [|[k a] l1] [|[k' b] l2]; [by left|by right|by right|].
    destruct (string_dec k k') as [->|]; [|right; congruence].
    destruct (IH a b) as [->|]; [|right; congruence].
    destruct (IHl l1 l2) as [->|]; [by left|right; congruence]. }
  destruct x as [s|f|b| |l|l], y as [s'|f'|b'| |l'|l']; try (by right); try (by left).
  - destruct (string_dec s s') as [->|]; [by left|right; congruence].
  - destruct (decide (f = f')) as [->|]; [by left|right; congruence].
  - destruct (decide (b = b')) as [->|]; [by left|right; congruence].
  - destruct (Hl l l') as [->|]; [by left|right; congruence].
  - destruct (Ho l l') as [->|]; [by left|right; congruence].
Defined.

#[global] Instance Distribution_eq_dec : EqDecision Distribution.
Proof. solve_decision. Defined.
#[global] Instance Balance_eq_dec : EqDecision Balance.
Proof. solve_decision. Defined.
#[global] Instance Transaction_eq_dec : EqDecision Transaction.
Proof. solve_decision. Defined.
