(* ===== verification/Time.v ===== *)
(** * Dates and times (package [time] of the Go standard library)

    A [time.Time] in UTC is its number of nanoseconds since the zero time,
    0001-01-01 00:00:00.  The calendar is the proleptic Gregorian one, computed
    with the cycles of 400, 100, 4 and 1 years; the layouts [2006-01-02] and
    [time.RFC3339Nano] are functions to strings, and both determine what they
    print. *)

From S2P Require Import Prelude Types.

(** ** Texts split at a separator *)

Fixpoint free_of (c : ascii) (s : string) : bool :=
  match s with
  | EmptyString => true
  | String x s' => negb (Ascii.eqb x c) && free_of c s'
  end.

(** A text is cut in one way at the first occurrence of a separator. *)
Lemma cut_at_separator c a1 a2 r1 r2 :
  free_of c a1 = true → free_of c a2 = true →
  a1 +:+ String c r1 = a2 +:+ String c r2 → a1 = a2 ∧ r1 = r2.
Proof.
  revert a2. induction a1 as [|x a1 IH]; intros [|y a2] H1 H2 E.
  - rewrite !string_app_nil_l in E. by injection E.
  - rewrite string_app_nil_l, string_app_cons in E. injection E as <- E.
    simpl in H2. by rewrite Ascii.eqb_refl in H2.
  - rewrite string_app_nil_l, string_app_cons in E. injection E as -> E.
    simpl in H1. by rewrite Ascii.eqb_refl in H1.
  - rewrite !string_app_cons in E. injection E as -> E. simpl in H1, H2.
    apply andb_true_iff in H1 as [_ H1], H2 as [_ H2].
    by destruct (IH a2 H1 H2 E) as [-> ->].
Qed.

(** Texts of equal length in front determine the cut. *)
Lemma cut_at_length a1 a2 r1 r2 :
  String.length a1 = String.length a2 → a1 +:+ r1 = a2 +:+ r2 → a1 = a2 ∧ r1 = r2.
Proof.
  revert a2. induction a1 as [|x a1 IH]; intros [|y a2] Hl E; try done.
  rewrite !string_app_cons in E. injection E as -> E. simpl in Hl.
  destruct (IH a2) as [-> ->]; [lia|done|done].
Qed.

(** [strings.Split] at a separator of one byte. *)
Lemma split_free c s : free_of c s = true → split (String c "") s = [s].
Proof.
  intros H. unfold split. enough (split_at (String c "") 0 s = (s, [])) as ->; [done|].
  induction s as [|x s IH]; [done|]. cbn [free_of] in H. cbn [split_at String.prefix].
  destruct (ascii_dec c x) as [->|]; [by rewrite Ascii.eqb_refl in H|].
  rewrite IH; [done|]. by apply andb_true_iff in H as [_ ?].
Qed.

Lemma split_first c a b :
  free_of c a = true → split (String c "") (a +:+ String c b) = a :: split (String c "") b.
Proof.
  intros H. unfold split.
  enough (split_at (String c "") 0 (a +:+ String c b)
          = (a, split (String c "") b)) as ->; [done|].
  induction a as [|x a IH].
  - rewrite string_app_nil_l. cbn [split_at String.prefix].
    destruct (ascii_dec c c); [|done]. cbn [String.length Nat.sub String.prefix]. unfold split.
    replace (String.prefix "" b) with true by by destruct b. by destruct (split_at _ 0 b).
  - rewrite string_app_cons. cbn [free_of] in H. cbn [split_at String.prefix].
    destruct (ascii_dec c x) as [->|]; [by rewrite Ascii.eqb_refl in H|].
    rewrite IH; [done|]. by apply andb_true_iff in H as [_ ?].
Qed.

Module Time.

(** ** Decimal digits of a fixed width *)

Definition digit (d : Z) : ascii := ascii_of_N (Z.to_N (48 + d)).

Fixpoint digits (w : nat) (n : Z) : string :=
  match w with
  | O => EmptyString
  | S w' => String (digit (n / 10 ^ Z.of_nat w')) (digits w' (n mod 10 ^ Z.of_nat w'))
  end.

Lemma digits_length w n : String.length (digits w n) = w.
Proof. revert n. induction w as [|w IH]; intros n; simpl; [done|]. by rewrite IH. Qed.

Lemma digit_inj a b : 0 <= a < 10 → 0 <= b < 10 → digit a = digit b → a = b.
Proof.
  intros Ha Hb E. unfold digit in E. apply (f_equal N_of_ascii) in E.
  rewrite !N_ascii_embedding in E by lia. lia.
Qed.

Lemma digits_inj w n m :
  0 <= n < 10 ^ Z.of_nat w → 0 <= m < 10 ^ Z.of_nat w → digits w n = digits w m → n = m.
Proof.
  revert n m. induction w as [|w IH]; intros n m Hn Hm E; [simpl in *; lia|].
  cbn [digits] in E. injection E as Ed Er.
  assert (Hp : 0 < 10 ^ Z.of_nat w) by (apply Z.pow_pos_nonneg; lia).
  rewrite Nat2Z.inj_succ, Z.pow_succ_r in Hn, Hm by lia.
  assert (Hq : n / 10 ^ Z.of_nat w = m / 10 ^ Z.of_nat w).
  { apply digit_inj; [| |done].
    - split; [apply Z.div_pos; lia|]. apply Z.div_lt_upper_bound; lia.
    - split; [apply Z.div_pos; lia|]. apply Z.div_lt_upper_bound; lia. }
  apply IH in Er; [|by apply Z.mod_pos_bound..].
  rewrite (Z.div_mod n (10 ^ Z.of_nat w)), (Z.div_mod m (10 ^ Z.of_nat w)) by lia.
  by rewrite Hq, Er.
Qed.

Lemma digits2_inj n m : 0 <= n < 100 → 0 <= m < 100 → digits 2 n = digits 2 m → n = m.
Proof. intros Hn Hm. apply (digits_inj 2); assumption. Qed.

(** Trailing zeros of a fraction are not printed. *)
Fixpoint trim_zeros (s : string) : string :=
  match s with
  | EmptyString => EmptyString
  | String c s' =>
      match trim_zeros s' with
      | EmptyString => if Ascii.eqb c "0" then EmptyString else String c EmptyString
      | r => String c r
      end
  end.

Lemma trim_zeros_inj a b :
  String.length a = String.length b → trim_zeros a = trim_zeros b → a = b.
Proof.
  revert b. induction a as [|x a IH]; intros [|y b] Hl E; try done.
  simpl in Hl. injection Hl as Hl. specialize (IH b Hl). cbn [trim_zeros] in E.
  destruct (trim_zeros a) as [|xa ra] eqn:Ea, (trim_zeros b) as [|xb rb] eqn:Eb.
  - rewrite IH by done.
    destruct (Ascii.eqb_spec x "0") as [->|], (Ascii.eqb_spec y "0") as [->|]; congruence.
  - destruct (Ascii.eqb x "0"); [done|]. injection E as -> E; discriminate.
  - destruct (Ascii.eqb y "0"); [done|]. injection E as -> E; discriminate.
  - injection E as -> E1 E2. rewrite IH by congruence. done.
Qed.

Lemma trim_zeros_free c s : free_of c s = true → free_of c (trim_zeros s) = true.
Proof.
  induction s as [|x s IH]; [done|]. cbn [free_of trim_zeros]. intros H. zbool.
  specialize (IH H0). destruct (trim_zeros s); [by destruct (Ascii.eqb x "0"); simpl; rewrite ?H|].
  cbn [free_of] in IH |- *. by rewrite H.
Qed.

Lemma digits_free c w n :
  (∀ d, 0 <= d < 10 → digit d ≠ c) → 0 <= n < 10 ^ Z.of_nat w → free_of c (digits w n) = true.
Proof.
  intros Hc. revert n. induction w as [|w IH]; intros n Hn; [done|]. cbn [digits free_of].
  assert (Hp : 0 < 10 ^ Z.of_nat w) by (apply Z.pow_pos_nonneg; lia).
  rewrite Nat2Z.inj_succ, Z.pow_succ_r in Hn by lia.
  rewrite IH by (by apply Z.mod_pos_bound). rewrite andb_true_r. apply negb_true_iff, Ascii.eqb_neq.
  apply Hc. split; [apply Z.div_pos; lia|]. apply Z.div_lt_upper_bound; lia.
Qed.

(** ** The calendar *)

Definition second : Z := 1000000000.
Definition minute : Z := 60 * second.
Definition hour : Z := 60 * minute.
Definition day : Z := 24 * hour.

Definition days_before_year (y : Z) : Z :=
  365 * (y - 1) + (y - 1) / 4 - (y - 1) / 100 + (y - 1) / 400.

(** Year and day of the year of a day number. *)
Definition year_yday (d : Z) : Z * Z :=
  let n400 := d / 146097 in
  let r := d mod 146097 in
  let n100 := r / 36524 - r / 36524 / 4 in
  let r := r - 36524 * n100 in
  let n4 := r / 1461 in
  let r := r - 1461 * n4 in
  let n1 := r / 365 - r / 365 / 4 in
  (1 + 400 * n400 + 100 * n100 + 4 * n4 + n1, r - 365 * n1).

Definition is_leap (y : Z) : bool :=
  (y mod 4 =? 0) && (negb (y mod 100 =? 0) || (y mod 400 =? 0)).

Definition month_lengths (leap : bool) : list Z :=
  [31; if leap then 29 else 28; 31; 30; 31; 30; 31; 31; 30; 31; 30; 31].

Fixpoint month_day (m : Z) (lengths : list Z) (r : Z) : Z * Z :=
  match lengths with
  | [] => (m, r + 1)
  | l :: ls => if r <? l then (m, r + 1) else month_day (m + 1) ls (r - l)
  end.

(** [t.Date()]. *)
Definition date_of_days (d : Z) : Z * Z * Z :=
  let '(y, r) := year_yday d in
  let '(m, dd) := month_day 1 (month_lengths (is_leap y)) r in (y, m, dd).

(** [t.Weekday()], Sunday = 0; the zero time is a Monday. *)
Definition weekday (t : time) : Z := (t / day + 1) mod 7.

(** [t.AddDate(0, 0, n)] and [t.Add(d)]. *)
Definition add_days (t : time) (n : Z) : time := t + n * day.

(** ** Layouts *)

Definition date_text (y m d : Z) : string :=
  (if y <? 10000 then digits 4 y else Z_to_string y)
  +:+ "-" +:+ digits 2 m +:+ "-" +:+ digits 2 d.

(** [t.Format("2006-01-02")]. *)
Definition format_date (t : time) : string :=
  let '(y, m, d) := date_of_days (t / day) in date_text y m d.

Definition fraction (ns : Z) : string :=
  match trim_zeros (digits 9 ns) with EmptyString => EmptyString | s => "." +:+ s end.

Definition clock_text (n : Z) : string :=
  digits 2 (n / hour) +:+ ":" +:+ digits 2 (n / minute mod 60)
  +:+ ":" +:+ digits 2 (n / second mod 60) +:+ fraction (n mod second).

(** [t.Format("15:04")]. *)
Definition format_hhmm (t : time) : string :=
  digits 2 (t mod day / hour) +:+ ":" +:+ digits 2 (t mod day / minute mod 60).

(** [t.UTC().Format(time.RFC3339Nano)]. *)
Definition format_rfc3339nano (t : time) : string :=
  format_date t +:+ "T" +:+ clock_text (t mod day) +:+ "Z".

Example format_known :
  format_rfc3339nano (63849945600 * second + 120 * 1000000) = "2024-04-29T00:00:00.12Z"
  ∧ format_date 0 = "0001-01-01" ∧ weekday 0 = 1
  ∧ weekday (63849945600 * second) = 1
  ∧ format_date (735963 * day) = "2016-01-01"
  ∧ format_hhmm (13 * hour + 5 * minute + 59 * second) = "13:05".
Proof. vm_compute. repeat split. Qed.

(** ** Both layouts determine what they print *)

Lemma year_yday_spec d y r :
  year_yday d = (y, r) →
  days_before_year y + r = d ∧ 0 <= r < 366 ∧ (0 <= d → 1 <= y).
Proof.
  unfold year_yday. intros [= <- <-].
  set (n400 := d / 146097). set (r0 := d mod 146097).
  assert (Hd : d = 146097 * n400 + r0) by apply Z.div_mod, Z.neq_sym, Z.lt_neq, eq_refl.
  assert (H0 : 0 <= r0 < 146097) by (by apply Z.mod_pos_bound).
  assert (Hq : 0 <= d → 0 <= n400) by (intros; apply Z.div_pos; lia).
  clearbody n400 r0.
  set (n100 := r0 / 36524 - r0 / 36524 / 4). set (r1 := r0 - 36524 * n100).
  assert (H1 : 0 <= n100 <= 3 ∧ 0 <= r1 ∧ (n100 < 3 → r1 < 36524) ∧ r1 <= 36524)
    by (subst r1 n100; Z.to_euclidean_division_equations; lia).
  assert (Hr1 : r0 = 36524 * n100 + r1) by lia. clearbody n100 r1.
  set (n4 := r1 / 1461). set (r2 := r1 - 1461 * n4).
  assert (H2 : 0 <= n4 <= 24 ∧ 0 <= r2 < 1461 ∧ (n4 = 24 → n100 < 3 → r2 < 1460)
               ∧ r1 = 1461 * n4 + r2)
    by (subst r2 n4; Z.to_euclidean_division_equations; lia).
  clearbody n4 r2.
  set (n1 := r2 / 365 - r2 / 365 / 4). set (r3 := r2 - 365 * n1).
  assert (H3 : 0 <= n1 <= 3 ∧ 0 <= r3 <= 365 ∧ (n1 < 3 → r3 < 365) ∧ r2 = 365 * n1 + r3)
    by (subst r3 n1; Z.to_euclidean_division_equations; lia).
  clearbody n1 r3. unfold days_before_year.
  replace (1 + 400 * n400 + 100 * n100 + 4 * n4 + n1 - 1)
    with (400 * n400 + 100 * n100 + 4 * n4 + n1) by lia.
  replace ((400 * n400 + 100 * n100 + 4 * n4 + n1) / 4) with (100 * n400 + 25 * n100 + n4)
    by (Z.to_euclidean_division_equations; lia).
  replace ((400 * n400 + 100 * n100 + 4 * n4 + n1) / 100) with (4 * n400 + n100)
    by (Z.to_euclidean_division_equations; lia).
  replace ((400 * n400 + 100 * n100 + 4 * n4 + n1) / 400) with n400
    by (Z.to_euclidean_division_equations; lia).
  split; [lia|]. split; lia.
Qed.

(** Month and day determine the day of the year. *)
Definition month_day_ok (leap : bool) (r : Z) : bool :=
  let '(m, d) := month_day 1 (month_lengths leap) r in
  (1 <=? m) && (m <? 100) && (1 <=? d) && (d <? 100)
  && (sumZ id (take (Z.to_nat (m - 1)) (month_lengths leap)) + d - 1 =? r).

Lemma month_day_spec leap r m d :
  0 <= r < 366 → month_day 1 (month_lengths leap) r = (m, d) →
  1 <= m < 100 ∧ 1 <= d < 100
  ∧ sumZ id (take (Z.to_nat (m - 1)) (month_lengths leap)) + d - 1 = r.
Proof.
  intros Hr E.
  assert (Hall : forallb (λ n, month_day_ok leap (Z.of_nat n)) (seq 0 366) = true)
    by (destruct leap; vm_compute; reflexivity).
  rewrite forallb_forall in Hall. specialize (Hall (Z.to_nat r)).
  rewrite Z2Nat.id in Hall by lia. unfold month_day_ok in Hall. rewrite E in Hall.
  assert (Hin : In (Z.to_nat r) (seq 0 366)) by (apply in_seq; lia).
  apply Hall in Hin. zbool. lia.
Qed.

Lemma date_of_days_inj d1 d2 : date_of_days d1 = date_of_days d2 → d1 = d2.
Proof.
  unfold date_of_days. destruct (year_yday d1) as [y1 r1] eqn:E1, (year_yday d2) as [y2 r2] eqn:E2.
  apply year_yday_spec in E1 as (<- & H1 & _), E2 as (<- & H2 & _).
  destruct (month_day 1 (month_lengths (is_leap y1)) r1) as [m1 k1] eqn:M1.
  destruct (month_day 1 (month_lengths (is_leap y2)) r2) as [m2 k2] eqn:M2.
  apply month_day_spec in M1 as (_ & _ & M1); [|done].
  apply month_day_spec in M2 as (_ & _ & M2); [|done].
  intros [= -> -> ->]. lia.
Qed.

(** Years RFC 3339 covers. *)
Definition printable (t : time) : Prop :=
  0 <= t ∧ ((year_yday (t / day)).1 < 10000).

Lemma date_parts t y m d :
  printable t → date_of_days (t / day) = (y, m, d) →
  0 <= y < 10000 ∧ 0 <= m < 100 ∧ 0 <= d < 100.
Proof.
  intros [Ht Hy]. unfold date_of_days. destruct (year_yday (t / day)) as [y0 r] eqn:E.
  simpl in Hy. apply year_yday_spec in E as (_ & Hr & Hpos).
  assert (0 <= t / day) by (apply Z.div_pos; unfold day, hour, minute, second; lia).
  destruct (month_day 1 (month_lengths (is_leap y0)) r) as [m0 d0] eqn:M.
  apply month_day_spec in M as (Hm & Hd & _); [|done]. intros [= <- <- <-]. lia.
Qed.

Lemma format_date_inj t u :
  printable t → printable u → format_date t = format_date u → t / day = u / day.
Proof.
  intros Ht Hu. unfold format_date.
  destruct (date_of_days (t / day)) as [[y1 m1] d1] eqn:E1,
    (date_of_days (u / day)) as [[y2 m2] d2] eqn:E2.
  pose proof (date_parts t _ _ _ Ht E1) as (Hy1 & Hm1 & Hd1).
  pose proof (date_parts u _ _ _ Hu E2) as (Hy2 & Hm2 & Hd2).
  unfold date_text. rewrite (proj2 (Z.ltb_lt y1 _)), (proj2 (Z.ltb_lt y2 _)) by lia. intros E.
  apply cut_at_length in E as [Ey E]; [|by rewrite !digits_length].
  apply cut_at_length in E as [_ E]; [|done].
  apply cut_at_length in E as [Em E]; [|by rewrite !digits_length].
  apply cut_at_length in E as [_ Ed]; [|done].
  apply digits_inj in Ey, Em, Ed; [|simpl; lia..]. subst.
  apply date_of_days_inj. congruence.
Qed.

Lemma format_date_length t : printable t → String.length (format_date t) = 10%nat.
Proof.
  intros Ht. unfold format_date. destruct (date_of_days (t / day)) as [[y m] d] eqn:E.
  pose proof (date_parts t _ _ _ Ht E) as (Hy & _). unfold date_text.
  rewrite (proj2 (Z.ltb_lt y _)) by lia. by rewrite !string_length_app, !digits_length.
Qed.

Lemma fraction_inj a b r s :
  0 <= a < second → 0 <= b < second →
  fraction a +:+ String "Z" r = fraction b +:+ String "Z" s → a = b.
Proof.
  intros Ha Hb E.
  assert (HZ : ∀ d, 0 <= d < 10 → digit d ≠ "Z"%char).
  { intros d Hd F. unfold digit in F. apply (f_equal N_of_ascii) in F.
    rewrite N_ascii_embedding in F by lia. change (N_of_ascii "Z") with 90%N in F. lia. }
  assert (Hfree : ∀ n, 0 <= n < second → free_of "Z" (trim_zeros (digits 9 n)) = true)
    by (intros n Hn; apply trim_zeros_free, digits_free; [done|exact Hn]).
  apply cut_at_separator in E as [E _].
  - apply (digits_inj 9); [exact Ha|exact Hb|]. apply trim_zeros_inj; [by rewrite !digits_length|].
    unfold fraction in E. destruct (trim_zeros (digits 9 a)), (trim_zeros (digits 9 b)); try done.
    rewrite !string_app_cons, !string_app_nil_l in E. congruence.
  - pose proof (Hfree a Ha) as H. unfold fraction. by destruct (trim_zeros (digits 9 a)).
  - pose proof (Hfree b Hb) as H. unfold fraction. by destruct (trim_zeros (digits 9 b)).
Qed.

Lemma clock_parts n :
  0 <= n < day →
  0 <= n / hour < 100 ∧ 0 <= n / minute mod 60 < 100 ∧ 0 <= n / second mod 60 < 100
  ∧ n = n / hour * hour + n / minute mod 60 * minute + n / second mod 60 * second + n mod second.
Proof.
  unfold day, hour, minute, second. intros H. Z.to_euclidean_division_equations. lia.
Qed.

Theorem format_rfc3339nano_inj t u :
  printable t → printable u → format_rfc3339nano t = format_rfc3339nano u → t = u.
Proof.
  intros Ht Hu E. unfold format_rfc3339nano in E.
  assert (Hday : 0 < day) by (unfold day, hour, minute, second; lia).
  apply cut_at_length in E as [Ed E]; [|by rewrite !format_date_length].
  apply format_date_inj in Ed; [|done..].
  assert (Ec : t mod day = u mod day).
  { pose proof (clock_parts (t mod day) (Z.mod_pos_bound _ _ Hday)) as (Ht1 & Ht2 & Ht3 & ->).
    pose proof (clock_parts (u mod day) (Z.mod_pos_bound _ _ Hday)) as (Hu1 & Hu2 & Hu3 & ->).
    unfold clock_text in E. rewrite !string_app_assoc in E.
    apply cut_at_length in E as [_ E]; [|done].
    apply cut_at_length in E as [Eh E]; [|by rewrite !digits_length].
    apply cut_at_length in E as [_ E]; [|done].
    apply cut_at_length in E as [Em E]; [|by rewrite !digits_length].
    apply cut_at_length in E as [_ E]; [|done].
    apply cut_at_length in E as [Es E]; [|by rewrite !digits_length].
    apply digits2_inj in Eh, Em, Es; [|done..].
    apply fraction_inj in E; [|by apply Z.mod_pos_bound..]. congruence. }
  rewrite (Z.div_mod t day), (Z.div_mod u day) by lia. congruence.
Qed.
End Time.
