(* ===== verification/Balances.v ===== *)
(** * Balance arithmetic (model/model.go)

    Operations on a [Balance]: crediting, debiting, recomputing, checking
    funds, committing and rolling back an inflight hold, [UpdateBalances], the
    precision conversions and the monitor condition.  Methods that mutate the
    receiver return it; a method that returns a Go error returns [result].  On
    an error the receiver keeps the fields it had (at most nil amounts have
    become zero), so the error branch carries no state. *)

From Stdlib Require Import QArith Qpower Floats.SpecFloat.
From S2P Require Import Prelude Float64 Decimal Types.

Module Balances.

(** ** Amounts and precision *)

Section precision.
Context `{Decimal}.

(** [result.SetString(s, 10)] on a fresh [big.Int], error ignored. *)
Definition big_of_string (s : string) : Z :=
  match Z_of_string s with Some z => z | None => 0 end.

Definition convertDecimalToPrecise (transaction : Transaction) : Z :=
  let amountStr := Float64.format_shortest (t_Amount transaction) in
  let precisionStr := Float64.format_int (t_Precision transaction) in
  let amountDec := dec_of_string_or_zero amountStr in
  let precisionDec := dec_of_string_or_zero precisionStr in
  let preciseAmount := dec_round (dec_mul amountDec precisionDec) in
  big_of_string (dec_string preciseAmount).

Definition convertPreciseToDecimal (transaction : Transaction) : Transaction :=
  let preciseAmountDec :=
    dec_of_string_or_zero (Z_to_string (ival (t_PreciseAmount transaction))) in
  let precisionDec := dec_of_float (t_Precision transaction) in
  let resultDec := dec_div preciseAmountDec precisionDec in
  transaction <| t_AmountString := dec_string resultDec |>
              <| t_Amount := dec_float resultDec |>.

(** [transaction.Precision == 0]. *)
Definition default_precision (transaction : Transaction) : Transaction :=
  if Float64.eqb (t_Precision transaction) Float64.zero
  then transaction <| t_Precision := Float64.of_Z 1 |>
  else transaction.

Definition applyPrecisionLogic (transaction : Transaction) : Z * Transaction :=
  let transaction := default_precision transaction in
  match t_PreciseAmount transaction with
  | Some p =>
      if 0 <? p then (p, convertPreciseToDecimal transaction)
      else let p' := convertDecimalToPrecise transaction in
           (p', transaction <| t_PreciseAmount := Some p' |>)
  | None =>
      let p' := convertDecimalToPrecise transaction in
      (p', transaction <| t_PreciseAmount := Some p' |>)
  end.

Definition ApplyPrecision (transaction : Transaction) : Z * Transaction :=
  applyPrecisionLogic (default_precision transaction).

(** [ApplyPrecisionWithDBLookup]: [db_precision] is what the lookup by
    transaction id found, if anything. *)
Definition ApplyPrecisionWithDBLookup (transaction : Transaction)
    (db_precision : option float64) : Z * Transaction :=
  let transaction :=
    match db_precision with
    | Some p => if Float64.gtb p Float64.zero then transaction <| t_Precision := p |>
                else default_precision transaction
    | None => default_precision transaction
    end in
  applyPrecisionLogic transaction.
End precision.

(** [transaction.validate()]. *)
Definition validate (transaction : Transaction) : result unit :=
  match t_PreciseAmount transaction with
  | Some p => fail_if (p <=? 0) (ENew "transaction precise amount must be positive")
  | None => fail_if (Float64.leb (t_Amount transaction) Float64.zero)
              (ENew "transaction amount must be positive")
  end.

(** ** The balance fields *)

Definition init_field (z : option Z) : option Z := Some (ival z).

Definition InitializeBalanceFields (b : Balance) : Balance :=
  b <| b_InflightDebitBalance := init_field (b_InflightDebitBalance b) |>
    <| b_InflightCreditBalance := init_field (b_InflightCreditBalance b) |>
    <| b_InflightBalance := init_field (b_InflightBalance b) |>
    <| b_DebitBalance := init_field (b_DebitBalance b) |>
    <| b_CreditBalance := init_field (b_CreditBalance b) |>
    <| b_Balance := init_field (b_Balance b) |>.

Definition addCredit (amount : Z) (inflight : bool) (b : Balance) : Balance :=
  let b := InitializeBalanceFields b in
  if inflight
  then b <| b_InflightCreditBalance := Some (ival (b_InflightCreditBalance b) + amount) |>
  else b <| b_CreditBalance := Some (ival (b_CreditBalance b) + amount) |>.

Definition addDebit (amount : Z) (inflight : bool) (b : Balance) : Balance :=
  let b := InitializeBalanceFields b in
  if inflight
  then b <| b_InflightDebitBalance := Some (ival (b_InflightDebitBalance b) + amount) |>
  else b <| b_DebitBalance := Some (ival (b_DebitBalance b) + amount) |>.

Definition computeBalance (inflight : bool) (b : Balance) : Balance :=
  let b := InitializeBalanceFields b in
  if inflight
  then b <| b_InflightBalance :=
              Some (ival (b_InflightCreditBalance b) - ival (b_InflightDebitBalance b)) |>
  else b <| b_Balance := Some (ival (b_CreditBalance b) - ival (b_DebitBalance b)) |>.

Definition checkSufficientInflightDebit (amount : Z) (b : Balance) : result unit :=
  fail_if (ival (b_InflightDebitBalance b) <? amount)
    (ENew ("insufficient inflight debit balance: have "
       +:+ Z_to_string (ival (b_InflightDebitBalance b)) +:+ ", need " +:+ Z_to_string amount)).

Definition checkSufficientInflightCredit (amount : Z) (b : Balance) : result unit :=
  fail_if (ival (b_InflightCreditBalance b) <? amount)
    (ENew ("insufficient inflight credit balance: have "
       +:+ Z_to_string (ival (b_InflightCreditBalance b)) +:+ ", need " +:+ Z_to_string amount)).

Definition RollbackInflightCredit (amount : Z) (b : Balance) : result Balance :=
  let b := InitializeBalanceFields b in
  _ ← checkSufficientInflightCredit amount b;
  let b := b <| b_InflightCreditBalance := Some (ival (b_InflightCreditBalance b) - amount) |> in
  mret (computeBalance true b).

Definition RollbackInflightDebit (amount : Z) (b : Balance) : result Balance :=
  let b := InitializeBalanceFields b in
  _ ← checkSufficientInflightDebit amount b;
  let b := b <| b_InflightDebitBalance := Some (ival (b_InflightDebitBalance b) - amount) |> in
  mret (computeBalance true b).

Section operations.
Context `{Decimal}.

(** The overdraft limit in minor units: [NewFromFloat(limit).Mul(
    NewFromFloat(precision)).Round(0).IntPart()]. *)
Definition overdraft_limit_precise (transaction : Transaction) : Z :=
  dec_int_part (dec_round (dec_mul (dec_of_float (t_OverdraftLimit transaction))
                                   (dec_of_float (t_Precision transaction)))).

Definition available_balance (b : Balance) : Z :=
  let available := ival (b_Balance b) - ival (b_InflightDebitBalance b) in
  match b_QueuedDebitBalance b with
  | Some q => available - q
  | None => available
  end.

Definition canProcessTransaction (transaction : Transaction) (sourceBalance : Balance)
    : result Balance :=
  if t_AllowOverdraft transaction
     && Float64.eqb (t_OverdraftLimit transaction) Float64.zero
  then mret sourceBalance
  else
    let sourceBalance := InitializeBalanceFields sourceBalance in
    let transactionAmount := ival (t_PreciseAmount transaction) in
    let availableBalance := available_balance sourceBalance in
    if transactionAmount <=? availableBalance then mret sourceBalance
    else if Float64.gtb (t_OverdraftLimit transaction) Float64.zero then
      let resultingBalance := availableBalance - transactionAmount in
      let negativeOverdraftLimit := - overdraft_limit_precise transaction in
      if negativeOverdraftLimit <=? resultingBalance then mret sourceBalance
      else Err (ENew "transaction exceeds overdraft limit")
    else Err (ENew "insufficient funds in source balance").

Definition CommitInflightDebit (transaction : Transaction) (b : Balance)
    : result (Transaction * Balance) :=
  let b := InitializeBalanceFields b in
  let '(amount, transaction) := ApplyPrecision transaction in
  _ ← checkSufficientInflightDebit amount b;
  let b := b <| b_InflightDebitBalance := Some (ival (b_InflightDebitBalance b) - amount) |>
             <| b_DebitBalance := Some (ival (b_DebitBalance b) + amount) |> in
  mret (transaction, computeBalance false (computeBalance true b)).

Definition CommitInflightCredit (transaction : Transaction) (b : Balance)
    : result (Transaction * Balance) :=
  let b := InitializeBalanceFields b in
  let '(amount, transaction) := ApplyPrecision transaction in
  _ ← checkSufficientInflightCredit amount b;
  let b := b <| b_InflightCreditBalance := Some (ival (b_InflightCreditBalance b) - amount) |>
             <| b_CreditBalance := Some (ival (b_CreditBalance b) + amount) |> in
  mret (transaction, computeBalance false (computeBalance true b)).

(** The two halves of [UpdateBalances] after its checks. *)
Definition debit_source (transaction : Transaction) (b : Balance) : Balance :=
  let b := InitializeBalanceFields b in
  computeBalance (t_Inflight transaction)
    (addDebit (ival (t_PreciseAmount transaction)) (t_Inflight transaction) b).

Definition credit_destination (transaction : Transaction) (b : Balance) : Balance :=
  let b := InitializeBalanceFields b in
  computeBalance (t_Inflight transaction)
    (addCredit (ival (t_PreciseAmount transaction)) (t_Inflight transaction) b).

(** The checks of [UpdateBalances]: the transaction with its precise amount
    and the checked source. *)
Definition admit_update (transaction : Transaction) (source : Balance)
    : result (Transaction * Balance) :=
  let '(amount, transaction) := ApplyPrecision transaction in
  let transaction := transaction <| t_PreciseAmount := Some amount |> in
  _ ← validate transaction;
  source ← canProcessTransaction transaction source;
  mret (transaction, source).

(** [UpdateBalances(transaction, source, destination)] on two balances. *)
Definition UpdateBalances (transaction : Transaction) (source destination : Balance)
    : result (Transaction * Balance * Balance) :=
  '(transaction, source) ← admit_update transaction source;
  mret (transaction, debit_source transaction source,
        credit_destination transaction destination).

(** The same call when both arguments are the same pointer. *)
Definition UpdateBalances_alias (transaction : Transaction) (b : Balance)
    : result (Transaction * Balance) :=
  '(transaction, b) ← admit_update transaction b;
  mret (transaction, credit_destination transaction (debit_source transaction b)).
End operations.

(** ** Monitors *)

(** [compare(value, condition, compareTo)]; [None] is the nil dereference. *)
Definition compare (value : option Z) (condition : string) (compareTo : option Z)
    : option bool :=
  match value, compareTo with
  | Some v, Some c =>
      Some (match condition with
            | ">" => c <? v
            | "<" => v <? c
            | ">=" => c <=? v
            | "<=" => v <=? c
            | "!=" => negb (v =? c)
            | "==" => v =? c
            | _ => false
            end)
  | _, _ => None
  end.

Definition CheckCondition (bm : BalanceMonitor) (b : Balance) : option bool :=
  let cond := m_Condition bm in
  let on f := compare f (a_Operator cond) (a_PreciseValue cond) in
  match a_Field cond with
  | "debit_balance" => on (b_DebitBalance b)
  | "credit_balance" => on (b_CreditBalance b)
  | "balance" => on (b_Balance b)
  | "inflight_debit_balance" => on (b_InflightDebitBalance b)
  | "inflight_credit_balance" => on (b_InflightCreditBalance b)
  | "inflight_balance" => on (b_InflightBalance b)
  | _ => Some false
  end.

Definition ToInternalTransaction (et : ExternalTransaction) : Transaction :=
  empty_transaction <| t_TransactionID := e_ID et |>
    <| t_Amount := e_Amount et |>
    <| t_Reference := e_Reference et |>
    <| t_Currency := e_Currency et |>
    <| t_CreatedAt := e_Date et |>
    <| t_Description := e_Description et |>.

(** ** Specification view: the four accumulators of a balance *)

Record Amounts := mkAmounts { credit : Z; debit : Z; icredit : Z; idebit : Z }.

Definition amounts (b : Balance) : Amounts :=
  mkAmounts (ival (b_CreditBalance b)) (ival (b_DebitBalance b))
    (ival (b_InflightCreditBalance b)) (ival (b_InflightDebitBalance b)).

Definition post_debit (inflight : bool) (a : Z) (m : Amounts) : Amounts :=
  if inflight then mkAmounts (credit m) (debit m) (icredit m) (idebit m + a)
  else mkAmounts (credit m) (debit m + a) (icredit m) (idebit m).

Definition post_credit (inflight : bool) (a : Z) (m : Amounts) : Amounts :=
  if inflight then mkAmounts (credit m) (debit m) (icredit m + a) (idebit m)
  else mkAmounts (credit m + a) (debit m) (icredit m) (idebit m).

(** A balance agrees with its accumulators. *)
Definition balance_ok (b : Balance) : Prop :=
  ival (b_Balance b) = ival (b_CreditBalance b) - ival (b_DebitBalance b)
  ∧ ival (b_InflightBalance b)
    = ival (b_InflightCreditBalance b) - ival (b_InflightDebitBalance b).

(** The fields the arithmetic must not touch. *)
Definition same_identity (b b' : Balance) : Prop :=
  b_BalanceID b' = b_BalanceID b ∧ b_Version b' = b_Version b
  ∧ b_LedgerID b' = b_LedgerID b ∧ b_Currency b' = b_Currency b
  ∧ b_QueuedDebitBalance b' = b_QueuedDebitBalance b
  ∧ b_QueuedCreditBalance b' = b_QueuedCreditBalance b
  ∧ b_MetaData b' = b_MetaData b
  ∧ b_TrackFundLineage b' = b_TrackFundLineage b.

(** ** Lemmas *)

Lemma balance_ok_amounts b : balance_ok b ↔
  ival (b_Balance b) = credit (amounts b) - debit (amounts b)
  ∧ ival (b_InflightBalance b) = icredit (amounts b) - idebit (amounts b).
Proof. done. Qed.

Lemma init_ok b : balance_ok b → balance_ok (InitializeBalanceFields b).
Proof. by destruct b. Qed.
Lemma init_amounts b : amounts (InitializeBalanceFields b) = amounts b.
Proof. by destruct b. Qed.
Lemma init_identity b : same_identity b (InitializeBalanceFields b).
Proof. by destruct b. Qed.
Lemma init_idem b :
  InitializeBalanceFields (InitializeBalanceFields b) = InitializeBalanceFields b.
Proof. by destruct b. Qed.

Lemma same_identity_refl b : same_identity b b.
Proof. done. Qed.

Lemma same_identity_trans b1 b2 b3 :
  same_identity b1 b2 → same_identity b2 b3 → same_identity b1 b3.
Proof. unfold same_identity. intuition congruence. Qed.

(** Evaluates the operations on a balance given by its fields. *)
Ltac balance_eval :=
  cbv beta iota zeta delta
    [set InitializeBalanceFields init_field addDebit addCredit computeBalance
     debit_source credit_destination amounts post_debit post_credit balance_ok
     same_identity ival credit debit icredit idebit mret result_ret
     b_Balance b_Version b_InflightBalance b_CreditBalance b_InflightCreditBalance
     b_DebitBalance b_InflightDebitBalance b_QueuedDebitBalance b_QueuedCreditBalance
     b_LedgerID b_IdentityID b_BalanceID b_Indicator b_Currency b_CreatedAt
     b_InflightExpiresAt b_MetaData b_TrackFundLineage b_AllocationStrategy
     b_AccountRef b_Instrument b_SettleDate b_SettleCode b_WAPrice].

(** A debit posts to the source's accumulators only. *)
Lemma debit_source_spec t b : balance_ok b →
  let b' := debit_source t b in
  balance_ok b' ∧ same_identity b b'
  ∧ amounts b' = post_debit (t_Inflight t) (ival (t_PreciseAmount t)) (amounts b).
Proof.
  destruct b, (t_Inflight t) eqn:Ei; balance_eval; rewrite Ei; intros [? ?];
    repeat split; lia.
Qed.

Lemma credit_destination_spec t b : balance_ok b →
  let b' := credit_destination t b in
  balance_ok b' ∧ same_identity b b'
  ∧ amounts b' = post_credit (t_Inflight t) (ival (t_PreciseAmount t)) (amounts b).
Proof.
  destruct b, (t_Inflight t) eqn:Ei; balance_eval; rewrite Ei; intros [? ?];
    repeat split; lia.
Qed.

Lemma validate_pos t p :
  t_PreciseAmount t = Some p → validate t = Ok tt → 0 < p.
Proof. unfold validate. intros -> H. inv_result. zbool. lia. Qed.

Lemma default_precision_precise t :
  t_PreciseAmount (default_precision t) = t_PreciseAmount t.
Proof. unfold default_precision. by destruct (Float64.eqb _ _). Qed.

(** Precision handling leaves everything but the amounts and precision alone. *)
Definition same_but_amounts (t t' : Transaction) : Prop :=
  t' = t <| t_PreciseAmount := t_PreciseAmount t' |>
         <| t_Amount := t_Amount t' |>
         <| t_AmountString := t_AmountString t' |>
         <| t_Precision := t_Precision t' |>.

Lemma same_but_amounts_refl t : same_but_amounts t t.
Proof. by destruct t. Qed.

Lemma same_but_amounts_trans t1 t2 t3 :
  same_but_amounts t1 t2 → same_but_amounts t2 t3 → same_but_amounts t1 t3.
Proof. unfold same_but_amounts. intros -> ->. by destruct t1. Qed.

Lemma default_precision_frame t : same_but_amounts t (default_precision t).
Proof. unfold default_precision. destruct (Float64.eqb _ _); by destruct t. Qed.

Section lemmas.
Context `{Decimal}.

Lemma ApplyPrecision_amount t p t' :
  ApplyPrecision t = (p, t') → t_PreciseAmount t' = Some p.
Proof.
  unfold ApplyPrecision, applyPrecisionLogic.
  set (t0 := default_precision (default_precision t)).
  destruct (t_PreciseAmount t0) as [q|] eqn:E; [|by intros [= <- <-]].
  destruct (0 <? q); intros [= <- <-]; [|done]. done.
Qed.

(** A positive precise amount is authoritative. *)
Lemma ApplyPrecision_precise t p :
  t_PreciseAmount t = Some p → 0 < p → (ApplyPrecision t).1 = p.
Proof.
  intros Hp Hpos. unfold ApplyPrecision, applyPrecisionLogic.
  rewrite !default_precision_precise, Hp.
  by replace (0 <? p) with true by (symmetry; by apply Z.ltb_lt).
Qed.

Lemma ApplyPrecision_frame t p t' :
  ApplyPrecision t = (p, t') → same_but_amounts t t'.
Proof.
  unfold ApplyPrecision, applyPrecisionLogic.
  set (t0 := default_precision (default_precision t)). intros E.
  apply (same_but_amounts_trans t t0).
  { eapply same_but_amounts_trans; apply default_precision_frame. }
  destruct (t_PreciseAmount t0) as [q|]; [destruct (0 <? q)|];
    injection E as <- <-; by destruct t0.
Qed.

Lemma canProcessTransaction_frame t b b' :
  canProcessTransaction t b = Ok b' → b' = b ∨ b' = InitializeBalanceFields b.
Proof.
  unfold canProcessTransaction. intros E.
  destruct (_ && _)%bool; [inv_result; auto|].
  destruct (_ <=? _); [inv_result; auto|].
  destruct (Float64.gtb _ _); [|inv_result].
  destruct (_ <=? _); inv_result; auto.
Qed.

Lemma available_balance_init b :
  available_balance (InitializeBalanceFields b)
  = ival (b_Balance b) - ival (b_InflightDebitBalance b) - ival (b_QueuedDebitBalance b).
Proof. unfold available_balance. destruct b as [??????? []]; simpl; lia. Qed.

(** The balance with other accumulators, its totals recomputed. *)
Definition settle (m : Amounts) (b : Balance) : Balance :=
  b <| b_CreditBalance := Some (credit m) |> <| b_DebitBalance := Some (debit m) |>
    <| b_InflightCreditBalance := Some (icredit m) |>
    <| b_InflightDebitBalance := Some (idebit m) |>
    <| b_Balance := Some (credit m - debit m) |>
    <| b_InflightBalance := Some (icredit m - idebit m) |>.

Lemma settle_spec m b :
  amounts (settle m b) = m ∧ balance_ok (settle m b) ∧ same_identity b (settle m b).
Proof. destruct b, m. by unfold settle; balance_eval. Qed.

Definition commit_debit (a : Z) (m : Amounts) : Amounts :=
  mkAmounts (credit m) (debit m + a) (icredit m) (idebit m - a).
Definition commit_credit (a : Z) (m : Amounts) : Amounts :=
  mkAmounts (credit m + a) (debit m) (icredit m - a) (idebit m).
Definition release_debit (a : Z) (m : Amounts) : Amounts :=
  mkAmounts (credit m) (debit m) (icredit m) (idebit m - a).
Definition release_credit (a : Z) (m : Amounts) : Amounts :=
  mkAmounts (credit m) (debit m) (icredit m - a) (idebit m).

Ltac destruct_balance b :=
  destruct b as [bal ver ibal cr icr db idb qd qc led idn bid ind cur cre exp md track alloc
                 acc ins sd sc wap].

(** Runs one settlement operation on a balance given by its fields. *)
Ltac settle_run :=
  match goal with Hok : balance_ok _ |- _ => destruct Hok as [Hok1 Hok2] end;
  cbn [b_Balance b_CreditBalance b_DebitBalance b_InflightBalance b_InflightCreditBalance
       b_InflightDebitBalance amounts idebit icredit] in *;
  unfold checkSufficientInflightDebit, checkSufficientInflightCredit, settle,
    commit_debit, commit_credit, release_debit, release_credit;
  balance_eval;
  match goal with |- context [fail_if (?x <? ?y)] =>
    let c := fresh in destruct (Z.ltb_spec x y) as [c|c] end;
  (split; intros; [try lia|try lia]);
  cbv beta iota delta [fail_if mbind result_bind];
  first [by eexists | repeat f_equal; first [assumption | lia | congruence]].

(** Each settlement operation of a hold succeeds exactly when the hold covers
    the amount. *)
Lemma CommitInflightDebit_eq t b : balance_ok b →
  let a := (ApplyPrecision t).1 in
  (a <= idebit (amounts b) →
   CommitInflightDebit t b = Ok ((ApplyPrecision t).2, settle (commit_debit a (amounts b)) b))
  ∧ (idebit (amounts b) < a → ∃ e, CommitInflightDebit t b = Err e).
Proof.
  intros Hok. unfold CommitInflightDebit.
  destruct (ApplyPrecision t) as [a t1]. destruct_balance b. cbn [fst snd]. settle_run.
Qed.

Lemma CommitInflightCredit_eq t b : balance_ok b →
  let a := (ApplyPrecision t).1 in
  (a <= icredit (amounts b) →
   CommitInflightCredit t b = Ok ((ApplyPrecision t).2, settle (commit_credit a (amounts b)) b))
  ∧ (icredit (amounts b) < a → ∃ e, CommitInflightCredit t b = Err e).
Proof.
  intros Hok. unfold CommitInflightCredit.
  destruct (ApplyPrecision t) as [a t1]. destruct_balance b. cbn [fst snd]. settle_run.
Qed.

Lemma RollbackInflightDebit_eq a b : balance_ok b →
  (a <= idebit (amounts b) →
   RollbackInflightDebit a b = Ok (settle (release_debit a (amounts b)) b))
  ∧ (idebit (amounts b) < a → ∃ e, RollbackInflightDebit a b = Err e).
Proof. intros Hok. unfold RollbackInflightDebit. destruct_balance b. settle_run. Qed.

Lemma RollbackInflightCredit_eq a b : balance_ok b →
  (a <= icredit (amounts b) →
   RollbackInflightCredit a b = Ok (settle (release_credit a (amounts b)) b))
  ∧ (icredit (amounts b) < a → ∃ e, RollbackInflightCredit a b = Err e).
Proof. intros Hok. unfold RollbackInflightCredit. destruct_balance b. settle_run. Qed.

(** Inversion of a successful settlement step. *)
Lemma CommitInflightDebit_inv t b r : balance_ok b → CommitInflightDebit t b = Ok r →
  let a := (ApplyPrecision t).1 in
  a <= idebit (amounts b) ∧ r = ((ApplyPrecision t).2, settle (commit_debit a (amounts b)) b).
Proof.
  intros Hok E a. destruct (CommitInflightDebit_eq t b Hok) as [H1 H2]. fold a in H1, H2.
  destruct (Z.le_gt_cases a (idebit (amounts b))) as [Hle|Hgt].
  - specialize (H1 Hle). split; [done|congruence].
  - destruct (H2 Hgt). congruence.
Qed.

Lemma CommitInflightCredit_inv t b r : balance_ok b → CommitInflightCredit t b = Ok r →
  let a := (ApplyPrecision t).1 in
  a <= icredit (amounts b) ∧ r = ((ApplyPrecision t).2, settle (commit_credit a (amounts b)) b).
Proof.
  intros Hok E a. destruct (CommitInflightCredit_eq t b Hok) as [H1 H2]. fold a in H1, H2.
  destruct (Z.le_gt_cases a (icredit (amounts b))) as [Hle|Hgt].
  - specialize (H1 Hle). split; [done|congruence].
  - destruct (H2 Hgt). congruence.
Qed.

Lemma RollbackInflightDebit_inv a b b' : balance_ok b → RollbackInflightDebit a b = Ok b' →
  a <= idebit (amounts b) ∧ b' = settle (release_debit a (amounts b)) b.
Proof.
  intros Hok E. destruct (RollbackInflightDebit_eq a b Hok) as [H1 H2].
  destruct (Z.le_gt_cases a (idebit (amounts b))) as [Hle|Hgt].
  - specialize (H1 Hle). split; [done|congruence].
  - destruct (H2 Hgt). congruence.
Qed.

Lemma RollbackInflightCredit_inv a b b' : balance_ok b → RollbackInflightCredit a b = Ok b' →
  a <= icredit (amounts b) ∧ b' = settle (release_credit a (amounts b)) b.
Proof.
  intros Hok E. destruct (RollbackInflightCredit_eq a b Hok) as [H1 H2].
  destruct (Z.le_gt_cases a (icredit (amounts b))) as [Hle|Hgt].
  - specialize (H1 Hle). split; [done|congruence].
  - destruct (H2 Hgt). congruence.
Qed.

(** Enough hold: the four operations succeed. *)
Lemma CommitInflightDebit_ok t b p :
  t_PreciseAmount t = Some p → 0 < p → balance_ok b → p <= idebit (amounts b) →
  ∃ b', CommitInflightDebit t b = Ok ((ApplyPrecision t).2, b')
    ∧ amounts b' = commit_debit p (amounts b) ∧ balance_ok b'.
Proof.
  intros Hp Hpos Hok Hle. pose proof (CommitInflightDebit_eq t b Hok) as [E _].
  rewrite (ApplyPrecision_precise t p Hp Hpos) in E. eexists. split; [by apply E|].
  split; apply settle_spec.
Qed.

Lemma CommitInflightCredit_ok t b p :
  t_PreciseAmount t = Some p → 0 < p → balance_ok b → p <= icredit (amounts b) →
  ∃ b', CommitInflightCredit t b = Ok ((ApplyPrecision t).2, b')
    ∧ amounts b' = commit_credit p (amounts b) ∧ balance_ok b'.
Proof.
  intros Hp Hpos Hok Hle. pose proof (CommitInflightCredit_eq t b Hok) as [E _].
  rewrite (ApplyPrecision_precise t p Hp Hpos) in E. eexists. split; [by apply E|].
  split; apply settle_spec.
Qed.

Lemma RollbackInflightDebit_ok r b :
  balance_ok b → r <= idebit (amounts b) →
  ∃ b', RollbackInflightDebit r b = Ok b'
    ∧ amounts b' = release_debit r (amounts b) ∧ balance_ok b'.
Proof.
  intros Hok Hle. eexists. split; [by apply RollbackInflightDebit_eq|]. split; apply settle_spec.
Qed.

Lemma RollbackInflightCredit_ok r b :
  balance_ok b → r <= icredit (amounts b) →
  ∃ b', RollbackInflightCredit r b = Ok b'
    ∧ amounts b' = release_credit r (amounts b) ∧ balance_ok b'.
Proof.
  intros Hok Hle. eexists. split; [by apply RollbackInflightCredit_eq|]. split; apply settle_spec.
Qed.

Lemma default_precision_nonzero t : Float64.eqb (t_Precision (default_precision t)) Float64.zero = false.
Proof.
  unfold default_precision. destruct (Float64.eqb (t_Precision t) Float64.zero) eqn:E; [|exact E].
  destruct t. vm_compute. reflexivity.
Qed.

Lemma default_precision_idem t : default_precision (default_precision t) = default_precision t.
Proof.
  pose proof (default_precision_nonzero t) as E. unfold default_precision at 1. by rewrite E.
Qed.

(** Applying the precision twice gives the same amount. *)
Lemma ApplyPrecision_stable t : (ApplyPrecision (ApplyPrecision t).2).1 = (ApplyPrecision t).1.
Proof.
  unfold ApplyPrecision at 2 3, applyPrecisionLogic. rewrite default_precision_idem.
  set (t0 := default_precision t).
  assert (Hconv : ∀ p, (ApplyPrecision (t0 <| t_PreciseAmount := Some p |>)).1
                       = if 0 <? p then p else convertDecimalToPrecise t0).
  { intros p. unfold ApplyPrecision, applyPrecisionLogic. rewrite default_precision_idem.
    assert (E : default_precision (t0 <| t_PreciseAmount := Some p |>)
                = t0 <| t_PreciseAmount := Some p |>).
    { pose proof (default_precision_nonzero t) as Hi. fold t0 in Hi.
      unfold default_precision. change (t_Precision (t0 <| t_PreciseAmount := Some p |>))
        with (t_Precision t0). by rewrite Hi. }
    rewrite E. change (t_PreciseAmount (t0 <| t_PreciseAmount := Some p |>)) with (Some p).
    cbv beta iota zeta. destruct (0 <? p); reflexivity. }
  destruct (t_PreciseAmount t0) as [p|] eqn:Ep.
  - destruct (0 <? p) eqn:Hp.
    + cbn [fst snd]. apply ApplyPrecision_precise; [exact Ep|by apply Z.ltb_lt].
    + cbn [fst snd]. rewrite Hconv. by destruct (0 <? convertDecimalToPrecise t0).
  - cbn [fst snd]. rewrite Hconv. by destruct (0 <? convertDecimalToPrecise t0).
Qed.

Lemma admit_update_Ok t s t' s' :
  admit_update t s = Ok (t', s') →
  ∃ a, t_PreciseAmount t' = Some a ∧ 0 < a ∧ (ApplyPrecision t).1 = a
    ∧ t' = (ApplyPrecision t).2 <| t_PreciseAmount := Some a |>
    ∧ canProcessTransaction t' s = Ok s'
    ∧ (s' = s ∨ s' = InitializeBalanceFields s).
Proof.
  unfold admit_update. destruct (ApplyPrecision t) as [a t1] eqn:E. intros Hr.
  inv_result. simpl in *. destruct x. exists a.
  assert (0 < a) by (eapply validate_pos; [|done]; done).
  repeat split; eauto using canProcessTransaction_frame.
Qed.

Lemma dec_of_string_Z z :
  ∃ d, dec_of_string (Z_to_string z) = Some d ∧ (dval d == inject_Z z)%Q.
Proof.
  destruct (dec_of_string_law z 0) as (d & E & V).
  unfold Float64.dec_to_string in E. simpl in E. rewrite Z.mul_1_r in E.
  exists d. split; [done|]. rewrite V. apply Qmult_1_r.
Qed.

Lemma dec_of_string_shortest sg m e :
  let x := S754_finite sg m e in
  (dval (dec_of_string_or_zero (Float64.format_shortest x)) == Float64.shortest_Q x)%Q.
Proof.
  cbn [Float64.format_shortest Float64.shortest_Q].
  destruct (Float64.shortest (Zpos m) e) as [c q].
  set (c' := if sg then - c else c).
  destruct (dec_of_string_law c' q) as (d & E & V).
  unfold dec_of_string_or_zero. rewrite E, V.
  destruct (Z.leb_spec 0 q) as [Hq|Hq].
  - by rewrite inject_Z_mult, Zpower_Qpower by done.
  - rewrite <- (Z.opp_involutive q) at 1.
    rewrite Qpower_opp, <- Zpower_Qpower by lia.
    assert (0 < 10 ^ (- q)) by (apply Z.pow_pos_nonneg; lia).
    rewrite (Qmake_Qdiv c' (Z.to_pos _)). rewrite Z2Pos.id by done. reflexivity.
Qed.

Lemma dec_of_string_int m e :
  let x := S754_finite false m e in
  (dval (dec_of_string_or_zero (Float64.format_int x)) == inject_Z (Float64.int_Q x))%Q.
Proof.
  cbn [Float64.format_int Float64.int_Q]. rewrite string_app_nil_l.
  destruct (dec_of_string_Z (Float64.nearest_int (Zpos m) e)) as (d & E & V).
  unfold dec_of_string_or_zero. by rewrite E.
Qed.

Lemma convertDecimalToPrecise_round t qa zp :
  (dval (dec_of_string_or_zero (Float64.format_shortest (t_Amount t))) == qa)%Q →
  (dval (dec_of_string_or_zero (Float64.format_int (t_Precision t))) == inject_Z zp)%Q →
  convertDecimalToPrecise t = q_round0 (qa * inject_Z zp)%Q.
Proof.
  intros Ha Hp. unfold convertDecimalToPrecise.
  rewrite (dec_string_law _ (q_round0 (qa * inject_Z zp)%Q)).
  - unfold big_of_string. by rewrite Z_of_to_string.
  - rewrite dec_round_law, dec_mul_law, Ha, Hp. reflexivity.
Qed.

(** Inversion of a successful [UpdateBalances]. *)
Lemma UpdateBalances_Ok t s d t' s' d' :
  UpdateBalances t s d = Ok (t', s', d') →
  ∃ a s0, t_PreciseAmount t' = Some a ∧ 0 < a
    ∧ s' = debit_source t' s0 ∧ d' = credit_destination t' d
    ∧ t_Inflight t' = t_Inflight t
    ∧ (s0 = s ∨ s0 = InitializeBalanceFields s)
    ∧ canProcessTransaction t' s = Ok s0.
Proof.
  unfold UpdateBalances. intros E. inv_result. destruct x as [t1 s0]. inv_result.
  apply admit_update_Ok in H0 as (a & Ha & Hpos & _ & Ht & Hc & Hs0).
  exists a, s0. repeat split; try done.
  subst. simpl. destruct (ApplyPrecision t) as [q t1] eqn:E. simpl.
  apply ApplyPrecision_frame in E. rewrite E. by destruct t.
Qed.
Lemma UpdateBalances_posts t s d t' s' d' :
  balance_ok s → balance_ok d →
  UpdateBalances t s d = Ok (t', s', d') →
  ∃ a, t_PreciseAmount t' = Some a ∧ 0 < a
    ∧ amounts s' = post_debit (t_Inflight t) a (amounts s)
    ∧ amounts d' = post_credit (t_Inflight t) a (amounts d)
    ∧ balance_ok s' ∧ balance_ok d' ∧ same_identity s s' ∧ same_identity d d'.
Proof.
  intros Hs Hd E. apply UpdateBalances_Ok in E as (a & s0 & Ha & Hpos & -> & -> & Hi & Hs0 & _).
  exists a. rewrite <- Hi.
  assert (Hs0ok : balance_ok s0 ∧ amounts s0 = amounts s ∧ same_identity s s0).
  { destruct Hs0 as [->| ->]; auto using init_ok, init_amounts, init_identity,
      same_identity_refl. }
  destruct Hs0ok as (Hok & Eam & Hid).
  destruct (debit_source_spec t' s0 Hok) as (? & ? & Es).
  destruct (credit_destination_spec t' d Hd) as (? & ? & Ed).
  rewrite Ha in Es, Ed. rewrite Eam in Es. simpl in Es, Ed.
  eauto 10 using same_identity_trans.
Qed.

End lemmas.

(** ** Properties *)

Section properties.
Context `{Decimal}.

(** C29. [UpdateBalances] is double entry: when it succeeds, the amount is
    positive, exactly that amount is debited to the source and credited to
    the destination (on the inflight side for an inflight transaction), both
    balances agree with their accumulators, the sums of both balances and of
    both inflight balances are unchanged, and identity, version and queued
    amounts are untouched. *)
Theorem UpdateBalances_double_entry t s d t' s' d' :
  balance_ok s → balance_ok d →
  UpdateBalances t s d = Ok (t', s', d') →
  ∃ a, t_PreciseAmount t' = Some a ∧ 0 < a
    ∧ amounts s' = post_debit (t_Inflight t) a (amounts s)
    ∧ amounts d' = post_credit (t_Inflight t) a (amounts d)
    ∧ balance_ok s' ∧ balance_ok d' ∧ same_identity s s' ∧ same_identity d d'
    ∧ ival (b_Balance s') + ival (b_Balance d') = ival (b_Balance s) + ival (b_Balance d)
    ∧ ival (b_InflightBalance s') + ival (b_InflightBalance d')
      = ival (b_InflightBalance s) + ival (b_InflightBalance d).
Proof.
  intros Hs Hd E.
  destruct (UpdateBalances_posts t s d t' s' d' Hs Hd E)
    as (a & Ha & Hpos & Es & Ed & Os & Od & Is & Id).
  exists a. split_and!; try done;
    pose proof (proj1 (balance_ok_amounts s) Hs); pose proof (proj1 (balance_ok_amounts d) Hd);
    pose proof (proj1 (balance_ok_amounts s') Os) as Os'; rewrite Es in Os';
    pose proof (proj1 (balance_ok_amounts d') Od) as Od'; rewrite Ed in Od';
    destruct (t_Inflight t); cbn [post_debit post_credit credit debit icredit idebit] in Os', Od';
    lia.
Qed.

(** The funds check of [canProcessTransaction] admits exactly: an
    unconditional overdraft; an amount covered by balance minus inflight
    and queued debits; or a remainder within the overdraft limit converted
    to minor units.  Otherwise it reports which limit failed. *)
Theorem canProcessTransaction_spec t b amount :
  t_PreciseAmount t = Some amount →
  let available := ival (b_Balance b) - ival (b_InflightDebitBalance b)
                   - ival (b_QueuedDebitBalance b) in
  let unlimited := t_AllowOverdraft t
                   && Float64.eqb (t_OverdraftLimit t) Float64.zero in
  let limited := Float64.gtb (t_OverdraftLimit t) Float64.zero in
  (is_ok (canProcessTransaction t b) = true ↔
     unlimited = true ∨ amount <= available
     ∨ (limited = true ∧ amount - available <= overdraft_limit_precise t))
  ∧ (∀ e, canProcessTransaction t b = Err e →
     e = ENew (if limited then "transaction exceeds overdraft limit"
               else "insufficient funds in source balance")).
Proof.
  intros Ha. unfold canProcessTransaction. rewrite Ha, available_balance_init.
  cbv zeta. cbn [ival].
  set (av := ival (b_Balance b) - _ - _).
  destruct (t_AllowOverdraft t && _); [simpl; split; [tauto|done]|].
  destruct (Z.leb_spec amount av); [simpl; split; [tauto|done]|].
  destruct (Float64.gtb _ _); [|simpl; split; [split; [done|]|]].
  - destruct (Z.leb_spec (- overdraft_limit_precise t) (av - amount)); simpl.
    + split; [|done]. split; [|done]. intros _. right. right. split; [done|lia].
    + split; [split; [done|]|by intros e [= <-]].
      intros [?|[?|[_ ?]]]; [done|lia|lia].
  - intros [?|[?|[? _]]]; [done|lia|done].
  - by intros e [= <-].
Qed.

(** C31. Life of a hold.  After an inflight transaction of amount [a] is
    accepted, for every split [a = p + r] committing [p] and releasing [r]
    succeeds on both balances, and the result is what posting [p] directly
    would have given: nothing is left inflight and nothing else moved. *)
Theorem hold_commit_release t s d t1 s1 d1 tc a p r :
  t_Inflight t = true →
  balance_ok s → balance_ok d → 0 <= idebit (amounts s) → 0 <= icredit (amounts d) →
  UpdateBalances t s d = Ok (t1, s1, d1) →
  t_PreciseAmount t1 = Some a → a = p + r → 0 < p → 0 <= r →
  t_PreciseAmount tc = Some p →
  ∃ tc' s2 d2 s3 d3,
    CommitInflightDebit tc s1 = Ok (tc', s2) ∧ CommitInflightCredit tc d1 = Ok (tc', d2)
    ∧ RollbackInflightDebit r s2 = Ok s3 ∧ RollbackInflightCredit r d2 = Ok d3
    ∧ amounts s3 = post_debit false p (amounts s)
    ∧ amounts d3 = post_credit false p (amounts d)
    ∧ balance_ok s3 ∧ balance_ok d3.
Proof.
  intros Hi Hs Hd Hid Hic E Ha -> Hp Hr Hc.
  apply UpdateBalances_Ok in E as (a' & s0 & Ha' & _ & -> & -> & Hi' & Hs0 & _).
  rewrite Ha in Ha'. injection Ha' as <-.
  assert (Hok0 : balance_ok s0 ∧ amounts s0 = amounts s).
  { destruct Hs0 as [->| ->]; auto using init_ok, init_amounts. }
  destruct Hok0 as [Hok0 Eam].
  destruct (debit_source_spec t1 s0 Hok0) as (Hs1 & _ & Es).
  destruct (credit_destination_spec t1 d Hd) as (Hd1 & _ & Ed).
  rewrite Ha, Hi', Hi, Eam in Es. rewrite Ha, Hi', Hi in Ed. cbn [ival] in Es, Ed.
  destruct (CommitInflightDebit_ok tc _ p Hc Hp Hs1) as (s2 & E2 & A2 & O2).
  { rewrite Es. cbn [post_debit post_credit credit debit icredit idebit]. lia. }
  destruct (CommitInflightCredit_ok tc _ p Hc Hp Hd1) as (d2 & F2 & B2 & P2).
  { rewrite Ed. cbn [post_debit post_credit credit debit icredit idebit]. lia. }
  destruct (RollbackInflightDebit_ok r s2 O2) as (s3 & E3 & A3 & O3).
  { rewrite A2, Es. cbn [commit_debit post_debit credit debit icredit idebit]. lia. }
  destruct (RollbackInflightCredit_ok r d2 P2) as (d3 & F3 & B3 & P3).
  { rewrite B2, Ed. cbn [commit_credit post_credit credit debit icredit idebit]. lia. }
  exists (ApplyPrecision tc).2, s2, d2, s3, d3. split_and!; try done.
  - rewrite A3, A2, Es. unfold post_debit, release_debit, commit_debit. cbn [credit debit icredit idebit]. f_equal; lia.
  - rewrite B3, B2, Ed. unfold post_credit, release_credit, commit_credit. cbn [credit debit icredit idebit]. f_equal; lia.
Qed.

(** The conversion of a decimal amount to minor units multiplies the
    shortest decimal text of the float amount by the precision exactly and
    rounds half away from zero: it is the nearest minor unit (error at most
    one half), and exact whenever the product is a whole number. *)
Theorem convertDecimalToPrecise_nearest t m e m' e' sg :
  t_Amount t = S754_finite sg m e → t_Precision t = S754_finite false m' e' →
  let exact := (Float64.shortest_Q (t_Amount t)
                * inject_Z (Float64.int_Q (t_Precision t)))%Q in
  convertDecimalToPrecise t = q_round0 exact
  ∧ 2 * Z.abs (convertDecimalToPrecise t * Zpos (Qden exact) - Qnum exact)
      <= Zpos (Qden exact)
  ∧ (∀ z, (exact == inject_Z z)%Q → convertDecimalToPrecise t = z).
Proof.
  intros Ha Hp exact.
  assert (E : convertDecimalToPrecise t = q_round0 exact).
  { apply convertDecimalToPrecise_round.
    - rewrite Ha. apply dec_of_string_shortest.
    - rewrite Hp. apply dec_of_string_int. }
  rewrite E. split; [done|]. split; [apply q_round0_error|].
  intros z Hz. rewrite Hz. apply q_round0_inject.
Qed.
End properties.

(** ** Witnesses *)

Definition ex_source : Balance :=
  empty_balance <| b_BalanceID := "bln_source" |> <| b_Version := 3 |>
    <| b_CreditBalance := Some 1000 |> <| b_Balance := Some 1000 |>.
Definition ex_destination : Balance := empty_balance <| b_BalanceID := "bln_dest" |>.
Definition ex_txn : Transaction :=
  empty_transaction <| t_PreciseAmount := Some 250 |>
    <| t_Precision := Float64.of_Z 100 |> <| t_Currency := "USD" |>.
Definition ex_hold : Transaction := ex_txn <| t_Inflight := true |>.
Definition ex_commit : Transaction := ex_txn <| t_PreciseAmount := Some 100 |>.
Definition ex_decimal : Transaction :=
  empty_transaction <| t_Amount := Float64.of_decimal 1005 (-3) |>
    <| t_Precision := Float64.of_Z 100 |>.

Lemma UpdateBalances_double_entry_witness :
  ∃ t' s' d', UpdateBalances ex_txn ex_source ex_destination = Ok (t', s', d')
    ∧ ∃ a, t_PreciseAmount t' = Some a ∧ 0 < a
      ∧ amounts s' = post_debit (t_Inflight ex_txn) a (amounts ex_source)
      ∧ amounts d' = post_credit (t_Inflight ex_txn) a (amounts ex_destination)
      ∧ balance_ok s' ∧ balance_ok d' ∧ same_identity ex_source s'
      ∧ same_identity ex_destination d'
      ∧ ival (b_Balance s') + ival (b_Balance d')
        = ival (b_Balance ex_source) + ival (b_Balance ex_destination)
      ∧ ival (b_InflightBalance s') + ival (b_InflightBalance d')
        = ival (b_InflightBalance ex_source) + ival (b_InflightBalance ex_destination).
Proof.
  run_ok (UpdateBalances ex_txn ex_source ex_destination) as [[t' s'] d'] E.
  exists t', s', d'. split; [done|].
  by apply (UpdateBalances_double_entry ex_txn ex_source ex_destination t' s' d').
Defined.

Lemma canProcessTransaction_spec_witness :
  is_ok (canProcessTransaction ex_txn ex_destination) = false
  ∧ is_ok (canProcessTransaction ex_txn ex_source) = true.
Proof.
  split.
  - destruct (canProcessTransaction ex_txn ex_destination) eqn:E; [|done].
    assert (Hok : is_ok (canProcessTransaction ex_txn ex_destination) = true) by by rewrite E.
    apply (canProcessTransaction_spec ex_txn ex_destination 250 eq_refl) in Hok.
    vm_compute in Hok. destruct Hok as [|[Hok|[]]]; [done|by destruct Hok|done].
  - apply (canProcessTransaction_spec ex_txn ex_source 250 eq_refl). right. left.
    vm_compute. discriminate.
Defined.

Lemma hold_commit_release_witness :
  ∃ t1 s1 d1, UpdateBalances ex_hold ex_source ex_destination = Ok (t1, s1, d1)
  ∧ ∃ tc' s2 d2 s3 d3,
      CommitInflightDebit ex_commit s1 = Ok (tc', s2)
      ∧ CommitInflightCredit ex_commit d1 = Ok (tc', d2)
      ∧ RollbackInflightDebit 150 s2 = Ok s3 ∧ RollbackInflightCredit 150 d2 = Ok d3
      ∧ amounts s3 = post_debit false 100 (amounts ex_source)
      ∧ amounts d3 = post_credit false 100 (amounts ex_destination)
      ∧ balance_ok s3 ∧ balance_ok d3.
Proof.
  run_ok (UpdateBalances ex_hold ex_source ex_destination) as [[t1 s1] d1] E.
  exists t1, s1, d1. split; [done|].
  apply (hold_commit_release ex_hold ex_source ex_destination t1 s1 d1 ex_commit 250 100 150);
    try done.
  vm_compute in E. by injection E as <- <- <-.
Defined.

(** 1.005 at precision 100 rounds to 101 minor units. *)
Lemma convertDecimalToPrecise_nearest_witness : convertDecimalToPrecise ex_decimal = 101.
Proof.
  assert (E : ∃ m e, t_Amount ex_decimal = S754_finite false m e) by (do 2 eexists; vm_compute; done).
  assert (E' : ∃ m e, t_Precision ex_decimal = S754_finite false m e) by (do 2 eexists; vm_compute; done).
  destruct E as (m & e & E), E' as (m' & e' & E').
  destruct (convertDecimalToPrecise_nearest ex_decimal m e m' e' false E E') as [-> _].
  vm_compute. reflexivity.
Defined.

End Balances.
