(* ===== verification/Sha256.v ===== *)
(** * SHA-256 and hexadecimal encoding

    The Go standard library's [sha256.Sum256] (FIPS 180-4) and
    [hex.EncodeToString], which the transaction hash and the hash chain use.
    Words are 32-bit integers with explicit wrap-around. *)

From S2P Require Import Prelude.

Module Sha256.

Definition wrap32 (x : Z) : Z := Z.land x 4294967295.
Definition add32 (x y : Z) : Z := wrap32 (x + y).
Definition not32 (x : Z) : Z := Z.lxor x 4294967295.
Definition rotr (n x : Z) : Z := Z.lor (Z.shiftr x n) (wrap32 (Z.shiftl x (32 - n))).
Definition shr (n x : Z) : Z := Z.shiftr x n.
Definition xor3 (x y z : Z) : Z := Z.lxor x (Z.lxor y z).

Definition ch (x y z : Z) : Z := Z.lxor (Z.land x y) (Z.land (not32 x) z).
Definition maj (x y z : Z) : Z := xor3 (Z.land x y) (Z.land x z) (Z.land y z).
Definition bsig0 (x : Z) : Z := xor3 (rotr 2 x) (rotr 13 x) (rotr 22 x).
Definition bsig1 (x : Z) : Z := xor3 (rotr 6 x) (rotr 11 x) (rotr 25 x).
Definition ssig0 (x : Z) : Z := xor3 (rotr 7 x) (rotr 18 x) (shr 3 x).
Definition ssig1 (x : Z) : Z := xor3 (rotr 17 x) (rotr 19 x) (shr 10 x).

(** The constants are fractional bits of roots of the first primes. *)
Definition is_prime (n : Z) : bool :=
  forallb (λ d, negb (n mod Z.of_nat d =? 0)) (seq 2 (Z.to_nat n - 2)).

Definition primes (count : nat) : list Z :=
  take count (List.filter is_prime (map Z.of_nat (seq 2 311))).

(** The integer cube root, bit by bit from bit [n]. *)
Fixpoint cube_root (n : nat) (x acc : Z) : Z :=
  let acc' := acc + 2 ^ Z.of_nat n in
  let acc := if acc' * acc' * acc' <=? x then acc' else acc in
  match n with O => acc | S n => cube_root n x acc end.

Definition round_constants : list Z :=
  Eval vm_compute in map (λ p, wrap32 (cube_root 36 (p * 2 ^ 96) 0)) (primes 64).

Definition initial_state : list Z :=
  Eval vm_compute in map (λ p, wrap32 (Z.sqrt (p * 2 ^ 64))) (primes 8).

(** The message schedule, kept as the sixteen latest words. *)
Definition next_word (w : list Z) : Z :=
  add32 (add32 (ssig1 (nth 14 w 0)) (nth 9 w 0)) (add32 (ssig0 (nth 1 w 0)) (nth 0 w 0)).

Definition round_step (k w : Z) (s : list Z) : list Z :=
  match s with
  | [a; b; c; d; e; f; g; h] =>
      let t1 := add32 (add32 (add32 h (bsig1 e)) (add32 (ch e f g) k)) w in
      let t2 := add32 (bsig0 a) (maj a b c) in
      [add32 t1 t2; a; b; c; add32 d t1; e; f; g]
  | _ => s
  end.

Fixpoint rounds (ks : list Z) (w s : list Z) : list Z :=
  match ks with
  | [] => s
  | k :: ks => rounds ks (tl w ++ [next_word w]) (round_step k (hd 0 w) s)
  end.

Definition compress (block s : list Z) : list Z :=
  zip_with add32 s (rounds round_constants block s).

Fixpoint words_of_bytes (l : list Z) : list Z :=
  match l with
  | a :: b :: c :: d :: l' =>
      (((a * 256 + b) * 256 + c) * 256 + d) :: words_of_bytes l'
  | _ => []
  end.

Fixpoint bytes_of_Z (n : nat) (z : Z) : list Z :=
  match n with
  | O => []
  | S n' => (z / 256 ^ Z.of_nat n') mod 256 :: bytes_of_Z n' z
  end.

Definition pad (msg : list Z) : list Z :=
  let len := Z.of_nat (length msg) in
  let zeros := (119 - len) mod 64 in
  msg ++ 128 :: repeat 0 (Z.to_nat zeros) ++ bytes_of_Z 8 (8 * len).

Fixpoint digest_blocks (n : nat) (w s : list Z) : list Z :=
  match n with
  | O => s
  | S n' => digest_blocks n' (drop 16 w) (compress (take 16 w) s)
  end.

Definition sum256 (msg : list Z) : list Z :=
  let w := words_of_bytes (pad msg) in
  flat_map (bytes_of_Z 4) (digest_blocks (length w / 16)%nat w initial_state).

Definition bytes_of_string (s : string) : list Z :=
  map (λ c, Z.of_N (N_of_ascii c)) (list_ascii_of_string s).

Definition hex_digit (d : Z) : ascii :=
  ascii_of_N (Z.to_N (if d <? 10 then 48 + d else 87 + d)).

(** [hex.EncodeToString]. *)
Fixpoint hex_encode (l : list Z) : string :=
  match l with
  | [] => ""
  | b :: l' => String (hex_digit (b / 16)) (String (hex_digit (b mod 16)) (hex_encode l'))
  end.

(** [hex.EncodeToString(sha256.Sum256([]byte(s)))]. *)
Definition sha256_hex (s : string) : string := hex_encode (sum256 (bytes_of_string s)).

Example sha256_abc : sha256_hex "abc"
  = "ba7816bf8f01cfea414140de5dae2223b00361a396177a9cb410ff61f20015ad".
Proof. vm_compute. reflexivity. Qed.

Example sha256_two_blocks :
  sha256_hex "abcdbcdecdefdefgefghfghighijhijkijkljklmklmnlmnomnopnopq"
  = "248d6a61d20638b8e5c026930c3e6039a33ce45964ff2167f6ecedd419db06c1".
Proof. vm_compute. reflexivity. Qed.

End Sha256.
