(* ===== verification/Chain.v ===== *)
(** * The transaction hash chain (model/chain.go, database/chain.go, chain_worker.go)

    Every transaction row older than a cutoff is sealed, in id order, onto one
    global chain: its hash covers the previous head and the row's immutable
    columns.  Sealing a batch is one database transaction that holds the
    [chain_state] row; the verifier replays the chain page by page while
    chainers keep sealing. *)

From S2P Require Import Prelude Types Time Sha256.

Module Chain.

(** ** Rows and their hash *)

Definition ChainGenesisHash : string :=
  "0000000000000000000000000000000000000000000000000000000000000000".

Record ChainRow := mkChainRow {
  cr_TransactionID : string;
  cr_Source : string;
  cr_Destination : string;
  cr_Amount : string;
  cr_PreciseAmount : string;
  cr_Currency : string;
  cr_Status : string;
  cr_Reference : string;
  cr_CreatedAt : time;
}.

Definition canonical (prevHash : string) (r : ChainRow) : string :=
  join "|" [prevHash; cr_TransactionID r; cr_Source r; cr_Destination r; cr_Amount r;
            cr_PreciseAmount r; cr_Currency r; cr_Status r; cr_Reference r;
            Time.format_rfc3339nano (cr_CreatedAt r)].

Definition ComputeChainHash (prevHash : string) (r : ChainRow) : string :=
  Sha256.sha256_hex (canonical prevHash r).

(** ** Tables

    A row of [blnk.transactions] with its nullable chain columns, and the one
    row of [blnk.chain_state]. *)

Record entry := mkEntry {
  e_id : Z;
  e_row : ChainRow;
  e_chain_seq : option Z;
  e_chain_prev_hash : option string;
  e_chain_hash : option string;
}.

Record ChainState := mkChainState {
  s_LastSeq : Z;
  s_HeadHash : string;
  s_GenesisHash : string;
  s_GenesisAt : time;
  s_UpdatedAt : time;
}.

Record db := mkDB { entries : list entry; chain_state : ChainState }.

(** What the migration leaves: every row unchained. *)
Definition migrated (at_ : time) : db :=
  mkDB [] (mkChainState 0 ChainGenesisHash ChainGenesisHash at_ at_).

(** [COALESCE(col, '')]. *)
Definition text (o : option string) : string := match o with Some s => s | None => "" end.

(** ** Sealing a batch *)

Inductive stmt :=
| BeginTx | LockState | ScanUnchained | ReadRow (i : nat) | IterateRows
| PrepareUpdate | WriteLink (i : nat) | AdvanceState | Commit.

(** Which statements of a call the database fails. *)
Abbreviation faults := (stmt → bool) (only parsing).
Definition no_faults : faults := λ _, false.

Definition exec (f : faults) (s : stmt) (msg : string) : result unit :=
  fail_if (f s) (EAPI "INTERNAL_SERVER_ERROR" msg).

Definition unchained_before (cutoff : time) (e : entry) : bool :=
  bool_decide (e_chain_seq e = None) && (cr_CreatedAt (e_row e) <? cutoff).

Definition pending (cutoff : time) (batchSize : nat) (d : db) : list entry :=
  take batchSize (order_asc e_id (List.filter (unchained_before cutoff) (entries d))).

Record link := mkLink { l_id : Z; l_seq : Z; l_prevHash : string; l_hash : string }.

Fixpoint link_rows (f : faults) (i : nat) (lastSeq : Z) (head : string) (rows : list entry)
    : result (list link * Z * string) :=
  match rows with
  | [] => Ok ([], lastSeq, head)
  | e :: rows' =>
      _ ← exec f (ReadRow i) "Failed to read unchained transaction";
      let prev := head in
      let head := ComputeChainHash prev (e_row e) in
      let lastSeq := lastSeq + 1 in
      rest ← link_rows f (S i) lastSeq head rows';
      let '(batch, lastSeq', head') := rest in
      Ok (mkLink (e_id e) lastSeq prev head :: batch, lastSeq', head')
  end.

(** The UPDATE of one row; the partial unique index refuses a position twice. *)
Definition write_link (l : link) (es : list entry) : result (list entry) :=
  if existsb (λ e, negb (e_id e =? l_id l) && bool_decide (e_chain_seq e = Some (l_seq l))) es
  then Err (EAPI "INTERNAL_SERVER_ERROR" "Failed to write chain link")
  else Ok (map (λ e, if e_id e =? l_id l
                     then mkEntry (e_id e) (e_row e) (Some (l_seq l))
                            (Some (l_prevHash l)) (Some (l_hash l))
                     else e) es).

Fixpoint write_links (f : faults) (i : nat) (batch : list link) (es : list entry)
    : result (list entry) :=
  match batch with
  | [] => Ok es
  | l :: batch' =>
      _ ← exec f (WriteLink i) "Failed to write chain link";
      es' ← write_link l es;
      write_links f (S i) batch' es'
  end.

Definition seal (f : faults) (cutoff : time) (batchSize : nat) (now : time) (d : db)
    : result (db * nat) :=
  _ ← exec f BeginTx "Failed to begin chain transaction";
  _ ← exec f LockState "Failed to lock chain state";
  let lastSeq := s_LastSeq (chain_state d) in
  let head := s_HeadHash (chain_state d) in
  _ ← exec f ScanUnchained "Failed to scan unchained transactions";
  linked ← link_rows f 0 lastSeq head (pending cutoff batchSize d);
  let '(batch, lastSeq, head) := linked in
  _ ← exec f IterateRows "Error iterating unchained transactions";
  match batch with
  | [] =>
      _ ← exec f Commit "Failed to commit empty chain batch";
      Ok (d, 0%nat)
  | _ =>
      _ ← exec f PrepareUpdate "Failed to prepare chain update";
      es ← write_links f 0 batch (entries d);
      _ ← exec f AdvanceState "Failed to advance chain state";
      _ ← exec f Commit "Failed to commit chain batch";
      let s := chain_state d in
      Ok (mkDB es (mkChainState lastSeq head (s_GenesisHash s) (s_GenesisAt s) now),
          length batch)
  end.

(** An error at any statement rolls the transaction back. *)
Definition ChainPendingTransactions (f : faults) (cutoff : time) (batchSize : nat)
    (now : time) (d : db) : db * result nat :=
  match seal f cutoff batchSize now d with
  | Ok (d', n) => (d', Ok n)
  | Err e => (d, Err e)
  end.

Definition maxBatchesPerTick : nat := 50.

(** [processTick]; the i-th batch of a tick runs under the i-th faults. *)
Fixpoint tick_batches (n : nat) (f : nat → faults) (cutoff : time) (batchSize : nat)
    (now : time) (d : db) : db :=
  match n with
  | O => d
  | S n' =>
      match ChainPendingTransactions (f n') cutoff batchSize now d with
      | (d', Ok sealed) =>
          if (sealed <? batchSize)%nat then d' else tick_batches n' f cutoff batchSize now d'
      | (d', Err _) => d'
      end
  end.

Definition processTick (f : nat → faults) (trailingDelay : Z) (batchSize : nat) (now : time)
    : db → db :=
  tick_batches maxBatchesPerTick f (now - trailingDelay) batchSize now.

(** The defaults [NewChainProcessor] puts in for an unset configuration. *)
Definition chain_batchSize (configured : Z) : Z := if configured <=? 0 then 1000 else configured.
Definition chain_trailingDelay (configured : Z) : Z :=
  if configured <=? 0 then 30 * Time.second else configured.

(** ** Verifying *)

Record ChainedTransaction := mkChained {
  ct_Row : ChainRow;
  ct_ChainSeq : Z;
  ct_ChainPrevHash : string;
  ct_ChainHash : string;
}.

Definition seq_of (e : entry) : Z := match e_chain_seq e with Some n => n | None => 0 end.

Definition chained_after (afterSeq : Z) (e : entry) : bool :=
  match e_chain_seq e with Some n => afterSeq <? n | None => false end.

Definition scan_chained (e : entry) : ChainedTransaction :=
  mkChained (e_row e) (seq_of e) (text (e_chain_prev_hash e)) (text (e_chain_hash e)).

Definition GetChainedTransactionsAfter (d : db) (afterSeq : Z) (limit : nat)
    : list ChainedTransaction :=
  map scan_chained
    (take limit (order_asc seq_of (List.filter (chained_after afterSeq) (entries d)))).

Definition CountUnchainedTransactions (d : db) (cutoff : time) : Z :=
  Z.of_nat (length (List.filter (unchained_before cutoff) (entries d))).

Record ChainVerifyResult := mkVerify {
  v_Verified : bool;
  v_LastSeq : Z;
  v_HeadHash : string;
  v_BrokenSeq : Z;
  v_BrokenTxnID : string;
  v_Reason : string;
}.

Definition broken_at (ct : ChainedTransaction) (reason : string) : ChainVerifyResult :=
  mkVerify false 0 "" (ct_ChainSeq ct) (cr_TransactionID (ct_Row ct)) reason.

(** One page: a broken link, or the new head and position. *)
Fixpoint verify_rows (rows : list ChainedTransaction) (head : string) (lastSeq expectedSeq : Z)
    : ChainVerifyResult + string * Z * Z :=
  match rows with
  | [] => inr (head, lastSeq, expectedSeq)
  | ct :: rows' =>
      if negb (ct_ChainSeq ct =? expectedSeq) then
        inl (broken_at ct ("non-contiguous chain_seq: expected " +:+ Z_to_string expectedSeq
               +:+ ", got " +:+ Z_to_string (ct_ChainSeq ct)))
      else if negb (String.eqb (ct_ChainPrevHash ct) head) then
        inl (broken_at ct "chain_prev_hash does not match the running head")
      else if negb (String.eqb (ComputeChainHash head (ct_Row ct)) (ct_ChainHash ct)) then
        inl (broken_at ct "recomputed hash does not match stored chain_hash")
      else verify_rows rows' (ct_ChainHash ct) (ct_ChainSeq ct) (expectedSeq + 1)
  end.

Definition verify_page : nat := 1000.

(** The [for] loop; [view k] is the database as the k-th query finds it, or
    the error of that query. *)
Fixpoint verify_pages (fuel k : nat) (view : nat → result db) (head : string)
    (lastSeq expectedSeq : Z) : option (result (ChainVerifyResult + string * Z)) :=
  match fuel with
  | O => None
  | S fuel' =>
      match view k with
      | Err e => Some (Err e)
      | Ok d =>
          match GetChainedTransactionsAfter d lastSeq verify_page with
          | [] => Some (Ok (inr (head, lastSeq)))
          | rows =>
              match verify_rows rows head lastSeq expectedSeq with
              | inl broken => Some (Ok (inl broken))
              | inr (head, lastSeq, expectedSeq) =>
                  verify_pages fuel' (S k) view head lastSeq expectedSeq
              end
          end
      end
  end.

Definition VerifyChain (fuel : nat) (view : nat → result db) : option (result ChainVerifyResult) :=
  match view O with
  | Err e => Some (Err e)
  | Ok d =>
      let state := chain_state d in
      match verify_pages fuel 1 view (s_GenesisHash state) 0 1 with
      | None => None
      | Some (Err e) => Some (Err e)
      | Some (Ok (inl broken)) => Some (Ok broken)
      | Some (Ok (inr (head, lastSeq))) =>
          if (lastSeq =? s_LastSeq state) && negb (String.eqb head (s_HeadHash state)) then
            Some (Ok (mkVerify false 0 "" lastSeq ""
                        "replayed head does not match chain_state head_hash"))
          else Some (Ok (mkVerify true lastSeq head 0 "" ""))
      end
  end.

(** ** The chain as a list

    A path: the sealed entries in order of position. *)

Fixpoint path_from (n : Z) (head : string) (path : list entry) : Prop :=
  match path with
  | [] => True
  | e :: path' =>
      e_chain_seq e = Some n ∧ e_chain_prev_hash e = Some head
      ∧ e_chain_hash e = Some (ComputeChainHash head (e_row e))
      ∧ path_from (n + 1) (ComputeChainHash head (e_row e)) path'
  end.

(** The head after sealing rows onto a head. *)
Fixpoint head_after (head : string) (rows : list ChainRow) : string :=
  match rows with [] => head | r :: rows' => head_after (ComputeChainHash head r) rows' end.

Definition sealed_entries (d : db) : list entry := List.filter (chained_after 0) (entries d).

Record chain_of (d : db) (path : list entry) : Prop := {
  path_ids : NoDup (map e_id (entries d));
  path_sealed : Permutation (List.filter (λ e, bool_decide (is_Some (e_chain_seq e))) (entries d)) path;
  path_links : path_from 1 ChainGenesisHash path;
  path_seq : s_LastSeq (chain_state d) = Z.of_nat (length path);
  path_head : s_HeadHash (chain_state d) = head_after ChainGenesisHash (map e_row path);
  path_genesis : s_GenesisHash (chain_state d) = ChainGenesisHash;
}.

(** Steps of the system: a new row under an id of its own, a batch sealed by
    some chainer. *)
Inductive step : db → db → Prop :=
| step_insert d id r :
    (∀ e, e ∈ entries d → e_id e ≠ id) →
    step d (mkDB (entries d ++ [mkEntry id r None None None]) (chain_state d))
| step_seal d f cutoff batchSize now :
    step d (ChainPendingTransactions f cutoff batchSize now d).1.

Definition steps : db → db → Prop := rtc step.
Definition reachable (d : db) : Prop := ∃ at_, steps (migrated at_) d.

(** ** Sealing extends the path *)

Fixpoint links_of (n : Z) (head : string) (rows : list entry) : list link :=
  match rows with
  | [] => []
  | e :: rows' =>
      let h := ComputeChainHash head (e_row e) in
      mkLink (e_id e) (n + 1) head h :: links_of (n + 1) h rows'
  end.

(** The rows with their chain columns filled in. *)
Fixpoint sealed (n : Z) (head : string) (rows : list entry) : list entry :=
  match rows with
  | [] => []
  | e :: rows' =>
      let h := ComputeChainHash head (e_row e) in
      mkEntry (e_id e) (e_row e) (Some (n + 1)) (Some head) (Some h) :: sealed (n + 1) h rows'
  end.

Lemma sealed_map_row n h rows : map e_row (sealed n h rows) = map e_row rows.
Proof. revert n h. induction rows as [|e rows IH]; intros n h; simpl; [done|]. by rewrite IH. Qed.

Lemma sealed_length n h rows : length (sealed n h rows) = length rows.
Proof. revert n h. induction rows as [|e rows IH]; intros n h; simpl; [done|]. by rewrite IH. Qed.

Lemma sealed_path n h rows : path_from (n + 1) h (sealed n h rows).
Proof. revert n h. induction rows as [|e rows IH]; intros n h; simpl; [done|]. by split_and!. Qed.

Lemma path_from_app n h p q :
  path_from n h (p ++ q)
  ↔ path_from n h p ∧ path_from (n + Z.of_nat (length p)) (head_after h (map e_row p)) q.
Proof.
  revert n h. induction p as [|e p IH]; intros n h; cbn [app path_from length map head_after].
  - change (Z.of_nat 0) with 0. rewrite Z.add_0_r. tauto.
  - rewrite IH. replace (n + 1 + Z.of_nat (length p)) with (n + Z.of_nat (S (length p))) by lia.
    tauto.
Qed.

Lemma head_after_app h p q : head_after h (p ++ q) = head_after (head_after h p) q.
Proof. revert h. induction p as [|r p IH]; intros h; simpl; [done|]. by rewrite IH. Qed.

Lemma link_rows_Ok f i n h rows batch n' h' :
  link_rows f i n h rows = Ok (batch, n', h') →
  link_rows no_faults i n h rows = Ok (batch, n', h').
Proof.
  revert i n h batch n' h'. induction rows as [|e rows IH]; intros i n h batch n' h' H; [done|].
  cbn [link_rows] in H |- *. apply bind_Ok in H as ([] & _ & H).
  apply bind_Ok in H as ([[b m] g] & H1 & H). rewrite <- H.
  cbn [exec no_faults fail_if mbind result_bind]. by rewrite (IH _ _ _ _ _ _ H1).
Qed.

Lemma link_rows_spec i n h rows :
  link_rows no_faults i n h rows
  = Ok (links_of n h rows, n + Z.of_nat (length rows), head_after h (map e_row rows)).
Proof.
  revert i n h. induction rows as [|e rows IH]; intros i n h; simpl.
  - by rewrite Z.add_0_r.
  - rewrite IH. simpl. do 3 f_equal. lia.
Qed.

Lemma write_links_Ok f i batch es es' :
  write_links f i batch es = Ok es' → write_links no_faults i batch es = Ok es'.
Proof.
  revert i es. induction batch as [|l batch IH]; intros i es H; [done|].
  cbn [write_links] in H |- *. apply bind_Ok in H as ([] & _ & H).
  apply bind_Ok in H as (es1 & H1 & H). apply IH in H.
  cbn [exec no_faults fail_if mbind result_bind]. by rewrite H1.
Qed.

(** Filling in the link of one row, found by its id. *)
Lemma write_link_spec l e es others :
  NoDup (map e_id es) → es ≡ₚ e :: others → l_id l = e_id e →
  (∀ x, x ∈ es → e_chain_seq x ≠ Some (l_seq l)) →
  ∃ es', write_link l es = Ok es' ∧ map e_id es' = map e_id es
    ∧ es' ≡ₚ mkEntry (e_id e) (e_row e) (Some (l_seq l)) (Some (l_prevHash l))
              (Some (l_hash l)) :: others.
Proof.
  intros Hnd Hp Hid Hfree. unfold write_link.
  destruct (existsb _ es) eqn:Hex.
  { apply existsb_exists in Hex as (x & Hx & Hb). zbool.
    apply list_elem_of_In in Hx. by destruct (Hfree x Hx). }
  eexists. split; [done|]. split.
  - rewrite map_map. apply map_ext_in. intros x _. by destruct (e_id x =? l_id l).
  - rewrite Hp. cbn [map]. rewrite <- Hid, Z.eqb_refl, Hid. f_equiv.
    rewrite Hp in Hnd. cbn [map] in Hnd. apply NoDup_cons in Hnd as [Hnin _].
    clear -Hnin Hid. induction others as [|x others IH]; [done|]. cbn [map] in Hnin |- *.
    apply not_elem_of_cons in Hnin as [Hne Hnin]. rewrite (IH Hnin).
    destruct (Z.eqb_spec (e_id x) (e_id e)); [congruence|done].
Qed.

Definition seqs_below (n : Z) (es : list entry) : Prop :=
  ∀ x k, x ∈ es → e_chain_seq x = Some k → k <= n.

Lemma write_links_spec i n h rows es others :
  NoDup (map e_id es) → es ≡ₚ rows ++ others → seqs_below n es →
  ∃ es', write_links no_faults i (links_of n h rows) es = Ok es'
    ∧ map e_id es' = map e_id es ∧ es' ≡ₚ sealed n h rows ++ others.
Proof.
  revert i n h es others. induction rows as [|e rows IH]; intros i n h es others Hnd Hp Hle.
  { by exists es. }
  cbn [links_of write_links sealed]. set (l := mkLink _ _ _ _).
  destruct (write_link_spec l e es (rows ++ others)) as (es1 & E1 & Hid1 & Hp1);
    [exact Hnd|exact Hp|done| |].
  { intros x Hx Hk. specialize (Hle x _ Hx Hk). simpl in Hle. lia. }
  cbn [exec no_faults fail_if mbind result_bind]. rewrite E1. cbn [mbind result_bind].
  subst l. cbn [l_id l_seq l_prevHash l_hash] in Hp1.
  destruct (IH (S i) (n + 1) (ComputeChainHash h (e_row e)) es1
    (mkEntry (e_id e) (e_row e) (Some (n + 1)) (Some h)
       (Some (ComputeChainHash h (e_row e))) :: others)) as (es2 & E2 & Hid2 & Hp2).
  - by rewrite Hid1.
  - rewrite Hp1. apply Permutation_middle.
  - intros x k Hx Hk. rewrite Hp1 in Hx. apply elem_of_cons in Hx as [->|Hx].
    + injection Hk as <-. lia.
    + assert (k <= n); [|lia]. apply (Hle x); [|done]. rewrite Hp. by right.
  - exists es2. split; [done|]. split; [congruence|]. rewrite Hp2.
    by rewrite <- Permutation_middle.
Qed.

Lemma pending_split cutoff batch d :
  ∃ others, entries d ≡ₚ pending cutoff batch d ++ others.
Proof.
  unfold pending. set (u := List.filter (unchained_before cutoff) (entries d)).
  exists (drop batch (order_asc e_id u)
          ++ List.filter (λ e, negb (unchained_before cutoff e)) (entries d)).
  rewrite app_assoc, take_drop, order_asc_perm. apply list_filter_split.
Qed.

Lemma pending_unchained cutoff batch d e :
  e ∈ pending cutoff batch d → e_chain_seq e = None ∧ cr_CreatedAt (e_row e) < cutoff.
Proof.
  intros He. unfold pending in He. apply elem_of_take in He as (i & Hi & _).
  apply list_elem_of_lookup_2 in Hi. rewrite order_asc_perm in Hi.
  apply elem_of_list_filter in Hi as [_ Hb]. unfold unchained_before in Hb. by zbool.
Qed.

Lemma path_from_seq n h p e :
  path_from n h p → e ∈ p → ∃ k, e_chain_seq e = Some k ∧ n <= k < n + Z.of_nat (length p).
Proof.
  revert n h. induction p as [|x p IH]; intros n h Hp He; [by apply not_elem_of_nil in He|].
  destruct Hp as (Hs & _ & _ & Hp). cbn [length]. apply elem_of_cons in He as [->|He].
  - exists n. split; [done|lia].
  - destruct (IH _ _ Hp He) as (k & ? & ?). exists k. split; [done|lia].
Qed.

Lemma chain_of_below d path :
  chain_of d path → seqs_below (s_LastSeq (chain_state d)) (entries d).
Proof.
  intros [_ Hp Hl Hn _ _] x k Hx Hk. rewrite Hn.
  assert (Hin : x ∈ path).
  { rewrite <- Hp. apply elem_of_list_filter. split; [done|].
    apply bool_decide_eq_true. by exists k. }
  destruct (path_from_seq _ _ _ _ Hl Hin) as (k' & E & ?).
  rewrite Hk in E. injection E as ->. lia.
Qed.

(** The database after sealing a batch. *)
Lemma seal_spec cutoff batch now d path :
  chain_of d path →
  let rows := pending cutoff batch d in
  ∃ d', seal no_faults cutoff batch now d = Ok (d', length rows)
    ∧ map e_id (entries d') = map e_id (entries d)
    ∧ (∀ others, entries d ≡ₚ rows ++ others →
         entries d' ≡ₚ sealed (s_LastSeq (chain_state d)) (s_HeadHash (chain_state d)) rows ++ others)
    ∧ s_LastSeq (chain_state d') = s_LastSeq (chain_state d) + Z.of_nat (length rows)
    ∧ s_HeadHash (chain_state d') = head_after (s_HeadHash (chain_state d)) (map e_row rows)
    ∧ s_GenesisHash (chain_state d') = s_GenesisHash (chain_state d).
Proof.
  intros Hc rows. unfold seal. cbn [exec no_faults fail_if mbind result_bind].
  rewrite link_rows_spec. cbn [mbind result_bind]. fold rows.
  set (n := s_LastSeq (chain_state d)). set (h := s_HeadHash (chain_state d)).
  destruct rows as [|e rows'] eqn:Er.
  { exists d. cbn [links_of length map head_after sealed app]. split_and!; try done.
    change (Z.of_nat 0) with 0. lia. }
  rewrite <- Er.
  assert (Hw : ∀ others, entries d ≡ₚ rows ++ others → ∃ es',
    write_links no_faults 0 (links_of n h rows) (entries d) = Ok es'
    ∧ map e_id es' = map e_id (entries d) ∧ es' ≡ₚ sealed n h rows ++ others).
  { intros others Ho. apply write_links_spec; [by destruct Hc|done|].
    by apply (chain_of_below d path). }
  destruct (pending_split cutoff batch d) as [others Ho]. fold rows in Ho.
  destruct (Hw others Ho) as (es' & E & Hids & Hp).
  assert (Hlen : length (links_of n h rows) = length rows).
  { generalize n h rows. clear. intros n h rows. revert n h.
    induction rows as [|x rows IH]; intros n h; simpl; [done|]. by rewrite IH. }
  destruct (links_of n h rows) as [|l ls] eqn:El; [by rewrite Er in El|].
  rewrite E. cbn [mbind result_bind]. rewrite Hlen.
  eexists. split; [done|]. cbn [entries chain_state s_LastSeq s_HeadHash s_GenesisHash].
  split_and!; try done.
  intros o Ho'. destruct (Hw o Ho') as (es2 & E2 & _ & Hp2). congruence.
Qed.

Lemma seal_no_faults f cutoff batch now d r :
  seal f cutoff batch now d = Ok r → seal no_faults cutoff batch now d = Ok r.
Proof.
  unfold seal. intros H. do 3 (apply bind_Ok in H as ([] & _ & H)).
  apply bind_Ok in H as ([[b n] h] & E & H). apply link_rows_Ok in E.
  cbn [exec no_faults fail_if mbind result_bind]. rewrite E. cbn [mbind result_bind].
  apply bind_Ok in H as ([] & _ & H). destruct b as [|l b].
  - by apply bind_Ok in H as ([] & _ & H).
  - apply bind_Ok in H as ([] & _ & H). apply bind_Ok in H as (es & E2 & H).
    apply write_links_Ok in E2. rewrite E2. cbn [mbind result_bind].
    apply bind_Ok in H as ([] & _ & H). by apply bind_Ok in H as ([] & _ & H).
Qed.

(** What a batch, failed or not, does to the chain: it appends rows. *)
Lemma seal_extends f cutoff batch now d path :
  chain_of d path →
  ∃ ext, chain_of (ChainPendingTransactions f cutoff batch now d).1 (path ++ ext).
Proof.
  intros Hc. unfold ChainPendingTransactions.
  destruct (seal f cutoff batch now d) as [[d' k]|e] eqn:E; [|by exists []; rewrite app_nil_r].
  apply seal_no_faults in E.
  destruct (seal_spec cutoff batch now d path Hc) as (d2 & E2 & Hids & Hent & Hseq & Hhead & Hgen).
  rewrite E in E2. injection E2 as -> _. set (rows := pending cutoff batch d) in *.
  exists (sealed (s_LastSeq (chain_state d)) (s_HeadHash (chain_state d)) rows).
  destruct Hc as [Hnd Hp Hl Hn Hh Hg]. cbn [fst]. split.
  - by rewrite Hids.
  - destruct (pending_split cutoff batch d) as [others Ho]. fold rows in Ho.
    rewrite (Hent others Ho). rewrite Ho in Hp. rewrite List.filter_app in Hp |- *.
    assert (Hnone : List.filter (λ e, bool_decide (is_Some (e_chain_seq e))) rows = []).
    { apply list_filter_none. intros x Hx. by apply pending_unchained in Hx as [-> _]. }
    rewrite Hnone in Hp. cbn [app] in Hp. rewrite Hp, list_filter_all; [apply Permutation_app_comm|].
    intros x Hx. apply bool_decide_eq_true.
    destruct (path_from_seq _ _ _ x (sealed_path (s_LastSeq (chain_state d)) _ rows) Hx)
      as (j & Hj & _). by exists j.
  - rewrite path_from_app. split; [done|]. rewrite <- Hh.
    replace (1 + Z.of_nat (length path)) with (s_LastSeq (chain_state d) + 1) by lia.
    apply sealed_path.
  - rewrite length_app, sealed_length. lia.
  - rewrite Hhead, Hh, map_app, sealed_map_row. by rewrite head_after_app.
  - congruence.
Qed.

(** ** The chain along a run *)

Lemma migrated_chain at_ : chain_of (migrated at_) [].
Proof. split; simpl; try done. constructor. Qed.

Lemma step_extends d d' path :
  step d d' → chain_of d path → ∃ ext, chain_of d' (path ++ ext).
Proof.
  intros [d0 id r Hfresh|d0 f cutoff batch now] Hc; [|by apply seal_extends].
  exists []. rewrite app_nil_r. destruct Hc as [Hnd Hp Hl Hn Hh Hg].
  split; cbn [entries chain_state]; try done.
  - rewrite map_app. apply NoDup_app. split_and!; [done| |apply NoDup_singleton].
    intros x Hx Hin. apply list_elem_of_singleton in Hin as ->. cbn [e_id] in Hx.
    apply list_elem_of_fmap in Hx as (e & E & He). by destruct (Hfresh e He).
  - rewrite List.filter_app. simpl. by rewrite app_nil_r.
Qed.

Lemma steps_extend d d' path :
  steps d d' → chain_of d path → ∃ ext, chain_of d' (path ++ ext).
Proof.
  intros H. revert path. induction H as [d|d d1 d2 H1 _ IH]; intros path Hc.
  - exists []. by rewrite app_nil_r.
  - destruct (step_extends _ _ _ H1 Hc) as [e1 Hc1]. destruct (IH _ Hc1) as [e2 Hc2].
    exists (e1 ++ e2). by rewrite app_assoc.
Qed.

Lemma reachable_chain d : reachable d → ∃ path, chain_of d path.
Proof. intros [at_ H]. exact (steps_extend _ _ [] H (migrated_chain at_)). Qed.

(** ** Replaying a well-formed chain *)

Lemma path_sorted n h p : path_from n h p → StronglySorted (key_lt seq_of) p.
Proof.
  revert n h. induction p as [|e p IH]; intros n h Hp; constructor.
  - destruct Hp as (_ & _ & _ & Hp). by eapply IH.
  - destruct Hp as (Hs & _ & _ & Hp). apply Forall_forall. intros x Hx.
    destruct (path_from_seq _ _ _ _ Hp Hx) as (k & Hk & ?). unfold key_lt, seq_of.
    rewrite Hs, Hk. lia.
Qed.

Lemma path_after n h p k :
  path_from n h p → List.filter (chained_after (n - 1 + Z.of_nat k)) p = drop k p.
Proof.
  revert n h k. induction p as [|e p IH]; intros n h k Hp; [by destruct k|].
  pose proof Hp as (Hs & _ & _ & Hp'). cbn [List.filter]. unfold chained_after at 1. rewrite Hs.
  destruct k as [|k].
  - rewrite (proj2 (Z.ltb_lt _ _)) by lia. f_equal.
    rewrite list_filter_all; [done|]. intros x Hx.
    destruct (path_from_seq _ _ _ _ Hp' Hx) as (j & Hj & ?). unfold chained_after. rewrite Hj.
    apply Z.ltb_lt. lia.
  - rewrite (proj2 (Z.ltb_ge _ _)) by lia. cbn [drop].
    rewrite <- (IH _ _ k Hp'). f_equal. f_equal. lia.
Qed.

Lemma chain_query d path k :
  chain_of d path →
  order_asc seq_of (List.filter (chained_after (Z.of_nat k)) (entries d)) = drop k path.
Proof.
  intros [_ Hp Hl _ _ _].
  rewrite <- (path_after 1 ChainGenesisHash path k Hl). apply order_asc_unique.
  - apply StronglySorted_filter. by eapply path_sorted.
  - replace (1 - 1 + Z.of_nat k) with (Z.of_nat k) by lia. rewrite <- Hp.
    clear. induction (entries d) as [|e es IH]; [done|]. cbn [List.filter].
    destruct (bool_decide_reflect (is_Some (e_chain_seq e))) as [_|Hn]; cbn [List.filter].
    + destruct (chained_after (Z.of_nat k) e); [by f_equiv|done].
    + unfold chained_after at 1. destruct (e_chain_seq e); [by destruct Hn; eexists|done].
Qed.

Lemma page_of_chain d path k limit :
  chain_of d path →
  GetChainedTransactionsAfter d (Z.of_nat k) limit = map scan_chained (take limit (drop k path)).
Proof. intros Hc. unfold GetChainedTransactionsAfter. by rewrite (chain_query d path k Hc). Qed.

Lemma verify_rows_path n h p last :
  path_from n h p →
  verify_rows (map scan_chained p) h last n
  = inr (head_after h (map e_row p), match p with [] => last | _ => n + Z.of_nat (length p) - 1 end,
         n + Z.of_nat (length p)).
Proof.
  revert n h last. induction p as [|e p IH]; intros n h last Hp.
  { cbn [map verify_rows head_after length]. change (Z.of_nat 0) with 0. by rewrite Z.add_0_r. }
  destruct Hp as (Hs & Hprev & Hhash & Hp). cbn [map verify_rows].
  change (ct_ChainSeq (scan_chained e)) with (seq_of e).
  change (ct_ChainPrevHash (scan_chained e)) with (text (e_chain_prev_hash e)).
  change (ct_ChainHash (scan_chained e)) with (text (e_chain_hash e)).
  change (ct_Row (scan_chained e)) with (e_row e).
  unfold seq_of. rewrite Hs, Hprev, Hhash. cbn [text]. rewrite Z.eqb_refl, !String.eqb_refl.
  cbn [negb]. rewrite (IH _ _ _ Hp). cbn [map head_after length]. do 2 f_equal; [|lia].
  f_equal. destruct p; simpl length; lia.
Qed.

(** The database as successive queries of a verification may find it: each
    state develops into the next. *)
Definition live_view (dbs : nat → db) : Prop := ∀ k, steps (dbs k) (dbs (S k)).

Lemma live_paths dbs p0 :
  live_view dbs → chain_of (dbs O) p0 →
  ∀ k, ∃ p, chain_of (dbs k) p ∧ p0 `prefix_of` p.
Proof.
  intros Hl H0 k. induction k as [|k (p & Hp & Hpre)]; [by exists p0|].
  destruct (steps_extend _ _ _ (Hl k) Hp) as [ext He]. exists (p ++ ext).
  split; [done|]. etrans; [done|]. by exists ext.
Qed.

Lemma chain_length d path : chain_of d path → (length path ≤ length (entries d))%nat.
Proof.
  intros [_ Hp _ _ _ _]. rewrite <- Hp. apply List.filter_length_le.
Qed.

Lemma chain_genesis d path : chain_of d path → s_GenesisHash (chain_state d) = ChainGenesisHash.
Proof. by intros []. Qed.

(** One page of a replay: from position [m] to position [m + length seg]. *)
Lemma path_segment n g p m seg rest :
  path_from n g p → drop m p = seg ++ rest → (m ≤ length p)%nat →
  path_from (n + Z.of_nat m) (head_after g (map e_row (take m p))) seg
  ∧ take (m + length seg) p = take m p ++ seg.
Proof.
  intros Hp Hd Hm. split.
  - rewrite <- (take_drop m p), Hd, !path_from_app in Hp.
    destruct Hp as (_ & Hp & _). rewrite length_take in Hp.
    by replace (Nat.min m (length p)) with m in Hp by lia.
  - rewrite <- (take_drop m p) at 1. rewrite Hd, app_assoc, take_app_le.
    + apply take_ge. rewrite length_app, length_take. lia.
    + rewrite length_app, length_take. lia.
Qed.

Section live.
Context (dbs : nat → db) (N : nat).
Context (Hlive : live_view dbs) (Hbound : ∀ k, (length (entries (dbs k)) ≤ N)%nat).

(** The replay of a live chain ends, having read at least what was sealed when
    it started. *)
Lemma verify_pages_live fuel k m p :
  chain_of (dbs k) p → (m ≤ length p)%nat → (N - m < fuel)%nat →
  ∃ K p' m', chain_of (dbs K) p' ∧ p `prefix_of` p' ∧ (m ≤ m' ≤ length p')%nat
    ∧ (length p ≤ m')%nat
    ∧ verify_pages fuel k (λ k, Ok (dbs k)) (head_after ChainGenesisHash (map e_row (take m p)))
        (Z.of_nat m) (1 + Z.of_nat m)
      = Some (Ok (inr (head_after ChainGenesisHash (map e_row (take m' p')), Z.of_nat m'))).
Proof.
  revert k m p. induction fuel as [|fuel IH]; intros k m p Hc Hm Hf; [lia|].
  cbn [verify_pages]. rewrite (page_of_chain _ _ m verify_page Hc).
  destruct (take verify_page (drop m p)) as [|e seg] eqn:Eseg.
  { assert (length p = m) as <-.
    { apply (f_equal length) in Eseg. rewrite length_take, length_drop in Eseg.
      change (length (@nil entry)) with 0%nat in Eseg. unfold verify_page in Eseg. lia. }
    exists k, p, (length p). split_and!; try done; lia. }
  cbn [map]. change (scan_chained e :: map scan_chained seg) with (map scan_chained (e :: seg)).
  rewrite <- Eseg. set (pg := take verify_page (drop m p)) in *.
  assert (Hd : drop m p = pg ++ drop verify_page (drop m p)) by (symmetry; apply take_drop).
  destruct (path_segment _ _ _ _ _ _ (path_links _ _ Hc) Hd Hm) as [Hpg Ht].
  rewrite (verify_rows_path _ _ _ _ Hpg).
  assert (Hlen : (0 < length pg)%nat) by (rewrite Eseg; simpl; lia).
  assert (Hle : (m + length pg ≤ length p)%nat).
  { apply (f_equal length) in Hd. rewrite length_app, length_drop in Hd. lia. }
  destruct (steps_extend _ _ _ (Hlive k) Hc) as [ext Hc'].
  destruct (IH (S k) (m + length pg)%nat (p ++ ext) Hc') as (K & p' & m' & H1 & H2 & H3 & H4 & H5).
  - rewrite length_app. lia.
  - pose proof (chain_length _ _ Hc). specialize (Hbound k). lia.
  - exists K, p', m'. split_and!; try done; [|lia|lia| |].
    + etrans; [|done]. by exists ext.
    + rewrite length_app in H4. lia.
    + rewrite take_app_le, Ht, map_app, head_after_app in H5 by lia. rewrite <- H5.
      assert (1 + Z.of_nat m + Z.of_nat (length pg) - 1 = Z.of_nat (m + length pg)) as El by lia.
      assert (1 + Z.of_nat m + Z.of_nat (length pg) = 1 + Z.of_nat (m + length pg)) as El2 by lia.
      destruct pg; [simpl in Hlen; lia|]. by rewrite El, El2.
Qed.

(** C24. A chain that only chainers wrote verifies: whatever batches were
    sealed, failed or were rolled back before, and whatever is inserted and
    sealed between the pages of the replay, [VerifyChain] ends and reports
    success, at a position not before the one recorded when it started and
    with the head of that position. *)
Theorem sealed_chain_verifies fuel :
  reachable (dbs 0%nat) → (N < fuel)%nat →
  ∃ m head, VerifyChain fuel (λ k, Ok (dbs k)) = Some (Ok (mkVerify true m head 0 "" ""))
    ∧ s_LastSeq (chain_state (dbs 0%nat)) <= m
    ∧ (m = s_LastSeq (chain_state (dbs 0%nat)) → head = s_HeadHash (chain_state (dbs 0%nat))).
Proof.
  intros Hr Hf. destruct (reachable_chain _ Hr) as [p0 H0].
  destruct (steps_extend _ _ _ (Hlive 0%nat) H0) as [ext H1].
  destruct (verify_pages_live fuel 1 0 _ H1) as (K & p & m & Hc & Hpre & Hm & Hm2 & E); [lia|lia|].
  assert (Hhead : m = length p0 →
    head_after ChainGenesisHash (map e_row (take m p)) = s_HeadHash (chain_state (dbs 0%nat))).
  { intros ->. rewrite (path_head _ _ H0). destruct Hpre as [q ->].
    by rewrite <- app_assoc, take_app_length. }
  exists (Z.of_nat m), (head_after ChainGenesisHash (map e_row (take m p))).
  unfold VerifyChain. rewrite (chain_genesis _ _ H0), (path_seq _ _ H0).
  rewrite take_0 in E. change (1 + Z.of_nat 0) with 1 in E. change (Z.of_nat 0) with 0 in E.
  cbn [map head_after] in E. rewrite E.
  rewrite length_app in Hm2. split; [|split; [lia|intros ?; apply Hhead; lia]].
  destruct (Z.eqb_spec (Z.of_nat m) (Z.of_nat (length p0))) as [Em|_]; [|done].
  rewrite Hhead, String.eqb_refl by lia. done.
Qed.
End live.

(** ** What a verified chain proves about the table *)

(** Rows without the separator, created in a year the layout covers. *)
Definition plain (r : ChainRow) : Prop :=
  forallb (free_of "|") [cr_TransactionID r; cr_Source r; cr_Destination r; cr_Amount r;
    cr_PreciseAmount r; cr_Currency r; cr_Status r; cr_Reference r] = true
  ∧ Time.printable (cr_CreatedAt r).

Lemma canonical_inj h1 h2 r1 r2 :
  free_of "|" h1 = true → free_of "|" h2 = true → plain r1 → plain r2 →
  canonical h1 r1 = canonical h2 r2 → h1 = h2 ∧ r1 = r2.
Proof.
  intros Hh1 Hh2 [Hr1 Ht1] [Hr2 Ht2] E. cbn [forallb] in Hr1, Hr2. zbool.
  unfold canonical in E. cbn [join] in E.
  repeat (apply cut_at_separator in E as [? E]; [|assumption|assumption]).
  apply Time.format_rfc3339nano_inj in E; [|done..].
  destruct r1, r2; simpl in *. split; congruence.
Qed.

Lemma hex_free l : Forall (λ b, 0 <= b < 256) l → free_of "|" (Sha256.hex_encode l) = true.
Proof.
  induction 1 as [|b l Hb _ IH]; [done|]. cbn [Sha256.hex_encode free_of]. rewrite IH.
  assert (H : ∀ d, 0 <= d < 16 → Ascii.eqb (Sha256.hex_digit d) "|" = false).
  { intros d Hd. apply Ascii.eqb_neq. intros F. apply (f_equal N_of_ascii) in F.
    unfold Sha256.hex_digit in F. change (N_of_ascii "|") with 124%N in F.
    rewrite N_ascii_embedding in F by (destruct (Z.ltb_spec d 10); lia).
    destruct (Z.ltb_spec d 10); lia. }
  rewrite !H; [done|by apply Z.mod_pos_bound|].
  split; [apply Z.div_pos; lia|]. apply Z.div_lt_upper_bound; lia.
Qed.

Lemma ComputeChainHash_free h r : free_of "|" (ComputeChainHash h r) = true.
Proof.
  apply hex_free. unfold Sha256.sum256.
  induction (Sha256.digest_blocks _ _ _) as [|w ws IH]; [constructor|].
  cbn [flat_map]. apply Forall_app. split; [|done]. clear. generalize 4%nat. intros n.
  induction n as [|n IH]; constructor; [by apply Z.mod_pos_bound|done].
Qed.

(** The texts whose digests form a chain. *)
Fixpoint sealed_texts (head : string) (rows : list ChainRow) : list string :=
  match rows with
  | [] => []
  | r :: rows' => canonical head r :: sealed_texts (ComputeChainHash head r) rows'
  end.

(** A SHA-256 collision between two of the given texts. *)
Definition collision (l1 l2 : list string) : Prop :=
  ∃ a b, a ∈ l1 ∧ b ∈ l2 ∧ a ≠ b ∧ Sha256.sha256_hex a = Sha256.sha256_hex b.

Lemma same_head_same_rows g1 g2 rows1 rows2 :
  free_of "|" g1 = true → free_of "|" g2 = true → Forall plain rows1 → Forall plain rows2 →
  length rows1 = length rows2 → head_after g1 rows1 = head_after g2 rows2 →
  (g1 = g2 ∧ rows1 = rows2) ∨ collision (sealed_texts g1 rows1) (sealed_texts g2 rows2).
Proof.
  intros Hg1 Hg2 H1. revert g1 g2 Hg1 Hg2 rows2.
  induction H1 as [|r1 rows1 Hr1 _ IH]; intros g1 g2 Hg1 Hg2 rows2 H2 Hl Hh.
  - destruct rows2; [by left|done].
  - destruct H2 as [|r2 rows2 Hr2 H2]; [done|]. cbn [sealed_texts head_after length] in *.
    destruct (IH _ _ (ComputeChainHash_free g1 r1) (ComputeChainHash_free g2 r2) rows2 H2)
      as [[E ->]|(a & b & Ha & Hb & Hab & Hsha)]; [lia|done| |].
    + destruct (decide (canonical g1 r1 = canonical g2 r2)) as [Ec|Hne].
      * destruct (canonical_inj g1 g2 r1 r2 Hg1 Hg2 Hr1 Hr2 Ec) as [-> ->]. by left.
      * right. exists (canonical g1 r1), (canonical g2 r2). split_and!; [by left|by left|done|exact E].
    + right. exists a, b. split_and!; [by right|by right|exact Hab|exact Hsha].
Qed.

(** Entries at consecutive positions. *)
Fixpoint numbered (n : Z) (es : list entry) : Prop :=
  match es with [] => True | e :: es' => e_chain_seq e = Some n ∧ numbered (n + 1) es' end.

Lemma numbered_app n p q :
  numbered n (p ++ q) ↔ numbered n p ∧ numbered (n + Z.of_nat (length p)) q.
Proof.
  revert n. induction p as [|e p IH]; intros n; cbn [app numbered length].
  - change (Z.of_nat 0) with 0. rewrite Z.add_0_r. tauto.
  - rewrite IH. replace (n + 1 + Z.of_nat (length p)) with (n + Z.of_nat (S (length p))) by lia.
    tauto.
Qed.

Lemma verify_rows_sound es head last head' last' exp' :
  Forall (λ e, is_Some (e_chain_seq e)) es →
  verify_rows (map scan_chained es) head last (last + 1) = inr (head', last', exp') →
  numbered (last + 1) es ∧ head' = head_after head (map e_row es)
  ∧ last' = last + Z.of_nat (length es) ∧ exp' = last' + 1.
Proof.
  intros Hs. revert head last. induction Hs as [|e es [k Hk] _ IH]; intros head last H.
  - cbn [map verify_rows] in H. injection H as <- <- <-. simpl. split_and!; try done. lia.
  - cbn [map verify_rows] in H. case_match; [done|]. case_match; [done|]. case_match; [done|].
    zbool. change (ct_ChainSeq (scan_chained e)) with (seq_of e) in *.
    unfold seq_of in *. rewrite Hk in *. subst k. apply String.eqb_eq in H2. rewrite <- H2 in H.
    apply IH in H as (Hn & -> & -> & ->). cbn [numbered map head_after length].
    split_and!; try done; lia.
Qed.

(** Replaying an unchanging table accepts consecutive positions of it and stops
    only when none is left. *)
Lemma verify_pages_sound d fuel k head last head' last' :
  verify_pages fuel k (λ _, Ok d) head last (last + 1) = Some (Ok (inr (head', last'))) →
  ∃ es, Forall (λ e, e ∈ entries d) es ∧ numbered (last + 1) es
    ∧ head' = head_after head (map e_row es) ∧ last' = last + Z.of_nat (length es)
    ∧ Forall (λ e, chained_after last' e = false) (entries d).
Proof.
  revert k head last. induction fuel as [|fuel IH]; intros k head last H; [done|].
  cbn [verify_pages] in H. unfold GetChainedTransactionsAfter in H.
  set (page := take verify_page _) in H.
  assert (Hpage : Forall (λ e, e ∈ entries d ∧ chained_after last e = true) page).
  { apply Forall_forall. intros e He. apply elem_of_take in He as (j & Hj & _).
    apply list_elem_of_lookup_2 in Hj. rewrite order_asc_perm in Hj.
    by apply elem_of_list_filter. }
  destruct page as [|e pg] eqn:Epage.
  { injection H as <- <-. exists []. simpl. split_and!; try done; [lia|].
    apply Forall_forall. intros x Hx. destruct (chained_after last x) eqn:Ex; [|done].
    assert (Hin : x ∈ order_asc seq_of (List.filter (chained_after last) (entries d)))
      by (rewrite order_asc_perm; by apply elem_of_list_filter).
    subst page. destruct (order_asc _ _); [by apply not_elem_of_nil in Hin|done]. }
  cbn [map] in H. change (scan_chained e :: map scan_chained pg) with (map scan_chained (e :: pg)) in H.
  rewrite <- Epage in *. clearbody page.
  destruct (verify_rows _ _ _ _) as [?|[[h l] x]] eqn:E; [done|].
  apply verify_rows_sound in E as (Hnum & -> & -> & ->).
  - apply IH in H as (es & Hes & Hn2 & -> & -> & Hend). exists (page ++ es).
    rewrite map_app, head_after_app, length_app, numbered_app. split_and!; try done.
    + apply Forall_app. split; [|done]. eapply Forall_impl; [exact Hpage|]. by intros ? [].
    + by replace (last + 1 + Z.of_nat (length page)) with (last + Z.of_nat (length page) + 1) by lia.
    + lia.
  - eapply Forall_impl; [exact Hpage|]. intros y [_ Hy]. unfold chained_after in Hy.
    destruct (e_chain_seq y); [by eexists|done].
Qed.

(** The rows a table seals, in chain order. *)
Definition sealed_rows (d : db) : list ChainRow :=
  map e_row (order_asc seq_of (List.filter (chained_after 0) (entries d))).

(** The primary key and the unique index on the position. *)
Record keyed (d : db) : Prop := {
  key_id : NoDup (map e_id (entries d));
  key_seq : ∀ x y k, x ∈ entries d → y ∈ entries d →
              e_chain_seq x = Some k → e_chain_seq y = Some k → x = y;
}.

Lemma numbered_seq n es e :
  numbered n es → e ∈ es → ∃ k, e_chain_seq e = Some k ∧ n <= k < n + Z.of_nat (length es).
Proof.
  revert n. induction es as [|x es IH]; intros n Hn He; [by apply not_elem_of_nil in He|].
  destruct Hn as [Hs Hn]. cbn [length]. apply elem_of_cons in He as [->|He].
  - exists n. split; [done|lia].
  - destruct (IH _ Hn He) as (k & ? & ?). exists k. split; [done|lia].
Qed.

Lemma numbered_at n es k :
  numbered n es → n <= k < n + Z.of_nat (length es) → ∃ e, e ∈ es ∧ e_chain_seq e = Some k.
Proof.
  revert n. induction es as [|x es IH]; intros n Hn Hk; cbn [length] in Hk; [lia|].
  destruct Hn as [Hs Hn]. destruct (decide (k = n)) as [->|Hne].
  - exists x. split; [by left|done].
  - destruct (IH _ Hn) as (e & He & ?); [lia|]. exists e. split; [by right|done].
Qed.

Lemma numbered_sorted n es : numbered n es → StronglySorted (key_lt seq_of) es.
Proof.
  revert n. induction es as [|e es IH]; intros n Hn; constructor; destruct Hn as [Hs Hn].
  - by eapply IH.
  - apply Forall_forall. intros x Hx. destruct (numbered_seq _ _ _ Hn Hx) as (k & Hk & ?).
    unfold key_lt, seq_of. rewrite Hs, Hk. lia.
Qed.

(** What a replay accepted is all the table seals. *)
Lemma accepted_rows d es :
  keyed d → Forall (λ e, e ∈ entries d) es → numbered 1 es →
  Forall (λ e, chained_after (Z.of_nat (length es)) e = false) (entries d) →
  sealed_rows d = map e_row es.
Proof.
  intros [Hid Hseq] Hin Hnum Hend. unfold sealed_rows. f_equal.
  pose proof (numbered_sorted _ _ Hnum) as Hsort.
  rewrite Forall_forall in Hin, Hend. apply order_asc_unique; [done|].
  apply NoDup_Permutation.
  - apply NoDup_ListNoDup, List.NoDup_filter, NoDup_ListNoDup. by apply NoDup_fmap_1 in Hid.
  - clear -Hsort. induction Hsort as [|e es Hs IH He]; constructor; [|done].
    rewrite Forall_forall in He. intros Hin. specialize (He e Hin). unfold key_lt in He. lia.
  - intros x. rewrite elem_of_list_filter. split.
    + intros [Hx Hk]. specialize (Hend x Hx). unfold chained_after in Hk, Hend.
      destruct (e_chain_seq x) as [k|] eqn:Ek; [|done]. zbool.
      destruct (numbered_at 1 es k Hnum) as (e & He & Hek); [lia|].
      by rewrite (Hseq x e k Hx (Hin e He) Ek Hek).
    + intros Hx. split; [by apply Hin|]. destruct (numbered_seq _ _ _ Hnum Hx) as (k & Hk & ?).
      unfold chained_after. rewrite Hk. apply Z.ltb_lt. lia.
Qed.

Lemma chain_sealed_rows d path : chain_of d path → sealed_rows d = map e_row path.
Proof. intros Hc. unfold sealed_rows. f_equal. exact (chain_query d path 0 Hc). Qed.

Lemma verify_pages_broken fuel k view head last exp r :
  verify_pages fuel k view head last exp = Some (Ok (inl r)) → v_Verified r = false.
Proof.
  revert k head last exp. induction fuel as [|fuel IH]; intros k head last exp H; [done|].
  cbn [verify_pages] in H. destruct (view k) as [d|e]; [|done].
  destruct (GetChainedTransactionsAfter d last verify_page) as [|ct rows]; [done|].
  destruct (verify_rows (ct :: rows) head last exp) as [b|[[h l] x]] eqn:E; [|by apply IH in H].
  injection H as <-. revert head last exp E. generalize (ct :: rows) as cts. clear.
  induction cts as [|c cts IH]; intros head last exp E; [done|]. cbn [verify_rows] in E.
  repeat case_match; [by injection E as <-..|]. by apply IH in E.
Qed.

Lemma VerifyChain_sound d fuel m head :
  VerifyChain fuel (λ _, Ok d) = Some (Ok (mkVerify true m head 0 "" "")) →
  ∃ es, Forall (λ e, e ∈ entries d) es ∧ numbered 1 es ∧ m = Z.of_nat (length es)
    ∧ head = head_after (s_GenesisHash (chain_state d)) (map e_row es)
    ∧ Forall (λ e, chained_after (Z.of_nat (length es)) e = false) (entries d).
Proof.
  intros H. unfold VerifyChain in H.
  destruct (verify_pages _ _ _ _ 0 1) as [[[?|[h l]]|?]|] eqn:E; [| |done|done].
  - injection H as ->. by apply verify_pages_broken in E.
  - apply (verify_pages_sound d fuel 1 _ 0) in E as (es & H1 & H2 & -> & -> & H3).
    case_match; [done|]. injection H as <- <-. by exists es.
Qed.


(** ** The chainer catches up *)

Definition unchained (d : db) : nat :=
  length (List.filter (λ e, bool_decide (e_chain_seq e = None)) (entries d)).

Definition backlog (cutoff : time) (d : db) : nat :=
  length (List.filter (unchained_before cutoff) (entries d)).

Lemma backlog_mono c1 c2 d : c1 <= c2 → (backlog c1 d ≤ backlog c2 d)%nat.
Proof.
  intros Hc. unfold backlog. induction (entries d) as [|e es IH]; [done|]. simpl.
  destruct (unchained_before c1 e) eqn:E1; simpl.
  - assert (unchained_before c2 e = true) as ->; [|simpl; lia].
    unfold unchained_before in *. zbool. apply andb_true_iff. split; [by apply bool_decide_eq_true|].
    apply Z.ltb_lt. lia.
  - destruct (unchained_before c2 e); simpl; lia.
Qed.

(** A batch without faults seals as many rows as it may, and leaves no more of
    any backlog than there was. *)
Lemma batch_progress cutoff batch now d path :
  chain_of d path →
  ∃ d', ChainPendingTransactions no_faults cutoff batch now d
        = (d', Ok (Nat.min batch (backlog cutoff d)))
    ∧ unchained d' = (unchained d - Nat.min batch (backlog cutoff d))%nat
    ∧ (∀ c, (backlog c d' ≤ backlog c d)%nat)
    ∧ backlog cutoff d' = (backlog cutoff d - Nat.min batch (backlog cutoff d))%nat.
Proof.
  intros Hc. destruct (seal_spec cutoff batch now d path Hc) as (d' & E & _ & Hent & _).
  assert (Hlen : length (pending cutoff batch d) = Nat.min batch (backlog cutoff d)).
  { unfold pending, backlog. by rewrite length_take, order_asc_perm. }
  destruct (pending_split cutoff batch d) as [others Ho]. specialize (Hent others Ho).
  set (rows := pending cutoff batch d) in *.
  set (new := sealed _ _ rows) in Hent.
  assert (Hnew : ∀ e, e ∈ new → ∃ k, e_chain_seq e = Some k).
  { intros e He. by destruct (path_from_seq _ _ _ e (sealed_path _ _ rows) He) as (k & Hk & _); exists k. }
  assert (Hnew_b : ∀ c, List.filter (unchained_before c) new = []).
  { intros c. apply list_filter_none. intros e He. destruct (Hnew e He) as [k Hk].
    unfold unchained_before. by rewrite Hk. }
  exists d'. unfold ChainPendingTransactions. rewrite E, Hlen. split; [done|].
  assert (Hb : ∀ c, backlog c d' = length (List.filter (unchained_before c) others)
    ∧ backlog c d = (length (List.filter (unchained_before c) rows)
                     + length (List.filter (unchained_before c) others))%nat).
  { intros c. unfold backlog. rewrite Hent, Ho, !List.filter_app, !length_app, Hnew_b. done. }
  split_and!.
  - unfold unchained. rewrite Hent, Ho, !List.filter_app, !length_app.
    rewrite (list_filter_none _ new), (list_filter_all _ rows).
    + rewrite Hlen. simpl. lia.
    + intros e He. apply pending_unchained in He as [-> _]. done.
    + intros e He. by destruct (Hnew e He) as [k ->].
  - intros c. destruct (Hb c) as [-> ->]. lia.
  - destruct (Hb cutoff) as [-> Hd]. rewrite Hd at 1.
    rewrite (list_filter_all (unchained_before cutoff) rows); [lia|].
    intros e He. apply pending_unchained in He as [H1 H2]. unfold unchained_before.
    rewrite H1. by apply Z.ltb_lt.
Qed.

Lemma batch_chain cutoff batch now d path :
  chain_of d path →
  ∃ path', chain_of (ChainPendingTransactions no_faults cutoff batch now d).1 path'.
Proof. intros Hc. destruct (seal_extends no_faults cutoff batch now d path Hc). by eexists. Qed.

(** A tick empties the backlog of its cutoff or uses all its batches. *)
Lemma tick_progress n cutoff batch now d path :
  chain_of d path → (0 < batch)%nat →
  let d' := tick_batches n (λ _, no_faults) cutoff batch now d in
  (∃ path', chain_of d' path') ∧ (∀ c, (backlog c d' ≤ backlog c d)%nat)
  ∧ (backlog cutoff d' = 0%nat ∨ (unchained d' + n * batch ≤ unchained d)%nat).
Proof.
  intros Hc Hpos. revert d path Hc. induction n as [|n IH]; intros d path Hc; cbn [tick_batches].
  { split_and!; [by exists path|done|right; lia]. }
  destruct (batch_progress cutoff batch now d path Hc) as (d1 & E & Hu & Hle & Hb).
  destruct (batch_chain cutoff batch now d path Hc) as [path1 Hc1]. rewrite E in Hc1 |- *.
  cbn [fst] in Hc1. destruct (Nat.ltb_spec (Nat.min batch (backlog cutoff d)) batch).
  - split_and!; [by exists path1|done|left; lia].
  - destruct (IH d1 path1 Hc1) as (Hp & Hle2 & Hor). split_and!; [done| |].
    + intros c. specialize (Hle c). specialize (Hle2 c). lia.
    + destruct Hor as [?|?]; [by left|right]. 
      assert (Nat.min batch (backlog cutoff d) ≤ unchained d)%nat; [|lia].
      transitivity (backlog cutoff d); [lia|]. unfold backlog, unchained.
      clear. induction (entries d) as [|e es IH]; [done|]. simpl. unfold unchained_before at 1.
      destruct (bool_decide _); simpl; [|done]. destruct (_ <? _); simpl; lia.
Qed.

Fixpoint run_ticks (delay : Z) (batch : nat) (times : list time) (d : db) : db :=
  match times with
  | [] => d
  | now :: times' => run_ticks delay batch times' (processTick (λ _, no_faults) delay batch now d)
  end.

(** The chainer catches up: while no rows arrive and no statement fails,
    enough ticks, each past the trailing delay of the cutoff, leave no
    transaction older than the cutoff unchained.  Enough is one tick per fifty
    full batches of the rows that were unchained, and one more. *)
Theorem chainer_catches_up delay batch cutoff times d :
  reachable d → (0 < batch)%nat → Forall (λ now, cutoff <= now - delay) times →
  (unchained d < length times * (maxBatchesPerTick * batch))%nat →
  CountUnchainedTransactions (run_ticks delay batch times d) cutoff = 0.
Proof.
  intros Hr Hpos Ht Hn. apply reachable_chain in Hr as [path Hc].
  change (Z.of_nat (backlog cutoff (run_ticks delay batch times d)) = 0).
  assert (Hmono : ∀ times d path, chain_of d path →
    (backlog cutoff (run_ticks delay batch times d) ≤ backlog cutoff d)%nat).
  { clear -Hpos. induction times as [|now times IH]; intros d path Hc; [done|]. cbn [run_ticks].
    destruct (tick_progress maxBatchesPerTick (now - delay) batch now d path Hc Hpos)
      as ([p Hp] & Hle & _). specialize (IH _ p Hp). specialize (Hle cutoff).
    unfold processTick. exact (Nat.le_trans _ _ _ IH Hle). }
  enough (backlog cutoff (run_ticks delay batch times d) = 0%nat) as -> by done.
  revert d path Hc Hn. induction Ht as [|now times Hnow _ IH]; intros d path Hc Hn;
    [cbn [length] in Hn; rewrite Nat.mul_0_l in Hn; lia|].
  cbn [run_ticks]. unfold processTick in *.
  destruct (tick_progress maxBatchesPerTick (now - delay) batch now d path Hc Hpos)
    as ([p Hp] & Hle & [H0|Hu]).
  - pose proof (Hmono times _ p Hp) as Hm. pose proof (backlog_mono cutoff (now - delay)
      (tick_batches maxBatchesPerTick (λ _, no_faults) (now - delay) batch now d) Hnow) as Hm2.
    rewrite H0 in Hm2. apply Nat.le_0_r. exact (Nat.le_trans _ _ _ Hm Hm2).
  - refine (IH _ p Hp _). cbn [length] in Hn. rewrite Nat.mul_succ_l in Hn.
    revert Hu Hn. generalize (maxBatchesPerTick * batch)%nat. intros k Hu.
    generalize (length times * k)%nat. intros j Hn. lia.
Qed.

(** ** Examples *)

Definition ex_row (id ref : string) (at_ : time) : ChainRow :=
  mkChainRow id "src" "dst" "10" "1000" "USD" "APPLIED" ref at_.
Definition ex_time : time := 63849945600 * Time.second.
Definition ex_inserted : db :=
  mkDB [mkEntry 2 (ex_row "t2" "r2" (ex_time + 1)) None None None;
        mkEntry 1 (ex_row "t1" "r1" ex_time) None None None] (chain_state (migrated 0)).
Definition ex_sealed : db :=
  (ChainPendingTransactions no_faults (ex_time + 2) 10 0 ex_inserted).1.

Lemma ex_inserted_reachable : reachable ex_inserted.
Proof.
  exists 0. eapply rtc_l; [apply (step_insert _ 2 (ex_row "t2" "r2" (ex_time + 1)))|].
  { intros e He. by apply not_elem_of_nil in He. }
  eapply rtc_l; [apply (step_insert _ 1 (ex_row "t1" "r1" ex_time))|apply rtc_refl].
  intros e He. cbn [migrated entries app] in He. by apply list_elem_of_singleton in He as ->.
Qed.

Lemma ex_sealed_reachable : reachable ex_sealed.
Proof.
  destruct ex_inserted_reachable as [at_ H]. exists at_. eapply rtc_r; [exact H|apply step_seal].
Qed.

Lemma sealed_chain_verifies_witness :
  ∃ m head, VerifyChain 3 (λ _, Ok ex_sealed) = Some (Ok (mkVerify true m head 0 "" ""))
    ∧ s_LastSeq (chain_state ex_sealed) <= m
    ∧ (m = s_LastSeq (chain_state ex_sealed) → head = s_HeadHash (chain_state ex_sealed)).
Proof.
  apply (sealed_chain_verifies (λ _, ex_sealed) 2).
  - intros k. apply rtc_refl.
  - intros k. vm_compute. lia.
  - apply ex_sealed_reachable.
  - lia.
Defined.

Lemma ex_plain : Forall plain (sealed_rows ex_sealed).
Proof.
  assert (sealed_rows ex_sealed = [ex_row "t1" "r1" ex_time; ex_row "t2" "r2" (ex_time + 1)]) as ->
    by (vm_compute; reflexivity).
  repeat constructor; vm_compute; congruence.
Qed.

Lemma ex_keyed : keyed ex_sealed.
Proof.
  destruct (reachable_chain _ ex_sealed_reachable) as [p Hc]. split; [by destruct Hc|].
  assert (E : map e_chain_seq (entries ex_sealed) = [Some 2; Some 1]) by (vm_compute; reflexivity).
  intros x y k Hx Hy Ex Ey.
  destruct (entries ex_sealed) as [|a [|b [|c l]]]; try discriminate E. cbn [map] in E.
  injection E as Ea Eb.
  rewrite !elem_of_cons in Hx, Hy.
  destruct Hx as [->|[->|Hx]]; [| |by apply not_elem_of_nil in Hx];
    (destruct Hy as [->|[->|Hy]]; [| |by apply not_elem_of_nil in Hy]); congruence.
Qed.


Lemma chainer_catches_up_witness :
  CountUnchainedTransactions
    (run_ticks (30 * Time.second) 1 [ex_time + 31 * Time.second] ex_inserted) (ex_time + 1) = 0.
Proof.
  apply (chainer_catches_up (30 * Time.second) 1 (ex_time + 1)).
  - apply ex_inserted_reachable.
  - lia.
  - constructor; [vm_compute; congruence|constructor].
  - vm_compute. lia.
Defined.

(** ** Two limits of the chain *)

(** Deleting the newest sealed rows is not noticed, although [chain_state]
    still records their position. *)
Lemma truncated_chain_verifies :
  VerifyChain 3 (λ _, Ok (mkDB [] (chain_state ex_sealed)))
    = Some (Ok (mkVerify true 0 ChainGenesisHash 0 "" ""))
  ∧ s_LastSeq (chain_state ex_sealed) = 2.
Proof. split; vm_compute; reflexivity. Qed.

(** The separator is not escaped: text can move between neighbouring fields
    without changing the hash. *)
Lemma fields_can_shift prevHash :
  let r1 := mkChainRow "t" "a|b" "c" "1" "1" "USD" "APPLIED" "r" 0 in
  let r2 := mkChainRow "t" "a" "b|c" "1" "1" "USD" "APPLIED" "r" 0 in
  r1 ≠ r2 ∧ ComputeChainHash prevHash r1 = ComputeChainHash prevHash r2.
Proof. split; [done|]. unfold ComputeChainHash. f_equal. Qed.
End Chain.
