(* ===== verification/Distributions.v ===== *)
(** * Splitting an amount over distributions (model/transaction.go)

    [CalculateDistributionsPrecise] computes the share of each identifier from
    fixed amounts, percentages and a remainder; [SplitTransactionPrecise] turns
    the shares into child transactions.  Both range over Go maps, so they take
    the iteration order ([MapIter]); fresh transaction ids are an argument. *)

From Stdlib Require Import QArith Floats.SpecFloat.
From S2P Require Import Prelude Float64 Decimal Sha256 Types Balances.

Module Distributions.

(** [transaction.HashTxn()]. *)
Definition HashTxn (t : Transaction) : string :=
  Sha256.sha256_hex
    (Float64.format_shortest (t_Amount t) +:+ t_Reference t +:+ t_Currency t
     +:+ t_Source t +:+ t_Destination t).

Definition isLeftDistribution (d : Distribution) : bool :=
  String.eqb (d_Distribution d) "left" || String.eqb (d_PreciseDistribution d) "left".

Definition isPercentageDistribution (d : Distribution) : bool :=
  has_suffix (d_Distribution d) "%".

Section calculate.
Context `{Decimal, MapIter}.

Record distributionState := mkState {
  totalAmountDec : decimal;
  amountLeftDec : decimal;
  precisionDec : decimal;
  totalPercentage : decimal;
  fixedTotalDec : decimal;
  fixedAmounts : gmap string decimal;
  percentAmounts : gmap string decimal;
  result_ : gmap string Z;
}.
Instance distributionState_eta : Eta distributionState := λ s,
  mkState (totalAmountDec s) (amountLeftDec s) (precisionDec s) (totalPercentage s)
    (fixedTotalDec s) (fixedAmounts s) (percentAmounts s) (result_ s).

(** [decimal.NewFromFloat] panics on NaN and infinities. *)
Definition NewFromFloat (x : float64) : result decimal :=
  if Float64.is_finite x then Ok (dec_of_float x)
  else Err (EPanic "Cannot create a Decimal from a non-finite float").

Definition parseFixedAmount (dist : Distribution) (precision : decimal) : result decimal :=
  if negb (String.eqb (d_PreciseDistribution dist) "") then
    match Float64.parse_int64 (d_PreciseDistribution dist) with
    | Some p => Ok (dec_of_Z p)
    | None => Err (ENew "invalid precise_distribution format: must be an integer value in minor units")
    end
  else if negb (String.eqb (d_Distribution dist) "") then
    match Float64.parse_float (d_Distribution dist) with
    | Some f => d ← NewFromFloat f; Ok (dec_mul d precision)
    | None => Err (ENew "invalid fixed amount format")
    end
  else Ok dec_zero.

Fixpoint processFixedDistributions (ds : list Distribution) (st : distributionState)
    : result distributionState :=
  match ds with
  | [] => Ok st
  | dist :: ds =>
      if isLeftDistribution dist || isPercentageDistribution dist
      then processFixedDistributions ds st
      else
        fixedAmountDec ← parseFixedAmount dist (precisionDec st);
        if dec_is_zero fixedAmountDec then processFixedDistributions ds st
        else if dec_gtb fixedAmountDec (amountLeftDec st) then
          Err (ENew "fixed amount exceeds remaining transaction amount")
        else processFixedDistributions ds
          (st <| fixedAmounts := <[d_Identifier dist := fixedAmountDec]> (fixedAmounts st) |>
              <| fixedTotalDec := dec_add (fixedTotalDec st) fixedAmountDec |>
              <| amountLeftDec := dec_sub (amountLeftDec st) fixedAmountDec |>)
  end.

Fixpoint processPercentageDistributions (ds : list Distribution) (st : distributionState)
    : result distributionState :=
  match ds with
  | [] => Ok st
  | dist :: ds =>
      if isLeftDistribution dist || negb (isPercentageDistribution dist)
      then processPercentageDistributions ds st
      else
        let percentageStr :=
          substring 0 (String.length (d_Distribution dist) - 1)%nat (d_Distribution dist) in
        match Float64.parse_float percentageStr with
        | None => Err (ENew "invalid percentage format")
        | Some percentage =>
            percentageDec ← NewFromFloat percentage;
            let rawAmountDec :=
              dec_div (dec_mul (totalAmountDec st) percentageDec) (dec_of_Z 100) in
            let amount :=
              if (0 <? dec_sign rawAmountDec) && dec_ltb rawAmountDec (dec_of_Z 1)
              then dec_zero else rawAmountDec in
            processPercentageDistributions ds
              (st <| totalPercentage := dec_add (totalPercentage st) percentageDec |>
                  <| percentAmounts := <[d_Identifier dist := amount]> (percentAmounts st) |>)
        end
  end.

Definition validateDistributions (st : distributionState) : result unit :=
  fail_if (dec_gtb (totalPercentage st) (dec_of_Z 100)
           || dec_gtb (fixedTotalDec st) (totalAmountDec st))
    (ENew "total distributions exceed 100% or total amount").

(** [findLargestDecimal]: first strictly larger entry in iteration order. *)
Definition findLargestDecimal (amounts : gmap string decimal) : string * decimal :=
  foldl (λ acc kv, if dec_gtb kv.2 acc.2 then kv else acc) ("", dec_zero) (map_iter amounts).

Definition adjustPercentageAmounts (st : distributionState) : distributionState :=
  if bool_decide (percentAmounts st = ∅) then st
  else
    let targetTotal := dec_div (dec_mul (totalAmountDec st) (totalPercentage st)) (dec_of_Z 100) in
    let currentTotal := foldl (λ acc kv, dec_add acc kv.2) dec_zero (map_iter (percentAmounts st)) in
    let diff := dec_sub targetTotal currentTotal in
    if dec_is_zero diff then st
    else
      let '(largestKey, largestAmount) := findLargestDecimal (percentAmounts st) in
      if negb (String.eqb largestKey "") && (0 <? dec_sign largestAmount) then
        st <| percentAmounts := alter (λ a, dec_add a diff) largestKey (percentAmounts st) |>
      else st.

Definition combineDistributions (st : distributionState) : distributionState :=
  let st := foldl (λ st kv, st <| result_ := <[kv.1 := dec_big_int kv.2]> (result_ st) |>)
              st (map_iter (fixedAmounts st)) in
  foldl (λ st kv, st <| result_ := <[kv.1 := dec_big_int kv.2]> (result_ st) |>
                     <| amountLeftDec := dec_sub (amountLeftDec st) kv.2 |>)
    st (map_iter (percentAmounts st)).

(** The loop breaks after the first 'left' entry. *)
Fixpoint processLeftDistribution (ds : list Distribution) (st : distributionState)
    : result distributionState :=
  match ds with
  | [] => Ok st
  | dist :: ds =>
      if negb (isLeftDistribution dist) then processLeftDistribution ds st
      else if bool_decide (is_Some (result_ st !! d_Identifier dist)) then
        Err (ENew "multiple identifiers with 'left' distribution")
      else Ok (st <| result_ :=
                 <[d_Identifier dist := dec_big_int (amountLeftDec st)]> (result_ st) |>)
  end.

Definition largest_share (m : gmap string Z) : string * Z :=
  foldl (λ acc kv, if acc.2 <? kv.2 then kv else acc) ("", 0) (map_iter m).

Definition balanceDistributions (st : distributionState) : distributionState :=
  let sumDec := foldl (λ acc kv, dec_add acc (dec_of_Z kv.2)) dec_zero (map_iter (result_ st)) in
  if dec_eqb sumDec (totalAmountDec st) then st
  else
    let largestKey := (largest_share (result_ st)).1 in
    if negb (String.eqb largestKey "") then
      let diff := dec_sub (totalAmountDec st) sumDec in
      st <| result_ := alter (λ a, a + dec_big_int diff) largestKey (result_ st) |>
    else st.

Definition handleZeroAmount (ds : list Distribution) : gmap string Z :=
  foldl (λ m d, <[d_Identifier d := 0]> m) ∅ ds.

Definition handleSmallAmount (total : Z) (ds : list Distribution) : option (gmap string Z) :=
  let totalAmountDec := dec_of_Z total in
  match ds with
  | [] => None
  | d :: ds' =>
      if dec_gtb totalAmountDec (dec_of_Z 1) || (dec_sign totalAmountDec <=? 0) then None
      else Some (foldl (λ m d, <[d_Identifier d := 0]> m) {[d_Identifier d := total]} ds')
  end.

Definition initial_state (total precision : Z) : distributionState :=
  mkState (dec_of_Z total) (dec_of_Z total) (dec_of_Z precision) dec_zero dec_zero ∅ ∅ ∅.

Definition CalculateDistributionsPrecise (total : Z) (ds : list Distribution) (precision : Z)
    : result (gmap string Z) :=
  if total =? 0 then Ok (handleZeroAmount ds)
  else match handleSmallAmount total ds with
  | Some r => Ok r
  | None =>
      st ← processFixedDistributions ds (initial_state total precision);
      st ← processPercentageDistributions ds st;
      _ ← validateDistributions st;
      let st := combineDistributions (adjustPercentageAmounts st) in
      st ← processLeftDistribution ds st;
      Ok (result_ (balanceDistributions st))
  end.

(** One child of [SplitTransactionPrecise]; [use_sources] says which side is
    split, [counter] is one-based. *)
Definition split_leg (t : Transaction) (use_sources : bool) (new_id : string)
    (counter : Z) (direction : string) (preciseAmount : Z) : Transaction :=
  let n := t <| t_TransactionID := new_id |> <| t_PreciseAmount := Some preciseAmount |> in
  let n := Balances.convertPreciseToDecimal n in
  let n := n <| t_Hash := HashTxn n |> <| t_Sources := [] |> <| t_Destinations := [] |>
             <| t_ParentTransaction := t_TransactionID t |> in
  let n := if use_sources then n <| t_Source := direction |>
           else if negb (bool_decide (t_Destinations t = []))
                then n <| t_Destination := direction |> else n in
  n <| t_Reference := t_Reference t +:+ "-" +:+ Z_to_string counter |>.

Definition set_txn_id (id : string) (l : list Distribution) (i : nat) : list Distribution :=
  alter (λ d, d <| d_TransactionID := id |>) i l.

(** The loop over the shares: children in iteration order, and the parent whose
    distribution at position [counter - 1] receives the child's id. *)
Fixpoint split_loop (t : Transaction) (new_id : nat → string) (n : nat)
    (shares : list (string * Z)) : Transaction * list Transaction :=
  match shares with
  | [] => (t, [])
  | (direction, amount) :: shares =>
      let use_sources := negb (bool_decide (t_Sources t = [])) in
      let leg := split_leg t use_sources (new_id n) (Z.of_nat (S n)) direction amount in
      let t' := if use_sources
                then t <| t_Sources := set_txn_id (new_id n) (t_Sources t) n |>
                else t <| t_Destinations := set_txn_id (new_id n) (t_Destinations t) n |> in
      let '(t'', legs) := split_loop t' new_id (S n) shares in
      (t'', leg :: legs)
  end.

Definition SplitTransactionPrecise (t : Transaction) (new_id : nat → string)
    : result (Transaction * list Transaction) :=
  let ds := if bool_decide (t_Sources t = []) then t_Destinations t else t_Sources t in
  shares ← CalculateDistributionsPrecise (ival (t_PreciseAmount t)) ds
             (Float64.to_int (t_Precision t));
  Ok (split_loop t new_id 0 (map_iter shares)).

(** ** Lemmas *)

Lemma foldl_dec_sum (l : list (string * Z)) acc :
  (dval (foldl (λ acc kv, dec_add acc (dec_of_Z kv.2)) acc l)
   == dval acc + inject_Z (sumZ snd l))%Q.
Proof.
  revert acc. induction l as [|[k v] l IH]; intros acc; cbn [foldl sumZ snd].
  - by rewrite Qplus_0_r.
  - rewrite IH, dec_add_law, dec_of_Z_law, inject_Z_plus. by rewrite Qplus_assoc.
Qed.

(** The running maximum is an entry of the list, or nothing was positive. *)
Lemma largest_fold (l : list (string * Z)) k0 a0 :
  0 <= a0 →
  let r := foldl (λ acc kv, if acc.2 <? kv.2 then kv else acc) (k0, a0) l in
  (r = (k0, a0) ∨ (r ∈ l ∧ a0 < r.2)) ∧ a0 <= r.2 ∧ (∀ k a, (k, a) ∈ l → a <= r.2).
Proof.
  revert k0 a0. induction l as [|[k v] l IH]; intros k0 a0 Ha; cbn [foldl snd].
  - split; [by left|]. split; [simpl; lia|]. intros ? ? []%elem_of_nil.
  - destruct (Z.ltb_spec a0 v).
    + destruct (IH k v ltac:(lia)) as (Hin & Hle & Hall). split; [|split].
      * right. destruct Hin as [->|[Hin ?]]; [split; [by left|done]|split; [by right|lia]].
      * lia.
      * intros k' a' [[= -> ->]|Hk]%elem_of_cons; [done|by eapply Hall].
    + destruct (IH k0 a0 Ha) as (Hin & Hle & Hall). split; [|split].
      * destruct Hin as [->|[Hin ?]]; [by left|right; split; [by right|done]].
      * lia.
      * intros k' a' [[= -> ->]|Hk]%elem_of_cons; [lia|by eapply Hall].
Qed.

Lemma largest_share_entry (m : gmap string Z) k a :
  m !! k = Some a → 0 < a →
  ∃ a', m !! (largest_share m).1 = Some a'.
Proof.
  intros Hk Ha. unfold largest_share.
  destruct (largest_fold (map_iter m) "" 0 ltac:(lia)) as (Hin & _ & Hall).
  apply elem_of_map_iter in Hk. specialize (Hall _ _ Hk).
  destruct Hin as [E|[Hin _]]; [rewrite E in Hall; simpl in Hall; lia|].
  destruct (foldl _ _ _) as [k' a']. exists a'. by apply elem_of_map_iter.
Qed.

Lemma sum_map_alter_add (m : gmap string Z) k d a :
  m !! k = Some a → sum_map id (alter (λ x, x + d) k m) = sum_map id m + d.
Proof.
  intros Hk. replace (alter (λ x, x + d) k m) with (<[k := a + d]> m).
  - rewrite (sum_map_insert id m k a) by done. unfold id. lia.
  - apply map_eq. intros j. destruct (decide (j = k)) as [->|].
    + by rewrite lookup_insert_eq, lookup_alter_eq, Hk.
    + by rewrite lookup_insert_ne, lookup_alter_ne.
Qed.

(** The last step makes the shares add up to the total. *)
Lemma balanceDistributions_sum st total :
  (dval (totalAmountDec st) == inject_Z total)%Q →
  result_ st !! "" = None →
  (∃ k a, result_ st !! k = Some a ∧ 0 < a) →
  sum_map id (result_ (balanceDistributions st)) = total.
Proof.
  intros Ht Hnone (k & a & Hk & Ha). unfold balanceDistributions.
  set (sumDec := foldl _ _ _).
  assert (Hsum : (dval sumDec == inject_Z (sum_map id (result_ st)))%Q).
  { unfold sumDec, dec_zero. rewrite foldl_dec_sum, dec_of_Z_law, Qplus_0_l.
    by rewrite <- (sumZ_map_iter id). }
  unfold dec_eqb. rewrite dec_cmp_law, Hsum, Ht.
  destruct (largest_share_entry _ _ _ Hk Ha) as [a' Ha'].
  destruct (Qcompare_spec (inject_Z (sum_map id (result_ st))) (inject_Z total))
    as [E|E|E]; [cbv beta iota; exact (proj1 (inject_Z_injective _ _) E)| |];
    (rewrite (proj2 (String.eqb_neq (largest_share _).1 ""))
       by (intros Ek; rewrite Ek in Ha'; congruence));
    cbn [negb]; cbn [set result_];
    rewrite (sum_map_alter_add _ _ _ _ Ha'), dec_big_int_law, dec_sub_law, Hsum, Ht;
    unfold Qminus; rewrite <- inject_Z_opp, <- inject_Z_plus, q_trunc_inject; lia.
Qed.

(** What every stage preserves: the total, and that shares belong to listed
    identifiers. *)
Definition stage_ok (T : decimal) (I : string → Prop) (st : distributionState) : Prop :=
  totalAmountDec st = T
  ∧ (∀ k, is_Some (fixedAmounts st !! k) → I k)
  ∧ (∀ k, is_Some (percentAmounts st !! k) → I k)
  ∧ (∀ k, is_Some (result_ st !! k) → I k).

Lemma insert_keys {A} (I : string → Prop) (m : gmap string A) i x :
  I i → (∀ k, is_Some (m !! k) → I k) → ∀ k, is_Some (<[i:=x]> m !! k) → I k.
Proof. intros Hi Hm k [y Hk]. apply lookup_insert_Some in Hk as [[<- _]|[_ Hk]]; eauto. Qed.

Lemma alter_keys {A} (I : string → Prop) (m : gmap string A) i f :
  (∀ k, is_Some (m !! k) → I k) → ∀ k, is_Some (alter f i m !! k) → I k.
Proof. intros Hm k Hk. rewrite lookup_alter_is_Some in Hk. auto. Qed.

Lemma processFixed_ok T I ds st st' :
  Forall (λ d, I (d_Identifier d)) ds → stage_ok T I st →
  processFixedDistributions ds st = Ok st' → stage_ok T I st'.
Proof.
  intros Hds. revert st. induction Hds as [|d ds Hd Hds IH]; intros st Hst E; simpl in E.
  - by inv_result.
  - destruct (_ || _)%bool; [eauto|]. inv_result.
    destruct (dec_is_zero _); [eauto|]. destruct (dec_gtb _ _); [done|].
    eapply IH; [|exact E]. destruct Hst as (? & ? & ? & ?).
    repeat split; try done. by apply insert_keys.
Qed.

Lemma processPercentage_ok T I ds st st' :
  Forall (λ d, I (d_Identifier d)) ds → stage_ok T I st →
  processPercentageDistributions ds st = Ok st' → stage_ok T I st'.
Proof.
  intros Hds. revert st. induction Hds as [|d ds Hd Hds IH]; intros st Hst E; simpl in E.
  - by inv_result.
  - destruct (_ || _)%bool; [eauto|].
    destruct (Float64.parse_float _); [|done]. inv_result.
    eapply IH; [|exact E]. destruct Hst as (? & ? & ? & ?).
    repeat split; try done. by apply insert_keys.
Qed.

Lemma adjustPercentage_ok T I st : stage_ok T I st → stage_ok T I (adjustPercentageAmounts st).
Proof.
  intros Hst. unfold adjustPercentageAmounts.
  destruct (bool_decide _); [done|]. destruct (dec_is_zero _); [done|].
  destruct (findLargestDecimal _) as [k a]. destruct (_ && _)%bool; [|done].
  destruct Hst as (? & ? & ? & ?). repeat split; try done. by apply alter_keys.
Qed.

Lemma combine_fold_ok T (I : string → Prop) (g : distributionState → string * decimal → distributionState) l st :
  (∀ st k a, I k → stage_ok T I st → stage_ok T I (g st (k, a))) →
  (∀ k a, (k, a) ∈ l → I k) → stage_ok T I st → stage_ok T I (foldl g st l).
Proof.
  intros Hg. revert st. induction l as [|[k a] l IH]; intros st Hl Hst; [done|].
  simpl. apply IH; [intros; eapply Hl; by right|]. apply Hg; [|done]. eapply Hl. by left.
Qed.

Lemma combine_ok T I st : stage_ok T I st → stage_ok T I (combineDistributions st).
Proof.
  intros Hst. unfold combineDistributions. cbv zeta.
  match goal with |- context [foldl _ (foldl ?g ?s ?l) _] => set (st1 := foldl g s l) end.
  assert (stage_ok T I st1) as Hst1.
  { apply combine_fold_ok; [| |done].
    - intros st' k a Hk (? & ? & ? & ?). repeat split; try done. by apply insert_keys.
    - intros k a Hk%elem_of_map_iter. destruct Hst as (? & Hf & ?). eauto. }
  apply combine_fold_ok; [| |done].
  - intros st' k a Hk (? & ? & ? & ?). repeat split; try done. by apply insert_keys.
  - intros k a Hk%elem_of_map_iter. destruct Hst1 as (? & ? & Hp & ?). eauto.
Qed.

Lemma processLeft_ok T I ds st st' :
  Forall (λ d, I (d_Identifier d)) ds → stage_ok T I st →
  processLeftDistribution ds st = Ok st' → stage_ok T I st'.
Proof.
  intros Hds Hst. induction Hds as [|d ds Hd Hds IH]; intros E; simpl in E.
  - by inv_result.
  - destruct (isLeftDistribution d); simpl in E; [|auto].
    destruct (bool_decide _); [done|]. inv_result.
    destruct Hst as (? & ? & ? & ?). repeat split; try done. by apply insert_keys.
Qed.

Lemma balance_ok T I st : stage_ok T I st → stage_ok T I (balanceDistributions st).
Proof.
  intros Hst. unfold balanceDistributions. destruct (dec_eqb _ _); [done|].
  destruct (negb _); [|done].
  destruct Hst as (? & ? & ? & ?). repeat split; try done. by apply alter_keys.
Qed.

(** Balancing never creates the first positive share. *)
Lemma balance_positive st :
  (∃ k a, result_ (balanceDistributions st) !! k = Some a ∧ 0 < a) →
  ∃ k a, result_ st !! k = Some a ∧ 0 < a.
Proof.
  unfold balanceDistributions. destruct (dec_eqb _ _); [done|].
  destruct (String.eqb_spec (largest_share (result_ st)).1 "") as [E|E]; [done|].
  intros _. unfold largest_share in E.
  destruct (largest_fold (map_iter (result_ st)) "" 0 ltac:(lia)) as (Hin & _).
  destruct Hin as [Er|[Hin Hpos]]; [by rewrite Er in E|].
  destruct (foldl _ _ _) as [k a]. exists k, a. split; [|done]. by apply elem_of_map_iter.
Qed.

Definition insert_zeros (m : gmap string Z) (ds : list Distribution) : gmap string Z :=
  foldl (λ m d, <[d_Identifier d := 0]> m) m ds.

Lemma insert_zeros_sum (m : gmap string Z) ds :
  (∀ d, d ∈ ds → m !! d_Identifier d = None ∨ m !! d_Identifier d = Some 0) →
  sum_map id (insert_zeros m ds) = sum_map id m.
Proof.
  unfold insert_zeros. revert m. induction ds as [|d ds IH]; intros m Hm; [done|].
  simpl. rewrite IH.
  - destruct (Hm d) as [E|E]; [by left| |].
    + by rewrite sum_map_insert_new.
    + rewrite (sum_map_insert id m _ 0) by done. unfold id. lia.
  - intros d' Hd'. destruct (decide (d_Identifier d = d_Identifier d')) as [->|].
    + right. apply lookup_insert_eq.
    + rewrite lookup_insert_ne by done. apply Hm. by right.
Qed.

Lemma insert_zeros_keys (I : string → Prop) (m : gmap string Z) ds :
  Forall (λ d, I (d_Identifier d)) ds → (∀ k, is_Some (m !! k) → I k) →
  ∀ k, is_Some (insert_zeros m ds !! k) → I k.
Proof.
  intros Hds. unfold insert_zeros. revert m. induction Hds; intros m Hm; [done|].
  simpl. apply IHHds. by apply insert_keys.
Qed.

(** The general branch up to balancing: total and identifiers. *)
Lemma general_branch (I : string → Prop) total ds precision r :
  Forall (λ d, I (d_Identifier d)) ds → total ≠ 0 → handleSmallAmount total ds = None →
  CalculateDistributionsPrecise total ds precision = Ok r →
  ∃ st, stage_ok (dec_of_Z total) I st ∧ r = result_ (balanceDistributions st).
Proof.
  intros Hds Hz Hs E. unfold CalculateDistributionsPrecise in E.
  rewrite (proj2 (Z.eqb_neq _ _) Hz), Hs in E. inv_result.
  match goal with H : processLeftDistribution _ _ = Ok ?st |- _ => exists st end.
  split; [|done]. eapply processLeft_ok; [exact Hds| |eassumption].
  apply combine_ok, adjustPercentage_ok.
  eapply processPercentage_ok; [exact Hds| |eassumption].
  eapply processFixed_ok; [exact Hds| |eassumption].
  repeat split; intros k [v Hv]; by apply (lookup_empty_Some k v) in Hv.
Qed.

Lemma small_branch total ds r :
  NoDup (map d_Identifier ds) → handleSmallAmount total ds = Some r →
  ∃ d ds', ds = d :: ds' ∧ r = insert_zeros {[d_Identifier d := total]} ds'
    ∧ sum_map id r = total.
Proof.
  unfold handleSmallAmount. destruct ds as [|d ds]; [done|].
  intros Hnd E. destruct (_ || _)%bool; [done|]. injection E as <-.
  exists d, ds. split; [done|]. split; [done|]. inversion Hnd as [|? ? Hin Hnd']. subst.
  fold (insert_zeros {[d_Identifier d := total]} ds). rewrite insert_zeros_sum.
  - unfold sum_map. rewrite map_to_list_singleton. simpl. unfold id. lia.
  - intros d' Hd'. left. apply lookup_singleton_ne. intros E. apply Hin.
    rewrite E. by apply list_elem_of_fmap_2.
Qed.

Lemma set_txn_id_nil id l i : set_txn_id id l i = [] ↔ l = [].
Proof.
  unfold set_txn_id. rewrite <- !length_zero_iff_nil. by rewrite length_alter.
Qed.

(** The children do not depend on the ids recorded in the parent. *)
Lemma split_leg_sources t l us id c dir a :
  split_leg (t <| t_Sources := l |>) us id c dir a = split_leg t us id c dir a.
Proof. destruct t. by unfold split_leg, Balances.convertPreciseToDecimal, HashTxn; txn_eval. Qed.

Lemma split_leg_destinations t l us id c dir a :
  (l = [] ↔ t_Destinations t = []) →
  split_leg (t <| t_Destinations := l |>) us id c dir a = split_leg t us id c dir a.
Proof.
  intros Hl. unfold split_leg, Balances.convertPreciseToDecimal, HashTxn. destruct t.
  revert Hl. txn_eval. intros Hl. by rewrite (bool_decide_ext _ _ Hl).
Qed.

Definition legs_of (t : Transaction) (us : bool) (new_id : nat → string) (n : nat)
    (shares : list (string * Z)) : list Transaction :=
  imap (λ i da, split_leg t us (new_id (n + i)%nat) (Z.of_nat (S (n + i))) da.1 da.2) shares.

Lemma legs_of_cons t us new_id n da shares :
  legs_of t us new_id n (da :: shares)
  = split_leg t us (new_id n) (Z.of_nat (S n)) da.1 da.2 :: legs_of t us new_id (S n) shares.
Proof.
  unfold legs_of. rewrite imap_cons. rewrite Nat.add_0_r. f_equal.
  apply imap_ext. intros i x _. unfold compose. by rewrite Nat.add_succ_r.
Qed.

Lemma legs_of_ext t t' us new_id n shares :
  (∀ id c dir a, split_leg t us id c dir a = split_leg t' us id c dir a) →
  legs_of t us new_id n shares = legs_of t' us new_id n shares.
Proof. intros Ht. apply imap_ext. intros. apply Ht. Qed.

Lemma split_loop_legs t new_id n shares :
  (split_loop t new_id n shares).2
  = legs_of t (negb (bool_decide (t_Sources t = []))) new_id n shares.
Proof.
  revert t n. induction shares as [|[dir a] shares IH]; intros t n; [done|].
  rewrite legs_of_cons. cbn [split_loop].
  destruct (bool_decide (t_Sources t = [])) eqn:Es; cbn [negb];
    match goal with |- context [split_loop ?t' _ _ _] => pose proof (IH t' (S n)) as E end;
    destruct (split_loop _ _ _ _) as [t'' legs]; cbn [snd fst] in *; f_equal; rewrite E.
  - replace (bool_decide _) with true by (symmetry; destruct t; exact Es).
    apply legs_of_ext. intros. apply split_leg_destinations. exact (set_txn_id_nil _ _ _).
  - replace (bool_decide _) with false.
    + apply legs_of_ext. intros. apply split_leg_sources.
    + symmetry. rewrite <- Es. apply bool_decide_ext. destruct t. exact (set_txn_id_nil _ _ _).
Qed.

(** What a child inherits and what it gets. *)
Lemma split_leg_fields t us id c dir a :
  let leg := split_leg t us id c dir a in
  t_PreciseAmount leg = Some a ∧ t_TransactionID leg = id
  ∧ t_ParentTransaction leg = t_TransactionID t
  ∧ t_Reference leg = t_Reference t +:+ "-" +:+ Z_to_string c
  ∧ t_Sources leg = [] ∧ t_Destinations leg = []
  ∧ t_Currency leg = t_Currency t ∧ t_Status leg = t_Status t
  ∧ t_Inflight leg = t_Inflight t ∧ t_MetaData leg = t_MetaData t
  ∧ t_Source leg = (if us then dir else t_Source t).
Proof.
  destruct t, us; unfold split_leg, Balances.convertPreciseToDecimal; txn_eval;
    [|destruct (negb _)]; repeat split.
Qed.

Lemma legs_of_sum t us new_id n shares :
  sumZ (λ leg, ival (t_PreciseAmount leg)) (legs_of t us new_id n shares)
  = sumZ (λ kv, id kv.2) shares.
Proof.
  revert n. induction shares as [|[dir a] l IH]; intros n; [done|].
  rewrite legs_of_cons. cbn [sumZ fst snd]. rewrite IH.
  by rewrite (proj1 (split_leg_fields t us _ _ _ _)).
Qed.

(** ** Properties *)

(** Nothing to split over. *)
Lemma no_distributions total precision r :
  CalculateDistributionsPrecise total [] precision = Ok r → r = ∅.
Proof.
  intros E. assert (Hkeys : ∀ k, is_Some (r !! k) → k ∈ @nil string).
  { destruct (decide (total = 0)) as [->|Hz].
    { injection E as <-. intros k [v Hv]. exfalso. exact (lookup_empty_Some _ _ Hv). }
    assert (Hs : handleSmallAmount total [] = None) by done.
    apply (general_branch (λ k, k ∈ @nil string)) in E as (st & Hst & ->); [|constructor|done..].
    by apply balance_ok in Hst as (? & ? & ? & ?). }
  apply map_eq. intros k. rewrite lookup_empty. apply eq_None_not_Some.
  intros Hk%Hkeys. by apply elem_of_nil in Hk.
Qed.


(** Splitting a transaction yields one child per share: the children carry
    exactly the computed shares, point to the parent, take its status,
    currency and metadata, split no further, and have pairwise different
    references numbered from one. *)
Theorem SplitTransactionPrecise_children t new_id t' legs :
  SplitTransactionPrecise t new_id = Ok (t', legs) →
  ∃ shares,
    CalculateDistributionsPrecise (ival (t_PreciseAmount t))
      (if bool_decide (t_Sources t = []) then t_Destinations t else t_Sources t)
      (Float64.to_int (t_Precision t)) = Ok shares
    ∧ length legs = size shares
    ∧ sumZ (λ leg, ival (t_PreciseAmount leg)) legs = sum_map id shares
    ∧ NoDup (map t_Reference legs)
    ∧ ∀ i leg, legs !! i = Some leg →
        t_ParentTransaction leg = t_TransactionID t ∧ t_TransactionID leg = new_id i
        ∧ t_Reference leg = t_Reference t +:+ "-" +:+ Z_to_string (Z.of_nat (S i))
        ∧ t_Sources leg = [] ∧ t_Destinations leg = [] ∧ t_Status leg = t_Status t
        ∧ t_Currency leg = t_Currency t ∧ t_MetaData leg = t_MetaData t
        ∧ (t_Sources t ≠ [] → shares !! t_Source leg = t_PreciseAmount leg).
Proof.
  unfold SplitTransactionPrecise. intros E. inv_result.
  match goal with H : CalculateDistributionsPrecise _ _ _ = Ok ?s |- _ =>
    rename s into shares; exists shares; split; [exact H|] end.
  pose proof (split_loop_legs t new_id 0 (map_iter shares)) as El.
  match goal with H : split_loop _ _ _ _ = _ |- _ => rewrite H in El end.
  cbn [snd] in El. subst legs. set (us := negb _).
  assert (Hleg : ∀ i leg, legs_of t us new_id 0 (map_iter shares) !! i = Some leg →
    ∃ dir a, map_iter shares !! i = Some (dir, a)
      ∧ leg = split_leg t us (new_id i) (Z.of_nat (S i)) dir a).
  { intros i leg Hi. unfold legs_of in Hi. rewrite list_lookup_imap in Hi.
    destruct (map_iter shares !! i) as [[dir a]|]; [|done]. injection Hi as <-. eauto. }
  split; [|split; [|split]].
  - unfold legs_of. rewrite length_imap, map_iter_perm. apply length_map_to_list.
  - by rewrite legs_of_sum, sumZ_map_iter.
  - apply NoDup_alt. intros i j r Hi Hj. rewrite !list_lookup_fmap in *.
    apply fmap_Some in Hi as (l1 & (d1 & a1 & _ & ->)%Hleg & ->).
    apply fmap_Some in Hj as (l2 & (d2 & a2 & _ & ->)%Hleg & E2).
    destruct (split_leg_fields t us (new_id i) (Z.of_nat (S i)) d1 a1) as (_ & _ & _ & R1 & _).
    destruct (split_leg_fields t us (new_id j) (Z.of_nat (S j)) d2 a2) as (_ & _ & _ & R2 & _).
    rewrite R1, R2 in E2. do 2 apply string_app_inj_l in E2. apply Z_to_string_inj in E2. lia.
  - intros i leg (dir & a & Hin & ->)%Hleg.
    destruct (split_leg_fields t us (new_id i) (Z.of_nat (S i)) dir a)
      as (-> & -> & -> & -> & -> & -> & -> & -> & _ & -> & ->).
    repeat split. intros Hs. unfold us. rewrite bool_decide_false by done. cbn [negb].
    apply elem_of_map_iter. by eapply list_elem_of_lookup_2.
Qed.

End calculate.

(** ** Witnesses *)

Definition ex_pct (i d : string) : Distribution := mkDistribution i d "" "".
Definition ex_thirds : list Distribution :=
  [ex_pct "a" "33.33%"; ex_pct "b" "33.33%"; ex_pct "c" "10.5"; ex_pct "d" "left"].
Definition ex_split : Transaction :=
  empty_transaction <| t_TransactionID := "txn_parent" |> <| t_Reference := "ref" |>
    <| t_PreciseAmount := Some 10001 |> <| t_Precision := Float64.of_Z 100 |>
    <| t_Sources := ex_thirds |> <| t_Destination := "dest" |>.
Definition ex_id (n : nat) : string := "txn_" +:+ Z_to_string (Z.of_nat n).


Lemma SplitTransactionPrecise_children_witness :
  ∃ t' legs, SplitTransactionPrecise ex_split ex_id = Ok (t', legs)
    ∧ NoDup (map t_Reference legs).
Proof.
  run_ok (SplitTransactionPrecise ex_split ex_id) as [t' legs] E.
  exists t', legs. split; [done|].
  by destruct (SplitTransactionPrecise_children ex_split ex_id t' legs E)
    as (shares & _ & _ & _ & Hnd & _).
Defined.

(** The child's id is stored at the position of the loop counter, not at the
    distribution the child was made for: with the map visited in another order
    than the list, a distribution names the child of a different source. *)
Lemma split_ids_misassigned :
  ∃ t' legs d leg, SplitTransactionPrecise ex_split ex_id = Ok (t', legs)
    ∧ d ∈ t_Sources t' ∧ leg ∈ legs
    ∧ d_TransactionID d = t_TransactionID leg ∧ d_Identifier d ≠ t_Source leg.
Proof.
  run_ok (SplitTransactionPrecise ex_split ex_id) as [t' legs] E.
  exists t', legs, ((ex_pct "a" "33.33%") <| d_TransactionID := "txn_0" |>),
    (hd empty_transaction legs).
  vm_compute in E. injection E as <- <-. split; [done|].
  split; [by left|]. split; [by left|]. split; [done|].
  vm_compute. discriminate.
Qed.

End Distributions.
