(* ===== verification/Datastore.v ===== *)
(** * The database (package [database])

    Tables as the Go code sees them: balances by id, transaction rows in
    insertion order, lineage outbox rows.  Each SQL statement of the Go source
    is a function on the tables; a method that runs in one database
    transaction returns the new tables or an error, in which case nothing was
    committed.  The schema's unique indexes on transaction id and reference and
    its NUMERIC columns make an INSERT fail. *)

From S2P Require Import Prelude Float64 Types.

Module Datastore.

Record db := mkDB {
  db_balances : gmap string Balance;
  db_transactions : list Transaction;
  db_outbox : list LineageOutbox;
}.
#[export] Instance db_eta : Eta db := λ d,
  mkDB (db_balances d) (db_transactions d) (db_outbox d).

Definition empty_db : db := mkDB ∅ [] [].

(** ** Rows *)

Definition valid_numeric (t : Transaction) : bool :=
  bool_decide (is_Some (t_PreciseAmount t))
  && bool_decide (is_Some (Float64.parse_float (t_AmountString t))).

(** The row an INSERT stores: the columns it lists and nothing else. *)
Definition stored_row (t : Transaction) : Transaction :=
  empty_transaction <| t_TransactionID := t_TransactionID t |>
    <| t_ParentTransaction := t_ParentTransaction t |>
    <| t_Source := t_Source t |>
    <| t_Reference := t_Reference t |>
    <| t_Amount := match Float64.parse_float (t_AmountString t) with
                   | Some x => x | None => Float64.zero end |>
    <| t_PreciseAmount := t_PreciseAmount t |>
    <| t_Precision := t_Precision t |>
    <| t_Currency := t_Currency t |>
    <| t_Destination := t_Destination t |>
    <| t_Description := t_Description t |>
    <| t_Status := t_Status t |>
    <| t_CreatedAt := t_CreatedAt t |>
    <| t_MetaData := t_MetaData t |>
    <| t_ScheduledFor := t_ScheduledFor t |>
    <| t_Hash := t_Hash t |>
    <| t_EffectiveDate := t_EffectiveDate t |>.

(** [meta_data->>'k']: the text of a JSON scalar. *)
Definition meta_text (m : metadata) (k : string) : option string :=
  match m !! k with
  | Some (MStr s) => Some s
  | Some (MBool b) => Some (if b then "true" else "false")
  | Some (MNum x) => Some (Float64.format_shortest x)
  | _ => None
  end.

(** What [GetTransaction] scans. *)
Definition scan_transaction (row : Transaction) : Transaction :=
  row <| t_ScheduledFor := 0 |> <| t_EffectiveDate := None |>.
(** What the list queries scan: the same and [scheduled_for]. *)
Definition scan_transaction_sched (row : Transaction) : Transaction :=
  row <| t_EffectiveDate := None |>.

(** ** Queries on transactions *)

Definition GetTransaction (d : db) (id : string) : result Transaction :=
  match List.find (λ r, String.eqb (t_TransactionID r) id) (db_transactions d) with
  | Some r => Ok (scan_transaction r)
  | None => Err (EAPI "NOT_FOUND" ("Transaction with ID '" +:+ id +:+ "' not found"))
  end.

Definition GetTransactionByRef (d : db) (reference : string) : result Transaction :=
  match List.find (λ r, String.eqb (t_Reference r) reference) (db_transactions d) with
  | Some r => Ok (scan_transaction r <| t_Precision := Float64.zero |> <| t_Hash := "" |>)
  | None => Err (EAPI "NOT_FOUND" ("Transaction with reference '" +:+ reference +:+ "' not found"))
  end.

Definition IsParentTransactionVoid (d : db) (parentID : string) : bool :=
  existsb (λ r, String.eqb (t_ParentTransaction r) parentID && String.eqb (t_Status r) "VOID")
    (db_transactions d).

Definition TransactionExistsByRef (d : db) (reference : string) : bool :=
  existsb (λ r, String.eqb (t_Reference r) reference) (db_transactions d).

Definition GetExistingTransactionReferences (d : db) (references : list string) : gset string :=
  list_to_set (filter (λ ref, TransactionExistsByRef d ref = true) references).

Definition TransactionExistsByIDOrParentID (d : db) (id : string) : bool :=
  existsb (λ r, String.eqb (t_TransactionID r) id || String.eqb (t_ParentTransaction r) id)
    (db_transactions d).

Definition GetTotalCommittedTransactions (d : db) (parentID : string) : Z :=
  sumZ (λ r, ival (t_PreciseAmount r))
    (List.filter (λ r, String.eqb (t_ParentTransaction r) parentID
                       && String.eqb (t_Status r) "APPLIED") (db_transactions d)).

Definition GetTransactionsByParent (d : db) (parentID : string) (limit offset : nat)
    : list Transaction :=
  limit_offset limit offset
    (map scan_transaction_sched
      (order_desc t_CreatedAt
        (List.filter (λ r, String.eqb (t_ParentTransaction r) parentID) (db_transactions d)))).

Definition IsTransactionRefunded (d : db) (t : Transaction) : bool :=
  existsb (λ r, String.eqb (t_ParentTransaction r) (t_TransactionID t)
                && String.eqb (t_Source r) (t_Destination t)
                && String.eqb (t_Destination r) (t_Source t)) (db_transactions d).

Definition GetRefundableTransactionsByParentID (d : db) (parentID : string)
    (batchSize offset : nat) : list Transaction :=
  limit_offset batchSize offset
    (map scan_transaction_sched
      (order_desc t_CreatedAt
        (List.filter (λ r,
          (String.eqb (t_TransactionID r) parentID && String.eqb (t_Status r) "APPLIED")
          || (String.eqb (t_ParentTransaction r) parentID
              && (String.eqb (t_Status r) "APPLIED" || String.eqb (t_Status r) "VOID"))
          || (String.eqb (t_Status r) "APPLIED"
              && bool_decide (meta_text (t_MetaData r) "QUEUED_PARENT_TRANSACTION" = Some parentID)))
          (db_transactions d)))).

(** [GetTransactionsByShadowFor]; the parent is not selected. *)
Definition GetTransactionsByShadowFor (d : db) (parentID : string) : list Transaction :=
  map (λ r, scan_transaction_sched r <| t_ParentTransaction := "" |>)
    (order_asc t_CreatedAt
      (List.filter (λ r, bool_decide (meta_text (t_MetaData r) "_shadow_for" = Some parentID))
        (db_transactions d))).

(** Rows that settle a queued row. *)
Definition settled_child (r child : Transaction) : bool :=
  String.eqb (t_ParentTransaction child) (t_TransactionID r)
  && (String.eqb (t_Status child) "APPLIED" || String.eqb (t_Status child) "REJECTED"
      || String.eqb (t_Status child) "VOID" || String.eqb (t_Status child) "INFLIGHT").

Definition open_queued (d : db) (r : Transaction) : bool :=
  String.eqb (t_Status r) "QUEUED" && negb (existsb (settled_child r) (db_transactions d)).

Definition GetQueuedAmounts (d : db) (balanceID : string) : Z * Z :=
  (sumZ (λ r, ival (t_PreciseAmount r))
     (List.filter (λ r, String.eqb (t_Source r) balanceID && open_queued d r) (db_transactions d)),
   sumZ (λ r, ival (t_PreciseAmount r))
     (List.filter (λ r, String.eqb (t_Destination r) balanceID
        && negb (String.eqb (t_Source r) balanceID) && open_queued d r) (db_transactions d))).

Definition has_child (d : db) (r : Transaction) : bool :=
  existsb (λ c, String.eqb (t_ParentTransaction c) (t_TransactionID r)) (db_transactions d).

Definition GetInflightTransactionsByParentID (d : db) (parentID : string)
    (batchSize offset : nat) : list Transaction :=
  let inflight := List.filter (λ r,
    (String.eqb (t_TransactionID r) parentID || String.eqb (t_ParentTransaction r) parentID
     || bool_decide (meta_text (t_MetaData r) "QUEUED_PARENT_TRANSACTION" = Some parentID))
    && String.eqb (t_Status r) "INFLIGHT") (db_transactions d) in
  let queued := List.filter (λ r,
    (String.eqb (t_TransactionID r) parentID || String.eqb (t_ParentTransaction r) parentID)
    && String.eqb (t_Status r) "QUEUED"
    && bool_decide (meta_text (t_MetaData r) "inflight" = Some "true")
    && negb (existsb (λ x, String.eqb (t_Reference x) (t_Reference r +:+ "_q")
                           && String.eqb (t_Status x) "REJECTED") (db_transactions d))
    && negb (existsb (λ c, String.eqb (t_ParentTransaction c) (t_TransactionID r)
                           && String.eqb (t_Status c) "INFLIGHT") (db_transactions d)))
    (db_transactions d) in
  let rows := if bool_decide (inflight = []) then queued else inflight in
  limit_offset batchSize offset (map scan_transaction_sched (order_desc t_CreatedAt rows)).

Definition GetStuckQueuedTransactions (d : db) (cutoff : time) (batchSize : nat)
    : list Transaction :=
  take batchSize
    (map scan_transaction_sched
      (order_asc t_CreatedAt
        (List.filter (λ r, String.eqb (t_Status r) "QUEUED" && (t_CreatedAt r <? cutoff)
                           && negb (has_child d r)) (db_transactions d)))).

(** The three coalescing queries: by pair, by source, by destination. *)
Definition queued_for_coalescing (d : db) (scope : Transaction → bool)
    (currency exclude : string) (createdAtOrAfter : time) (limit : nat) : list Transaction :=
  take limit
    (map scan_transaction_sched
      (order_asc t_CreatedAt
        (List.filter (λ r, String.eqb (t_Status r) "QUEUED" && scope r
             && String.eqb (t_Currency r) currency
             && negb (String.eqb (t_TransactionID r) exclude)
             && (createdAtOrAfter <=? t_CreatedAt r)
             && negb (has_child d r)) (db_transactions d)))).

Definition GetQueuedTransactionsForCoalescing (d : db) (source destination currency exclude : string)
    (createdAtOrAfter : time) (limit : nat) : list Transaction :=
  queued_for_coalescing d
    (λ r, String.eqb (t_Source r) source && String.eqb (t_Destination r) destination)
    currency exclude createdAtOrAfter limit.

Definition GetQueuedTransactionsForSourceCoalescing (d : db) (source currency exclude : string)
    (createdAtOrAfter : time) (limit : nat) : list Transaction :=
  queued_for_coalescing d (λ r, String.eqb (t_Source r) source)
    currency exclude createdAtOrAfter limit.

Definition GetQueuedTransactionsForDestinationCoalescing (d : db)
    (destination currency exclude : string) (createdAtOrAfter : time) (limit : nat)
    : list Transaction :=
  queued_for_coalescing d (λ r, String.eqb (t_Destination r) destination)
    currency exclude createdAtOrAfter limit.

Definition CountQueuedTransactionsForPairLane (d : db) (source destination currency lane : string)
    : nat :=
  length (List.filter (λ r, String.eqb (t_Status r) "QUEUED" && String.eqb (t_Source r) source
    && String.eqb (t_Destination r) destination && String.eqb (t_Currency r) currency
    && String.eqb (match meta_text (t_MetaData r) "queue_lane" with
                   | Some l => l | None => "normal" end) lane
    && negb (has_child d r)) (db_transactions d)).

(** ** Queries on balances *)

Definition GetBalanceByIDLite (d : db) (id : string) : result Balance :=
  match db_balances d !! id with
  | Some b => Ok (b <| b_QueuedDebitBalance := None |> <| b_QueuedCreditBalance := None |>
                    <| b_MetaData := ∅ |>)
  | None => Err (EAPI "NOT_FOUND" ("Balance with ID '" +:+ id +:+ "' not found"))
  end.

(** [GetBalanceByID(id, nil, withQueued)]: with queued amounts on request. *)
Definition GetBalanceByID (d : db) (id : string) (withQueued : bool) : result Balance :=
  match db_balances d !! id with
  | None => Err (EAPI "NOT_FOUND" ("Balance with ID '" +:+ id +:+ "' not found"))
  | Some b =>
      if withQueued then
        let '(debit, credit) := GetQueuedAmounts d id in
        Ok (b <| b_QueuedDebitBalance := Some debit |> <| b_QueuedCreditBalance := Some credit |>)
      else Ok (b <| b_QueuedDebitBalance := None |> <| b_QueuedCreditBalance := None |>)
  end.

(** ** Writes *)

Definition conflict (id : string) : error :=
  EAPI "CONFLICT" ("Optimistic locking failure: balance with ID '" +:+ id
    +:+ "' may have been updated or deleted by another transaction").

(** [CreateBalance] (database): [new_id] is the generated id; a duplicate
    indicator and currency yields the empty balance and no error. *)
Definition CreateBalance (d : db) (b : Balance) (new_id : string) (now : time)
    : result (db * Balance) :=
  let b := b <| b_BalanceID := new_id |> <| b_CreatedAt := now |>
             <| b_Balance := Some (ival (b_Balance b)) |>
             <| b_CreditBalance := Some (ival (b_CreditBalance b)) |>
             <| b_DebitBalance := Some (ival (b_DebitBalance b)) |>
             <| b_InflightBalance := Some (ival (b_InflightBalance b)) |>
             <| b_InflightCreditBalance := Some (ival (b_InflightCreditBalance b)) |>
             <| b_InflightDebitBalance := Some (ival (b_InflightDebitBalance b)) |> in
  let row := empty_balance <| b_BalanceID := new_id |>
             <| b_Balance := b_Balance b |> <| b_CreditBalance := b_CreditBalance b |>
             <| b_DebitBalance := b_DebitBalance b |>
             <| b_InflightBalance := Some 0 |> <| b_InflightCreditBalance := Some 0 |>
             <| b_InflightDebitBalance := Some 0 |>
             <| b_Version := 1 |>
             <| b_Currency := b_Currency b |> <| b_LedgerID := b_LedgerID b |>
             <| b_IdentityID := b_IdentityID b |> <| b_Indicator := b_Indicator b |>
             <| b_CreatedAt := now |> <| b_MetaData := b_MetaData b |>
             <| b_TrackFundLineage := b_TrackFundLineage b |>
             <| b_AllocationStrategy :=
                  (if String.eqb (b_AllocationStrategy b) "" then "FIFO"
                   else b_AllocationStrategy b) |> in
  let clash := existsb (λ kv, negb (String.eqb (b_Indicator kv.2) "")
                  && String.eqb (b_Indicator kv.2) (b_Indicator b)
                  && String.eqb (b_Currency kv.2) (b_Currency b))
                 (map_to_list (db_balances d)) in
  if clash then Ok (d, empty_balance)
  else if bool_decide (is_Some (db_balances d !! new_id)) then
    Err (EAPI "CONFLICT" ("Balance already exists: " +:+ new_id))
  else Ok (d <| db_balances := <[new_id := row]> (db_balances d) |>, b).

(** The columns an UPDATE of a balance writes. *)
Definition balance_row_set (row b : Balance) : Balance :=
  row <| b_Balance := b_Balance b |>
      <| b_CreditBalance := b_CreditBalance b |>
      <| b_DebitBalance := b_DebitBalance b |>
      <| b_InflightBalance := b_InflightBalance b |>
      <| b_InflightCreditBalance := b_InflightCreditBalance b |>
      <| b_InflightDebitBalance := b_InflightDebitBalance b |>
      <| b_Currency := b_Currency b |>
      <| b_LedgerID := b_LedgerID b |>
      <| b_CreatedAt := b_CreatedAt b |>
      <| b_Version := b_Version row + 1 |>.

(** [updateBalance]: one UPDATE guarded by the version the caller read; the
    caller's copy gets the new version. *)
Definition updateBalance (d : db) (b : Balance) : result (db * Balance) :=
  match db_balances d !! b_BalanceID b with
  | Some row =>
      if b_Version row =? b_Version b then
        Ok (d <| db_balances := <[b_BalanceID b := balance_row_set row b]> (db_balances d) |>,
            b <| b_Version := b_Version b + 1 |>)
      else Err (conflict (b_BalanceID b))
  | None => Err (conflict (b_BalanceID b))
  end.

(** INSERT of one transaction row. *)
Definition recordTransactionInTx (d : db) (t : Transaction) : result db :=
  if valid_numeric t
     && negb (existsb (λ r, String.eqb (t_TransactionID r) (t_TransactionID t)
                            || String.eqb (t_Reference r) (t_Reference t)) (db_transactions d))
  then Ok (d <| db_transactions := db_transactions d ++ [stored_row t] |>)
  else Err (EAPI "INTERNAL_SERVER_ERROR" "Failed to record transaction").

Definition RecordTransaction (d : db) (t : Transaction) : result db :=
  recordTransactionInTx d t.

(** COPY of several rows: all or nothing with the surrounding transaction. *)
Fixpoint recordTransactionsInTx (d : db) (txns : list Transaction) : result db :=
  match txns with
  | [] => Ok d
  | t :: txns =>
      match recordTransactionInTx d t with
      | Ok d => recordTransactionsInTx d txns
      | Err _ => Err (EAPI "INTERNAL_SERVER_ERROR" "Failed to stream transaction copy row")
      end
  end.

(** INSERT of an outbox row: status pending, id from the sequence, transaction
    id unique. *)
Definition next_outbox_id (d : db) : Z :=
  1 + foldr (λ o m, Z.max (o_ID o) m) 0 (db_outbox d).

Definition InsertLineageOutbox (d : db) (o : LineageOutbox) (now : time) : result db :=
  if existsb (λ r, String.eqb (o_TransactionID r) (o_TransactionID o)) (db_outbox d)
  then Err (EAPI "INTERNAL_SERVER_ERROR" "Failed to insert lineage outbox entry")
  else Ok (d <| db_outbox := db_outbox d ++
         [o <| o_ID := next_outbox_id d |> <| o_Status := "pending" |>
            <| o_Attempts := 0 |> <| o_LastError := "" |> <| o_LockedUntil := None |>
            <| o_CreatedAt := now |>] |>).

Fixpoint insertLineageOutboxesInTx (d : db) (os : list (option LineageOutbox)) (now : time)
    : result db :=
  match os with
  | [] => Ok d
  | None :: os => insertLineageOutboxesInTx d os (now + 1)
  | Some o :: os =>
      match InsertLineageOutbox d o now with
      | Ok d => insertLineageOutboxesInTx d os (now + 1)
      | Err _ => Err (EAPI "INTERNAL_SERVER_ERROR" "Failed to insert lineage outbox entries")
      end
  end.

(** [UpdateBalances] (database): both updates in one transaction. *)
Definition UpdateBalances (d : db) (source destination : Balance) : result (db * Balance * Balance) :=
  '(d, source) ← updateBalance d source;
  '(d, destination) ← updateBalance d destination;
  mret (d, source, destination).

Definition RecordTransactionWithBalances (d : db) (t : Transaction)
    (source destination : Balance) : result (db * Balance * Balance) :=
  '(d, source) ← updateBalance d source;
  '(d, destination) ← updateBalance d destination;
  d ← recordTransactionInTx d t;
  mret (d, source, destination).

Definition RecordTransactionWithBalancesAndOutbox (d : db) (t : Transaction)
    (source destination : Balance) (outbox : option LineageOutbox) (now : time)
    : result (db * Balance * Balance) :=
  '(d, source) ← updateBalance d source;
  '(d, destination) ← updateBalance d destination;
  d ← recordTransactionInTx d t;
  d ← match outbox with
      | Some o => wrap_err "failed to insert lineage outbox" (InsertLineageOutbox d o now)
      | None => Ok d
      end;
  mret (d, source, destination).

(** [updateBalanceSet]: nil, unnamed and repeated balances are skipped. *)
Fixpoint unique_balances (seen : gset string) (l : list (option Balance)) : list Balance :=
  match l with
  | [] => []
  | None :: l => unique_balances seen l
  | Some b :: l =>
      if String.eqb (b_BalanceID b) "" || bool_decide (b_BalanceID b ∈ seen)
      then unique_balances seen l
      else b :: unique_balances ({[b_BalanceID b]} ∪ seen) l
  end.

(** [updateBalanceChunk]: one UPDATE joined with the VALUES list; every row
    must have matched its expected version. *)
Definition chunk_matches (d : db) (b : Balance) : bool :=
  match db_balances d !! b_BalanceID b with
  | Some row => b_Version row =? b_Version b
  | None => false
  end.

Definition chunk_apply (d : db) (l : list Balance) : db :=
  d <| db_balances :=
    foldl (λ m b, match m !! b_BalanceID b with
                  | Some row => if b_Version row =? b_Version b
                                then <[b_BalanceID b := balance_row_set row b]> m else m
                  | None => m
                  end) (db_balances d) l |>.

Definition updateBalanceChunk (d : db) (l : list Balance) : result db :=
  match List.find (λ b, negb (chunk_matches d b)) l with
  | Some b => Err (conflict (b_BalanceID b))
  | None => Ok (chunk_apply d l)
  end.

Definition maxBalancesPerUpdateChunk : nat := 1000.

Fixpoint update_chunks (fuel : nat) (d : db) (l : list Balance) : result db :=
  match fuel, l with
  | _, [] => Ok d
  | O, _ => Ok d
  | S fuel, _ =>
      d ← updateBalanceChunk d (take maxBalancesPerUpdateChunk l);
      update_chunks fuel d (drop maxBalancesPerUpdateChunk l)
  end.

Definition updateBalanceSet (d : db) (l : list (option Balance)) : result db :=
  let u := unique_balances ∅ l in
  update_chunks (length u) d u.

Definition RecordTransactionsWithBalanceSetAndOutboxes (d : db) (txns : list Transaction)
    (balances : list (option Balance)) (outboxes : list (option LineageOutbox)) (now : time)
    : result db :=
  d ← updateBalanceSet d balances;
  d ← recordTransactionsInTx d txns;
  wrap_err "failed to insert lineage outboxes" (insertLineageOutboxesInTx d outboxes now).

Definition RecordTransactionsWithBalancesAndOutboxes (d : db) (txns : list Transaction)
    (source destination : Balance) (outboxes : list (option LineageOutbox)) (now : time)
    : result db :=
  RecordTransactionsWithBalanceSetAndOutboxes d txns [Some source; Some destination] outboxes now.

(** ** Lemmas *)

Lemma updateBalance_Ok d b d' b' :
  updateBalance d b = Ok (d', b') →
  ∃ row, db_balances d !! b_BalanceID b = Some row ∧ b_Version row = b_Version b
    ∧ d' = d <| db_balances := <[b_BalanceID b := balance_row_set row b]> (db_balances d) |>
    ∧ b' = b <| b_Version := b_Version b + 1 |>.
Proof.
  unfold updateBalance. destruct (db_balances d !! b_BalanceID b) as [row|]; [|done].
  destruct (Z.eqb_spec (b_Version row) (b_Version b)); [|done].
  intros E. inv_result. by exists row.
Qed.

(** An update from a stale read is refused. *)
Lemma updateBalance_stale d b row :
  db_balances d !! b_BalanceID b = Some row → b_Version row ≠ b_Version b →
  updateBalance d b = Err (conflict (b_BalanceID b)).
Proof. intros E Hv. unfold updateBalance. rewrite E. by rewrite (proj2 (Z.eqb_neq _ _) Hv). Qed.

Definition fresh_row (d : db) (t : Transaction) : Prop :=
  ∀ r, r ∈ db_transactions d →
    t_TransactionID r ≠ t_TransactionID t ∧ t_Reference r ≠ t_Reference t.

Lemma existsb_false {A} (f : A → bool) l : existsb f l = false ↔ ∀ x, x ∈ l → f x = false.
Proof.
  induction l as [|y l IH]; simpl.
  - split; [|done]. by intros _ ? ?%elem_of_nil.
  - rewrite orb_false_iff, IH. split.
    + intros [Hy Hl] x [->|Hx]%elem_of_cons; auto.
    + intros Hl. split; [apply Hl; by left|]. intros; apply Hl; by right.
Qed.

Lemma existsb_true {A} (f : A → bool) l : existsb f l = true ↔ ∃ x, x ∈ l ∧ f x = true.
Proof.
  rewrite existsb_exists. split; intros (x & ? & ?); exists x; (split; [|done]);
    by apply list_elem_of_In.
Qed.

Lemma recordTransactionInTx_Ok d t d' :
  recordTransactionInTx d t = Ok d' →
  d' = d <| db_transactions := db_transactions d ++ [stored_row t] |>
  ∧ fresh_row d t ∧ valid_numeric t = true.
Proof.
  unfold recordTransactionInTx.
  destruct (valid_numeric t); cbn [andb]; [|done].
  destruct (existsb _ _) eqn:Ex; cbn [negb]; [done|]. intros E. inv_result.
  split; [done|]. split; [|done]. intros r Hr.
  rewrite existsb_false in Ex. specialize (Ex r Hr). apply orb_false_iff in Ex as [E1 E2].
  by apply String.eqb_neq in E1; apply String.eqb_neq in E2.
Qed.

Lemma stored_row_keys t :
  t_Reference (stored_row t) = t_Reference t
  ∧ t_TransactionID (stored_row t) = t_TransactionID t
  ∧ t_ParentTransaction (stored_row t) = t_ParentTransaction t
  ∧ t_Status (stored_row t) = t_Status t ∧ t_PreciseAmount (stored_row t) = t_PreciseAmount t.
Proof. by destruct t. Qed.

(** Unique indexes stay unique. *)
Lemma fresh_row_NoDup d t :
  fresh_row d t →
  NoDup (map t_Reference (db_transactions d)) →
  NoDup (map t_TransactionID (db_transactions d)) →
  NoDup (map t_Reference (db_transactions d ++ [stored_row t]))
  ∧ NoDup (map t_TransactionID (db_transactions d ++ [stored_row t])).
Proof.
  intros Hf H1 H2. destruct (stored_row_keys t) as (E1 & E2 & _). rewrite !map_app. cbn [map].
  rewrite E1, E2. split; apply NoDup_app; (split; [done|]); (split; [|apply NoDup_singleton]);
    intros x (r & -> & Hr)%list_elem_of_fmap ?%list_elem_of_singleton;
    destruct (Hf r Hr); congruence.
Qed.

Lemma recordTransactionInTx_duplicate d t r :
  r ∈ db_transactions d → t_Reference r = t_Reference t →
  recordTransactionInTx d t = Err (EAPI "INTERNAL_SERVER_ERROR" "Failed to record transaction").
Proof.
  intros Hr Href. unfold recordTransactionInTx.
  replace (existsb _ (db_transactions d)) with true; [by rewrite andb_false_r|].
  symmetry. apply existsb_true. exists r. split; [done|].
  by rewrite Href, String.eqb_refl, orb_true_r.
Qed.

Lemma InsertLineageOutbox_Ok d o now d' :
  InsertLineageOutbox d o now = Ok d' →
  db_balances d' = db_balances d ∧ db_transactions d' = db_transactions d
  ∧ ∃ row, db_outbox d' = db_outbox d ++ [row] ∧ o_TransactionID row = o_TransactionID o
      ∧ o_Status row = "pending" ∧ o_Attempts row = 0.
Proof.
  unfold InsertLineageOutbox. destruct (existsb _ _); [done|]. intros E. inv_result.
  split; [done|]. split; [done|]. eexists. split; [done|]. by destruct o.
Qed.

(** Entries of the outbox are added at the end, pending and unattempted, under
    ids that were free. *)
Definition new_entry (o : LineageOutbox) : Prop :=
  o_Status o = "pending" ∧ o_Attempts o = 0 ∧ o_LockedUntil o = None.

Definition outbox_grows (l l' : list LineageOutbox) : Prop :=
  (∃ new, l' = l ++ new ∧ Forall new_entry new) ∧ (NoDup (map o_ID l) → NoDup (map o_ID l')).

#[export] Instance outbox_grows_preorder : PreOrder outbox_grows.
Proof.
  split.
  - intros l. split; [|done]. exists []. by rewrite app_nil_r.
  - intros l1 l2 l3 [(n1 & -> & F1) N1] [(n2 & -> & F2) N2]. split; [|auto].
    exists (n1 ++ n2). rewrite app_assoc. split; [done|]. by apply Forall_app.
Qed.

Lemma next_outbox_id_fresh d o : o ∈ db_outbox d → o_ID o < next_outbox_id d.
Proof.
  unfold next_outbox_id. induction (db_outbox d) as [|x l IH].
  - by intros ?%elem_of_nil.
  - cbn [foldr]. intros [->|Hx]%elem_of_cons; [lia|]. specialize (IH Hx). lia.
Qed.

Lemma InsertLineageOutbox_grows d o now d' :
  InsertLineageOutbox d o now = Ok d' → outbox_grows (db_outbox d) (db_outbox d').
Proof.
  unfold InsertLineageOutbox. destruct (existsb _ _); [done|]. intros E. inv_result.
  cbn [db_outbox set]. split.
  - eexists. split; [done|]. by constructor.
  - intros Hnd. rewrite map_app. apply NoDup_app. split; [done|]. split; [|apply NoDup_singleton].
    intros x (r & -> & Hr)%list_elem_of_fmap ?%list_elem_of_singleton.
    apply next_outbox_id_fresh in Hr. destruct o; cbn in *. lia.
Qed.

Lemma insertLineageOutboxesInTx_grows d os nw d' :
  insertLineageOutboxesInTx d os nw = Ok d' → outbox_grows (db_outbox d) (db_outbox d').
Proof.
  revert d nw. induction os as [|[o|] os IH]; intros d nw; cbn [insertLineageOutboxesInTx].
  - by intros [= <-].
  - destruct (InsertLineageOutbox d o nw) as [d1|] eqn:E; [|done]. intros E'%IH.
    etrans; [by eapply InsertLineageOutbox_grows|done].
  - apply IH.
Qed.

(** What one committed database transaction of the single path did. *)
Lemma RecordTransactionWithBalancesAndOutbox_Ok d t s r o now d' s' r' :
  RecordTransactionWithBalancesAndOutbox d t s r o now = Ok (d', s', r') →
  b_BalanceID s ≠ b_BalanceID r →
  ∃ row_s row_r,
    db_balances d !! b_BalanceID s = Some row_s ∧ b_Version row_s = b_Version s
    ∧ db_balances d !! b_BalanceID r = Some row_r ∧ b_Version row_r = b_Version r
    ∧ db_balances d' = <[b_BalanceID r := balance_row_set row_r r]>
                         (<[b_BalanceID s := balance_row_set row_s s]> (db_balances d))
    ∧ db_transactions d' = db_transactions d ++ [stored_row t]
    ∧ fresh_row d t ∧ valid_numeric t = true
    ∧ (o = None → db_outbox d' = db_outbox d).
Proof.
  unfold RecordTransactionWithBalancesAndOutbox. intros E Hne.
  apply bind_Ok in E as ([d1 s1] & E1 & E). apply bind_Ok in E as ([d2 r1] & E2 & E).
  apply bind_Ok in E as (d3 & E3 & E). apply bind_Ok in E as (d4 & E4 & E). inv_result.
  apply updateBalance_Ok in E1 as (row_s & Es & Vs & -> & ->).
  apply updateBalance_Ok in E2 as (row_r & Er & Vr & -> & ->).
  simpl in Er. rewrite lookup_insert_ne in Er by done.
  apply recordTransactionInTx_Ok in E3 as (-> & Hf & Hv).
  exists row_s, row_r. repeat (split; [done|]).
  destruct o as [o|].
  - apply wrap_err_Ok, InsertLineageOutbox_Ok in E4 as (-> & -> & _). split_and!; try done; exact Hf.
  - inv_result. split_and!; try done; exact Hf.
Qed.

(** Two separately read copies of one balance cannot both be written: the
    second update finds the version already moved. *)
Lemma self_transfer_conflicts d t s r o now :
  b_BalanceID s = b_BalanceID r → b_Version s = b_Version r →
  is_ok (RecordTransactionWithBalancesAndOutbox d t s r o now) = false.
Proof.
  intros Eid Ev. unfold RecordTransactionWithBalancesAndOutbox.
  destruct (updateBalance d s) as [[d1 s1]|] eqn:E1; [|done]. simpl.
  apply updateBalance_Ok in E1 as (row & Er & Vr & -> & ->).
  rewrite (updateBalance_stale _ r (balance_row_set row s)); [done| |].
  - simpl. rewrite <- Eid. apply lookup_insert_eq.
  - change (b_Version row + 1 ≠ b_Version r). lia.
Qed.

End Datastore.
