(* ===== verification/Positions.v ===== *)
(** * Brokerage positions (model/brokerage.go, database/brokerage.go)

    A position is a balance addressed by ledger, identity, account, instrument,
    currency and settle date.  Mutation plans change several positions at once:
    they are merged per lock key, ordered, locked and applied in one database
    transaction.  The file also holds the settle-date calendar and the
    availability arithmetic. *)

From S2P Require Import Prelude Types Time Datastore.

Module Positions.

Import Datastore.

(** ** Keys *)

Record PositionKey := mkKey {
  k_LedgerID : string;
  k_IdentityID : string;
  k_AccountRef : string;
  k_Instrument : string;
  k_Currency : string;
  k_SettleDate : option time;
  k_SettleCode : option Z;
}.

Definition SpotSettleDateSentinel : string := "1970-01-01".

Definition settleDateKey (k : PositionKey) : string :=
  match k_SettleDate k with None => SpotSettleDateSentinel | Some d => Time.format_date d end.

Definition IsSpot (k : PositionKey) : bool := bool_decide (k_SettleDate k = None).

Definition LockKey (k : PositionKey) : string :=
  join "|" ["brokerage"; k_LedgerID k; k_IdentityID k; k_AccountRef k; k_Instrument k;
            k_Currency k; settleDateKey k].

Definition validate_key (k : PositionKey) : result unit :=
  _ ← fail_if (String.eqb (k_LedgerID k) "") (ENew "position key: ledger_id is required");
  _ ← fail_if (String.eqb (k_AccountRef k) "") (ENew "position key: account_ref is required");
  fail_if (String.eqb (k_Currency k) "") (ENew "position key: currency is required").

(** ** Deltas *)

Record BalanceDelta := mkDelta {
  Key : PositionKey;
  AmountDelta : option Z;
  BlockedDelta : option Z;
  WaitingDelta : option Z;
}.

Definition normalizedFields (d : BalanceDelta) : BalanceDelta :=
  mkDelta (Key d) (Some (ival (AmountDelta d))) (Some (ival (BlockedDelta d)))
    (Some (ival (WaitingDelta d))).

Definition IsNoOp (d : BalanceDelta) : bool :=
  let n := normalizedFields d in
  (ival (AmountDelta n) =? 0) && (ival (BlockedDelta n) =? 0) && (ival (WaitingDelta n) =? 0).

Definition Merge (d other : BalanceDelta) : BalanceDelta :=
  let n := normalizedFields d in
  let o := normalizedFields other in
  mkDelta (Key d) (Some (ival (AmountDelta n) + ival (AmountDelta o)))
    (Some (ival (BlockedDelta n) + ival (BlockedDelta o)))
    (Some (ival (WaitingDelta n) + ival (WaitingDelta o))).

Definition MutationPlan : Type := list BalanceDelta.

Definition merge_into (merged : gmap string BalanceDelta) (delta : BalanceDelta)
    : gmap string BalanceDelta :=
  let key := LockKey (Key delta) in
  match merged !! key with
  | Some existing => <[key := Merge existing delta]> merged
  | None => <[key := normalizedFields delta]> merged
  end.

Definition merge_deltas (p : MutationPlan) : gmap string BalanceDelta :=
  fold_left merge_into p ∅.

(** [sort.Slice] by lock key. *)
Definition by_lock_key (x y : BalanceDelta) : Prop :=
  String.le (LockKey (Key x)) (LockKey (Key y)).
#[export] Instance by_lock_key_dec : RelDecision by_lock_key.
Proof. intros x y. unfold by_lock_key. apply _. Defined.

Definition Normalized `{MapIter} (p : MutationPlan) : list BalanceDelta :=
  let out := List.filter (λ d, negb (IsNoOp d)) (map snd (map_iter (merge_deltas p))) in
  merge_sort by_lock_key out.

Definition LockKeys `{MapIter} (p : MutationPlan) : list string :=
  map (λ d, LockKey (Key d)) (Normalized p).

Fixpoint validate_deltas (i : Z) (p : MutationPlan) : result unit :=
  match p with
  | [] => Ok tt
  | d :: p' =>
      _ ← wrap_err ("mutation plan delta " +:+ Z_to_string i) (validate_key (Key d));
      validate_deltas (i + 1) p'
  end.

Definition validate_plan (p : MutationPlan) : result unit :=
  match p with
  | [] => Err (ENew "mutation plan: at least one delta is required")
  | _ => validate_deltas 0 p
  end.

(** ** What a plan asks for, per lock key *)

Definition asked (f : BalanceDelta → option Z) (lk : string) (p : list BalanceDelta) : Z :=
  sumZ (λ d, if String.eqb (LockKey (Key d)) lk then ival (f d) else 0) p.

(** The three quantities of a delta. *)
Inductive is_field : (BalanceDelta → option Z) → Prop :=
| field_amount : is_field AmountDelta
| field_blocked : is_field BlockedDelta
| field_waiting : is_field WaitingDelta.

Lemma Merge_field f d o : is_field f → f (Merge d o) = Some (ival (f d) + ival (f o)).
Proof. by intros []. Qed.

Lemma normalizedFields_field f d : is_field f → f (normalizedFields d) = Some (ival (f d)).
Proof. by intros []. Qed.

(** One entry per lock key, holding the sum of the deltas merged into it. *)
Definition merged_ok (p : list BalanceDelta) (m : gmap string BalanceDelta) : Prop :=
  ∀ lk, match m !! lk with
        | Some d => LockKey (Key d) = lk ∧ (∃ x, x ∈ p ∧ Key x = Key d)
                    ∧ ∀ f, is_field f → ival (f d) = asked f lk p
        | None => ∀ d, d ∈ p → LockKey (Key d) ≠ lk
        end.

Lemma asked_app f lk p q : asked f lk (p ++ q) = asked f lk p + asked f lk q.
Proof. apply sumZ_app. Qed.

Lemma asked_none f lk p : (∀ d, d ∈ p → LockKey (Key d) ≠ lk) → asked f lk p = 0.
Proof.
  intros H. apply sumZ_zero. intros d Hd. by rewrite (proj2 (String.eqb_neq _ _) (H d Hd)).
Qed.

Lemma asked_singleton f lk d :
  asked f lk [d] = if String.eqb (LockKey (Key d)) lk then ival (f d) else 0.
Proof. unfold asked. simpl. lia. Qed.

Lemma merge_into_ok p m d : merged_ok p m → merged_ok (p ++ [d]) (merge_into m d).
Proof.
  intros Hm lk. unfold merge_into. pose proof (Hm (LockKey (Key d))) as Hd.
  destruct (decide (LockKey (Key d) = lk)) as [<-|Hne].
  - destruct (m !! LockKey (Key d)) as [e|]; rewrite lookup_insert_eq.
    + destruct Hd as (Hk & (x & Hx & Ex) & Hs). split; [done|].
      split; [exists x; split; [set_solver|done]|]. intros f Hf.
      rewrite Merge_field, asked_app by done. simpl. rewrite (Hs f Hf).
      by rewrite asked_singleton, String.eqb_refl.
    + split; [done|]. split; [exists d; split; [set_solver|done]|].
      intros f Hf. rewrite normalizedFields_field, asked_app, (asked_none f _ p) by done.
      by rewrite asked_singleton, String.eqb_refl.
  - specialize (Hm lk).
    assert (Hl : (match m !! LockKey (Key d) with
                  | Some existing => <[LockKey (Key d) := Merge existing d]> m
                  | None => <[LockKey (Key d) := normalizedFields d]> m
                  end) !! lk = m !! lk)
      by (destruct (m !! LockKey (Key d)); by rewrite lookup_insert_ne).
    rewrite Hl. destruct (m !! lk) as [e|].
    + destruct Hm as (Hk & (x & Hx & Ex) & Hs). split; [done|].
      split; [exists x; split; [set_solver|done]|]. intros f Hf. rewrite asked_app, (Hs f Hf).
      rewrite asked_singleton, (proj2 (String.eqb_neq _ _) Hne). lia.
    + intros x Hx. apply elem_of_app in Hx as [Hx|Hx]; [by apply Hm|].
      by apply list_elem_of_singleton in Hx as ->.
Qed.

Lemma merge_deltas_ok p : merged_ok p (merge_deltas p).
Proof.
  unfold merge_deltas. induction p as [|d p IH] using rev_ind.
  - intros lk. change (∀ d, d ∈ [] → LockKey (Key d) ≠ lk). intros d Hd. by apply not_elem_of_nil in Hd.
  - rewrite fold_left_app. by apply merge_into_ok.
Qed.

Section normalized.
Context `{MapIter}.

Lemma Normalized_perm p :
  Normalized p ≡ₚ List.filter (λ d, negb (IsNoOp d)) (map snd (map_to_list (merge_deltas p))).
Proof. unfold Normalized. rewrite merge_sort_Permutation. f_equiv. by rewrite map_iter_perm. Qed.

Lemma elem_of_Normalized p d :
  d ∈ Normalized p ↔ merge_deltas p !! LockKey (Key d) = Some d ∧ IsNoOp d = false.
Proof.
  rewrite Normalized_perm, elem_of_list_filter, negb_true_iff, list_elem_of_fmap. split.
  - intros [([k d'] & -> & Hin) Hn]. apply elem_of_map_to_list in Hin. simpl in *.
    pose proof (merge_deltas_ok p k) as Hk. rewrite Hin in Hk. destruct Hk as [-> _]. done.
  - intros [Hl Hn]. split; [|done]. exists (LockKey (Key d), d). split; [done|].
    by apply elem_of_map_to_list.
Qed.

Lemma Normalized_sorted p : Sorted by_lock_key (Normalized p).
Proof.
  unfold Normalized. apply Sorted_merge_sort. intros x y. unfold by_lock_key. apply (total String.le).
Qed.

Lemma Normalized_keys p : NoDup (LockKeys p).
Proof.
  unfold LockKeys. rewrite Normalized_perm.
  assert (Hnd : NoDup (map (λ d, LockKey (Key d)) (map snd (map_to_list (merge_deltas p))))).
  { rewrite map_map. assert (E : map (λ x, LockKey (Key x.2)) (map_to_list (merge_deltas p))
      = (map_to_list (merge_deltas p)).*1).
    { apply map_ext_in. intros [k d] Hin. apply list_elem_of_In, elem_of_map_to_list in Hin.
      pose proof (merge_deltas_ok p k) as Hk. rewrite Hin in Hk. by destruct Hk. }
    rewrite E. apply NoDup_fst_map_to_list. }
  revert Hnd. generalize (map snd (map_to_list (merge_deltas p))). intros l.
  induction l as [|d l IH]; simpl; [done|]. intros [Hnin Hnd]%NoDup_cons.
  destruct (negb (IsNoOp d)); simpl; [|by apply IH]. constructor; [|by apply IH].
  intros Hin. apply Hnin. apply list_elem_of_fmap in Hin as (x & -> & Hx).
  apply elem_of_list_filter in Hx as [Hx _]. apply list_elem_of_fmap. by exists x.
Qed.

Lemma asked_one f lk l d :
  NoDup (map (λ d, LockKey (Key d)) l) → d ∈ l → LockKey (Key d) = lk → asked f lk l = ival (f d).
Proof.
  induction l as [|x l IH]; simpl; [intros _ Hd; by apply not_elem_of_nil in Hd|].
  intros [Hnin Hnd]%NoDup_cons Hd <-. change (x :: l) with ([x] ++ l).
  rewrite asked_app, asked_singleton.
  apply elem_of_cons in Hd as [->|Hd].
  - rewrite String.eqb_refl, asked_none; [lia|]. intros y Hy E. apply Hnin.
    apply list_elem_of_fmap. by exists y.
  - rewrite (IH Hnd Hd eq_refl). destruct (String.eqb_spec (LockKey (Key x)) (LockKey (Key d))) as [E|];
      [|lia]. destruct Hnin. rewrite E. apply list_elem_of_fmap. by exists d.
Qed.

Lemma Normalized_key p d : d ∈ Normalized p → ∃ x, x ∈ p ∧ Key x = Key d.
Proof.
  intros Hd. apply elem_of_Normalized in Hd as [Hd _].
  pose proof (merge_deltas_ok p (LockKey (Key d))) as Hm. rewrite Hd in Hm. by destruct Hm as (_ & ? & _).
Qed.

(** The normalised plan asks for the same change of every key. *)
Lemma Normalized_asked p f lk : is_field f → asked f lk (Normalized p) = asked f lk p.
Proof.
  intros Hf. pose proof (merge_deltas_ok p lk) as Hm.
  destruct (merge_deltas p !! lk) as [d|] eqn:E.
  - destruct Hm as (Hk & _ & Hs). rewrite <- (Hs f Hf). destruct (IsNoOp d) eqn:En.
    + rewrite asked_none.
      * unfold IsNoOp in En. zbool. destruct Hf; simpl in *; lia.
      * intros x Hx Ex. apply elem_of_Normalized in Hx as [Hx Hn]. rewrite Ex in Hx. congruence.
    + apply asked_one; [apply Normalized_keys| |done]. apply elem_of_Normalized. by rewrite Hk.
  - rewrite !asked_none; [done|done|]. intros x Hx Ex. apply elem_of_Normalized in Hx as [Hx _].
    congruence.
Qed.
End normalized.

(** The order a Go map is visited in does not matter. *)
Lemma Normalized_iter (I1 I2 : MapIter) p : @Normalized I1 p = @Normalized I2 p.
Proof.
  apply (StronglySorted_unique_strong by_lock_key).
  - intros x y Hx Hy H1 H2. apply elem_of_Normalized in Hx as [Hx _], Hy as [Hy _].
    assert (LockKey (Key x) = LockKey (Key y)) as E by (by apply (anti_symm String.le)).
    rewrite E in Hx. congruence.
  - apply Sorted_StronglySorted, Normalized_sorted. intros x y z. unfold by_lock_key. apply transitivity.
  - apply Sorted_StronglySorted, Normalized_sorted. intros x y z. unfold by_lock_key. apply transitivity.
  - by rewrite !Normalized_perm.
Qed.

(** ** Position rows *)

(** [DATE '1970-01-01'], the day spot positions are compared as. *)
Definition epoch_day : Z := 719162.
Definition settle_day (o : option time) : Z :=
  match o with None => epoch_day | Some t => t / Time.day end.

Example epoch_day_text : Time.format_date (epoch_day * Time.day) = SpotSettleDateSentinel.
Proof. vm_compute. reflexivity. Qed.

(** [positionKeyPredicate]; an empty [account_ref] stands for NULL, which
    equals nothing. *)
Definition position_row (k : PositionKey) (b : Balance) : bool :=
  String.eqb (b_LedgerID b) (k_LedgerID k) && String.eqb (b_IdentityID b) (k_IdentityID k)
  && negb (String.eqb (b_AccountRef b) "") && String.eqb (b_AccountRef b) (k_AccountRef k)
  && String.eqb (b_Instrument b) (k_Instrument k) && String.eqb (b_Currency b) (k_Currency k)
  && (settle_day (b_SettleDate b) =? settle_day (k_SettleDate k)).

(** The columns [positionSelectColumns] reads. *)
Definition scanPositionRow (row : Balance) : Balance :=
  empty_balance <| b_BalanceID := b_BalanceID row |>
    <| b_Balance := Some (ival (b_Balance row)) |>
    <| b_CreditBalance := Some (ival (b_CreditBalance row)) |>
    <| b_DebitBalance := Some (ival (b_DebitBalance row)) |>
    <| b_InflightBalance := Some (ival (b_InflightBalance row)) |>
    <| b_InflightCreditBalance := Some (ival (b_InflightCreditBalance row)) |>
    <| b_InflightDebitBalance := Some (ival (b_InflightDebitBalance row)) |>
    <| b_Currency := b_Currency row |> <| b_LedgerID := b_LedgerID row |>
    <| b_IdentityID := b_IdentityID row |> <| b_CreatedAt := b_CreatedAt row |>
    <| b_Version := b_Version row |> <| b_AccountRef := b_AccountRef row |>
    <| b_Instrument := b_Instrument row |> <| b_SettleDate := b_SettleDate row |>
    <| b_SettleCode := b_SettleCode row |> <| b_WAPrice := b_WAPrice row |>.

Definition balance_rows (d : db) : list Balance := map snd (map_to_list (db_balances d)).

Definition find_position (d : db) (k : PositionKey) : option Balance :=
  List.find (position_row k) (balance_rows d).

Definition GetPosition (d : db) (k : PositionKey) : result Balance :=
  match find_position d k with
  | Some b => Ok (scanPositionRow b)
  | None => Err (EAPI "NOT_FOUND" ("Position not found for key '" +:+ LockKey k +:+ "'"))
  end.

Definition GetPositionByID (d : db) (id : string) : result Balance :=
  match db_balances d !! id with
  | Some b => Ok (scanPositionRow b)
  | None => Err (EAPI "NOT_FOUND" ("Balance with ID '" +:+ id +:+ "' not found"))
  end.

(** The row INSERT creates: zero amounts, the settle date as a DATE. *)
Definition new_position (k : PositionKey) (id : string) (now : time) : Balance :=
  empty_balance <| b_BalanceID := id |> <| b_Version := 1 |>
    <| b_Balance := Some 0 |> <| b_CreditBalance := Some 0 |> <| b_DebitBalance := Some 0 |>
    <| b_InflightBalance := Some 0 |> <| b_InflightCreditBalance := Some 0 |>
    <| b_InflightDebitBalance := Some 0 |>
    <| b_Currency := k_Currency k |> <| b_LedgerID := k_LedgerID k |>
    <| b_IdentityID := k_IdentityID k |> <| b_CreatedAt := now |>
    <| b_AccountRef := k_AccountRef k |> <| b_Instrument := k_Instrument k |>
    <| b_SettleDate := (λ t, t / Time.day * Time.day) <$> k_SettleDate k |>
    <| b_SettleCode := k_SettleCode k |>.

(** [ON CONFLICT DO NOTHING] on the primary key or the position index; a
    missing ledger or identity violates a foreign key. *)
Definition insert_position (fk : PositionKey → bool) (k : PositionKey) (id : string)
    (now : time) (d : db) : option db :=
  if bool_decide (is_Some (db_balances d !! id)) || bool_decide (is_Some (find_position d k))
  then Some d
  else if fk k then Some (d <| db_balances := <[id := new_position k id now]> (db_balances d) |>)
  else None.

Definition FindOrCreatePosition (fk : PositionKey → bool) (k : PositionKey) (id : string)
    (now : time) (d : db) : result (db * Balance) :=
  match validate_key k with
  | Err e => Err (EAPI "BAD_REQUEST" (error_text e))
  | Ok _ =>
      match GetPosition d k with
      | Ok b => Ok (d, b)
      | Err _ =>
          match insert_position fk k id now d with
          | None => Err (EAPI "BAD_REQUEST" "Invalid ledger ID")
          | Some d => b ← GetPosition d k; Ok (d, b)
          end
      end
  end.

(** ** Applying a plan *)

Definition apply_amount (delta : option Z) (credit debit : Z) : Z * Z :=
  match delta with
  | None => (credit, debit)
  | Some a => if 0 <? a then (credit + a, debit) else if a <? 0 then (credit, debit - a)
              else (credit, debit)
  end.

(** The UPDATE of a locked row, or the refusal of negative holds. *)
Definition delta_row (delta : BalanceDelta) (row : Balance) : result Balance :=
  let '(credit, debit) :=
    apply_amount (AmountDelta delta) (ival (b_CreditBalance row)) (ival (b_DebitBalance row)) in
  let inflightDebit := ival (b_InflightDebitBalance row) + ival (BlockedDelta delta) in
  let inflightCredit := ival (b_InflightCreditBalance row) + ival (WaitingDelta delta) in
  if (inflightDebit <? 0) || (inflightCredit <? 0) then
    Err (EAPI "BAD_REQUEST" ("Mutation would drive holds negative for position '"
                             +:+ LockKey (Key delta) +:+ "'"))
  else Ok (row <| b_Balance := Some (credit - debit) |> <| b_CreditBalance := Some credit |>
    <| b_DebitBalance := Some debit |>
    <| b_InflightBalance := Some (inflightCredit - inflightDebit) |>
    <| b_InflightCreditBalance := Some inflightCredit |>
    <| b_InflightDebitBalance := Some inflightDebit |>
    <| b_Version := b_Version row + 1 |>).

Definition lockPositionRow (fk : PositionKey → bool) (id : string) (now : time) (d : db)
    (k : PositionKey) : result (db * Balance) :=
  match find_position d k with
  | Some row => Ok (d, row)
  | None =>
      match insert_position fk k id now d with
      | None => Err (EAPI "INTERNAL_SERVER_ERROR" "Failed to create position for mutation")
      | Some d =>
          match find_position d k with
          | Some row => Ok (d, row)
          | None => Err (EAPI "INTERNAL_SERVER_ERROR" ("Failed to lock position '" +:+ LockKey k +:+ "'"))
          end
      end
  end.

Definition applyOneDelta (fk : PositionKey → bool) (id : string) (now : time) (d : db)
    (delta : BalanceDelta) : result db :=
  locked ← lockPositionRow fk id now d (Key delta);
  let '(d, row) := locked in
  row' ← delta_row delta row;
  Ok (d <| db_balances := <[b_BalanceID row := row']> (db_balances d) |>).

(** One database transaction: an error commits nothing.  [id i] is the id
    generated for a position the i-th delta creates. *)
Fixpoint ApplyBalanceDeltas (fk : PositionKey → bool) (id : nat → string) (now : time)
    (deltas : list BalanceDelta) (d : db) : result db :=
  match deltas with
  | [] => Ok d
  | delta :: deltas' =>
      d' ← applyOneDelta fk (id (length deltas')) now d delta;
      ApplyBalanceDeltas fk id now deltas' d'
  end.

(** ** Positions and lock keys *)

Definition same_position (k k' : PositionKey) : bool :=
  String.eqb (k_LedgerID k) (k_LedgerID k') && String.eqb (k_IdentityID k) (k_IdentityID k')
  && String.eqb (k_AccountRef k) (k_AccountRef k') && String.eqb (k_Instrument k) (k_Instrument k')
  && String.eqb (k_Currency k) (k_Currency k')
  && (settle_day (k_SettleDate k) =? settle_day (k_SettleDate k')).

Ltac str_eq :=
  repeat match goal with
  | H : (_ && _)%bool = true |- _ => apply andb_true_iff in H as [? ?]
  | H : String.eqb _ _ = true |- _ => apply String.eqb_eq in H
  | H : (_ =? _) = true |- _ => apply Z.eqb_eq in H
  end.

Lemma same_position_row k k' b : same_position k k' = true → position_row k b = position_row k' b.
Proof.
  unfold same_position, position_row. intros H. str_eq. congruence.
Qed.

Lemma row_same_position k k' b :
  position_row k b = true → position_row k' b = true → same_position k k' = true.
Proof.
  unfold same_position, position_row. intros H1 H2. str_eq.
  repeat (apply andb_true_iff; split); try (apply String.eqb_eq); try (apply Z.eqb_eq); congruence.
Qed.

(** Keys whose lock key is unambiguous. *)
Definition plain_key (k : PositionKey) : Prop :=
  forallb (free_of "|") [k_LedgerID k; k_IdentityID k; k_AccountRef k; k_Instrument k;
                         k_Currency k] = true
  ∧ Time.printable (match k_SettleDate k with Some t => t | None => epoch_day * Time.day end).

Lemma settle_text k :
  settleDateKey k
  = Time.format_date (match k_SettleDate k with Some t => t | None => epoch_day * Time.day end).
Proof. unfold settleDateKey. destruct (k_SettleDate k); [done|]. by rewrite epoch_day_text. Qed.

Lemma settle_day_alt k :
  settle_day (k_SettleDate k)
  = (match k_SettleDate k with Some t => t | None => epoch_day * Time.day end) / Time.day.
Proof. unfold settle_day. destruct (k_SettleDate k); [done|]. by vm_compute. Qed.

Lemma LockKey_same k k' :
  plain_key k → plain_key k' → LockKey k = LockKey k' ↔ same_position k k' = true.
Proof.
  intros [Hp Ht] [Hp' Ht']. unfold LockKey, same_position. cbn [join forallb] in *.
  rewrite !settle_text, !settle_day_alt. split; intros E.
  - zbool. apply cut_at_separator in E as [_ E]; [|done..].
    repeat (apply cut_at_separator in E as [-> E]; [|assumption|assumption]).
    apply Time.format_date_inj in E; [|done..]. rewrite E. by rewrite !String.eqb_refl, Z.eqb_refl.
  - str_eq. match goal with Hd : _ / Time.day = _ / Time.day |- _ =>
      assert (Ed := f_equal (λ n, let '(y, m, d) := Time.date_of_days n in Time.date_text y m d) Hd)
    end. cbv beta in Ed. unfold Time.format_date. congruence.
Qed.

(** ** What applying a plan does *)

Record positions_ok (d : db) : Prop := {
  po_id : ∀ id b, db_balances d !! id = Some b → b_BalanceID b = id;
  po_unique : ∀ id id' b b' k, db_balances d !! id = Some b → db_balances d !! id' = Some b' →
    position_row k b = true → position_row k b' = true → id = id';
}.

Lemma elem_of_balance_rows d b : b ∈ balance_rows d ↔ ∃ id, db_balances d !! id = Some b.
Proof.
  unfold balance_rows. rewrite list_elem_of_fmap. split.
  - intros ([id x] & -> & Hin). exists id. by apply elem_of_map_to_list.
  - intros [id Hid]. exists (id, b). split; [done|]. by apply elem_of_map_to_list.
Qed.

Lemma find_position_Some d k b :
  find_position d k = Some b → position_row k b = true ∧ ∃ id, db_balances d !! id = Some b.
Proof.
  intros H. apply find_some in H as [Hin Hb]. apply list_elem_of_In in Hin.
  by rewrite elem_of_balance_rows in Hin.
Qed.

Lemma find_position_None d k :
  find_position d k = None → ∀ id b, db_balances d !! id = Some b → position_row k b = false.
Proof.
  intros H id b Hb. refine (find_none _ _ H b _). apply list_elem_of_In, elem_of_balance_rows.
  by exists id.
Qed.

Lemma find_position_unique d k id b :
  positions_ok d → db_balances d !! id = Some b → position_row k b = true →
  find_position d k = Some b.
Proof.
  intros Hok Hb Hk. destruct (find_position d k) as [b'|] eqn:E.
  - apply find_position_Some in E as (Hk' & id' & Hb').
    assert (id = id') as <- by (by eapply po_unique). congruence.
  - apply (find_position_None d k E) in Hb. congruence.
Qed.

(** A quantity of a position; an absent position holds nothing. *)
Definition held (q : Balance → Z) (d : db) (k : PositionKey) : Z :=
  match find_position d k with Some b => q b | None => 0 end.

Definition settled (b : Balance) : Z := ival (b_CreditBalance b) - ival (b_DebitBalance b).
Definition blocked (b : Balance) : Z := ival (b_InflightDebitBalance b).
Definition waiting (b : Balance) : Z := ival (b_InflightCreditBalance b).

(** The quantity a component of a delta changes. *)
Inductive component : (Balance → Z) → (BalanceDelta → option Z) → Prop :=
| comp_amount : component settled AmountDelta
| comp_blocked : component blocked BlockedDelta
| comp_waiting : component waiting WaitingDelta.

(** The decomposition every balance keeps. *)
Definition decomposed (b : Balance) : Prop :=
  ival (b_Balance b) = settled b ∧ ival (b_InflightBalance b) = waiting b - blocked b
  ∧ 0 <= blocked b ∧ 0 <= waiting b.

Lemma delta_row_spec delta row row' :
  delta_row delta row = Ok row' →
  decomposed row' ∧ b_BalanceID row' = b_BalanceID row
  ∧ (∀ k, position_row k row' = position_row k row)
  ∧ ∀ q f, component q f → q row' = q row + ival (f delta).
Proof.
  unfold delta_row. destruct (apply_amount _ _ _) as [credit debit] eqn:E.
  destruct (_ || _)%bool eqn:Hneg; [done|]. intros [= <-]. zbool.
  assert (Ha : credit - debit = ival (b_CreditBalance row) - ival (b_DebitBalance row)
               + ival (AmountDelta delta)).
  { unfold apply_amount in E. destruct (AmountDelta delta) as [a|]; [|injection E as <- <-; simpl; lia].
    destruct (Z.ltb_spec 0 a); [injection E as <- <-; simpl; lia|].
    destruct (Z.ltb_spec a 0); injection E as <- <-; simpl; lia. }
  split; [split_and!; simpl; unfold settled, waiting, blocked; simpl; lia|].
  split; [done|]. split; [done|].
  intros q f []; unfold settled, waiting, blocked; simpl; lia.
Qed.

Lemma position_row_new k k' id now :
  position_row k (new_position k' id now) = true → same_position k' k = true.
Proof.
  unfold position_row, same_position, new_position. simpl. intros H. str_eq.
  assert (settle_day ((λ t, t / Time.day * Time.day) <$> k_SettleDate k')
          = settle_day (k_SettleDate k')) as E.
  { destruct (k_SettleDate k') as [t|]; [|done]. simpl. by rewrite Z.div_mul. }
  rewrite E in H0.
  repeat (apply andb_true_iff; split); try (apply String.eqb_eq); try (apply Z.eqb_eq); congruence.
Qed.

(** Locking a position, creating it when it is missing. *)
Lemma lockPositionRow_spec fk id now d k d' row :
  positions_ok d → lockPositionRow fk id now d k = Ok (d', row) →
  positions_ok d' ∧ find_position d' k = Some row
  ∧ (∀ q f k', component q f → held q d' k' = held q d k')
  ∧ (∀ i b, db_balances d !! i = Some b → db_balances d' !! i = Some b).
Proof.
  intros Hok. unfold lockPositionRow.
  destruct (find_position d k) as [b|] eqn:E; [by intros [= <- <-]|].
  unfold insert_position. rewrite E, (bool_decide_eq_false_2 (is_Some None)), orb_false_r by (by intros []).
  destruct (bool_decide_reflect (is_Some (db_balances d !! id))) as [_|Hfree];
    [by rewrite E|].
  destruct (fk k); [|done]. set (new := new_position k id now). set (d1 := d <| db_balances := _ |>).
  assert (Hl : ∀ i, db_balances d1 !! i = if decide (id = i) then Some new else db_balances d !! i)
    by (intros i; apply lookup_insert).
  apply eq_None_not_Some in Hfree.
  assert (Hok1 : positions_ok d1).
  { split.
    - intros i b. rewrite Hl. destruct (decide (id = i)) as [<-|]; [by intros [= <-]|apply po_id, Hok].
    - assert (Hnew : ∀ i b k', db_balances d !! i = Some b → position_row k' new = true →
        position_row k' b = true → False).
      { intros i b k' Hb H1 H2. apply position_row_new in H1.
        rewrite <- (same_position_row k k' b H1) in H2.
        by rewrite (find_position_None d k E i b Hb) in H2. }
      intros i i' b b' k'. rewrite !Hl.
      destruct (decide (id = i)) as [<-|], (decide (id = i')) as [<-|]; [done| | |by eapply po_unique].
      + intros [= <-] Hb' H1 H2. by destruct (Hnew _ _ _ Hb' H1 H2).
      + intros Hb [= <-] H1 H2. by destruct (Hnew _ _ _ Hb H2 H1). }
  destruct (find_position d1 k) as [b|] eqn:E1; [|done]. intros [= <- <-].
  split; [done|]. split; [done|]. split.
  - intros q f k' Hq. unfold held.
    destruct (find_position d k') as [x|] eqn:Ex.
    + apply find_position_Some in Ex as (Hx & i & Hi).
      rewrite (find_position_unique d1 k' i x); [done|done| |done].
      rewrite Hl. destruct (decide (id = i)); [congruence|done].
    + destruct (find_position d1 k') as [x|] eqn:Ex1; [|done].
      apply find_position_Some in Ex1 as (Hx & i & Hi). rewrite Hl in Hi.
      destruct (decide (id = i)) as [<-|]; [|by rewrite (find_position_None d k' Ex i x Hi) in Hx].
      injection Hi as <-. by destruct Hq.
  - intros i b0 Hb0. rewrite Hl. destruct (decide (id = i)); [congruence|done].
Qed.

(** Rewriting the amounts of one row. *)
Section set_row.
Context (d : db) (i : string) (row row' : Balance).
Context (Hok : positions_ok d) (Hi : db_balances d !! i = Some row).
Context (Hid : b_BalanceID row' = b_BalanceID row).
Context (Hrow : ∀ k, position_row k row' = position_row k row).
Let d' := mkDB (<[i := row']> (db_balances d)) (db_transactions d) (db_outbox d).

Lemma set_row_lookup j :
  db_balances d' !! j = if decide (i = j) then Some row' else db_balances d !! j.
Proof. apply lookup_insert. Qed.

Lemma set_row_ok : positions_ok d'.
Proof.
  split.
  - intros j b. rewrite set_row_lookup. destruct (decide (i = j)) as [<-|]; [|apply po_id, Hok].
    intros [= <-]. rewrite Hid. by apply (po_id d).
  - assert (Hold : ∀ j b k, db_balances d' !! j = Some b → position_row k b = true →
      ∃ b0, db_balances d !! j = Some b0 ∧ position_row k b0 = true).
    { intros j b k. rewrite set_row_lookup. destruct (decide (i = j)) as [<-|]; [|by exists b].
      intros [= <-]. rewrite Hrow. by exists row. }
    intros j j' b b' k Hb Hb' H1 H2.
    destruct (Hold _ _ _ Hb H1) as (? & ? & ?), (Hold _ _ _ Hb' H2) as (? & ? & ?).
    by eapply po_unique.
Qed.

Lemma set_row_same k : position_row k row = true → find_position d' k = Some row'.
Proof.
  intros Hk. apply (find_position_unique d' k i); [apply set_row_ok| |by rewrite Hrow].
  rewrite set_row_lookup. by destruct (decide (i = i)).
Qed.

Lemma set_row_other k : position_row k row = false → find_position d' k = find_position d k.
Proof.
  intros Hk. destruct (find_position d k) as [b|] eqn:Eb.
  - apply find_position_Some in Eb as (Hkb & j & Hj).
    apply (find_position_unique d' k j); [apply set_row_ok| |done].
    rewrite set_row_lookup. destruct (decide (i = j)) as [<-|]; [congruence|done].
  - destruct (find_position d' k) as [b|] eqn:E2; [|done].
    apply find_position_Some in E2 as (Hkb & j & Hj). rewrite set_row_lookup in Hj.
    destruct (decide (i = j)) as [<-|].
    + injection Hj as <-. rewrite Hrow in Hkb. congruence.
    + by rewrite (find_position_None _ _ Eb _ _ Hj) in Hkb.
Qed.
End set_row.

Lemma same_position_refl k : same_position k k = true.
Proof. unfold same_position. by rewrite !String.eqb_refl, Z.eqb_refl. Qed.

Lemma applyOneDelta_spec fk id now d delta d' :
  positions_ok d → applyOneDelta fk id now d delta = Ok d' →
  positions_ok d'
  ∧ (∀ q f k, component q f →
       held q d' k = held q d k + (if same_position (Key delta) k then ival (f delta) else 0))
  ∧ (∀ i b, db_balances d !! i = Some b → position_row (Key delta) b = false →
       db_balances d' !! i = Some b)
  ∧ (∀ b, find_position d' (Key delta) = Some b → decomposed b).
Proof.
  intros Hok H. unfold applyOneDelta in H. apply bind_Ok in H as ([d1 row] & H1 & H).
  apply bind_Ok in H as (row' & H2 & H). injection H as <-.
  apply lockPositionRow_spec in H1 as (Hok1 & Hfind & Hheld & Hkept); [|done].
  apply delta_row_spec in H2 as (Hdec & Hid & Hrow & Hq).
  destruct (find_position_Some _ _ _ Hfind) as (Hk & i & Hi).
  rewrite (po_id _ Hok1 _ _ Hi).
  pose proof (set_row_ok d1 i row row' Hok1 Hi Hid Hrow) as Hok2.
  pose proof (set_row_same d1 i row row' Hok1 Hi Hid Hrow) as Hsame.
  pose proof (set_row_other d1 i row row' Hok1 Hi Hid Hrow) as Hother.
  split; [done|]. split; [|split].
  - intros q f k Hc. rewrite <- (Hheld q f k Hc). unfold held.
    destruct (same_position (Key delta) k) eqn:Hs.
    + rewrite (same_position_row _ _ row Hs) in Hk. rewrite (Hsame k Hk), (Hq q f Hc).
      by rewrite (find_position_unique d1 k i row).
    + rewrite Z.add_0_r, Hother; [done|]. apply not_true_is_false. intros Hkr.
      by rewrite (row_same_position _ _ _ Hk Hkr) in Hs.
  - intros j b Hb Hkb. rewrite (set_row_lookup d1 i row'). pose proof (Hkept _ _ Hb) as Hb1.
    destruct (decide (i = j)) as [<-|]; [congruence|done].
  - intros b Hb. rewrite (Hsame _ Hk) in Hb. by injection Hb as <-.
Qed.

(** The change a list of deltas asks for of one position. *)
Definition asked_of (f : BalanceDelta → option Z) (k : PositionKey) (l : list BalanceDelta) : Z :=
  sumZ (λ d, if same_position (Key d) k then ival (f d) else 0) l.

Lemma ApplyBalanceDeltas_spec fk id now deltas d d' :
  positions_ok d → ApplyBalanceDeltas fk id now deltas d = Ok d' →
  positions_ok d'
  ∧ (∀ q f k, component q f → held q d' k = held q d k + asked_of f k deltas)
  ∧ (∀ i b, db_balances d !! i = Some b →
       (∀ delta, delta ∈ deltas → position_row (Key delta) b = false) →
       db_balances d' !! i = Some b).
Proof.
  revert d. induction deltas as [|delta deltas IH]; intros d Hok H.
  { injection H as <-. unfold asked_of. simpl. split_and!; [done| |done]. intros. lia. }
  cbn [ApplyBalanceDeltas] in H. apply bind_Ok in H as (d1 & H1 & H).
  apply applyOneDelta_spec in H1 as (Hok1 & Hheld1 & Hkept1 & _); [|done].
  destruct (IH d1 Hok1 H) as (Hok' & Hheld & Hkept). split_and!; [done| |].
  - intros q f k Hc. rewrite (Hheld q f k Hc), (Hheld1 q f k Hc). unfold asked_of. simpl. lia.
  - intros i b Hb Hno. apply Hkept; [apply Hkept1; [done|]|]; [apply Hno; by left|].
    intros delta' Hd. apply Hno. by right.
Qed.

Lemma asked_of_lock_key f k l :
  Forall (λ d, plain_key (Key d)) l → plain_key k → asked_of f k l = asked f (LockKey k) l.
Proof.
  intros Hl Hk. apply sumZ_ext. intros d Hd. rewrite Forall_forall in Hl.
  pose proof (LockKey_same _ _ (Hl d Hd) Hk) as Hiff.
  destruct (same_position (Key d) k).
  - by rewrite (proj2 Hiff eq_refl), String.eqb_refl.
  - destruct (String.eqb_spec (LockKey (Key d)) (LockKey k)) as [E|]; [|done].
    by apply Hiff in E.
Qed.

Lemma Normalized_plain {MI : MapIter} p :
  Forall (λ d, plain_key (Key d)) p → Forall (λ d, plain_key (Key d)) (Normalized p).
Proof.
  rewrite !Forall_forall. intros Hp d Hd. apply Normalized_key in Hd as (x & Hx & <-). by apply Hp.
Qed.


(** ** Queries *)

Definition active_candidate (ledgerID identityID accountRef instrument currency : string)
    (b : Balance) : bool :=
  String.eqb (b_LedgerID b) ledgerID && String.eqb (b_IdentityID b) identityID
  && negb (String.eqb (b_AccountRef b) "") && String.eqb (b_AccountRef b) accountRef
  && String.eqb (b_Instrument b) instrument && String.eqb (b_Currency b) currency.

(** [settle_date DESC NULLS LAST]: spot rows sort after every date. *)
Definition settle_rank (b : Balance) : Z :=
  match b_SettleDate b with Some t => 1 + Z.max 0 (t / Time.day) | None => 0 end.

Definition GetActivePosition (d : db) (ledgerID identityID accountRef instrument currency : string)
    (maxSettleDate : option time) : result Balance :=
  let candidates := List.filter (active_candidate ledgerID identityID accountRef instrument currency)
                      (balance_rows d) in
  let rows :=
    match maxSettleDate with
    | None => List.filter (λ b, bool_decide (b_SettleDate b = None)) candidates
    | Some t =>
        order_desc settle_rank
          (List.filter (λ b, match b_SettleDate b with
                             | None => true | Some s => s / Time.day <=? t / Time.day end) candidates)
    end in
  match rows with
  | b :: _ => Ok (scanPositionRow b)
  | [] => Err (EAPI "NOT_FOUND" "No active position found for the requested dimensions")
  end.

Definition matured (asOf : time) (b : Balance) : bool :=
  negb (String.eqb (b_AccountRef b) "")
  && match b_SettleDate b with Some t => t / Time.day <=? asOf / Time.day | None => false end
  && (negb (ival (b_Balance b) =? 0) || negb (ival (b_InflightCreditBalance b) =? 0)
      || negb (ival (b_InflightDebitBalance b) =? 0)).

Definition GetMaturedPositions (d : db) (asOf : time) (limit : nat) : list Balance :=
  map scanPositionRow (take limit (order_asc settle_rank (List.filter (matured asOf) (balance_rows d)))).

(** Incoming and outgoing holds of the future buckets settling by a date. *)
Definition SumFutureHolds (d : db) (ledgerID identityID accountRef instrument currency : string)
    (asOfSettleDate : time) : Z * Z :=
  let rows := List.filter (λ b,
      active_candidate ledgerID identityID accountRef instrument currency b
      && match b_SettleDate b with
         | Some t => t / Time.day <=? asOfSettleDate / Time.day | None => false end)
    (balance_rows d) in
  (sumZ (λ b, ival (b_InflightCreditBalance b)) rows,
   sumZ (λ b, ival (b_InflightDebitBalance b)) rows).

(** ** Recomputing holds from the live INFLIGHT rows *)

Definition committed_children (d : db) (t : Transaction) : Z :=
  GetTotalCommittedTransactions d (t_TransactionID t).

Definition live_hold (d : db) (t : Transaction) : bool :=
  String.eqb (t_Status t) StatusInflight && negb (IsParentTransactionVoid d (t_TransactionID t)).

Definition remaining_hold (d : db) (t : Transaction) : Z :=
  Z.max (ival (t_PreciseAmount t) - committed_children d t) 0.

Definition recomputed_holds (d : db) (balanceID : string) : Z * Z :=
  let live := List.filter (λ t, live_hold d t
    && (String.eqb (t_Source t) balanceID || String.eqb (t_Destination t) balanceID))
    (db_transactions d) in
  (sumZ (λ t, if String.eqb (t_Source t) balanceID then remaining_hold d t else 0) live,
   sumZ (λ t, if String.eqb (t_Destination t) balanceID then remaining_hold d t else 0) live).

Definition RecomputeHolds (d : db) (balanceID : string) : result (db * (Z * Z)) :=
  match db_balances d !! balanceID with
  | None => Err (EAPI "NOT_FOUND" ("Balance with ID '" +:+ balanceID +:+ "' not found"))
  | Some row =>
      let '(inflightDebit, inflightCredit) := recomputed_holds d balanceID in
      let row' := row <| b_InflightBalance := Some (inflightCredit - inflightDebit) |>
        <| b_InflightCreditBalance := Some inflightCredit |>
        <| b_InflightDebitBalance := Some inflightDebit |>
        <| b_Version := b_Version row + 1 |> in
      Ok (d <| db_balances := <[balanceID := row']> (db_balances d) |>, (inflightDebit, inflightCredit))
  end.

Definition pending_leg (d : db) (t : Transaction) : bool :=
  live_hold d t && (committed_children d t <? ival (t_PreciseAmount t)).

(** The columns both pending-leg queries select. *)
Definition scan_pending (row : Transaction) : Transaction := scan_transaction row <| t_Hash := "" |>.

Definition GetPendingInflightByDestination (d : db) (balanceID : string) : list Transaction :=
  map scan_pending (order_asc t_CreatedAt
    (List.filter (λ t, String.eqb (t_Destination t) balanceID && pending_leg d t)
       (db_transactions d))).

Definition GetPendingInflightByBalance (d : db) (balanceID : string) : list Transaction :=
  map scan_pending (order_asc t_CreatedAt
    (List.filter (λ t, (String.eqb (t_Source t) balanceID || String.eqb (t_Destination t) balanceID)
                       && pending_leg d t) (db_transactions d))).

Definition UpdateWAPrice (d : db) (balanceID waPrice : string) : result db :=
  match db_balances d !! balanceID with
  | None => Err (EAPI "NOT_FOUND" ("Balance with ID '" +:+ balanceID +:+ "' not found"))
  | Some row => Ok (d <| db_balances := <[balanceID := row <| b_WAPrice := waPrice |>
                           <| b_Version := b_Version row + 1 |>]> (db_balances d) |>)
  end.

Lemma RecomputeHolds_spec d id d' debit credit :
  RecomputeHolds d id = Ok (d', (debit, credit)) →
  0 <= debit ∧ 0 <= credit
  ∧ RecomputeHolds d' id = Ok (d' <| db_balances := alter (λ b, b <| b_Version := b_Version b + 1 |>)
                                       id (db_balances d') |>, (debit, credit)).
Proof.
  unfold RecomputeHolds. destruct (db_balances d !! id) as [row|]; [|done].
  destruct (recomputed_holds d id) as [a b] eqn:E. intros [= <- <- <-].
  assert (Hpos : ∀ (p : Transaction → bool) l,
    0 <= sumZ (λ t, if p t then remaining_hold d t else 0) l).
  { intros p l. apply sumZ_nonneg. intros t _. unfold remaining_hold. destruct (p t); lia. }
  unfold recomputed_holds in E. injection E as <- <-.
  split; [apply Hpos|]. split; [apply Hpos|]. simpl. rewrite lookup_insert_eq.
  change (recomputed_holds (mkDB _ (db_transactions d) (db_outbox d)) id) with (recomputed_holds d id).
  unfold recomputed_holds. do 3 f_equal. rewrite alter_insert_eq, insert_insert_eq. done.
Qed.

(** ** Examples *)

Definition ex_key (account instrument : string) (date : option time) : PositionKey :=
  mkKey "ldg" "idt" account instrument "USD" date None.
Definition ex_plan : MutationPlan :=
  [mkDelta (ex_key "acc2" "" None) (Some (-100)) None None;
   mkDelta (ex_key "acc1" "AAPL" (Some (735963 * Time.day))) (Some 70) (Some 5) None;
   mkDelta (ex_key "acc1" "AAPL" (Some (735963 * Time.day + Time.hour))) (Some 30) None None].
Definition ex_ids (n : nat) : string := "bln_" +:+ Z_to_string (Z.of_nat n).

Lemma empty_positions_ok : positions_ok empty_db.
Proof.
  split.
  - intros id b Hb. change ((∅ : gmap string Balance) !! id = Some b) in Hb.
    by rewrite lookup_empty in Hb.
  - intros id id' b b' k Hb. change ((∅ : gmap string Balance) !! id = Some b) in Hb.
    by rewrite lookup_empty in Hb.
Qed.


(** The separator of lock keys is not escaped: deltas of two positions are
    merged, and the second position is never touched. *)
Lemma plan_merges_two_positions :
  let k1 := mkKey "ldg" "a|b" "c" "" "USD" None None in
  let k2 := mkKey "ldg" "a" "b|c" "" "USD" None None in
  same_position k1 k2 = false
  ∧ Normalized [mkDelta k1 (Some 10) None None; mkDelta k2 (Some (-10)) None None] = [].
Proof. split; vm_compute; reflexivity. Qed.
End Positions.
