(* ===== verification/Trading.v ===== *)
(** * Trade arithmetic (model/brokerage.go)

    The settlement calendar (T+N over weekends and venue holidays), the
    quantity a client may sell, the operable balance, the weighted-average
    price, and the conversion of decimal quantities to minor units. *)

From Stdlib Require Import QArith Qround Qminmax.
From S2P Require Import Prelude Decimal Types Time.

Module Trading.

(** ** The settlement calendar *)

Abbreviation holidays := (gset string) (only parsing).

Definition IsSettlementDay (date : time) (hs : holidays) : bool :=
  let w := Time.weekday date in
  if (w =? 6) || (w =? 0) then false
  else negb (bool_decide (Time.format_date date ∈ hs)).

Definition maxLookahead : nat := 366.

(** The loop body, [fuel] iterations before the loop bound. *)
Fixpoint settle_loop (fuel : nat) (remaining : Z) (date : time) (hs : holidays) : option time :=
  match fuel with
  | O => None
  | S fuel =>
      if 0 <? remaining then
        let date := Time.add_days date 1 in
        settle_loop fuel (if IsSettlementDay date hs then remaining - 1 else remaining) date hs
      else if IsSettlementDay date hs then Some date
      else settle_loop fuel remaining (Time.add_days date 1) hs
  end.

(** [time.Date(y, m, d, 0, 0, 0, 0, time.UTC)] of a UTC time. *)
Definition midnight (t : time) : time := t / Time.day * Time.day.

Definition ComputeSettleDate (tradeDate : time) (settleOffset : Z) (hs : holidays) : result time :=
  if settleOffset <? 0 then
    Err (ENew ("settle offset must be >= 0, got " +:+ Z_to_string settleOffset))
  else match settle_loop maxLookahead settleOffset (midnight tradeDate) hs with
       | Some d => Ok d
       | None => Err (ENew ("no settlement day found within 366 days of "
                            +:+ Time.format_date tradeDate))
       end.

(** Settlement days among the [n] days after [date]. *)
Fixpoint settlement_days (date : time) (n : nat) (hs : holidays) : Z :=
  match n with
  | O => 0
  | S n' => (if IsSettlementDay (Time.add_days date 1) hs then 1 else 0)
            + settlement_days (Time.add_days date 1) n' hs
  end.

(** The day T+N settles on: the N-th settlement day after the trade date, or
    for T+0 the first one on or after it. *)
Definition settles_after (date : time) (offset : Z) (n : nat) (hs : holidays) : Prop :=
  IsSettlementDay (Time.add_days date (Z.of_nat n)) hs = true
  ∧ if 0 <? offset then settlement_days date n hs = offset
    else ∀ m, (m < n)%nat → IsSettlementDay (Time.add_days date (Z.of_nat m)) hs = false.

Lemma add_days_add t a b : Time.add_days (Time.add_days t a) b = Time.add_days t (a + b).
Proof. unfold Time.add_days. lia. Qed.

Lemma add_days_0 t : Time.add_days t 0 = t.
Proof. unfold Time.add_days. lia. Qed.

Lemma settlement_days_nonneg date n hs : 0 <= settlement_days date n hs.
Proof.
  revert date. induction n as [|n IH]; intros date; simpl; [lia|].
  specialize (IH (Time.add_days date 1)). destruct (IsSettlementDay _ _); lia.
Qed.

(** Days without settlement days end on none. *)
Lemma settlement_days_zero k d hs :
  settlement_days d k hs = 0 → (0 < k)%nat →
  IsSettlementDay (Time.add_days d (Z.of_nat k)) hs = false.
Proof.
  revert d. induction k as [|k IH]; intros d Hz Hk; [lia|]. cbn [settlement_days] in Hz.
  pose proof (settlement_days_nonneg (Time.add_days d 1) k hs).
  destruct (IsSettlementDay (Time.add_days d 1) hs) eqn:E; [lia|].
  destruct k as [|k]; [done|].
  replace (Z.of_nat (S (S k))) with (1 + Z.of_nat (S k)) by lia. rewrite <- add_days_add.
  apply IH; lia.
Qed.

(** With nothing left to count, the loop returns the first settlement day. *)
Lemma settle_loop_first fuel date hs d :
  settle_loop fuel 0 date hs = Some d ↔
  ∃ n, (n < fuel)%nat ∧ d = Time.add_days date (Z.of_nat n) ∧ IsSettlementDay d hs = true
    ∧ ∀ m, (m < n)%nat → IsSettlementDay (Time.add_days date (Z.of_nat m)) hs = false.
Proof.
  revert date. induction fuel as [|fuel IH]; intros date; simpl.
  { split; [done|]. intros (n & Hn & _). lia. }
  destruct (IsSettlementDay date hs) eqn:E.
  - split.
    + intros [= <-]. exists 0%nat. rewrite add_days_0. split_and!; [lia|done|done|]. intros m Hm. lia.
    + intros (n & _ & -> & _ & Hall). destruct n as [|n]; [by rewrite add_days_0|].
      specialize (Hall 0%nat). rewrite add_days_0, E in Hall. by discriminate Hall; lia.
  - rewrite IH. split.
    + intros (n & Hn & -> & Hd & Hall). exists (S n). rewrite add_days_add in *.
      replace (1 + Z.of_nat n) with (Z.of_nat (S n)) in * by lia. split_and!; [lia|done|done|].
      intros [|m] Hm; [by rewrite add_days_0|].
      specialize (Hall m). rewrite add_days_add in Hall.
      replace (1 + Z.of_nat m) with (Z.of_nat (S m)) in Hall by lia. apply Hall. lia.
    + intros (n & Hn & -> & Hd & Hall). destruct n as [|n]; [by rewrite add_days_0, E in Hd|].
      exists n. rewrite add_days_add. replace (1 + Z.of_nat n) with (Z.of_nat (S n)) by lia.
      split_and!; [lia|done|done|]. intros m Hm. rewrite add_days_add.
      replace (1 + Z.of_nat m) with (Z.of_nat (S m)) by lia. apply Hall. lia.
Qed.

(** Counting down: the loop stops on the day the last settlement day is used
    up, and returns it in one more iteration. *)
Lemma settle_loop_count fuel remaining date hs d :
  0 < remaining →
  settle_loop fuel remaining date hs = Some d ↔
  ∃ n, (n < fuel)%nat ∧ d = Time.add_days date (Z.of_nat n) ∧ IsSettlementDay d hs = true
    ∧ settlement_days date n hs = remaining.
Proof.
  revert remaining date. induction fuel as [|fuel IH]; intros remaining date Hr; cbn [settle_loop].
  { split; [done|]. intros (n & Hn & _). lia. }
  rewrite (proj2 (Z.ltb_lt 0 remaining) Hr). set (date' := Time.add_days date 1).
  assert (Hshift : ∀ n, Time.add_days date' (Z.of_nat n) = Time.add_days date (Z.of_nat (S n)))
    by (intros n; unfold date'; rewrite add_days_add; f_equal; lia).
  assert (Hnone : ∀ n d, settlement_days date n hs = remaining → d = Time.add_days date (Z.of_nat n) →
    ∃ n', n = S n') by (intros [|n] d0 Hn _; [simpl in Hn; lia|by exists n]).
  destruct (IsSettlementDay date' hs) eqn:E.
  - destruct (decide (remaining = 1)) as [->|Hne].
    + change (1 - 1) with 0. rewrite settle_loop_first. split.
      * intros (n & Hn & -> & Hd & Hall).
        destruct n as [|n]; [|by specialize (Hall 0%nat); rewrite add_days_0, E in Hall; discriminate Hall; lia].
        exists 1%nat. rewrite Hshift in *. split_and!; [lia|done|done|]. simpl. fold date'. by rewrite E.
      * intros (n & Hn & -> & Hd & Hc). destruct (Hnone _ _ Hc eq_refl) as [n' ->].
        cbn [settlement_days] in Hc. fold date' in Hc. rewrite E in Hc.
        assert (n' = 0%nat) as ->.
        { destruct n' as [|n']; [done|]. rewrite <- Hshift in Hd.
          by rewrite (settlement_days_zero (S n')) in Hd by lia. }
        exists 0%nat. rewrite Hshift, <- Hshift, add_days_0 in *. split_and!; [lia|done|done|]. intros m Hm. lia.
    + rewrite IH by lia. split.
      * intros (n & Hn & -> & Hd & Hc). exists (S n). rewrite Hshift in *. split_and!; [lia|done|done|].
        cbn [settlement_days]. fold date'. rewrite E, Hc. lia.
      * intros (n & Hn & -> & Hd & Hc). destruct (Hnone _ _ Hc eq_refl) as [n' ->].
        exists n'. rewrite Hshift. cbn [settlement_days] in Hc. fold date' in Hc. rewrite E in Hc.
        split_and!; [lia|done|done|lia].
  - rewrite IH by done. split.
    + intros (n & Hn & -> & Hd & Hc). exists (S n). rewrite Hshift in *. split_and!; [lia|done|done|].
      cbn [settlement_days]. fold date'. by rewrite E, Hc.
    + intros (n & Hn & -> & Hd & Hc). destruct (Hnone _ _ Hc eq_refl) as [n' ->].
      exists n'. rewrite Hshift. cbn [settlement_days] in Hc. fold date' in Hc. rewrite E in Hc.
      split_and!; [lia|done|done|lia].
Qed.

Lemma ComputeSettleDate_Ok tradeDate offset hs d :
  0 <= offset →
  ComputeSettleDate tradeDate offset hs = Ok d ↔
  ∃ n, (n < maxLookahead)%nat ∧ d = Time.add_days (midnight tradeDate) (Z.of_nat n)
    ∧ settles_after (midnight tradeDate) offset n hs.
Proof.
  intros Ho. unfold ComputeSettleDate, settles_after.
  rewrite (proj2 (Z.ltb_ge offset 0) Ho).
  assert (Hs : settle_loop maxLookahead offset (midnight tradeDate) hs = Some d ↔
    ∃ n, (n < maxLookahead)%nat ∧ d = Time.add_days (midnight tradeDate) (Z.of_nat n)
      ∧ IsSettlementDay (Time.add_days (midnight tradeDate) (Z.of_nat n)) hs = true
      ∧ if 0 <? offset then settlement_days (midnight tradeDate) n hs = offset
        else ∀ m, (m < n)%nat → IsSettlementDay (Time.add_days (midnight tradeDate) (Z.of_nat m)) hs = false).
  { destruct (Z.ltb_spec 0 offset) as [Hpos|Hz].
    - rewrite settle_loop_count by done.
      split; intros (n & ? & -> & ? & ?); by exists n.
    - assert (offset = 0) as -> by lia. rewrite settle_loop_first.
      split; intros (n & ? & -> & ? & ?); by exists n. }
  rewrite <- Hs. destruct (settle_loop _ _ _ _) as [d'|]; split; congruence.
Qed.

(** C30. The settlement date is the N-th settlement day: [ComputeSettleDate]
    returns a date exactly when one of the 366 days from the trade date is the
    N-th settlement day after it (for T+0 the first settlement day on or after
    it), and then that day; weekends and venue holidays are skipped, and the
    search always ends. *)
Theorem ComputeSettleDate_correct tradeDate offset hs :
  (offset < 0 ∧ ∃ e, ComputeSettleDate tradeDate offset hs = Err e)
  ∨ (0 <= offset ∧ ∃ n, (n < maxLookahead)%nat
     ∧ ComputeSettleDate tradeDate offset hs = Ok (Time.add_days (midnight tradeDate) (Z.of_nat n))
     ∧ settles_after (midnight tradeDate) offset n hs)
  ∨ (0 <= offset ∧ (∃ e, ComputeSettleDate tradeDate offset hs = Err e)
     ∧ ∀ n, (n < maxLookahead)%nat → ¬ settles_after (midnight tradeDate) offset n hs).
Proof.
  destruct (Z.ltb_spec offset 0) as [Hneg|Ho].
  { left. split; [done|]. unfold ComputeSettleDate. rewrite (proj2 (Z.ltb_lt offset 0) Hneg). by eexists. }
  right. pose proof (ComputeSettleDate_Ok tradeDate offset hs) as Hiff.
  destruct (ComputeSettleDate tradeDate offset hs) as [d|e].
  - left. split; [done|]. destruct (proj1 (Hiff d Ho) eq_refl) as (n & Hn & -> & Hs). by exists n.
  - right. split; [done|]. split; [by eexists|]. intros n Hn Hs.
    by discriminate (proj2 (Hiff _ Ho) (ex_intro _ n (conj Hn (conj eq_refl Hs)))).
Qed.

Example settle_over_weekend :
  (* Friday 2024-05-03, T+2, Monday the 6th a holiday *)
  ComputeSettleDate (63850291200 * Time.second + 15 * Time.hour) 2 {["2024-05-06"]}
  = Ok (63850291200 * Time.second + 5 * Time.day).
Proof. vm_compute. reflexivity. Qed.

(** An offset the look-ahead does not reach: T+262 needs 366 days even without
    holidays. *)
Lemma long_offset_fails :
  ∃ e, ComputeSettleDate (63850291200 * Time.second) 262 ∅ = Err e.
Proof. eexists. vm_compute. reflexivity. Qed.

(** ** Availability *)

(** [nz] *)
Definition nz (v : option Z) : Z := ival v.

Definition ComputeTradable (settled blocked incoming outgoing : option Z) (onTheWay : bool) : Z :=
  let tradable := nz settled - nz blocked in
  let tradable := tradable - nz outgoing in
  let tradable := if onTheWay then tradable + nz incoming else tradable in
  if tradable <? 0 then 0 else tradable.

Definition FreeBalance (sum0 sum1 sum2 : option Z) : Z :=
  let available := ival sum1 - ival sum2 in
  if available <? 0 then 0
  else match sum0 with
       | Some cap => if cap <=? available then cap else available
       | None => available
       end.

Lemma ComputeTradable_spec s b i o onTheWay :
  ComputeTradable (Some s) (Some b) (Some i) (Some o) onTheWay
  = Z.max 0 (s - b - o + (if onTheWay then i else 0)).
Proof.
  unfold ComputeTradable, nz. simpl. destruct onTheWay.
  - destruct (Z.ltb_spec (s - b - o + i) 0); lia.
  - destruct (Z.ltb_spec (s - b - o) 0); lia.
Qed.

Lemma FreeBalance_spec cap s1 s2 :
  FreeBalance cap (Some s1) (Some s2)
  = let d := s1 - s2 in
    if d <? 0 then 0 else match cap with Some c => Z.min c d | None => d end.
Proof.
  unfold FreeBalance. simpl. destruct (_ <? 0); [done|]. destruct cap as [c|]; [|done].
  destruct (Z.leb_spec c (s1 - s2)); lia.
Qed.

(** ** Decimal arithmetic *)

(** [%q] of a text that needs no escape. *)
Definition quoted (s : string) : string :=
  let q := ascii_of_nat 34 in String q (s +:+ String q "").

Section decimal.
Context `{Decimal}.

Definition current_wa (currentWA : string) : option decimal :=
  if String.eqb currentWA "" then Some dec_zero else dec_of_string currentWA.

Definition RecalculateWAPrice (currentWA : string) (currentQty tradeQty tradeMoney : decimal)
    : result decimal :=
  wa ← match current_wa currentWA with
       | Some d => Ok d
       | None => Err (ENew ("invalid current wa price " +:+ quoted currentWA))
       end;
  _ ← fail_if (dec_ltb currentQty dec_zero)
        (ENew ("current quantity cannot be negative: " +:+ dec_string currentQty));
  _ ← fail_if (dec_sign tradeQty <=? 0)
        (ENew ("trade quantity must be positive: " +:+ dec_string tradeQty));
  let totalQty := dec_add tradeQty currentQty in
  let numerator := dec_add tradeMoney (dec_mul wa currentQty) in
  Ok (dec_round_bank 2 (dec_div numerator totalQty)).

Definition PreciseQuantity (quantity : string) (precision : Z) : result Z :=
  match dec_of_string quantity with
  | None => Err (ENew ("invalid quantity " +:+ quoted quantity))
  | Some q =>
      _ ← fail_if (dec_sign q <=? 0) (ENew ("quantity must be positive: " +:+ quantity));
      _ ← fail_if (precision <? 1) (ENew ("precision must be >= 1, got " +:+ Z_to_string precision));
      Ok (dec_big_int (dec_round (dec_mul q (dec_of_Z precision))))
  end.

Definition PreciseMoney (quantity price : string) (precision : Z) : result Z :=
  match dec_of_string quantity with
  | None => Err (ENew ("invalid quantity " +:+ quoted quantity))
  | Some q =>
      match dec_of_string price with
      | None => Err (ENew ("invalid price " +:+ quoted price))
      | Some p =>
          _ ← fail_if (precision <? 1) (ENew ("money precision must be >= 1, got "
                                              +:+ Z_to_string precision));
          Ok (dec_big_int (dec_round (dec_mul (dec_mul p q) (dec_of_Z precision))))
      end
  end.

Lemma RecalculateWAPrice_Ok currentWA c t m w :
  RecalculateWAPrice currentWA c t m = Ok w →
  (0 <= dval c)%Q ∧ (0 < dval t)%Q
  ∧ ∃ wa, current_wa currentWA = Some wa
    ∧ (dval w == q_at q_round_even0 2 (q_at q_round0 16
                   ((dval m + dval wa * dval c) / (dval t + dval c))))%Q.
Proof.
  unfold RecalculateWAPrice. intros E. apply bind_Ok in E as (wa & Ewa & E).
  apply bind_Ok in E as ([] & Hc & E). apply bind_Ok in E as ([] & Ht & E). injection E as <-.
  apply fail_if_Ok in Hc, Ht.
  assert (Hc' : (0 <= dval c)%Q).
  { unfold dec_ltb in Hc. rewrite dec_cmp_law in Hc. unfold dec_zero in Hc.
    destruct (Qcompare_spec (dval c) (dval (dec_of_Z 0))) as [E|E|E]; [|done|];
      rewrite dec_of_Z_law in E; [rewrite E; apply Qle_refl|by apply Qlt_le_weak]. }
  assert (Ht' : (0 < dval t)%Q).
  { unfold dec_sign in Ht. rewrite dec_cmp_law in Ht. unfold dec_zero in Ht.
    destruct (Qcompare_spec (dval t) (dval (dec_of_Z 0))) as [E|E|E]; [done|done|].
    by rewrite dec_of_Z_law in E. }
  split; [done|]. split; [done|]. exists wa. split.
  - destruct (current_wa currentWA); congruence.
  - assert (Hsum : (dval (dec_add t c) == dval t + dval c)%Q) by apply dec_add_law.
    rewrite dec_round_bank_law by lia. rewrite dec_div_law.
    + rewrite dec_add_law, dec_mul_law, Hsum. reflexivity.
    + rewrite Hsum. intros E. assert (0 < dval t + dval c)%Q as Hp.
      { change 0%Q with (0 + 0)%Q. by apply Qplus_lt_le_compat. }
      rewrite E in Hp. by apply Qlt_irrefl in Hp.
Qed.

(** A blend lies between what it blends. *)
Lemma blend_between (p a t c : Q) :
  (0 < t)%Q → (0 <= c)%Q →
  let e := ((p * t + a * c) / (t + c))%Q in
  (Qmin p a <= e)%Q ∧ (e <= Qmax p a)%Q.
Proof.
  intros Ht Hc e. assert (Hp : (0 < t + c)%Q).
  { change 0%Q with (0 + 0)%Q. by apply Qplus_lt_le_compat. }
  pose proof (Q.le_min_l p a). pose proof (Q.le_min_r p a).
  pose proof (Q.le_max_l p a). pose proof (Q.le_max_r p a).
  assert (Ht' := Qlt_le_weak _ _ Ht).
  unfold e. split.
  - apply Qle_shift_div_l; [done|]. rewrite Qmult_plus_distr_r.
    apply Qplus_le_compat; by apply Qmult_le_compat_r.
  - apply Qle_shift_div_r; [done|]. rewrite Qmult_plus_distr_r.
    apply Qplus_le_compat; by apply Qmult_le_compat_r.
Qed.

(** The stored weighted-average price is the weighted average: after a buy
    of quantity [t] at unit price [p] on top of a quantity [c] held at [wa], it
    is within half a cent, and the error of a 16-digit quotient, of
    (p t + wa c) / (t + c), which lies between the two prices. *)
Theorem RecalculateWAPrice_blend currentWA c t m w wa p :
  RecalculateWAPrice currentWA c t m = Ok w →
  current_wa currentWA = Some wa → (dval m == p * dval t)%Q →
  let exact := ((p * dval t + dval wa * dval c) / (dval t + dval c))%Q in
  (Qmin p (dval wa) <= exact)%Q ∧ (exact <= Qmax p (dval wa))%Q
  ∧ (- (51 # 10000) <= dval w - exact <= 51 # 10000)%Q.
Proof.
  intros E Ewa Hm exact. apply RecalculateWAPrice_Ok in E as (Hc & Ht & wa' & Ewa' & Ew).
  assert (wa' = wa) as -> by congruence.
  destruct (blend_between p (dval wa) (dval t) (dval c) Ht Hc) as [H1 H2].
  split; [exact H1|]. split; [exact H2|].
  rewrite Hm in Ew. fold exact in Ew. rewrite Ew.
  pose proof (q_at_error q_round_even0 2 (q_at q_round0 16 exact) ltac:(lia) q_round_even0_error) as [A1 A2].
  pose proof (q_at_error q_round0 16 exact ltac:(lia) q_round0_error) as [B1 B2].
  set (x := q_at q_round0 16 exact) in *. set (y := q_at q_round_even0 2 x) in *.
  clearbody x y. assert (Hsum : (y - exact == (y - x) + (x - exact))%Q) by ring.
  rewrite Hsum. split.
  - eapply Qle_trans; [|apply Qplus_le_compat; [exact A1|exact B1]]. by vm_compute.
  - eapply Qle_trans; [apply Qplus_le_compat; [exact A2|exact B2]|]. by vm_compute.
Qed.
End decimal.

(** Nothing checks the sign of the price: a negative one books a negative
    money amount. *)
Lemma negative_price_accepted : PreciseMoney "2" "-1.5" 100 = Ok (-300).
Proof. vm_compute. reflexivity. Qed.

(** 100 held at 10.00, 50 bought at 13.00. *)
Lemma RecalculateWAPrice_blend_witness :
  ∃ w, RecalculateWAPrice "10.00" (dec_of_Z 100) (dec_of_Z 50) (dec_of_Z 650) = Ok w
    ∧ (- (51 # 10000) <= dval w - (inject_Z 13 * inject_Z 50 + (1000 # 100) * inject_Z 100)
                                   / (inject_Z 50 + inject_Z 100) <= 51 # 10000)%Q.
Proof.
  run_ok (RecalculateWAPrice "10.00" (dec_of_Z 100) (dec_of_Z 50) (dec_of_Z 650)) as w E.
  exists w. split; [done|].
  assert (Ewa' : current_wa "10.00" = Some (1000 # 100)%Q) by (vm_compute; reflexivity).
  exact (proj2 (proj2 (RecalculateWAPrice_blend "10.00" _ _ _ w (1000 # 100)%Q (inject_Z 13) E Ewa' eq_refl))).
Defined.
End Trading.
