(* ===== verification/Lock.v ===== *)
(** * Distributed locks (internal/lock/lock.go)

    [Locker] and [MultiLocker] over a Redis store.  The store maps a key to
    its value and expiry; the two Lua scripts and SETNX are atomic functions on
    it.  Times are nanoseconds; a connection failure of a Redis call is an
    argument.  [WaitLock] runs against a clock that the backoff advances and an
    environment that may change the store between attempts. *)

From S2P Require Import Prelude.

Module Lock.

(** ** Redis *)

(** Value and expiry ([None]: no expiry). *)
Abbreviation store := (gmap string (string * option Z)).

Definition live (now : Z) (e : option Z) : bool :=
  match e with Some t => now <? t | None => true end.

(** The value of a key at [now]; an expired key is gone. *)
Definition get (now : Z) (s : store) (key : string) : option string :=
  match s !! key with
  | Some (v, e) => if live now e then Some v else None
  | None => None
  end.

Definition expiry_of (now ttl : Z) : option Z := if ttl =? 0 then None else Some (now + ttl).

Definition SetNX (now : Z) (s : store) (key value : string) (ttl : Z) : bool * store :=
  match get now s key with
  | Some _ => (false, s)
  | None => (true, <[key := (value, expiry_of now ttl)]> s)
  end.

(** [if get(k) == v then return del(k) else return 0 end] *)
Definition compare_and_delete (now : Z) (s : store) (key value : string) : Z * store :=
  if bool_decide (get now s key = Some value) then (1, delete key s) else (0, s).

(** [if get(k) == v then return pexpire(k, ms) else return 0 end] *)
Definition compare_and_expire (now : Z) (s : store) (key value : string) (ms : Z) : Z * store :=
  if bool_decide (get now s key = Some value)
  then (1, <[key := (value, Some (now + ms * 1000000))]> s) else (0, s).

(** ** Locker *)

Record Locker := mkLocker { key : string; value : string }.

Definition ErrLockHeld_msg : string := "lock already held".

(** [Locker.Lock]; [net] is the error of the Redis call, if it fails. *)
Definition Locker_Lock (now : Z) (net : option error) (l : Locker) (timeout : Z) (s : store)
    : option error * store :=
  match net with
  | Some e => (Some e, s)
  | None =>
      let '(success, s') := SetNX now s (key l) (value l) timeout in
      if success then (None, s')
      else (Some (EMsg ("lock for key " +:+ key l +:+ " is already held")
                       (ESentinel ErrLockHeld ErrLockHeld_msg)), s')
  end.

Definition Locker_Unlock (now : Z) (net : option error) (l : Locker) (s : store)
    : option error * store :=
  match net with
  | Some e => (Some e, s)
  | None =>
      let '(r, s') := compare_and_delete now s (key l) (value l) in
      if r =? 0 then
        (Some (ENew ("unlock failed, either lock expired or you're not the lock holder for key "
                     +:+ key l)), s')
      else (None, s')
  end.

Definition ExtendLock (now : Z) (net : option error) (l : Locker) (extension : Z) (s : store)
    : option error * store :=
  match net with
  | Some e => (Some e, s)
  | None =>
      let '(r, s') := compare_and_expire now s (key l) (value l) (extension / 1000000) in
      if r =? 0 then
        (Some (ENew ("lock extension failed for key " +:+ key l
                     +:+ ", either lock expired or you're not the holder")), s')
      else (None, s')
  end.

(** ** MultiLocker *)

Record MultiLocker := mkMultiLocker { lockers : list Locker; keys : list string; mvalue : string }.

Fixpoint dedup_keys (seen : gset string) (l : list string) : list string :=
  match l with
  | [] => []
  | k :: l =>
      if String.eqb k "" || bool_decide (k ∈ seen) then dedup_keys seen l
      else k :: dedup_keys ({[k]} ∪ seen) l
  end.

Definition NewMultiLocker (ks : list string) (v : string) : MultiLocker :=
  let uniqueKeys := sort_strings (dedup_keys ∅ ks) in
  mkMultiLocker (map (λ k, mkLocker k v) uniqueKeys) uniqueKeys v.

(** Connection faults: for the acquisition and for the release of a key. *)
Record faults := mkFaults { on_lock : string → option error; on_unlock : string → option error }.
Definition no_faults : faults := mkFaults (λ _, None) (λ _, None).

Fixpoint unlock_all (now : Z) (f : faults) (ls : list Locker) (s : store) : option error * store :=
  match ls with
  | [] => (None, s)
  | l :: ls =>
      let '(e, s) := Locker_Unlock now (on_unlock f (key l)) l s in
      let '(e', s) := unlock_all now f ls s in
      (match e' with Some _ => e' | None => e end, s)
  end.

(** [MultiLocker.Unlock]: reverse order, last error reported. *)
Definition Unlock (now : Z) (f : faults) (m : MultiLocker) (s : store) : option error * store :=
  unlock_all now f (reverse (lockers m)) s.

(** [rollback(count)]: the first [count] lockers in reverse order. *)
Definition rollback (now : Z) (f : faults) (m : MultiLocker) (count : nat) (s : store) : store :=
  (unlock_all now f (reverse (take count (lockers m))) s).2.

Fixpoint lock_loop (now : Z) (f : faults) (m : MultiLocker) (timeout : Z)
    (ls : list Locker) (acquired : nat) (s : store) : option error * store :=
  match ls with
  | [] => (None, s)
  | l :: ls =>
      match Locker_Lock now (on_lock f (key l)) l timeout s with
      | (Some e, s) =>
          (Some (EWrap ("failed to acquire lock for key " +:+ key l) e), rollback now f m acquired s)
      | (None, s) => lock_loop now f m timeout ls (S acquired) s
      end
  end.

Definition Lock (now : Z) (f : faults) (m : MultiLocker) (timeout : Z) (s : store)
    : option error * store :=
  lock_loop now f m timeout (lockers m) 0 s.

(** ** Waiting *)

Definition millisecond : Z := 1000000.
Definition lockBackoffBase : Z := 5 * millisecond.
Definition lockBackoffMax : Z := 100 * millisecond.

Fixpoint backoff_loop (attempt : nat) (backoff : Z) : Z :=
  match attempt with
  | O => backoff
  | S a => if backoff <? lockBackoffMax then backoff_loop a (backoff * 2) else backoff
  end.

Definition backoff_for (attempt : nat) : Z := Z.min (backoff_loop attempt lockBackoffBase) lockBackoffMax.

(** The delay [sleepWithJitter] chooses; [rand] is the draw of
    [rand.Int63n(backoff)]; 0 when the deadline has passed. *)
Definition jitter_delay (now deadline : Z) (attempt : nat) (rand : Z) : Z :=
  let remaining := deadline - now in
  if remaining <=? 0 then 0
  else
    let delay := rand mod backoff_for attempt in
    let delay := if delay <=? 0 then millisecond else delay in
    if remaining <? delay then remaining else delay.

(** What the wait loop meets: the draws, whether the context is done at a
    time, the faults of each attempt, and what others do to the store while it
    sleeps. *)
Record environment := mkEnvironment {
  draw : nat → Z;
  ctx_done : Z → bool;
  faults_at : nat → faults;
  interference : nat → store → store;
}.

Inductive wait_outcome := Waited (e : option error) (now : Z) (s : store) | OutOfFuel.

Definition ctx_error : error := ESentinel ErrCtxCanceled "context canceled".

Fixpoint wait_loop (env : environment) (m : MultiLocker) (timeout deadline : Z)
    (fuel : nat) (attempt : nat) (now : Z) (s : store) : wait_outcome :=
  if now <? deadline then
    match fuel with
    | O => OutOfFuel
    | S fuel =>
        let '(err, s) := Lock now (faults_at env attempt) m timeout s in
        match err with
        | None => Waited None now s
        | Some err =>
            if negb (errors_is err ErrLockHeld) then
              if ctx_done env now then Waited (Some (EWrap "lock wait cancelled" ctx_error)) now s
              else Waited (Some err) now s
            else
              let delay := jitter_delay now deadline attempt (draw env attempt) in
              let now := now + delay in
              if (0 <? delay) && ctx_done env now
              then Waited (Some (EWrap "lock wait cancelled" ctx_error)) now s
              else wait_loop env m timeout deadline fuel (S attempt) now
                     (interference env attempt s)
        end
    end
  else Waited (Some (EMsg "failed to acquire all locks within the wait timeout"
                       (ESentinel ErrLockWaitTimeout "lock wait timeout"))) now s.

Definition WaitLock (env : environment) (fuel : nat) (now : Z) (m : MultiLocker)
    (lockTimeout waitTimeout : Z) (s : store) : wait_outcome :=
  if ctx_done env now then Waited (Some (EWrap "lock wait cancelled" ctx_error)) now s
  else wait_loop env m lockTimeout (now + waitTimeout) fuel 0 now s.

(** [acquireTransactionLocker] (transaction_coalescing.go). *)
Definition acquireTransactionLocker (env : environment) (fuel : nat) (now : Z) (m : MultiLocker)
    (lockDuration lockWaitTimeout : Z) (s : store) : wait_outcome :=
  if 0 <? lockWaitTimeout then WaitLock env fuel now m lockDuration lockWaitTimeout s
  else let '(e, s) := Lock now (faults_at env 0) m lockDuration s in Waited e now s.

(** ** Lemmas *)

Lemma get_insert_eq now s k v e :
  live now e = true → get now (<[k := (v, e)]> s) k = Some v.
Proof. intros H. unfold get. by rewrite lookup_insert_eq, H. Qed.

Lemma get_insert_ne now s k k' ve : k ≠ k' → get now (<[k := ve]> s) k' = get now s k'.
Proof. intros H. unfold get. by rewrite lookup_insert_ne. Qed.

Lemma get_delete_eq now s k : get now (delete k s) k = None.
Proof. unfold get. by rewrite lookup_delete_eq. Qed.

Lemma get_delete_ne now s k k' : k ≠ k' → get now (delete k s) k' = get now s k'.
Proof. intros H. unfold get. by rewrite lookup_delete_ne. Qed.

Lemma expiry_live now ttl : 0 <= ttl → live now (expiry_of now ttl) = true.
Proof.
  intros H. unfold expiry_of. destruct (Z.eqb_spec ttl 0); [done|]. simpl. apply Z.ltb_lt. lia.
Qed.

(** A successful acquisition took a free key; a failed one changed nothing. *)
Lemma Locker_Lock_cases now net l timeout s :
  0 <= timeout →
  (∃ e, Locker_Lock now net l timeout s = (Some e, s))
  ∨ (get now s (key l) = None
     ∧ Locker_Lock now net l timeout s
       = (None, <[key l := (value l, expiry_of now timeout)]> s)).
Proof.
  intros Ht. unfold Locker_Lock. destruct net as [e|]; [left; eauto|].
  unfold SetNX. destruct (get now s (key l)); [left; eauto|right; done].
Qed.

(** Releasing locks one holds removes exactly those keys. *)
Lemma unlock_all_held now f v ls s :
  (∀ k, on_unlock f k = None) → NoDup (map key ls) →
  (∀ l, l ∈ ls → value l = v ∧ get now s (key l) = Some v) →
  let s' := (unlock_all now f ls s).2 in
  (unlock_all now f ls s).1 = None
  ∧ ∀ k, get now s' k = if decide (k ∈ map key ls) then None else get now s k.
Proof.
  intros Hf. revert s. induction ls as [|l ls IH]; intros s Hnd Hheld.
  - split; [done|]. intros k. by rewrite decide_False by apply not_elem_of_nil.
  - inversion Hnd as [|? ? Hin Hnd']. subst. cbn [unlock_all].
    destruct (Hheld l ltac:(by left)) as [Hv Hg].
    unfold Locker_Unlock, compare_and_delete. rewrite Hf, Hv, bool_decide_true by done. cbn.
    destruct (IH (delete (key l) s) Hnd') as [E1 E2].
    { intros l' Hl'. destruct (Hheld l' ltac:(by right)) as [? Hg']. split; [done|].
      rewrite get_delete_ne; [done|]. intros E. apply Hin. rewrite E.
      by apply list_elem_of_fmap_2. }
    destruct (unlock_all now f ls (delete (key l) s)) as [e s'] eqn:E.
    cbn [fst snd] in *. subst e. split; [done|]. intros k. rewrite E2.
    destruct (decide (k = key l)) as [->|Hne].
    + rewrite decide_False by done. rewrite get_delete_eq.
      by rewrite decide_True by (simpl; by left).
    + rewrite get_delete_ne by done.
      destruct (decide (k ∈ map key ls)).
      * by rewrite decide_True by (simpl; by right).
      * rewrite decide_False; [done|]. simpl. rewrite elem_of_cons. tauto.
Qed.

(** Invariant of the acquisition loop. *)
Definition holding (now : Z) (v : string) (done_ : list Locker) (s0 s : store) : Prop :=
  ∀ k, if decide (k ∈ map key done_) then get now s0 k = None ∧ get now s k = Some v
       else get now s k = get now s0 k.

Lemma rollback_restores now f v m n s0 s :
  (∀ k, on_unlock f k = None) → NoDup (map key (lockers m)) →
  (∀ l, l ∈ lockers m → value l = v) →
  holding now v (take n (lockers m)) s0 s →
  ∀ k, get now (rollback now f m n s) k = get now s0 k.
Proof.
  intros Hf Hnd Hv Hh k. unfold rollback.
  destruct (unlock_all_held now f v (reverse (take n (lockers m))) s Hf) as [_ E].
  - rewrite <- (take_drop n (lockers m)), map_app in Hnd. apply NoDup_app in Hnd as [Hnd _].
    by rewrite map_reverse, reverse_Permutation.
  - intros l Hl. rewrite elem_of_reverse in Hl. split; [eapply Hv, subseteq_take; exact Hl|].
    specialize (Hh (key l)). rewrite decide_True in Hh by (by apply list_elem_of_fmap_2).
    apply Hh.
  - rewrite E. specialize (Hh k).
    assert (Hiff : k ∈ map key (reverse (take n (lockers m))) ↔ k ∈ map key (take n (lockers m))).
    { by rewrite map_reverse, elem_of_reverse. }
    destruct (decide (k ∈ map key (take n (lockers m)))) as [Hk|Hk].
    + rewrite decide_True by tauto. symmetry. apply Hh.
    + rewrite decide_False by tauto. done.
Qed.

Lemma lock_loop_spec now f v m timeout ls n s0 s r s' :
  0 <= timeout → (∀ k, on_unlock f k = None) → NoDup (map key (lockers m)) →
  (∀ l, l ∈ lockers m → value l = v) → drop n (lockers m) = ls →
  holding now v (take n (lockers m)) s0 s →
  lock_loop now f m timeout ls n s = (r, s') →
  match r with
  | None => holding now v (lockers m) s0 s'
  | Some _ => ∀ k, get now s' k = get now s0 k
  end.
Proof.
  intros Ht Hf Hnd Hv. revert n s. induction ls as [|l ls IH]; intros n s Hdrop Hh E.
  - injection E as <- <-. rewrite <- (take_drop n (lockers m)), Hdrop, app_nil_r. done.
  - assert (Hn : lockers m !! n = Some l).
    { rewrite <- (Nat.add_0_r n), <- lookup_drop, Hdrop. done. }
    assert (Hlv : value l = v) by (eapply Hv, list_elem_of_lookup_2, Hn).
    cbn [lock_loop] in E.
    destruct (Locker_Lock_cases now (on_lock f (key l)) l timeout s Ht) as [[e El]|[Hg El]];
      rewrite El in E.
    + injection E as <- <-. by eapply rollback_restores.
    + eapply (IH (S n)); [| |exact E].
      { rewrite <- Nat.add_1_r, <- drop_drop, Hdrop. done. }
      assert (Hfresh : key l ∉ map key (take n (lockers m))).
      { rewrite <- (take_drop n (lockers m)), Hdrop, map_app in Hnd.
        apply NoDup_app in Hnd as (_ & Hdis & _). intros Hin. apply (Hdis _ Hin). by left. }
      intros k. rewrite (take_S_r _ _ l Hn), map_app. simpl map.
      destruct (decide (k = key l)) as [->|Hne].
      * rewrite decide_True by (apply elem_of_app; right; by left).
        specialize (Hh (key l)). rewrite decide_False in Hh by done.
        rewrite <- Hh. split; [done|]. rewrite Hlv. apply get_insert_eq. by apply expiry_live.
      * specialize (Hh k). rewrite get_insert_ne by done.
        destruct (decide (k ∈ map key (take n (lockers m)))).
        -- rewrite decide_True by (apply elem_of_app; by left). done.
        -- rewrite decide_False; [done|]. rewrite elem_of_app, list_elem_of_singleton. tauto.
Qed.

Lemma dedup_keys_spec seen l :
  NoDup (dedup_keys seen l)
  ∧ ∀ k, k ∈ dedup_keys seen l ↔ k ∈ l ∧ k ≠ "" ∧ k ∉ seen.
Proof.
  revert seen. induction l as [|k l IH]; intros seen; cbn [dedup_keys].
  - split; [constructor|]. intros k. split; [by intros ?%elem_of_nil|by intros [?%elem_of_nil _]].
  - destruct (String.eqb_spec k "") as [->|Hne]; cbn [orb].
    { destruct (IH seen) as [? Hk]. split; [done|]. intros k. rewrite Hk, elem_of_cons.
      split; [tauto|]. intros ([->|?] & ? & ?); tauto. }
    destruct (bool_decide_reflect (k ∈ seen)) as [Hs|Hs].
    { destruct (IH seen) as [? Hk]. split; [done|]. intros k'. rewrite Hk, elem_of_cons.
      split; [tauto|]. intros ([->|?] & ? & ?); tauto. }
    destruct (IH ({[k]} ∪ seen)) as [Hnd Hk]. split.
    + constructor; [|done]. intros (_ & _ & Hin)%Hk. by apply Hin, elem_of_union_l, elem_of_singleton_2.
    + intros k'. rewrite !elem_of_cons, Hk. set_unfold. split.
      * intros [->|(? & ? & ?)]; [tauto|]. tauto.
      * intros ([->|?] & ? & ?); [by left|]. destruct (decide (k' = k)); [by left|]. tauto.
Qed.

Lemma NewMultiLocker_lockers ks v :
  map key (lockers (NewMultiLocker ks v)) = keys (NewMultiLocker ks v)
  ∧ (∀ l, l ∈ lockers (NewMultiLocker ks v) → value l = v).
Proof.
  split.
  - simpl. rewrite map_map. apply map_id.
  - intros l (k & -> & _)%list_elem_of_fmap. done.
Qed.

Lemma NewMultiLocker_NoDup ks v : NoDup (keys (NewMultiLocker ks v)).
Proof. apply NoDup_sort_strings, dedup_keys_spec. Qed.

(** ** Who may believe to hold a lock

    A lease is what a client knows after a successful [Lock] or [ExtendLock]:
    key, its own value, and the time until which Redis keeps the entry.  The
    steps are the operations of any number of clients and the passing of
    time. *)

Record lease := mkLease { l_key : string; l_value : string; l_until : Z }.

Record sys := mkSys { clock : Z; redis : store; leases : list lease }.

Definition drop_leases (k v : string) (ls : list lease) : list lease :=
  List.filter (λ x, negb (String.eqb (l_key x) k && String.eqb (l_value x) v)) ls.

Inductive step : sys → sys → Prop :=
| step_tick c r ls d : 0 <= d → step (mkSys c r ls) (mkSys (c + d) r ls)
| step_lock c r ls l ttl r' :
    0 < ttl → Locker_Lock c None l ttl r = (None, r') →
    step (mkSys c r ls) (mkSys c r' (mkLease (key l) (value l) (c + ttl) :: ls))
| step_lock_fail c r ls l ttl e r' :
    Locker_Lock c None l ttl r = (Some e, r') → step (mkSys c r ls) (mkSys c r' ls)
| step_unlock c r ls l r' :
    Locker_Unlock c None l r = (None, r') →
    step (mkSys c r ls) (mkSys c r' (drop_leases (key l) (value l) ls))
| step_unlock_fail c r ls l e r' :
    Locker_Unlock c None l r = (Some e, r') → step (mkSys c r ls) (mkSys c r' ls)
| step_extend c r ls l ext r' :
    0 <= ext → ExtendLock c None l ext r = (None, r') →
    step (mkSys c r ls)
      (mkSys c r' (mkLease (key l) (value l) (c + ext / 1000000 * 1000000)
                   :: drop_leases (key l) (value l) ls))
| step_extend_fail c r ls l ext e r' :
    ExtendLock c None l ext r = (Some e, r') → step (mkSys c r ls) (mkSys c r' ls).

Inductive reachable : sys → Prop :=
| reach_init c : reachable (mkSys c ∅ [])
| reach_step a b : reachable a → step a b → reachable b.

(** Every unexpired lease is backed by the store for at least as long. *)
Definition backed (y : sys) : Prop :=
  ∀ x, x ∈ leases y → clock y < l_until x →
  ∃ e, redis y !! l_key x = Some (l_value x, Some e) ∧ l_until x <= e.

Lemma elem_of_drop_leases k v ls x :
  x ∈ drop_leases k v ls → x ∈ ls ∧ (l_key x = k → l_value x ≠ v).
Proof.
  unfold drop_leases. rewrite list_elem_of_In, filter_In, <- list_elem_of_In.
  intros [Hin Hb]. split; [done|]. intros Ek Ev. by rewrite Ek, Ev, !String.eqb_refl in Hb.
Qed.

Lemma backed_get y x : backed y → x ∈ leases y → clock y < l_until x →
  get (clock y) (redis y) (l_key x) = Some (l_value x).
Proof.
  intros Hb Hx Hlt. destruct (Hb x Hx Hlt) as (e & E & Hle). unfold get. rewrite E. simpl.
  by rewrite (proj2 (Z.ltb_lt _ _)) by lia.
Qed.

Lemma step_backed a b : backed a → step a b → backed b.
Proof.
  intros Hb Hs. destruct Hs as
    [c r ls d Hd|c r ls l ttl r' Ht E|c r ls l ttl e r' E|c r ls l r' E|c r ls l e r' E
    |c r ls l ext r' Hext E|c r ls l ext e r' E].
  - intros x Hx Hlt. apply (Hb x Hx). simpl in *. lia.
  - unfold Locker_Lock, SetNX in E. destruct (get c r (key l)) eqn:Eg; [done|].
    injection E as <-. intros x Hx Hlt. simpl in *.
    apply elem_of_cons in Hx as [->|Hx].
    + simpl. rewrite lookup_insert_eq. unfold expiry_of.
      destruct (Z.eqb_spec ttl 0); [lia|]. eexists. split; [done|]. lia.
    + destruct (decide (l_key x = key l)) as [Ek|Hne].
      * pose proof (backed_get _ x Hb Hx Hlt) as Hg. simpl in Hg. congruence.
      * rewrite lookup_insert_ne by done. by apply (Hb x Hx).
  - unfold Locker_Lock, SetNX in E. destruct (get c r (key l)); [|done]. by injection E as _ <-.
  - unfold Locker_Unlock, compare_and_delete in E.
    destruct (bool_decide_reflect (get c r (key l) = Some (value l))) as [Eg|]; [|done].
    injection E as <-. intros x [Hx Hv]%elem_of_drop_leases Hlt. simpl in *.
    destruct (decide (l_key x = key l)) as [Ek|Hne].
    + pose proof (backed_get _ x Hb Hx Hlt) as Hg. simpl in Hg. rewrite Ek, Eg in Hg.
      injection Hg as Hg. by destruct (Hv Ek).
    + rewrite lookup_delete_ne by done. by apply (Hb x Hx).
  - unfold Locker_Unlock, compare_and_delete in E.
    destruct (bool_decide _); [done|]. by injection E as _ <-.
  - unfold ExtendLock, compare_and_expire in E.
    destruct (bool_decide_reflect (get c r (key l) = Some (value l))) as [Eg|]; [|done].
    injection E as <-. intros x Hx Hlt. simpl in *. apply elem_of_cons in Hx as [->|Hx].
    + simpl. rewrite lookup_insert_eq. eexists. split; [done|]. lia.
    + apply elem_of_drop_leases in Hx as [Hx Hv].
      destruct (decide (l_key x = key l)) as [Ek|Hne].
      * pose proof (backed_get _ x Hb Hx Hlt) as Hg. simpl in Hg. rewrite Ek, Eg in Hg.
        injection Hg as Hg. by destruct (Hv Ek).
      * rewrite lookup_insert_ne by done. by apply (Hb x Hx).
  - unfold ExtendLock, compare_and_expire in E.
    destruct (bool_decide _); [done|]. by injection E as _ <-.
Qed.

Lemma reachable_backed y : reachable y → backed y.
Proof.
  induction 1 as [c|a b _ IH Hs]; [|by eapply step_backed].
  by intros x ?%elem_of_nil.
Qed.

(** ** Properties *)

(** The keys of a [MultiLocker] are the distinct non-empty keys asked for,
    in strictly sorted order, and do not depend on the order in which the
    caller named them: all callers acquire common keys in the same order. *)
Theorem NewMultiLocker_order ks ks' v v' :
  let m := NewMultiLocker ks v in
  StronglySorted String.le (keys m) ∧ NoDup (keys m)
  ∧ (∀ k, k ∈ keys m ↔ k ∈ ks ∧ k ≠ "")
  ∧ map key (lockers m) = keys m
  ∧ ((∀ k, k ∈ ks ↔ k ∈ ks') → keys m = keys (NewMultiLocker ks' v')).
Proof.
  intros m. split; [apply sort_strings_sorted|]. split; [apply NewMultiLocker_NoDup|].
  assert (Hin : ∀ ks v k, k ∈ keys (NewMultiLocker ks v) ↔ k ∈ ks ∧ k ≠ "").
  { intros l w k. simpl. rewrite elem_of_sort_strings, (proj2 (dedup_keys_spec ∅ l)).
    pose proof (not_elem_of_empty (C:=gset string) k). tauto. }
  split; [apply Hin|]. split; [apply NewMultiLocker_lockers|]. intros Heq.
  apply sort_strings_unique, NoDup_Permutation; [apply dedup_keys_spec..|].
  intros k. rewrite !(proj2 (dedup_keys_spec _ _)). rewrite Heq. done.
Qed.

(** Acquiring a set of locks is all or nothing: on success every key was
    free and now carries the caller's value, other keys are as before; on any
    failure, whatever fault caused it, every key reads as before (given that
    releases get through to Redis). *)
Theorem MultiLock_all_or_nothing now f ks v timeout s r s' :
  0 <= timeout → (∀ k, on_unlock f k = None) →
  Lock now f (NewMultiLocker ks v) timeout s = (r, s') →
  match r with
  | None => ∀ k, if decide (k ∈ keys (NewMultiLocker ks v))
                 then get now s k = None ∧ get now s' k = Some v
                 else get now s' k = get now s k
  | Some _ => ∀ k, get now s' k = get now s k
  end.
Proof.
  intros Ht Hf E. destruct (NewMultiLocker_lockers ks v) as [Hk Hv].
  assert (Hnd : NoDup (map key (lockers (NewMultiLocker ks v)))).
  { rewrite Hk. apply NewMultiLocker_NoDup. }
  apply (lock_loop_spec now f v _ timeout _ 0 s s r s' Ht Hf Hnd Hv eq_refl) in E.
  - destruct r; [done|]. unfold holding in E. by rewrite Hk in E.
  - intros k. by rewrite decide_False by apply not_elem_of_nil.
Qed.

(** C39. Mutual exclusion: in every state reachable by any interleaving of
    lock, unlock and extend calls and the passing of time, two unexpired leases
    on the same key belong to the same owner value. *)
Theorem lock_mutual_exclusion y x1 x2 :
  reachable y → x1 ∈ leases y → x2 ∈ leases y →
  clock y < l_until x1 → clock y < l_until x2 →
  l_key x1 = l_key x2 → l_value x1 = l_value x2.
Proof.
  intros Hr H1 H2 L1 L2 Ek. apply reachable_backed in Hr.
  pose proof (backed_get _ _ Hr H1 L1) as E1. pose proof (backed_get _ _ Hr H2 L2) as E2.
  congruence.
Qed.

Lemma jitter_positive now deadline attempt rand :
  now < deadline → 0 < jitter_delay now deadline attempt rand <= deadline - now.
Proof.
  intros H. unfold jitter_delay. rewrite (proj2 (Z.leb_gt _ _)) by lia.
  set (d := rand mod _). unfold millisecond. cbv zeta.
  destruct (Z.leb_spec d 0).
  - destruct (Z.ltb_spec (deadline - now) 1000000); lia.
  - destruct (Z.ltb_spec (deadline - now) d); lia.
Qed.

Lemma wait_loop_total env m timeout deadline fuel attempt now s :
  deadline - now <= Z.of_nat fuel →
  wait_loop env m timeout deadline fuel attempt now s ≠ OutOfFuel.
Proof.
  revert attempt now s. induction fuel as [|fuel IH]; intros attempt now s Hf; cbn [wait_loop];
    (destruct (Z.ltb_spec now deadline) as [Hlt|]; [|done]); [lia|].
  destruct (Lock now _ m timeout s) as [[e|] s']; [|done].
  destruct (negb _); [by destruct (ctx_done _ _)|].
  pose proof (jitter_positive now deadline attempt (draw env attempt) Hlt).
  destruct (_ && _)%bool; [done|]. apply IH. lia.
Qed.

(** C40. [WaitLock] terminates: whatever the competing clients, the random
    draws and the faults, at most one attempt per nanosecond of the wait
    timeout is made, so that many iterations always produce an outcome. *)
Theorem WaitLock_terminates env now m lockTimeout waitTimeout s :
  WaitLock env (Z.to_nat waitTimeout) now m lockTimeout waitTimeout s ≠ OutOfFuel.
Proof.
  unfold WaitLock. destruct (ctx_done env now); [done|]. apply wait_loop_total. lia.
Qed.

(** ** Witnesses *)

Lemma MultiLock_all_or_nothing_witness :
  ∃ e s', Lock 0 no_faults (NewMultiLocker ["b"; "a"; "b"; ""] "me") 100 {["b" := ("you", None)]}
          = (Some e, s') ∧ get 0 s' "a" = None.
Proof.
  destruct (Lock 0 no_faults (NewMultiLocker ["b"; "a"; "b"; ""] "me") 100 {["b" := ("you", None)]})
    as [[e|] s'] eqn:E; [|vm_compute in E; discriminate].
  exists e, s'. split; [done|].
  by rewrite (MultiLock_all_or_nothing 0 no_faults _ _ 100 _ _ _ ltac:(lia) (λ _, eq_refl) E "a").
Defined.

Definition ex_a : Locker := mkLocker "bal" "client_a".
Definition ex_sys : sys :=
  mkSys 5 {["bal" := ("client_a", Some 10)]} [mkLease "bal" "client_a" 10].

Lemma ex_sys_reachable : reachable ex_sys.
Proof.
  apply (reach_step (mkSys 0 {["bal" := ("client_a", Some 10)]} [mkLease "bal" "client_a" 10])).
  - apply (reach_step (mkSys 0 ∅ [])); [constructor|].
    apply (step_lock 0 ∅ [] ex_a 10); [lia|done].
  - apply (step_tick 0 _ _ 5). lia.
Qed.

Lemma lock_mutual_exclusion_witness :
  ∃ x, x ∈ leases ex_sys ∧ l_value x = "client_a"
    ∧ ∀ x', x' ∈ leases ex_sys → clock ex_sys < l_until x' → l_key x' = "bal" →
        l_value x = l_value x'.
Proof.
  exists (mkLease "bal" "client_a" 10). split; [by left|]. split; [done|].
  intros x' Hx' Hlt Hk.
  apply (lock_mutual_exclusion ex_sys (mkLease "bal" "client_a" 10) x'); try done.
  - apply ex_sys_reachable.
  - by left.
Defined.

End Lock.
