(* ===== verification/HotPairs.v ===== *)
(** * Hot pairs (internal/hotpairs)

    A pair of balances under lock contention is moved from the normal queue to
    a hot queue and back: a state machine kept in Redis under keys with a time
    to live, driven by recorded contention and by the routing of each new
    transaction.  [Datastore.CountQueuedTransactionsForPairLane] is the counter
    the router asks. *)

From S2P Require Import Prelude Float64 Types Lock.

Module HotPairs.

Definition LaneNormal : string := "normal".
Definition LaneHot : string := "hot".

Inductive State := StateNormal | StatePromoting | StateHot | StateCoolingDown.
#[export] Instance State_eq_dec : EqDecision State.
Proof. solve_decision. Defined.

Definition state_string (s : State) : string :=
  match s with
  | StateNormal => "normal" | StatePromoting => "promoting"
  | StateHot => "hot" | StateCoolingDown => "cooling_down"
  end.

Definition state_of_string (s : string) : State :=
  if String.eqb s "promoting" then StatePromoting
  else if String.eqb s "hot" then StateHot
  else if String.eqb s "cooling_down" then StateCoolingDown
  else StateNormal.

Record Config := mkConfig {
  Enabled : bool;
  cfg_HotQueueName : string;
  HotPairTTL : Z;
  LockContentionThreshold : Z;
}.

Record Manager := mkManager {
  enabled : bool;
  hotQueue : string;
  pairTTL : Z;
  threshold : Z;
}.

Definition minute : Z := 60000000000.

(** [NewManager(client, cfg)]; [client] says whether a client was given. *)
Definition NewManager (client : bool) (cfg : Config) : Manager :=
  let ttl := if HotPairTTL cfg <=? 0 then 5 * minute else HotPairTTL cfg in
  let thr := if LockContentionThreshold cfg <=? 0 then 3 else LockContentionThreshold cfg in
  let hq := if String.eqb (cfg_HotQueueName cfg) "" then "hot_transactions"
            else cfg_HotQueueName cfg in
  mkManager (Enabled cfg && client) hq ttl thr.

Definition HotQueueName (m : option Manager) : string :=
  match m with
  | Some m => if String.eqb (hotQueue m) "" then "hot_transactions" else hotQueue m
  | None => "hot_transactions"
  end.

Definition PairKey (source destination currency : string) : string :=
  source +:+ "|" +:+ destination +:+ "|" +:+ to_upper currency.

Definition stateKey (pairKey : string) : string := "blnk:hot_pairs:state:" +:+ pairKey.
Definition activityKey (pairKey : string) : string := "blnk:hot_pairs:activity:" +:+ pairKey.
Definition contentionKey (pairKey : string) : string := "blnk:hot_pairs:contention:" +:+ pairKey.
Definition stateTTL (m : Manager) : Z := pairTTL m * 4.

(** ** Redis commands, each of which may fail without effect *)

Section redis.
Context (now : Z) (fault : string → string → option error).

Abbreviation R := (prog Lock.store).

Definition command {A} (op key : string) (f : Lock.store → Lock.store * A) : R A := λ s,
  match fault op key with
  | Some e => (s, Err e)
  | None => let '(s, a) := f s in (s, Ok a)
  end.

Definition set_key (k v : string) (ttl : Z) (s : Lock.store) : Lock.store :=
  <[k := (v, Lock.expiry_of now ttl)]> s.

Definition rget (k : string) : R (option string) := command "GET" k (λ s, (s, Lock.get now s k)).
Definition rexists (k : string) : R bool :=
  command "EXISTS" k (λ s, (s, bool_decide (is_Some (Lock.get now s k)))).
Definition rset (k v : string) (ttl : Z) : R unit :=
  command "SET" k (λ s, (set_key k v ttl s, tt)).

(** ** The manager *)

Definition GetState (m : Manager) (pairKey : string) : R State :=
  if enabled m then
    v ← rget (stateKey pairKey);
    mret (match v with Some v => state_of_string v | None => StateNormal end)
  else mret StateNormal.

Definition setState (m : Manager) (pairKey : string) (st : State) : R unit :=
  rset (stateKey pairKey) (state_string st) (stateTTL m).

(** The transaction of [RecordContention]: INCR, EXPIRE, SET; it fails when
    the counter does not hold a number. *)
Definition count_contention (m : Manager) (pairKey : string) : R Z := λ s,
  match fault "EXEC" (contentionKey pairKey) with
  | Some e => (s, Err e)
  | None =>
      let s' c := set_key (activityKey pairKey) "1" (pairTTL m)
                    (set_key (contentionKey pairKey) c (pairTTL m) s) in
      match Lock.get now s (contentionKey pairKey) with
      | None => (s' "1", Ok 1)
      | Some v =>
          match Z_of_string v with
          | Some n => (s' (Z_to_string (n + 1)), Ok (n + 1))
          | None => (s' v, Err (ENew "ERR value is not an integer or out of range"))
          end
      end
  end.

Definition refresh_state (m : Manager) (pairKey : string) : R unit := λ s,
  match fault "EXPIRE" (stateKey pairKey), Lock.get now s (stateKey pairKey) with
  | None, Some v => (set_key (stateKey pairKey) v (stateTTL m) s, Ok tt)
  | _, _ => (s, Ok tt)
  end.

(** The count and whether the pair is (now or already) being promoted. *)
Definition RecordContention (m : Manager) (pairKey : string) : R (Z * bool) :=
  if enabled m then
    current ← count_contention m pairKey;
    if current <? threshold m then mret (current, false)
    else
      state ← GetState m pairKey;
      match state with
      | StateNormal => _ ← setState m pairKey StatePromoting; mret (current, true)
      | _ => _ ← refresh_state m pairKey; mret (current, bool_decide (state = StatePromoting))
      end
  else mret (0, false).

Definition HasRecentContention (m : Manager) (pairKey : string) : R bool :=
  if enabled m then rexists (activityKey pairKey) else mret false.

Definition ActivateHot (m : Manager) (pairKey : string) : R unit :=
  if enabled m then
    command "EXEC" (stateKey pairKey) (λ s,
      (set_key (activityKey pairKey) "1" (pairTTL m)
        (set_key (stateKey pairKey) (state_string StateHot) (stateTTL m) s), tt))
  else mret tt.

Definition StartCoolingDown (m : Manager) (pairKey : string) : R unit :=
  if enabled m then setState m pairKey StateCoolingDown else mret tt.

Definition SetNormal (m : Manager) (pairKey : string) : R unit :=
  if enabled m then
    command "EXEC" (stateKey pairKey) (λ s,
      (delete (contentionKey pairKey) (delete (activityKey pairKey)
        (delete (stateKey pairKey) s)), tt))
  else mret tt.

(** ** The router *)

Definition QueueLaneMetaKey : string := "queue_lane".
Definition QueuePairMetaKey : string := "queue_pair_key".

(** [counter]: the pending queued transactions of the pair in a lane. *)
Definition ResolveQueueLane (m : option Manager) (counter : string → result nat)
    (source destination currency : string) : R string :=
  match m with
  | None => mret LaneNormal
  | Some m =>
      if enabled m then
        let pairKey := PairKey source destination currency in
        state ← GetState m pairKey;
        match state with
        | StatePromoting =>
            n ← lift (counter LaneNormal);
            if Nat.eqb n 0 then _ ← ActivateHot m pairKey; mret LaneHot else mret LaneNormal
        | StateHot =>
            active ← HasRecentContention m pairKey;
            if (active : bool) then mret LaneHot
            else
              n ← lift (counter LaneHot);
              if Nat.ltb 0 n then _ ← StartCoolingDown m pairKey; mret LaneHot
              else _ ← SetNormal m pairKey; mret LaneNormal
        | StateCoolingDown =>
            n ← lift (counter LaneHot);
            if Nat.ltb 0 n then mret LaneHot
            else _ ← SetNormal m pairKey; mret LaneNormal
        | StateNormal => mret LaneNormal
        end
      else mret LaneNormal
  end.

Definition PairKeyForTransaction (m : option Manager) (txn : Transaction) : string :=
  match m with
  | None => ""
  | Some _ =>
      if String.eqb (t_Source txn) "" || String.eqb (t_Destination txn) ""
         || String.eqb (t_Currency txn) "" then ""
      else PairKey (t_Source txn) (t_Destination txn) (t_Currency txn)
  end.

(** Never fails: a routing error is only logged. *)
Definition AssignQueueLane (m : option Manager) (counter : string → result nat)
    (txn : Transaction) : R Transaction :=
  let pairKey := PairKeyForTransaction m txn in
  if String.eqb pairKey "" then
    mret (txn <| t_MetaData := <[QueueLaneMetaKey := MStr LaneNormal]> (t_MetaData txn) |>)
  else λ s,
    let '(s, r) := ResolveQueueLane m counter (t_Source txn) (t_Destination txn)
                     (t_Currency txn) s in
    let lane := match r with Ok lane => lane | Err _ => LaneNormal end in
    (s, Ok (txn <| t_MetaData := <[QueueLaneMetaKey := MStr lane]>
                      (<[QueuePairMetaKey := MStr pairKey]> (t_MetaData txn)) |>)).

End redis.

Definition QueueLaneFromMetadata (meta : metadata) : string :=
  match meta_string meta QueueLaneMetaKey with
  | Some lane => if String.eqb lane LaneHot then LaneHot else LaneNormal
  | None => LaneNormal
  end.

(** [IsLockContentionError(err)] for a non-nil error; an expired deadline does
    not occur in the model. *)
Definition IsLockContentionError (e : error) : bool :=
  if errors_is e ErrLockHeld || errors_is e ErrLockWaitTimeout then true
  else if errors_is e ErrCtxCanceled then false
  else
    let msg := to_lower (error_text e) in
    contains msg "already held" || contains msg "failed to acquire lock"
    || contains msg "failed to acquire batch lock".

(** The package-level [RecordContention]: errors are only logged. *)
Definition NoteContention (now : Z) (fault : string → string → option error)
    (m : option Manager) (source destination currency : string) (e : error)
    (s : Lock.store) : Lock.store :=
  match m with
  | Some m =>
      if negb (IsLockContentionError e) || negb (enabled m)
         || String.eqb source "" || String.eqb destination "" || String.eqb currency ""
      then s
      else (RecordContention now fault m (PairKey source destination currency) s).1
  | None => s
  end.

(** ** The lanes of one pair

    [normal] and [hot] count the pair's queued transactions in each lane.  A
    routing decision and the transaction it routes are one step. *)

Section lanes.
Context (m : Manager) (source destination currency : string).
Let pk := PairKey source destination currency.

Definition state_at (now : Z) (s : Lock.store) : State :=
  match Lock.get now s (stateKey pk) with Some v => state_of_string v | None => StateNormal end.

Definition no_fault (op key : string) : option error := None.

Record sys := mkSys { clock : Z; redis : Lock.store; normal : nat; hot : nat }.

Definition pending (y : sys) (lane : string) : result nat :=
  Ok (if String.eqb lane LaneHot then hot y else normal y).

Definition routed (y : sys) : Lock.store * result string :=
  ResolveQueueLane (clock y) no_fault (Some m) (pending y) source destination currency (redis y).

Inductive step : sys → sys → Prop :=
| step_tick c r n h d :
    0 <= d →
    (* the state key outlives the hot queue *)
    (h = 0%nat ∨ state_at (c + d) r = state_at c r) →
    step (mkSys c r n h) (mkSys (c + d) r n h)
| step_contention c r n h e :
    step (mkSys c r n h)
      (mkSys c (NoteContention c no_fault (Some m) source destination currency e r) n h)
| step_route_hot y r' :
    routed y = (r', Ok LaneHot) → step y (mkSys (clock y) r' (normal y) (S (hot y)))
| step_route_normal y r' :
    routed y = (r', Ok LaneNormal) → step y (mkSys (clock y) r' (S (normal y)) (hot y))
| step_settle_normal c r n h : step (mkSys c r (S n) h) (mkSys c r n h)
| step_settle_hot c r n h : step (mkSys c r n (S h)) (mkSys c r n h).

Definition drained (y : sys) : Prop :=
  match state_at (clock y) (redis y) with
  | StateNormal | StatePromoting => hot y = 0%nat
  | StateHot | StateCoolingDown => normal y = 0%nat
  end.

Lemma state_of_state_string st : state_of_string (state_string st) = st.
Proof. by destruct st. Qed.

Lemma state_at_set_state now s st :
  0 < pairTTL m → state_at now (set_key now (stateKey pk) (state_string st) (stateTTL m) s) = st.
Proof.
  intros Ht. unfold state_at, set_key. rewrite Lock.get_insert_eq; [apply state_of_state_string|].
  apply Lock.expiry_live. unfold stateTTL. lia.
Qed.

Lemma state_at_other now s k v ttl :
  k ≠ stateKey pk → state_at now (set_key now k v ttl s) = state_at now s.
Proof. intros Hk. unfold state_at, set_key. by rewrite Lock.get_insert_ne. Qed.

Lemma state_at_delete now s : state_at now (delete (stateKey pk) s) = StateNormal.
Proof. unfold state_at. by rewrite Lock.get_delete_eq. Qed.

Lemma state_at_delete_other now s k :
  k ≠ stateKey pk → state_at now (delete k s) = state_at now s.
Proof. intros Hk. unfold state_at. by rewrite Lock.get_delete_ne. Qed.

Lemma activity_key_ne p q : activityKey p ≠ stateKey q.
Proof. done. Qed.
Lemma contention_key_ne p q : contentionKey p ≠ stateKey q.
Proof. done. Qed.
#[local] Hint Resolve activity_key_ne contention_key_ne : core.

Lemma refresh_state_at now s :
  0 < pairTTL m → state_at now (refresh_state now no_fault m pk s).1 = state_at now s.
Proof.
  intros Ht. unfold refresh_state, no_fault, state_at.
  destruct (Lock.get now s (stateKey pk)) as [v|] eqn:Ev; simpl; [|by rewrite Ev].
  unfold set_key. rewrite Lock.get_insert_eq; [done|].
  apply Lock.expiry_live. unfold stateTTL. lia.
Qed.

(** Contention only ever starts a promotion. *)
Lemma RecordContention_state now s :
  0 < pairTTL m →
  let s' := (RecordContention now no_fault m pk s).1 in
  state_at now s' = state_at now s
  ∨ (state_at now s = StateNormal ∧ state_at now s' = StatePromoting).
Proof.
  intros Ht. unfold RecordContention. destruct (enabled m) eqn:He; [|by left].
  set (cnt := count_contention now no_fault m pk).
  assert (Hc : state_at now (cnt s).1 = state_at now s).
  { unfold cnt, count_contention. simpl.
    destruct (Lock.get now s (contentionKey pk)) as [v|]; [destruct (Z_of_string v)|]; simpl;
      by rewrite !state_at_other. }
  unfold mbind, prog_bind. destruct (cnt s) as [s1 [c|e]]; simpl in Hc; [|by left].
  destruct (c <? threshold m); [by left|].
  unfold GetState. rewrite He. unfold rget, command, mbind, prog_bind, mret, prog_ret. simpl.
  change (match Lock.get now s1 (stateKey pk) with
          | Some v => state_of_string v | None => StateNormal end) with (state_at now s1).
  rewrite Hc. pose proof (refresh_state_at now s1 Ht) as Hr. rewrite Hc in Hr.
  destruct (state_at now s) eqn:Es.
  - right. split; [done|]. exact (state_at_set_state now s1 StatePromoting Ht).
  - left. by destruct (refresh_state now no_fault m pk s1) as [? [?|?]].
  - left. by destruct (refresh_state now no_fault m pk s1) as [? [?|?]].
  - left. by destruct (refresh_state now no_fault m pk s1) as [? [?|?]].
Qed.

(** What a routing decision does to the pair's state. *)
Lemma routed_spec y r lane :
  0 < pairTTL m → enabled m = true → routed y = (r, Ok lane) →
  let before := state_at (clock y) (redis y) in
  let after := state_at (clock y) r in
  (lane = LaneNormal ∧ ((before = StateNormal ∨ before = StatePromoting) ∧ after = before
                        ∨ (before = StateHot ∨ before = StateCoolingDown)
                          ∧ hot y = 0%nat ∧ after = StateNormal))
  ∨ (lane = LaneHot ∧ ((before = StatePromoting ∧ normal y = 0%nat ∧ after = StateHot)
                       ∨ (before = StateHot ∧ (after = StateHot ∨ after = StateCoolingDown))
                       ∨ (before = StateCoolingDown ∧ after = StateCoolingDown))).
Proof.
  intros Ht He. destruct y as [now s n h]. unfold routed, ResolveQueueLane. simpl.
  rewrite He. unfold GetState. rewrite He.
  unfold HasRecentContention, ActivateHot, StartCoolingDown, SetNormal, setState, rget, rexists,
    rset, command, lift, pending. rewrite He.
  cbv beta iota zeta delta [mbind prog_bind mret prog_ret no_fault].
  cbn [hot normal String.eqb Ascii.eqb Bool.eqb LaneHot LaneNormal].
  fold pk.
  change (match Lock.get now s (stateKey pk) with
          | Some v => state_of_string v | None => StateNormal end) with (state_at now s).
  destruct (state_at now s) eqn:Es.
  - intros [= <- <-]. rewrite Es. auto 10.
  - destruct (Nat.eqb_spec n 0) as [->|].
    + intros [= <- <-]. right. split; [done|]. left. split; [done|]. split; [done|].
      rewrite state_at_other by done. exact (state_at_set_state now s StateHot Ht).
    + intros [= <- <-]. rewrite Es. auto 10.
  - destruct (bool_decide _).
    + intros [= <- <-]. rewrite Es. auto 10.
    + destruct (Nat.ltb_spec 0 h).
      * intros [= <- <-]. right. split; [done|]. right. left. split; [done|]. right.
        exact (state_at_set_state now s StateCoolingDown Ht).
      * intros [= <- <-]. left. split; [done|]. right. split; [by left|]. split; [lia|].
        rewrite !state_at_delete_other by done. apply state_at_delete.
  - destruct (Nat.ltb_spec 0 h).
    + intros [= <- <-]. rewrite Es. auto 10.
    + intros [= <- <-]. left. split; [done|]. right. split; [by right|]. split; [lia|].
      rewrite !state_at_delete_other by done. apply state_at_delete.
Qed.

(** Time only makes a state expire. *)
Lemma state_at_later now s d :
  0 <= d → state_at (now + d) s = state_at now s ∨ state_at (now + d) s = StateNormal.
Proof.
  intros Hd. unfold state_at, Lock.get. destruct (s !! stateKey pk) as [[v [e|]]|]; simpl.
  - destruct (Z.ltb_spec (now + d) e), (Z.ltb_spec now e); try lia; auto.
  - by left.
  - by left.
Qed.

Lemma step_drained y y' :
  0 < pairTTL m → enabled m = true → step y y' → drained y → drained y'.
Proof.
  intros Ht He Hs. destruct Hs as [c r n h d Hd Hk|c r n h e|y r' E|y r' E|c r n h|c r n h];
    unfold drained; simpl.
  - destruct Hk as [->| ->]; [|done].
    destruct (state_at_later c r d Hd) as [->| ->]; [done|]. by destruct (state_at c r).
  - unfold NoteContention. match goal with |- context [if ?b then r else _] => destruct b end; [done|].
    intros Hd0. destruct (RecordContention_state c r Ht) as [Er|[Es Er]]; fold pk; rewrite Er; [done|]. by rewrite Es in Hd0.
  - destruct (routed_spec y r' LaneHot Ht He E) as [[? _]|[_ Hc]]; [done|].
    destruct Hc as [(-> & ? & ->)|[[-> [->| ->]]|[-> ->]]]; simpl; done.
  - destruct (routed_spec y r' LaneNormal Ht He E) as [[_ Hc]|[? _]]; [|done].
    destruct Hc as [[[->| ->] ->]|(_ & ? & ->)]; done.
  - destruct (state_at c r); done.
  - destruct (state_at c r); done.
Qed.

Definition reachable (y : sys) : Prop := ∃ c, rtc step (mkSys c ∅ 0 0) y.

(** A pair never has queued transactions in both lanes: for every
    interleaving of contention, routing decisions, settlements and the passing
    of time in which the state key outlives the hot queue, a transaction goes
    to the hot lane only once the normal lane has drained and back only once
    the hot lane has, so the pair's transactions keep one queue. *)
Theorem lanes_never_mixed y :
  0 < pairTTL m → enabled m = true → reachable y →
  (normal y = 0%nat ∨ hot y = 0%nat)
  ∧ (∀ r, routed y = (r, Ok LaneHot) → normal y = 0%nat)
  ∧ (∀ r, routed y = (r, Ok LaneNormal) → hot y = 0%nat).
Proof.
  intros Ht He [c Hr]. assert (Hd : drained y).
  { assert (∀ a b, rtc step a b → drained a → drained b) as Hgen.
    { induction 1; eauto using step_drained. }
    by apply (Hgen _ _ Hr). }
  unfold drained in Hd. split; [destruct (state_at (clock y) (redis y)); auto|].
  split; intros r E.
  - destruct (routed_spec y r LaneHot Ht He E) as [[? _]|[_ Hc]]; [done|].
    destruct Hc as [(_ & ? & _)|[[E' _]|[E' _]]]; [done| |]; by rewrite E' in Hd.
  - destruct (routed_spec y r LaneNormal Ht He E) as [[_ Hc]|[? _]]; [|done].
    destruct Hc as [[[E'|E'] _]|(_ & ? & _)]; [| |done]; by rewrite E' in Hd.
Qed.

End lanes.

(** ** Witness: three refused locks, then the pair is routed to the hot lane. *)

Definition ex_manager : Manager :=
  NewManager true (mkConfig true "hot_transactions" minute 2).
Definition ex_held : error := ESentinel ErrLockHeld "lock already held".
Definition ex_contended (s : Lock.store) : Lock.store :=
  NoteContention 0 no_fault (Some ex_manager) "src" "dst" "usd" ex_held s.
Definition ex_sys : sys := mkSys 0 (ex_contended (ex_contended ∅)) 0 0.

Lemma ex_pair_reachable : reachable ex_manager "src" "dst" "usd" ex_sys.
Proof.
  exists 0. eapply rtc_l; [apply (step_contention _ _ _ _ 0 ∅ 0 0 ex_held)|].
  apply rtc_once. apply (step_contention _ _ _ _ 0 _ 0 0 ex_held).
Qed.

Lemma lanes_never_mixed_witness :
  (∃ r, routed ex_manager "src" "dst" "usd" ex_sys = (r, Ok LaneHot)) ∧ normal ex_sys = 0%nat.
Proof.
  assert (∃ r, routed ex_manager "src" "dst" "usd" ex_sys = (r, Ok LaneHot)) as [r E].
  { eexists. vm_compute. reflexivity. }
  split; [by exists r|].
  apply (lanes_never_mixed ex_manager "src" "dst" "usd" ex_sys ltac:(done) ltac:(done)
           ex_pair_reachable) in E. exact E.
Defined.

End HotPairs.
