(* ===== verification/Execution.v ===== *)
(** * Executing one transaction (transaction_execution.go)

    The single-transaction path: resolve the balance ids, lock both balances,
    check the reference, read the balances, apply the transaction in memory,
    persist transaction, balances and lineage outbox in one database
    transaction, release the locks; and the planner that chooses between this
    path and queued batches.  Tracing, metrics, webhooks, search indexing and
    monitors run after the commit and do not touch the ledger; a pre-hook's
    verdict is an argument. *)

From S2P Require Import Prelude Float64 Decimal Types Balances Datastore Lock HotPairs.

Module Execution.

Import Datastore.

(** Configuration and the outside world of a run. *)
Record env := mkEnv {
  EnableQueuedChecks : bool;
  LockDuration : Z;
  LockWaitTimeout : Z;
  now : time;
  gen : string → nat → string;                (* GenerateUUIDWithSuffix *)
  pre_hook : Transaction → option error;
  lock_env : Lock.environment;
  hot_manager : option HotPairs.Manager;
  hot_fault : string → string → option error;  (* failures of its Redis commands *)
}.

(** The stores a run works on; [w_next] counts generated ids. *)
Record world := mkWorld { w_db : db; w_redis : Lock.store; w_next : nat }.
#[export] Instance world_eta : Eta world := λ w, mkWorld (w_db w) (w_redis w) (w_next w).

Abbreviation M := (prog world).

Definition get_db : M db := λ w, (w, Ok (w_db w)).
Definition put_db (d : db) : M unit := λ w, (w <| w_db := d |>, Ok tt).
Definition fresh_id (E : env) (module : string) : M string := λ w,
  (w <| w_next := S (w_next w) |>, Ok (gen E module (w_next w))).

(** A read of the database. *)
Definition read {A} (f : db → result A) : M A := λ w, (w, f (w_db w)).
(** A write in one database transaction: nothing changes on an error. *)
Definition write {A} (f : db → result (db * A)) : M A := λ w,
  match f (w_db w) with
  | Ok (d, a) => (w <| w_db := d |>, Ok a)
  | Err e => (w, Err e)
  end.

Definition GeneralLedgerID : string := "general_ledger_id".

(** ** Balance lookup *)

Definition GetBalanceByIndicator (d : db) (indicator currency : string) : result Balance :=
  match List.find (λ kv, String.eqb (b_Indicator kv.2) indicator
                         && String.eqb (b_Currency kv.2) currency)
                  (map_to_list (db_balances d)) with
  | Some (_, b) => Ok (b <| b_QueuedDebitBalance := None |> <| b_QueuedCreditBalance := None |>)
  | None => Err (EAPI "NOT_FOUND" ("Balance with indicator '" +:+ indicator +:+ "' not found"))
  end.

(** [getOrCreateBalanceByIndicator] (balance.go). *)
Definition getOrCreateBalanceByIndicator (E : env) (indicator currency : string) : M Balance :=
  λ w,
  match GetBalanceByIndicator (w_db w) indicator currency with
  | Ok b =>
      if EnableQueuedChecks E then read (λ d, GetBalanceByID d (b_BalanceID b) true) w
      else (w, Ok b)
  | Err _ =>
      (id ← fresh_id E "bln";
       let b := empty_balance <| b_Indicator := indicator |> <| b_LedgerID := GeneralLedgerID |>
                              <| b_Currency := currency |> in
       _ ← (λ w,
              match write (λ d, CreateBalance d b id (now E)) w with
              | (w, Ok _) => (w, Ok tt)
              | (w, Err e) => if contains (error_text e) "Balance already exist"
                              then (w, Ok tt) else (w, Err e)
              end);
       b ← read (λ d, GetBalanceByIndicator d indicator currency);
       if EnableQueuedChecks E then read (λ d, GetBalanceByID d (b_BalanceID b) true)
       else mret b) w
  end.

(** One side of [getSourceAndDestination]: the balance and its id. *)
Definition lookup_side (E : env) (name currency : string) : M Balance :=
  if has_prefix "@" name then getOrCreateBalanceByIndicator E name currency
  else if EnableQueuedChecks E then read (λ d, GetBalanceByID d name true)
  else read (λ d, GetBalanceByIDLite d name).

Definition resolved_name (name : string) (b : Balance) : string :=
  if has_prefix "@" name then b_BalanceID b else name.

Definition getSourceAndDestination (E : env) (t : Transaction)
    : M (Transaction * Balance * Balance) :=
  source ← lookup_side E (t_Source t) (t_Currency t);
  let t := t <| t_Source := resolved_name (t_Source t) source |> in
  destination ← lookup_side E (t_Destination t) (t_Currency t);
  let t := t <| t_Destination := resolved_name (t_Destination t) destination |> in
  mret (t, source, destination).

Definition resolve_side (E : env) (name currency msg : string) : M string :=
  if has_prefix "@" name
  then b ← ctx_err msg (getOrCreateBalanceByIndicator E name currency); mret (b_BalanceID b)
  else mret name.

Definition resolveBalanceIDs (E : env) (t : Transaction) : M (string * string) :=
  s ← resolve_side E (t_Source t) (t_Currency t) "failed to resolve source balance indicator";
  d ← resolve_side E (t_Destination t) (t_Currency t)
        "failed to resolve destination balance indicator";
  mret (s, d).

(** ** Locks *)

Definition run_locker (E : env) (m : Lock.MultiLocker) : M unit := λ w,
  match Lock.acquireTransactionLocker (lock_env E) (Z.to_nat (LockWaitTimeout E)) (now E) m
          (LockDuration E) (LockWaitTimeout E) (w_redis w) with
  | Lock.Waited None _ s => (w <| w_redis := s |>, Ok tt)
  | Lock.Waited (Some e) _ s => (w <| w_redis := s |>, Err e)
  | Lock.OutOfFuel => (w, Err (EPanic "unreachable"))
  end.

Definition acquireLock (E : env) (sourceID destID : string) : M Lock.MultiLocker :=
  v ← fresh_id E "loc";
  let m := Lock.NewMultiLocker [sourceID; destID] v in
  _ ← run_locker E m;
  mret m.

(** [releaseLock]: errors are only logged. *)
Definition releaseLock (E : env) (m : Lock.MultiLocker) : M unit := λ w,
  let '(_, s) := Lock.Unlock (now E) Lock.no_faults m (w_redis w) in
  (w <| w_redis := s |>, Ok tt).

(** [defer release()] around a body. *)
Definition with_release {A} (E : env) (m : Lock.MultiLocker) (body : M A) : M A := λ w,
  let '(w, r) := body w in
  let '(w, _) := releaseLock E m w in
  (w, r).

(** A failed acquisition is recorded against the pair. *)
Definition on_contention {A} (E : env) (sourceID destID currency : string) (m : M A) : M A := λ w,
  match m w with
  | (w, Err e) =>
      (w <| w_redis := HotPairs.NoteContention (now E) (hot_fault E) (hot_manager E)
                         sourceID destID currency e (w_redis w) |>, Err e)
  | r => r
  end.

(** [executeWithLock]: the body gets the transaction with resolved ids. *)
Definition executeWithLock {A} (E : env) (t : Transaction) (body : Transaction → M A) : M A :=
  ids ← ctx_err "failed to resolve balance IDs" (resolveBalanceIDs E t);
  let t := t <| t_Source := ids.1 |> <| t_Destination := ids.2 |> in
  locker ← ctx_err "failed to acquire lock"
             (on_contention E ids.1 ids.2 (t_Currency t) (acquireLock E ids.1 ids.2));
  with_release E locker (body t).

(** ** Validation *)

Definition validateTxn (d : db) (t : Transaction) : result unit :=
  fail_if (TransactionExistsByRef d (t_Reference t))
    (ENew ("reference " +:+ t_Reference t +:+ " has already been used")).

(** [IsDuplicateReferenceError] on an error value of this model: the
    PostgreSQL error is never reachable through [errors.As], because the
    datasource wraps it in an [APIError], which has no [Unwrap]. *)
Definition IsDuplicateReferenceError (e : error) : bool :=
  let msg := to_lower (error_text e) in
  (contains msg "duplicate key value violates unique constraint" && contains msg "reference")
  || (contains msg "reference" && contains msg "already been used").

Definition validateAndPrepareTransaction (E : env) (t : Transaction)
    : M (Transaction * Balance * Balance) :=
  _ ← ctx_err "transaction validation failed" (read (λ d, validateTxn d t));
  '(t, source, destination) ← ctx_err "failed to get source and destination balances"
                                (getSourceAndDestination E t);
  let t := t <| t_Source := b_BalanceID source |> <| t_Destination := b_BalanceID destination |> in
  mret (t, source, destination).

(** ** Applying in memory *)

Section apply.
Context `{Decimal}.

Definition applyTransactionToBalances (t : Transaction) (source destination : Balance)
    : result (Transaction * Balance * Balance) :=
  if String.eqb (t_Status t) StatusCommit then
    '(t, source) ← wrap_err "commit inflight debit failed" (Balances.CommitInflightDebit t source);
    '(t, destination) ← wrap_err "commit inflight credit failed"
                          (Balances.CommitInflightCredit t destination);
    mret (t, source, destination)
  else if String.eqb (t_Status t) StatusVoid then
    let amount := ival (t_PreciseAmount t) in
    source ← wrap_err "void inflight debit failed" (Balances.RollbackInflightDebit amount source);
    destination ← wrap_err "void inflight credit failed"
                    (Balances.RollbackInflightCredit amount destination);
    mret (t, source, destination)
  else Balances.UpdateBalances t source destination.

Definition processBalances (t : Transaction) (source destination : Balance)
    : result (Transaction * Balance * Balance) :=
  wrap_err "failed to apply transaction to balances"
    (applyTransactionToBalances t source destination).

Definition applicableStatus (status : string) : string :=
  if String.eqb status StatusQueued then StatusApplied
  else if String.eqb status StatusApplied then StatusApplied
  else if String.eqb status StatusScheduled then StatusApplied
  else if String.eqb status StatusCommit then StatusApplied
  else if String.eqb status StatusVoid then StatusVoid
  else "".

Definition updateTransactionDetails (t : Transaction) (source destination : Balance) : Transaction :=
  t <| t_Source := b_BalanceID source |>
    <| t_Destination := b_BalanceID destination |>
    <| t_Status := (if t_Inflight t then StatusInflight else applicableStatus (t_Status t)) |>.

(** ** Lineage outbox (lineage_outbox.go) *)

Definition LineageProviderKey : string := "BLNK_LINEAGE_PROVIDER".

Definition getLineageProvider (t : Transaction) : string :=
  match meta_string (t_MetaData t) LineageProviderKey with Some p => p | None => "" end.

Definition outbox_payload (t : Transaction) : metadata :=
  list_to_map [("amount", MNum (t_Amount t));
               ("precise_amount", MStr (Z_to_string (ival (t_PreciseAmount t))));
               ("currency", MStr (t_Currency t)); ("precision", MNum (t_Precision t));
               ("reference", MStr (t_Reference t)); ("skip_queue", MBool true);
               ("inflight", MBool (t_Inflight t))].

Definition PrepareLineageOutbox (t : Transaction) (source destination : Balance)
    : option LineageOutbox :=
  let provider := getLineageProvider t in
  let needsCredit := negb (String.eqb provider "") && b_TrackFundLineage destination in
  let needsDebit := b_TrackFundLineage source in
  if negb needsCredit && negb needsDebit then None
  else
    let lineageType := if needsCredit && negb needsDebit then "credit"
                       else if needsDebit && negb needsCredit then "debit" else "both" in
    Some (mkLineageOutbox 0 (t_TransactionID t) (b_BalanceID source) (b_BalanceID destination)
            provider lineageType (outbox_payload t) "" 0 5 "" 0 None (t_Inflight t)).

Definition prepareTransactionOutbox (t : Transaction) (source destination : Balance)
    : option LineageOutbox :=
  if negb (String.eqb (t_Status t) StatusApplied) && negb (String.eqb (t_Status t) StatusInflight)
  then None
  else if negb (String.eqb (t_ParentTransaction t) "")
          && bool_decide (t_MetaData t !! "inflight" = Some (MBool true)) then None
  else PrepareLineageOutbox t source destination.

(** ** Persisting *)

Record work := mkWork {
  wk_transaction : Transaction;
  wk_source : Balance;
  wk_destination : Balance;
  wk_outbox : option LineageOutbox;
}.

(** The work to persist, and whether it is skipped (zero amount). *)
Definition buildTransactionExecutionWork (t : Transaction) (source destination : Balance)
    : work * bool :=
  let t := updateTransactionDetails t source destination in
  if bool_decide (t_PreciseAmount t = Some 0) then (mkWork t source destination None, true)
  else (mkWork t source destination (prepareTransactionOutbox t source destination), false).

Definition persistSingleTransactionExecutionWork (E : env) (wk : work) : M work :=
  '(source, destination) ← ctx_err "failed to persist transaction with balances"
    (write (λ d, '(d, s, r) ← RecordTransactionWithBalancesAndOutbox d (wk_transaction wk)
                                (wk_source wk) (wk_destination wk) (wk_outbox wk) (now E);
                 mret (d, (s, r))));
  mret (mkWork (wk_transaction wk) source destination (wk_outbox wk)).

(** The body [recordTransactionSingle] runs under the locks. *)
Definition record_body (E : env) (t : Transaction) : M Transaction :=
  _ ← lift (match pre_hook E t with Some e => Err e | None => Ok tt end);
  '(t, source, destination) ← validateAndPrepareTransaction E t;
  '(t, source, destination) ← lift (processBalances t source destination);
  let '(wk, skip) := buildTransactionExecutionWork t source destination in
  if (skip : bool) then mret (wk_transaction wk)
  else wk ← persistSingleTransactionExecutionWork E wk; mret (wk_transaction wk).

Definition recordTransactionSingle (E : env) (t : Transaction) : M Transaction :=
  executeWithLock E t (record_body E).

(** ** Planning *)

Inductive mode := ModeSingle | ModeQueuedBatch | ModeHotQueuedBatch.
#[export] Instance mode_eq_dec : EqDecision mode.
Proof. solve_decision. Defined.

Definition usedCoalescing (m : mode) : bool :=
  match m with ModeQueuedBatch | ModeHotQueuedBatch => true | ModeSingle => false end.

Definition planTransactionExecution (allowQueuedBatch hotLane : bool) : mode :=
  if allowQueuedBatch then if hotLane then ModeHotQueuedBatch else ModeQueuedBatch
  else ModeSingle.

(** A batch attempt returns whether it handled the transaction, and what it
    made of it: the caller's pointer is written to even when the batch fails.
    [fuel] bounds the fall-back recursion, which is one deep. *)
Fixpoint executeTransactionPlan (fuel : nat) (E : env)
    (batch hot_batch : Transaction → world → world * (bool * Transaction))
    (m : mode) (t : Transaction) : M (mode * Transaction) := λ w,
  match fuel with
  | O => (w, Err (EPanic "plan recursion"))
  | S fuel =>
      let fallback t := executeTransactionPlan fuel E batch hot_batch
                          (planTransactionExecution false false) t in
      match m with
      | ModeQueuedBatch =>
          let '(w, (handled, t)) := batch t w in
          if (handled : bool) then (w, Ok (ModeQueuedBatch, t)) else fallback t w
      | ModeHotQueuedBatch =>
          let '(w, (handled, t)) := hot_batch t w in
          if (handled : bool) then (w, Ok (ModeHotQueuedBatch, t)) else fallback t w
      | ModeSingle => (t ← recordTransactionSingle E t; mret (ModeSingle, t)) w
      end
  end.

(** [RecordTransaction] plans without batching, so no batch is attempted. *)
Definition no_batch (t : Transaction) (w : world) : world * (bool * Transaction) :=
  (w, (false, t)).

Definition RecordTransaction (E : env) (t : Transaction) : M Transaction :=
  r ← executeTransactionPlan 1 E no_batch no_batch (planTransactionExecution false false) t;
  mret r.2.

Definition ProcessQueuedTransaction (E : env)
    (batch hot_batch : Transaction → world → world * (bool * Transaction))
    (t : Transaction) (hotLane : bool) : M Transaction :=
  r ← executeTransactionPlan 2 E batch hot_batch (planTransactionExecution true hotLane) t;
  mret r.2.

End apply.

(** ** What a run does to the tables *)

(** Rows are neither added nor changed; balances may be created. *)
Definition rows_kept (d d' : db) : Prop :=
  db_transactions d' = db_transactions d ∧ db_outbox d' = db_outbox d
  ∧ db_balances d ⊆ db_balances d'.

#[export] Instance rows_kept_preorder : PreOrder rows_kept.
Proof.
  split.
  - by intros d.
  - intros d1 d2 d3 (E1 & E2 & E3) (F1 & F2 & F3). unfold rows_kept. rewrite F1, F2, E1, E2.
    split_and!; [done|done|by etrans].
Qed.

Definition quiet {A} (m : M A) : Prop := ∀ w, rows_kept (w_db w) (w_db (m w).1).

Lemma quiet_bind {A B} (m : M A) (f : A → M B) :
  quiet m → (∀ a, quiet (f a)) → quiet (m ≫= f).
Proof.
  intros Hm Hf w. specialize (Hm w). unfold mbind, prog_bind.
  destruct (m w) as [w1 [a|e]]; simpl in *; [|done]. etrans; [exact Hm|apply Hf].
Qed.

Lemma quiet_err {A} f (m : M A) : quiet m → quiet (map_err f m).
Proof. intros Hm w. rewrite map_err_state. apply Hm. Qed.

Lemma quiet_read {A} (f : db → result A) : quiet (read f).
Proof. by intros w. Qed.

Lemma quiet_ret {A} (a : A) : quiet (mret a).
Proof. by intros w. Qed.

Lemma quiet_lift {A} (r : result A) : quiet (lift r).
Proof. by intros w. Qed.

Lemma quiet_fresh E module : quiet (fresh_id E module).
Proof. by intros w. Qed.

Lemma CreateBalance_rows d b id now d' b' :
  CreateBalance d b id now = Ok (d', b') → rows_kept d d'.
Proof.
  unfold CreateBalance. cbv zeta. destruct (existsb _ _); [by intros [= <- <-]|].
  destruct (bool_decide_reflect (is_Some (db_balances d !! id))) as [|Hn]; [done|].
  intros [= <- _]. split; [done|]. split; [done|]. apply insert_subseteq.
  by apply eq_None_not_Some.
Qed.

Lemma quiet_create (b : Balance) id nw (ok : error → bool) :
  quiet (λ w, match write (λ d, CreateBalance d b id nw) w with
              | (w, Ok _) => (w, Ok tt)
              | (w, Err e) => if ok e then (w, Ok tt) else (w, Err e)
              end).
Proof.
  intros w. unfold write. destruct (CreateBalance (w_db w) b id nw) as [[d' b']|e] eqn:E.
  - by apply CreateBalance_rows in E.
  - by destruct (ok e).
Qed.

Lemma quiet_getOrCreate E ind cur : quiet (getOrCreateBalanceByIndicator E ind cur).
Proof.
  intros w. unfold getOrCreateBalanceByIndicator.
  destruct (GetBalanceByIndicator (w_db w) ind cur); [by destruct (EnableQueuedChecks E)|].
  revert w. match goal with |- ∀ w, rows_kept _ (w_db (?m w).1) => change (quiet m) end.
  apply quiet_bind; [apply quiet_fresh|]. intros id.
  apply quiet_bind; [apply quiet_create|]. intros _.
  apply quiet_bind; [apply quiet_read|]. intros b.
  destruct (EnableQueuedChecks E); [apply quiet_read|apply quiet_ret].
Qed.

Lemma quiet_lookup_side E n cur : quiet (lookup_side E n cur).
Proof.
  unfold lookup_side. destruct (has_prefix "@" n); [apply quiet_getOrCreate|].
  destruct (EnableQueuedChecks E); apply quiet_read.
Qed.

Lemma quiet_getSourceAndDestination E t : quiet (getSourceAndDestination E t).
Proof.
  unfold getSourceAndDestination. apply quiet_bind; [apply quiet_lookup_side|]. intros s.
  apply quiet_bind; [apply quiet_lookup_side|]. intros r. apply quiet_ret.
Qed.

Lemma quiet_resolve E t : quiet (resolveBalanceIDs E t).
Proof.
  assert (Hs : ∀ n c msg, quiet (resolve_side E n c msg)).
  { intros n c msg. unfold resolve_side. destruct (has_prefix "@" n); [|apply quiet_ret].
    apply quiet_bind; [apply quiet_err, quiet_getOrCreate|]. intros b. apply quiet_ret. }
  unfold resolveBalanceIDs. apply quiet_bind; [apply Hs|]. intros s.
  apply quiet_bind; [apply Hs|]. intros d. apply quiet_ret.
Qed.

Lemma quiet_acquireLock E s d : quiet (acquireLock E s d).
Proof.
  unfold acquireLock. apply quiet_bind; [apply quiet_fresh|]. intros v.
  apply quiet_bind; [|intros _; apply quiet_ret]. intros w. unfold run_locker.
  by destruct (Lock.acquireTransactionLocker _ _ _ _ _ _ _) as [[e|] ? ?|].
Qed.

Lemma quiet_on_contention {A} E s d c (m : M A) : quiet m → quiet (on_contention E s d c m).
Proof. intros Hm w. specialize (Hm w). unfold on_contention. by destruct (m w) as [w1 [a|e]]. Qed.

Lemma with_release_spec {A} E m (body : M A) w :
  (with_release E m body w).2 = (body w).2
  ∧ w_db (with_release E m body w).1 = w_db (body w).1.
Proof.
  unfold with_release, releaseLock. destruct (body w) as [w1 r].
  by destruct (Lock.Unlock _ _ _ _).
Qed.

Section effect.
Context `{Decimal}.

(** Applying a transaction only fixes its amounts. *)
Lemma applyTransactionToBalances_frame t s d t' s' d' :
  applyTransactionToBalances t s d = Ok (t', s', d') → Balances.same_but_amounts t t'.
Proof.
  assert (HP : ∀ t, Balances.same_but_amounts t (Balances.ApplyPrecision t).2).
  { intros t0. destruct (Balances.ApplyPrecision t0) eqn:E.
    by apply Balances.ApplyPrecision_frame in E. }
  unfold applyTransactionToBalances. intros E.
  destruct (String.eqb (t_Status t) StatusCommit).
  { apply bind_Ok in E as ([t1 s1] & E1 & E). apply bind_Ok in E as ([t2 d1] & E2 & E). inv_result.
    unfold Balances.CommitInflightDebit in E1. unfold Balances.CommitInflightCredit in E2.
    destruct (Balances.ApplyPrecision t) as [a1 t3] eqn:P1. inv_result.
    destruct (Balances.ApplyPrecision t1) as [a2 t3] eqn:P2. inv_result.
    eapply Balances.same_but_amounts_trans; eapply Balances.ApplyPrecision_frame; eauto. }
  destruct (String.eqb (t_Status t) StatusVoid).
  { inv_result. apply Balances.same_but_amounts_refl. }
  unfold Balances.UpdateBalances in E. apply bind_Ok in E as ([t1 s1] & E1 & E). inv_result.
  apply Balances.admit_update_Ok in E1 as (a & _ & _ & _ & -> & _ & _).
  eapply Balances.same_but_amounts_trans; [apply HP|]. by destruct (Balances.ApplyPrecision t).2.
Qed.

(** A positive precise amount is applied as it is. *)
Lemma applyTransactionToBalances_amount t s d t' s' d' p :
  applyTransactionToBalances t s d = Ok (t', s', d') →
  t_PreciseAmount t = Some p → 0 < p → t_PreciseAmount t' = Some p.
Proof.
  assert (HP : ∀ t q t', t_PreciseAmount t = Some p → 0 < p →
            Balances.ApplyPrecision t = (q, t') → q = p ∧ t_PreciseAmount t' = Some p).
  { intros t0 q t1 Hp Hpos Eq. pose proof (Balances.ApplyPrecision_precise t0 p Hp Hpos) as Hq.
    rewrite Eq in Hq. simpl in Hq. subst q. split; [done|].
    by apply Balances.ApplyPrecision_amount in Eq. }
  unfold applyTransactionToBalances. intros E Hp Hpos.
  destruct (String.eqb (t_Status t) StatusCommit).
  { apply bind_Ok in E as ([t1 s1] & E1 & E). apply bind_Ok in E as ([t2 d1] & E2 & E). inv_result.
    unfold Balances.CommitInflightDebit in E1. unfold Balances.CommitInflightCredit in E2.
    destruct (Balances.ApplyPrecision t) as [a1 t3] eqn:P1. inv_result.
    destruct (Balances.ApplyPrecision t1) as [a2 t3] eqn:P2. inv_result.
    apply HP in P1 as [_ P1]; [|done..]. by apply HP in P2 as [_ P2]. }
  destruct (String.eqb (t_Status t) StatusVoid); [by inv_result|].
  unfold Balances.UpdateBalances in E. apply bind_Ok in E as ([t1 s1] & E1 & E). inv_result.
  apply Balances.admit_update_Ok in E1 as (a & Ha & _ & Eq & _ & _ & _).
  rewrite (Balances.ApplyPrecision_precise t p Hp Hpos) in Eq. congruence.
Qed.

(** What recording keeps of the transaction it is given. *)
Definition same_record (t t' : Transaction) : Prop :=
  t_Reference t' = t_Reference t ∧ t_TransactionID t' = t_TransactionID t
  ∧ t_ParentTransaction t' = t_ParentTransaction t
  ∧ t_Inflight t' = t_Inflight t ∧ t_MetaData t' = t_MetaData t.

Lemma same_record_trans t1 t2 t3 : same_record t1 t2 → same_record t2 t3 → same_record t1 t3.
Proof. unfold same_record. intros (E1 & E2 & E3 & E4 & E5). by rewrite E1, E2, E3, E4, E5. Qed.

Lemma same_but_amounts_keys t t' : Balances.same_but_amounts t t' →
  same_record t t' ∧ t_Status t' = t_Status t.
Proof. intros ->. by destruct t. Qed.

Definition final_status (t : Transaction) : string :=
  if t_Inflight t then StatusInflight else applicableStatus (t_Status t).

Definition recorded_as (t t' : Transaction) : Prop :=
  same_record t t' ∧ t_Status t' = final_status t
  ∧ ∀ p, t_PreciseAmount t = Some p → 0 < p → t_PreciseAmount t' = Some p.

(** What running a transaction may leave behind: nothing but created balances
    on an error; nothing either for a zero amount; otherwise one new row,
    under a reference that was free. *)
Definition recorded (t : Transaction) (d d' : db) (r : result Transaction) : Prop :=
  match r with
  | Err _ => rows_kept d d'
  | Ok t' =>
      recorded_as t t' ∧ TransactionExistsByRef d (t_Reference t) = false
      ∧ if bool_decide (t_PreciseAmount t' = Some 0) then rows_kept d d'
        else db_transactions d' = db_transactions d ++ [stored_row t']
             ∧ fresh_row d t' ∧ is_Some (t_PreciseAmount t')
             ∧ outbox_grows (db_outbox d) (db_outbox d')
  end.

Lemma recorded_before t d d0 d' r : rows_kept d d0 → recorded t d0 d' r → recorded t d d' r.
Proof.
  intros Hk. pose proof Hk as (Ht & Ho & _). destruct r as [t'|e]; simpl.
  - intros (Has & Hf & Hr). unfold TransactionExistsByRef in *. rewrite Ht in Hf.
    split; [done|]. split; [done|].
    destruct (bool_decide _); [by etrans|]. unfold fresh_row in *. by rewrite Ht, Ho in Hr.
  - intros. by etrans.
Qed.

Lemma recorded_bind {A} t (m : M A) (f : A → M Transaction) w :
  quiet m →
  (∀ w1 a, m w = (w1, Ok a) → rows_kept (w_db w) (w_db w1) →
     recorded t (w_db w1) (w_db (f a w1).1) (f a w1).2) →
  recorded t (w_db w) (w_db ((m ≫= f) w).1) ((m ≫= f) w).2.
Proof.
  intros Hm Hf. specialize (Hm w). unfold mbind, prog_bind.
  destruct (m w) as [w1 [a|e]] eqn:E; [|exact Hm].
  eapply recorded_before; [exact Hm|]. by apply Hf.
Qed.

Lemma persist_single_recorded E t wk w :
  recorded_as t (wk_transaction wk) → TransactionExistsByRef (w_db w) (t_Reference t) = false →
  t_PreciseAmount (wk_transaction wk) ≠ Some 0 →
  let r := (wk ← persistSingleTransactionExecutionWork E wk; mret (wk_transaction wk)) w in
  recorded t (w_db w) (w_db r.1) r.2.
Proof.
  intros Has Hf Ha r. subst r. unfold persistSingleTransactionExecutionWork, ctx_err, map_err,
    write, mbind, prog_bind, mret, prog_ret, result_bind, result_ret.
  destruct (RecordTransactionWithBalancesAndOutbox _ _ _ _ _ _) as [[[d' x] y]|e] eqn:Ep; [|done].
  simpl. split; [done|]. split; [done|]. rewrite bool_decide_false by done.
  unfold RecordTransactionWithBalancesAndOutbox in Ep.
  apply bind_Ok in Ep as ([d1 s1] & E1 & Ep). apply bind_Ok in Ep as ([d2 r1] & E2 & Ep).
  apply bind_Ok in Ep as (d3 & E3 & Ep). apply bind_Ok in Ep as (d4 & E4 & Ep). inv_result.
  apply updateBalance_Ok in E1 as (? & _ & _ & -> & _).
  apply updateBalance_Ok in E2 as (? & _ & _ & -> & _).
  apply recordTransactionInTx_Ok in E3 as (-> & Hfr & Hv).
  apply andb_true_iff in Hv as [Hv _]. apply bool_decide_eq_true in Hv.
  destruct (wk_outbox wk).
  - apply wrap_err_Ok in E4. pose proof (InsertLineageOutbox_grows _ _ _ _ E4) as Hg.
    by apply InsertLineageOutbox_Ok in E4 as (_ & -> & _).
  - by injection E4 as <-.
Qed.

Lemma quiet_validateAndPrepare E t : quiet (validateAndPrepareTransaction E t).
Proof.
  unfold validateAndPrepareTransaction. apply quiet_bind; [apply quiet_err, quiet_read|].
  intros []. apply quiet_bind; [apply quiet_err, quiet_getSourceAndDestination|].
  intros [[t1 s] r]. apply quiet_ret.
Qed.

(** Looking up balances only rewrites the two endpoints. *)
Definition same_but_ends (t t' : Transaction) : Prop :=
  t' = t <| t_Source := t_Source t' |> <| t_Destination := t_Destination t' |>.

Lemma same_but_ends_intro t s d :
  same_but_ends t (t <| t_Source := s |> <| t_Destination := d |>).
Proof. done. Qed.

Lemma same_but_ends_trans t1 t2 t3 :
  same_but_ends t1 t2 → same_but_ends t2 t3 → same_but_ends t1 t3.
Proof. unfold same_but_ends. intros -> ->. by destruct t1. Qed.

Lemma getSourceAndDestination_ends E t w w' t' s r :
  getSourceAndDestination E t w = (w', Ok (t', s, r)) → same_but_ends t t'.
Proof. unfold getSourceAndDestination. intros Hg. inv_prog. by destruct t. Qed.

Lemma validateAndPrepare_Ok E t w w' t' s r :
  validateAndPrepareTransaction E t w = (w', Ok (t', s, r)) →
  same_but_ends t t' ∧ TransactionExistsByRef (w_db w) (t_Reference t) = false.
Proof.
  unfold validateAndPrepareTransaction. intros Hv.
  apply prog_bind_Ok in Hv as (w1 & [] & E1 & Hv).
  apply prog_bind_Ok in Hv as (w2 & [[t2 s2] r2] & E2 & Hv). inv_prog.
  apply getSourceAndDestination_ends in E2. split.
  - eapply same_but_ends_trans; [exact E2|]. by destruct t2.
  - unfold read, validateTxn in E1. injection E1 as _ E1. by apply fail_if_Ok in E1.
Qed.

Lemma recorded_as_final t t2 t3 s r s' r' s3 r3 :
  same_but_ends t t2 → applyTransactionToBalances t2 s r = Ok (t3, s', r') →
  recorded_as t (updateTransactionDetails t3 s3 r3).
Proof.
  intros Hends E.
  assert (Ht : same_record t t2 ∧ t_Status t2 = t_Status t
               ∧ t_PreciseAmount t2 = t_PreciseAmount t) by (rewrite Hends; by destruct t).
  destruct Ht as (Hrec & Hst & Hpa).
  pose proof (applyTransactionToBalances_frame _ _ _ _ _ _ E) as [Hrec3 Hst3]%same_but_amounts_keys.
  pose proof (same_record_trans _ _ _ Hrec Hrec3) as (R1 & R2 & R3 & R4 & R5).
  unfold recorded_as, final_status. split_and!.
  - by destruct t3.
  - change (t_Status (updateTransactionDetails t3 s3 r3))
      with (if t_Inflight t3 then StatusInflight else applicableStatus (t_Status t3)).
    by rewrite R4, Hst3, Hst.
  - intros p Hp Hpos.
    change (t_PreciseAmount (updateTransactionDetails t3 s3 r3)) with (t_PreciseAmount t3).
    eapply applyTransactionToBalances_amount; [exact E| |done]. by rewrite Hpa.
Qed.

Lemma record_body_recorded E t0 t w :
  same_but_ends t0 t →
  recorded t0 (w_db w) (w_db (record_body E t w).1) (record_body E t w).2.
Proof.
  intros Hends.
  unfold record_body. apply recorded_bind; [apply quiet_lift|]. intros w1 u _ _. clear u.
  apply recorded_bind; [apply quiet_validateAndPrepare|]. intros w2 [[t2 s] r] E2 Hk.
  apply validateAndPrepare_Ok in E2 as (K1 & Hf).
  apply recorded_bind; [apply quiet_lift|]. intros w3 [[t3 s3] r3] E3 Hk3.
  injection E3 as <- E3. apply wrap_err_Ok in E3.
  assert (Hf2 : TransactionExistsByRef (w_db w2) (t_Reference t0) = false).
  { rewrite Hends in Hf. unfold TransactionExistsByRef in *. destruct Hk as [Hk _].
    by rewrite Hk. }
  pose proof (recorded_as_final t0 t2 t3 s r s3 r3 s3 r3
                (same_but_ends_trans _ _ _ Hends K1) E3) as Has.
  unfold buildTransactionExecutionWork. cbv zeta.
  destruct (bool_decide_reflect (t_PreciseAmount (updateTransactionDetails t3 s3 r3) = Some 0)).
  - unfold recorded, mret, prog_ret. cbn [snd fst wk_transaction].
    rewrite bool_decide_true by done. done.
  - by apply persist_single_recorded.
Qed.

Lemma recordTransactionSingle_recorded E t w :
  recorded t (w_db w) (w_db (recordTransactionSingle E t w).1) (recordTransactionSingle E t w).2.
Proof.
  unfold recordTransactionSingle, executeWithLock.
  apply recorded_bind; [apply quiet_err, quiet_resolve|]. intros w1 ids _ _.
  apply recorded_bind; [apply quiet_err, quiet_on_contention, quiet_acquireLock|]. intros w2 m _ _.
  set (t1 := t <| t_Source := ids.1 |> <| t_Destination := ids.2 |>).
  destruct (with_release_spec E m (record_body E t1) w2) as [-> ->].
  apply record_body_recorded. apply same_but_ends_intro.
Qed.

Lemma RecordTransaction_recorded E t w :
  recorded t (w_db w) (w_db (RecordTransaction E t w).1) (RecordTransaction E t w).2.
Proof.
  pose proof (recordTransactionSingle_recorded E t w) as Hr.
  unfold RecordTransaction, executeTransactionPlan, planTransactionExecution.
  unfold mbind, prog_bind, mret, prog_ret. by destruct (recordTransactionSingle E t w) as [w1 [t1|e]].
Qed.

End effect.

(** ** Properties *)

Section properties.
Context `{Decimal}.

(** C32. Recording one transaction is all or nothing.  When
    [recordTransactionSingle] returns an error, no transaction row, no outbox
    row and no existing balance changed; when it succeeds, the reference was
    free and exactly one row was added, that of the returned transaction,
    which keeps its id and reference; only a zero amount is accepted without
    writing a row. *)
Theorem recordTransactionSingle_all_or_nothing E t w :
  recorded t (w_db w) (w_db (recordTransactionSingle E t w).1) (recordTransactionSingle E t w).2.
Proof. apply recordTransactionSingle_recorded. Qed.

(** Two levels of [executeTransactionPlan] are enough for every plan. *)
Lemma executeTransactionPlan_falls_back E batch hot fuel md t w :
  executeTransactionPlan (S (S fuel)) E batch hot md t w =
  match md with
  | ModeSingle => (r ← recordTransactionSingle E t; mret (ModeSingle, r)) w
  | _ =>
      let '(w', (handled, t)) := (if bool_decide (md = ModeQueuedBatch) then batch else hot) t w in
      if handled then (w', Ok (md, t))
      else (r ← recordTransactionSingle E t; mret (ModeSingle, r)) w'
  end.
Proof. by destruct md. Qed.

(** A reference taken between the check and the INSERT is refused by the
    database, and the error is not recognised as a duplicate reference. *)
Lemma racing_duplicate_not_recognised d t r s b o now e :
  r ∈ db_transactions d → t_Reference r = t_Reference t →
  RecordTransactionWithBalancesAndOutbox d t s b o now = Err e →
  (∃ row, db_balances d !! b_BalanceID s = Some row ∧ b_Version row = b_Version s) →
  (∃ row, db_balances d !! b_BalanceID b = Some row ∧ b_Version row = b_Version b) →
  b_BalanceID s ≠ b_BalanceID b →
  IsDuplicateReferenceError (EWrap "failed to persist transaction with balances" e) = false.
Proof.
  intros Hr Href Hp (rs & Es & Vs) (rb & Eb & Vb) Hne.
  unfold RecordTransactionWithBalancesAndOutbox, updateBalance in Hp.
  rewrite Es, Vs, Z.eqb_refl in Hp. simpl in Hp.
  rewrite lookup_insert_ne, Eb, Vb, Z.eqb_refl in Hp by done. simpl in Hp.
  match type of Hp with context [recordTransactionInTx ?d1 t] =>
    rewrite (recordTransactionInTx_duplicate d1 t r Hr Href) in Hp end.
  injection Hp as <-.
  reflexivity.
Qed.
End properties.

End Execution.
