(* ===== verification/Ledger.v ===== *)
(** * The ledger under concurrency

    Any number of workers read balances, compute in memory and try to persist,
    in any interleaving and without relying on the Redis locks (which may
    expire): a step relation over the database, the copies workers hold and the
    work they prepared.  The invariant proved by induction over reachable
    states: double entry, balances equal to their accumulators, accumulators
    equal to the replay of the committed postings, versions counting them,
    inflight holds never negative, references unique.  The single-transaction
    path of the code is then shown to be a run of this relation. *)

From S2P Require Import Prelude Float64 Decimal Types Balances Datastore Lock Execution.

Module Ledger.

Import Datastore Execution.

(** ** Postings: the abstract effect of one transaction *)

Inductive kind := KApply | KHold | KCommit | KVoid.

Definition kind_of (t : Transaction) : kind :=
  if String.eqb (t_Status t) StatusCommit then KCommit
  else if String.eqb (t_Status t) StatusVoid then KVoid
  else if t_Inflight t then KHold else KApply.

Definition post_src (k : kind) (a : Z) (m : Balances.Amounts) : Balances.Amounts :=
  match k with
  | KApply => Balances.post_debit false a m
  | KHold => Balances.post_debit true a m
  | KCommit => Balances.commit_debit a m
  | KVoid => Balances.release_debit a m
  end.

Definition post_dst (k : kind) (a : Z) (m : Balances.Amounts) : Balances.Amounts :=
  match k with
  | KApply => Balances.post_credit false a m
  | KHold => Balances.post_credit true a m
  | KCommit => Balances.commit_credit a m
  | KVoid => Balances.release_credit a m
  end.

Record entry := mkEntry { e_src : string; e_dst : string; e_kind : kind; e_amount : Z }.

Definition post (id : string) (e : entry) (m : Balances.Amounts) : Balances.Amounts :=
  let m := if String.eqb (e_src e) id then post_src (e_kind e) (e_amount e) m else m in
  if String.eqb (e_dst e) id then post_dst (e_kind e) (e_amount e) m else m.

Definition zero_amounts : Balances.Amounts := Balances.mkAmounts 0 0 0 0.

(** The accumulators of a balance after the committed postings. *)
Definition replay (id : string) (log : list entry) : Balances.Amounts :=
  foldl (λ m e, post id e m) zero_amounts log.

Definition touches (id : string) (e : entry) : Z :=
  if String.eqb (e_src e) id || String.eqb (e_dst e) id then 1 else 0.

(** ** The system *)

Record state := mkState {
  s_db : db;
  s_snaps : list Balance;               (* copies some worker read *)
  s_works : list (work * entry);        (* prepared, not yet persisted *)
  s_log : list entry;                   (* postings committed, oldest first *)
}.

Definition init_state : state := mkState empty_db [] [] [].

Definition zero_balance (b : Balance) : Prop :=
  ival (b_Balance b) = 0 ∧ ival (b_CreditBalance b) = 0 ∧ ival (b_DebitBalance b) = 0.

Definition reads (d : db) (b : Balance) : Prop :=
  (∃ id, GetBalanceByIDLite d id = Ok b)
  ∨ (∃ id q, GetBalanceByID d id q = Ok b)
  ∨ (∃ ind cur, GetBalanceByIndicator d ind cur = Ok b).

Section steps.
Context `{Decimal}.

Inductive step : state → state → Prop :=
| step_create d snaps works log b id now d' b' :
    zero_balance b → CreateBalance d b id now = Ok (d', b') →
    step (mkState d snaps works log) (mkState d' snaps works log)
| step_read d snaps works log b :
    reads d b →
    step (mkState d snaps works log) (mkState d (b :: snaps) works log)
| step_prepare d snaps works log t source destination t' source' destination' wk a :
    source ∈ snaps → destination ∈ snaps →
    applyTransactionToBalances t source destination = Ok (t', source', destination') →
    t_PreciseAmount t' = Some a →
    buildTransactionExecutionWork t' source' destination' = (wk, false) →
    step (mkState d snaps works log)
      (mkState d snaps
        ((wk, mkEntry (b_BalanceID source) (b_BalanceID destination) (kind_of t) a) :: works) log)
| step_persist d snaps works log wk e now d' s' r' :
    (wk, e) ∈ works →
    RecordTransactionWithBalancesAndOutbox d (wk_transaction wk) (wk_source wk)
      (wk_destination wk) (wk_outbox wk) now = Ok (d', s', r') →
    step (mkState d snaps works log) (mkState d' snaps works (log ++ [e]))
| step_record d snaps works log t d' :
    Datastore.RecordTransaction d t = Ok d' →
    step (mkState d snaps works log) (mkState d' snaps works log)
(* outbox rows and transaction metadata *)
| step_other d snaps works log d' :
    db_balances d' = db_balances d →
    map t_Reference (db_transactions d') = map t_Reference (db_transactions d) →
    map t_TransactionID (db_transactions d') = map t_TransactionID (db_transactions d) →
    step (mkState d snaps works log) (mkState d' snaps works log).

Definition reachable (st : state) : Prop := rtc step init_state st.

(** ** What one application does *)

Definition nonneg (b : Balance) : Prop :=
  0 <= Balances.idebit (Balances.amounts b) ∧ 0 <= Balances.icredit (Balances.amounts b).

Lemma apply_spec t s d t' s' d' a :
  Balances.balance_ok s → Balances.balance_ok d → nonneg s → nonneg d →
  applyTransactionToBalances t s d = Ok (t', s', d') → t_PreciseAmount t' = Some a →
  Balances.amounts s' = post_src (kind_of t) a (Balances.amounts s)
  ∧ Balances.amounts d' = post_dst (kind_of t) a (Balances.amounts d)
  ∧ Balances.balance_ok s' ∧ Balances.balance_ok d'
  ∧ Balances.same_identity s s' ∧ Balances.same_identity d d'
  ∧ nonneg s' ∧ nonneg d'.
Proof.
  intros Hs Hd Ns Nd E Ha. unfold applyTransactionToBalances in E. unfold kind_of.
  destruct (String.eqb (t_Status t) StatusCommit).
  { apply bind_Ok in E as ([t1 s1] & E1 & E). apply bind_Ok in E as ([t2 d1] & E2 & E). inv_result.
    apply (Balances.CommitInflightDebit_inv t s _ Hs) in E1 as [L1 [= -> ->]].
    apply (Balances.CommitInflightCredit_inv _ d _ Hd) in E2 as [L2 [= -> ->]].
    rewrite Balances.ApplyPrecision_stable in *.
    assert (Ea : a = (Balances.ApplyPrecision t).1).
    { destruct (Balances.ApplyPrecision (Balances.ApplyPrecision t).2) as [q t2] eqn:E2.
      pose proof (Balances.ApplyPrecision_stable t) as Es. rewrite E2 in Es. simpl in Es.
      apply Balances.ApplyPrecision_amount in E2. cbn [snd] in Ha. congruence. }
    subst a.
    match goal with |- context [Balances.settle ?m s] =>
      destruct (Balances.settle_spec m s) as (A1 & O1 & I1); rewrite A1 end.
    match goal with |- context [Balances.settle ?m d] =>
      destruct (Balances.settle_spec m d) as (A2 & O2 & I2); rewrite A2 end.
    unfold nonneg in *. rewrite A1, A2. split_and!; try done;
      unfold Balances.commit_debit, Balances.commit_credit; cbn [Balances.idebit Balances.icredit]; lia. }
  destruct (String.eqb (t_Status t) StatusVoid).
  { apply bind_Ok in E as (s1 & E1 & E). apply bind_Ok in E as (d1 & E2 & E). inv_result.
    rewrite Ha in E1, E2. cbn [ival] in *.
    apply (Balances.RollbackInflightDebit_inv _ s _ Hs) in E1 as [L1 ->].
    apply (Balances.RollbackInflightCredit_inv _ d _ Hd) in E2 as [L2 ->].
    match goal with |- context [Balances.settle ?m s] =>
      destruct (Balances.settle_spec m s) as (A1 & O1 & I1); rewrite A1 end.
    match goal with |- context [Balances.settle ?m d] =>
      destruct (Balances.settle_spec m d) as (A2 & O2 & I2); rewrite A2 end.
    unfold nonneg in *. rewrite A1, A2. split_and!; try done;
      unfold Balances.release_debit, Balances.release_credit; cbn [Balances.idebit Balances.icredit]; lia. }
  apply Balances.UpdateBalances_posts in E as (a' & Ha' & Hpos & A1 & A2 & O1 & O2 & I1 & I2);
    [|done..].
  assert (a' = a) as -> by congruence.
  unfold nonneg in *. rewrite A1, A2.
  destruct (t_Inflight t); split_and!; try done;
    unfold Balances.post_debit, Balances.post_credit; cbn [Balances.idebit Balances.icredit]; lia.
Qed.

(** ** The invariant *)

Definition row_ok (log : list entry) (id : string) (row : Balance) : Prop :=
  b_BalanceID row = id ∧ Balances.balance_ok row ∧ nonneg row
  ∧ Balances.amounts row = replay id log
  ∧ b_Version row = 1 + sumZ (touches id) log.

(** A copy held outside the database: not newer than the row, and with
    accumulators [f (row)] as long as the version has not moved. *)
Definition copy_ok (d : db) (f : Balances.Amounts → Balances.Amounts) (b : Balance) : Prop :=
  Balances.balance_ok b ∧ nonneg b
  ∧ ∃ row, db_balances d !! b_BalanceID b = Some row ∧ b_Version b <= b_Version row
    ∧ (b_Version b = b_Version row → Balances.amounts b = f (Balances.amounts row)).

Definition work_ok (d : db) (p : work * entry) : Prop :=
  let '(wk, e) := p in
  b_BalanceID (wk_source wk) = e_src e ∧ b_BalanceID (wk_destination wk) = e_dst e
  ∧ copy_ok d (post_src (e_kind e) (e_amount e)) (wk_source wk)
  ∧ copy_ok d (post_dst (e_kind e) (e_amount e)) (wk_destination wk).

Definition total (f : Balances.Amounts → Z) (d : db) : Z :=
  sum_map (λ b, f (Balances.amounts b)) (db_balances d).

Record inv (st : state) : Prop := {
  inv_rows : ∀ id row, db_balances (s_db st) !! id = Some row → row_ok (s_log st) id row;
  inv_snaps : Forall (copy_ok (s_db st) (λ m, m)) (s_snaps st);
  inv_works : Forall (work_ok (s_db st)) (s_works st);
  inv_log : Forall (λ e, e_src e ≠ e_dst e
                         ∧ is_Some (db_balances (s_db st) !! e_src e)
                         ∧ is_Some (db_balances (s_db st) !! e_dst e)) (s_log st);
  inv_settled : total Balances.credit (s_db st) = total Balances.debit (s_db st);
  inv_inflight : total Balances.icredit (s_db st) = total Balances.idebit (s_db st);
  inv_refs : NoDup (map t_Reference (db_transactions (s_db st)))
             ∧ NoDup (map t_TransactionID (db_transactions (s_db st)));
}.

Lemma replay_snoc id log e : replay id (log ++ [e]) = post id e (replay id log).
Proof. unfold replay. by rewrite foldl_app. Qed.

Lemma replay_untouched id log :
  Forall (λ e, e_src e ≠ id ∧ e_dst e ≠ id) log →
  replay id log = zero_amounts ∧ sumZ (touches id) log = 0.
Proof.
  unfold replay. intros Hl. generalize zero_amounts.
  induction Hl as [|e log [H1 H2] Hl IH]; intros m; [done|]. cbn [foldl sumZ].
  apply String.eqb_neq in H1, H2.
  assert (post id e m = m) as -> by (unfold post; by rewrite H1, H2).
  assert (touches id e = 0) as -> by (unfold touches; by rewrite H1, H2).
  apply IH.
Qed.

(** Changes to the database that keep existing rows keep copies valid. *)
Lemma copy_ok_mono d d' f b :
  (∀ id row, db_balances d !! id = Some row →
     ∃ row', db_balances d' !! id = Some row' ∧ b_Version row <= b_Version row'
       ∧ (b_Version row = b_Version row' → Balances.amounts row' = Balances.amounts row)) →
  copy_ok d f b → copy_ok d' f b.
Proof.
  intros Hd (Hok & Hn & row & Hrow & Hle & Hf).
  destruct (Hd _ _ Hrow) as (row' & Hrow' & Hle' & Hsame).
  split; [done|]. split; [done|]. exists row'. split; [done|]. split; [lia|].
  intros Ev. assert (b_Version b = b_Version row) by lia.
  rewrite Hf by done. by rewrite Hsame by lia.
Qed.

Definition db_grows (d d' : db) : Prop :=
  ∀ id row, db_balances d !! id = Some row →
     ∃ row', db_balances d' !! id = Some row' ∧ b_Version row <= b_Version row'
       ∧ (b_Version row = b_Version row' → Balances.amounts row' = Balances.amounts row).

Lemma copies_mono d d' snaps works : db_grows d d' →
  Forall (copy_ok d (λ m, m)) snaps → Forall (work_ok d) works →
  Forall (copy_ok d' (λ m, m)) snaps ∧ Forall (work_ok d') works.
Proof.
  intros Hg Hs Hw. split.
  - eapply Forall_impl; [exact Hs|]. intros b. by apply copy_ok_mono.
  - eapply Forall_impl; [exact Hw|]. intros [wk e] (? & ? & ? & ?).
    split; [done|]. split; [done|]. split; eapply copy_ok_mono; eauto.
Qed.

Lemma db_grows_same d d' : db_balances d' = db_balances d → db_grows d d'.
Proof. intros E id row Hr. exists row. rewrite E. split; [done|]. split; [lia|done]. Qed.

(** A fresh balance. *)
Lemma CreateBalance_cases d b id now d' b' :
  zero_balance b → CreateBalance d b id now = Ok (d', b') →
  d' = d ∨ (db_balances d !! id = None ∧ db_transactions d' = db_transactions d
    ∧ ∃ row, db_balances d' = <[id := row]> (db_balances d)
       ∧ b_BalanceID row = id ∧ b_Version row = 1
       ∧ Balances.amounts row = zero_amounts ∧ Balances.balance_ok row).
Proof.
  intros (Hb & Hc & Hd) E. unfold CreateBalance in E. cbv zeta in E.
  destruct (existsb _ _); [injection E as <- _; by left|].
  destruct (bool_decide_reflect (is_Some (db_balances d !! id))) as [|Hn]; [done|].
  injection E as <- _. right. apply eq_None_not_Some in Hn. split; [done|]. split; [done|].
  eexists. split; [reflexivity|]. destruct b.
  cbn in Hb, Hc, Hd. unfold Balances.balance_ok, Balances.amounts, zero_amounts. cbn.
  rewrite Hb, Hc, Hd. done.
Qed.

Lemma balance_row_set_facts row b :
  let r := balance_row_set row b in
  Balances.amounts r = Balances.amounts b ∧ b_Version r = b_Version row + 1
  ∧ b_BalanceID r = b_BalanceID row
  ∧ (Balances.balance_ok b → Balances.balance_ok r) ∧ (nonneg b → nonneg r).
Proof. by destruct row, b. Qed.

Lemma total_insert_new f d id row :
  db_balances d !! id = None → f zero_amounts = 0 → Balances.amounts row = zero_amounts →
  sum_map (λ b, f (Balances.amounts b)) (<[id := row]> (db_balances d)) = total f d.
Proof. intros Hn Hf Hr. rewrite sum_map_insert_new by done. rewrite Hr, Hf. done. Qed.

Lemma inv_create d snaps works log b id now d' b' :
  zero_balance b → CreateBalance d b id now = Ok (d', b') →
  inv (mkState d snaps works log) → inv (mkState d' snaps works log).
Proof.
  intros Hz E [Hrows Hsnaps Hworks Hlog Hset Hinf Hrefs]. simpl in *.
  apply CreateBalance_cases in E; [|done].
  destruct E as [->|(Hn & Ht & row & Hb & Hid & Hv & Ha & Hok)]; [by constructor|].
  assert (Hg : db_grows d d').
  { intros j r Hr. exists r. rewrite Hb. rewrite lookup_insert_ne by congruence.
    split; [done|]. split; [lia|done]. }
  assert (Hun : Forall (λ e, e_src e ≠ id ∧ e_dst e ≠ id) log).
  { eapply Forall_impl; [exact Hlog|]. intros e (_ & [? ?] & [? ?]). split; congruence. }
  destruct (replay_untouched id log Hun) as [Hr0 Ht0].
  destruct (copies_mono d d' snaps works Hg Hsnaps Hworks).
  constructor; simpl; try done.
  - intros j r. rewrite Hb. intros [[<- <-]|[_ Hr]]%lookup_insert_Some; [|by apply Hrows].
    split; [done|]. split; [done|]. rewrite Hr0, Ht0, Ha.
    split; [unfold nonneg; by rewrite Ha|]. split; [done|lia].
  - eapply Forall_impl; [exact Hlog|]. intros e (? & [r1 E1] & [r2 E2]).
    split; [done|]. destruct (Hg _ _ E1) as (? & ? & _), (Hg _ _ E2) as (? & ? & _). eauto.
  - unfold total. rewrite Hb. rewrite !total_insert_new by done. done.
  - unfold total. rewrite Hb. rewrite !total_insert_new by done. done.
  - by rewrite Ht.
Qed.

(** [b] is a copy of [row] as the queries return it. *)
Definition copy_of (row b : Balance) : Prop :=
  b_BalanceID b = b_BalanceID row ∧ b_Version b = b_Version row
  ∧ Balances.amounts b = Balances.amounts row
  ∧ (Balances.balance_ok row → Balances.balance_ok b).

Lemma scan_copy row q1 q2 :
  copy_of row (row <| b_QueuedDebitBalance := q1 |> <| b_QueuedCreditBalance := q2 |>).
Proof. by destruct row. Qed.

Lemma scan_lite_copy row q1 q2 m :
  copy_of row (row <| b_QueuedDebitBalance := q1 |> <| b_QueuedCreditBalance := q2 |>
                   <| b_MetaData := m |>).
Proof. by destruct row. Qed.

Lemma reads_copy d b : reads d b →
  ∃ id row, db_balances d !! id = Some row ∧ copy_of row b.
Proof.
  intros Hr. destruct Hr as [(id & E)|[(id & q & E)|(ind & cur & E)]].
  - unfold GetBalanceByIDLite in E. destruct (db_balances d !! id) as [row|] eqn:Er; [|done].
    injection E as <-. exists id, row. split; [done|]. apply scan_lite_copy.
  - unfold GetBalanceByID in E. destruct (db_balances d !! id) as [row|] eqn:Er; [|done].
    exists id, row. split; [done|].
    destruct q; [destruct (GetQueuedAmounts d id) as [qd qc]|]; injection E as <-;
      apply scan_copy.
  - unfold GetBalanceByIndicator in E.
    destruct (List.find _ _) as [[id row]|] eqn:Ef; [|done]. injection E as <-.
    apply find_some in Ef as [Hin _]. apply list_elem_of_In, elem_of_map_to_list in Hin.
    exists id, row. split; [done|]. apply scan_copy.
Qed.

Lemma inv_read d snaps works log b :
  reads d b → inv (mkState d snaps works log) → inv (mkState d (b :: snaps) works log).
Proof.
  intros Hr [Hrows Hsnaps Hworks Hlog Hset Hinf Hrefs]. simpl in *. constructor; simpl; try done.
  constructor; [|done].
  destruct (reads_copy d b Hr) as (id & row & Er & Eid & Ev & Ea & Hok).
  destruct (Hrows _ _ Er) as (Hid & Hrok & Hn & _).
  split; [by apply Hok|]. split; [unfold nonneg in *; by rewrite Ea|].
  exists row. rewrite Eid, Hid. split; [done|]. split; [lia|]. by intros _.
Qed.

Lemma updateTransactionDetails_amount t s d :
  t_PreciseAmount (updateTransactionDetails t s d) = t_PreciseAmount t.
Proof. by destruct t. Qed.

Lemma build_work t s d wk skip :
  buildTransactionExecutionWork t s d = (wk, skip) →
  wk_source wk = s ∧ wk_destination wk = d
  ∧ wk_transaction wk = updateTransactionDetails t s d.
Proof.
  unfold buildTransactionExecutionWork. cbv zeta.
  destruct (bool_decide _); by intros [= <- _].
Qed.

Lemma copy_ok_applied d f b b' :
  copy_ok d (λ m, m) b → Balances.same_identity b b' →
  Balances.amounts b' = f (Balances.amounts b) →
  Balances.balance_ok b' → nonneg b' → copy_ok d f b'.
Proof.
  intros (_ & _ & row & Er & Hle & Hf) (Hid & Hv & _) Ha Hok Hn.
  split; [done|]. split; [done|]. exists row. rewrite Hid, Hv. split; [done|]. split; [done|].
  intros Ev. rewrite Ha. by rewrite Hf.
Qed.

Lemma inv_prepare d snaps works log t s r t' s' r' wk a :
  s ∈ snaps → r ∈ snaps →
  applyTransactionToBalances t s r = Ok (t', s', r') → t_PreciseAmount t' = Some a →
  buildTransactionExecutionWork t' s' r' = (wk, false) →
  inv (mkState d snaps works log) →
  inv (mkState d snaps
         ((wk, mkEntry (b_BalanceID s) (b_BalanceID r) (kind_of t) a) :: works) log).
Proof.
  intros Hs Hr E Ha Hb [Hrows Hsnaps Hworks Hlog Hset Hinf Hrefs]. simpl in *.
  constructor; simpl; try done. constructor; [|done].
  pose proof (proj1 (Forall_forall _ _) Hsnaps s Hs) as Cs.
  pose proof (proj1 (Forall_forall _ _) Hsnaps r Hr) as Cr. simpl in Cs, Cr.
  destruct (apply_spec t s r t' s' r' a (proj1 Cs) (proj1 Cr) (proj1 (proj2 Cs))
              (proj1 (proj2 Cr)) E Ha) as (A1 & A2 & O1 & O2 & I1 & I2 & N1 & N2).
  apply build_work in Hb as (Es & Ed & _).
  unfold work_ok. cbn [e_src e_dst e_kind e_amount]. rewrite Es, Ed.
  split; [apply I1|]. split; [apply I2|]. split.
  - by apply (copy_ok_applied d _ s).
  - by apply (copy_ok_applied d _ r).
Qed.

(** The two updates of one commit keep the totals equal. *)
Lemma total_update f d id1 id2 r1 r2 n1 n2 :
  id1 ≠ id2 → db_balances d !! id1 = Some r1 → db_balances d !! id2 = Some r2 →
  sum_map (λ b, f (Balances.amounts b)) (<[id2 := n2]> (<[id1 := n1]> (db_balances d)))
  = total f d - f (Balances.amounts r1) + f (Balances.amounts n1)
    - f (Balances.amounts r2) + f (Balances.amounts n2).
Proof.
  intros Hne E1 E2. unfold total.
  rewrite (sum_map_insert _ (<[id1 := n1]> _) id2 r2) by (by rewrite lookup_insert_ne).
  rewrite (sum_map_insert _ _ id1 r1) by done. lia.
Qed.

Lemma post_other id e m : e_src e ≠ id → e_dst e ≠ id → post id e m = m ∧ touches id e = 0.
Proof.
  intros H1%String.eqb_neq H2%String.eqb_neq. unfold post, touches. by rewrite H1, H2.
Qed.

Lemma post_at_src e m : e_src e ≠ e_dst e →
  post (e_src e) e m = post_src (e_kind e) (e_amount e) m ∧ touches (e_src e) e = 1.
Proof.
  intros Hne. unfold post, touches. rewrite String.eqb_refl.
  rewrite (proj2 (String.eqb_neq (e_dst e) (e_src e))) by congruence. done.
Qed.

Lemma post_at_dst e m : e_src e ≠ e_dst e →
  post (e_dst e) e m = post_dst (e_kind e) (e_amount e) m ∧ touches (e_dst e) e = 1.
Proof.
  intros Hne. unfold post, touches. rewrite String.eqb_refl.
  rewrite (proj2 (String.eqb_neq (e_src e) (e_dst e))) by done. done.
Qed.

(** A commit that goes through never has one balance on both sides. *)
Lemma persist_distinct d t s r o now x f g :
  copy_ok d f s → copy_ok d g r →
  RecordTransactionWithBalancesAndOutbox d t s r o now = Ok x → b_BalanceID s ≠ b_BalanceID r.
Proof.
  intros (_ & _ & rs & Ers & Les & _) (_ & _ & rr & Err_ & Ler & _) E Heq.
  unfold RecordTransactionWithBalancesAndOutbox in E.
  apply bind_Ok in E as ([d1 s1] & E1 & E). apply bind_Ok in E as ([d2 r1] & E2 & _).
  apply updateBalance_Ok in E1 as (row & Er & Vr & -> & ->).
  apply updateBalance_Ok in E2 as (row2 & Er2 & Vr2 & _). simpl in Er2.
  rewrite <- Heq in Err_, Er2. rewrite lookup_insert_eq in Er2. injection Er2 as <-.
  destruct (balance_row_set_facts row s) as (_ & Hv & _). rewrite Hv in Vr2.
  assert (rs = rr) as -> by congruence. assert (row = rr) as -> by congruence. lia.
Qed.

Lemma inv_persist d snaps works log wk e now d' s' r' :
  (wk, e) ∈ works →
  RecordTransactionWithBalancesAndOutbox d (wk_transaction wk) (wk_source wk)
    (wk_destination wk) (wk_outbox wk) now = Ok (d', s', r') →
  inv (mkState d snaps works log) → inv (mkState d' snaps works (log ++ [e])).
Proof.
  intros Hin E [Hrows Hsnaps Hworks Hlog Hset Hinf [Hrefs Hids]]. simpl in *.
  destruct (proj1 (Forall_forall _ _) Hworks _ Hin) as (Eid1 & Eid2 & C1 & C2).
  pose proof (persist_distinct _ _ _ _ _ _ _ _ _ C1 C2 E) as Hne.
  destruct (RecordTransactionWithBalancesAndOutbox_Ok _ _ _ _ _ _ _ _ _ E Hne)
    as (row1 & row2 & E1 & V1 & E2 & V2 & Eb & Et & Hfresh & _ & _).
  rewrite Eid1, Eid2 in *.
  destruct C1 as (O1 & N1 & q1 & Q1 & _ & A1). destruct C2 as (O2 & N2 & q2 & Q2 & _ & A2).
  rewrite Eid1 in Q1. rewrite Eid2 in Q2.
  assert (q1 = row1) as -> by congruence. assert (q2 = row2) as -> by congruence.
  specialize (A1 ltac:(congruence)). specialize (A2 ltac:(congruence)).
  destruct (balance_row_set_facts row1 (wk_source wk)) as (F1 & G1 & I1 & K1 & L1).
  destruct (balance_row_set_facts row2 (wk_destination wk)) as (F2 & G2 & I2 & K2 & L2).
  set (n1 := balance_row_set row1 (wk_source wk)) in *.
  set (n2 := balance_row_set row2 (wk_destination wk)) in *.
  destruct (Hrows _ _ E1) as (B1 & _ & _ & R1 & T1).
  destruct (Hrows _ _ E2) as (B2 & _ & _ & R2 & T2).
  assert (Hg : db_grows d d').
  { intros id row Hr. rewrite Eb. destruct (decide (id = e_dst e)) as [->|].
    { exists n2. rewrite lookup_insert_eq. split; [done|]. assert (row = row2) as -> by congruence.
      split; [lia|]. intros; lia. }
    rewrite lookup_insert_ne by done. destruct (decide (id = e_src e)) as [->|].
    { exists n1. rewrite lookup_insert_eq. split; [done|]. assert (row = row1) as -> by congruence.
      split; [lia|]. intros; lia. }
    rewrite lookup_insert_ne by done. exists row. split; [done|]. split; [lia|done]. }
  destruct (copies_mono d d' snaps works Hg Hsnaps Hworks).
  constructor; simpl; try done.
  - intros id row Hr. rewrite Eb in Hr. unfold row_ok. rewrite replay_snoc, sumZ_app. simpl.
    destruct (decide (id = e_dst e)) as [->|Hd].
    { rewrite lookup_insert_eq in Hr. injection Hr as <-.
      destruct (post_at_dst e (replay (e_dst e) log) Hne) as [-> ->].
      rewrite F2, A2, R2, G2, T2. split_and!; first [done | congruence | lia | by auto]. }
    rewrite lookup_insert_ne in Hr by done. destruct (decide (id = e_src e)) as [->|Hs].
    { rewrite lookup_insert_eq in Hr. injection Hr as <-.
      destruct (post_at_src e (replay (e_src e) log) Hne) as [-> ->].
      rewrite F1, A1, R1, G1, T1. split_and!; first [done | congruence | lia | by auto]. }
    rewrite lookup_insert_ne in Hr by done.
    destruct (post_other id e (replay id log) ltac:(congruence) ltac:(congruence)) as [-> ->].
    destruct (Hrows _ _ Hr) as (? & ? & ? & ? & ?). split_and!; try done. lia.
  - apply Forall_app. split.
    + eapply Forall_impl; [exact Hlog|]. intros e' (? & [r1 X1] & [r2 X2]).
      split; [done|]. destruct (Hg _ _ X1) as (? & ? & _), (Hg _ _ X2) as (? & ? & _). eauto.
    + constructor; [|done]. split; [done|].
      destruct (Hg _ _ E1) as (? & ? & _), (Hg _ _ E2) as (? & ? & _). eauto.
  - unfold total. rewrite Eb, !(total_update _ d (e_src e) (e_dst e) row1 row2) by done.
    rewrite F1, F2, A1, A2, Hset. destruct (e_kind e); simpl; lia.
  - unfold total. rewrite Eb, !(total_update _ d (e_src e) (e_dst e) row1 row2) by done.
    rewrite F1, F2, A1, A2, Hinf. destruct (e_kind e); simpl; lia.
  - rewrite Et. by apply fresh_row_NoDup.
Qed.

Lemma inv_record d snaps works log t d' :
  Datastore.RecordTransaction d t = Ok d' →
  inv (mkState d snaps works log) → inv (mkState d' snaps works log).
Proof.
  intros E [Hrows Hsnaps Hworks Hlog Hset Hinf [Hrefs Hids]]. simpl in *.
  apply recordTransactionInTx_Ok in E as (-> & Hf & _).
  constructor; simpl; try done. by apply (fresh_row_NoDup d).
Qed.

Lemma inv_other d snaps works log d' :
  db_balances d' = db_balances d →
  map t_Reference (db_transactions d') = map t_Reference (db_transactions d) →
  map t_TransactionID (db_transactions d') = map t_TransactionID (db_transactions d) →
  inv (mkState d snaps works log) → inv (mkState d' snaps works log).
Proof.
  intros Eb Er Ei [Hrows Hsnaps Hworks Hlog Hset Hinf Hrefs]. simpl in *.
  destruct (copies_mono d d' snaps works (db_grows_same _ _ Eb) Hsnaps Hworks).
  constructor; simpl; unfold total; rewrite ?Eb, ?Er, ?Ei; done.
Qed.

Lemma step_inv st st' : step st st' → inv st → inv st'.
Proof.
  destruct 1; [eapply inv_create|eapply inv_read|eapply inv_prepare|eapply inv_persist
              |eapply inv_record|eapply inv_other]; eauto.
Qed.

Lemma init_inv : inv init_state.
Proof.
  constructor; simpl; try done. split; constructor.
Qed.

Lemma reachable_inv st : reachable st → inv st.
Proof.
  intros Hr. assert (∀ s, rtc step s st → inv s → inv st) as Hgen.
  { induction 1; eauto using step_inv. }
  eauto using init_inv.
Qed.

(** ** The single-transaction path is a run of the system *)

(** Running [m] from a world with the state's database amounts to some steps;
    [P] holds before, [Q] relates the result to the state after. *)
Definition sim {A} (P : state → Prop) (m : M A) (Q : A → state → Prop) : Prop :=
  ∀ w st, s_db st = w_db w → P st →
  ∃ st', rtc step st st' ∧ s_db st' = w_db (m w).1
    ∧ match (m w).2 with Ok a => Q a st' | Err _ => True end.

Definition stable (P : state → Prop) : Prop := ∀ st st', step st st' → P st → P st'.

Lemma stable_rtc P st st' : stable P → rtc step st st' → P st → P st'.
Proof. intros HP. induction 1; eauto. Qed.

Lemma stable_snap b : stable (λ st, b ∈ s_snaps st).
Proof. destruct 1; simpl; intros; [done|by right|done|done|done|done]. Qed.

Lemma sim_pure {A} (P : state → Prop) (m : M A) (Q : A → state → Prop) :
  (∀ w, w_db (m w).1 = w_db w) →
  (∀ w st a, s_db st = w_db w → P st → (m w).2 = Ok a → Q a st) → sim P m Q.
Proof.
  intros Hd HQ w st Hs HP. exists st. split; [done|]. rewrite Hd. split; [done|].
  destruct (m w).2 eqn:E; [|done]. by eapply HQ.
Qed.

Lemma sim_bind {A B} P (m : M A) Q (f : A → M B) R :
  sim P m Q → (∀ a, sim (Q a) (f a) R) → sim P (m ≫= f) R.
Proof.
  intros Hm Hf w st Hs HP. destruct (Hm w st Hs HP) as (st1 & H1 & D1 & Q1).
  unfold mbind, prog_bind. destruct (m w) as [w1 [a|e]]; simpl in *.
  - destruct (Hf a w1 st1 D1 Q1) as (st2 & H2 & D2 & R2). exists st2.
    split; [by etrans|]. done.
  - by exists st1.
Qed.

Lemma sim_err {A} P (m : M A) f Q : sim P m Q → sim P (map_err f m) Q.
Proof.
  intros Hm w st Hs HP. destruct (Hm w st Hs HP) as (st1 & H1 & D1 & Q1). exists st1.
  unfold map_err. destruct (m w) as [w1 [a|e]]; done.
Qed.

Lemma sim_frame {A} P (m : M A) Q R :
  stable R → sim P m Q → sim (λ st, P st ∧ R st) m (λ a st, Q a st ∧ R st).
Proof.
  intros HR Hm w st Hs [HP Hr]. destruct (Hm w st Hs HP) as (st1 & H1 & D1 & Q1). exists st1.
  split; [done|]. split; [done|]. destruct (m w).2; [|done].
  split; [done|]. by eapply stable_rtc.
Qed.

Lemma sim_weaken {A} P P' (m : M A) Q Q' :
  sim P m Q → (∀ st, P' st → P st) → (∀ a st, Q a st → Q' a st) → sim P' m Q'.
Proof.
  intros Hm HP HQ w st Hs HP'. destruct (Hm w st Hs (HP _ HP')) as (st1 & H1 & D1 & Q1).
  exists st1. split; [done|]. split; [done|]. destruct (m w).2; auto.
Qed.

(** Reading a balance puts it among the copies. *)
Lemma sim_read (f : db → result Balance) :
  (∀ d b, f d = Ok b → reads d b) →
  sim (λ _, True) (read f) (λ b st, b ∈ s_snaps st).
Proof.
  intros Hf w [d sn wk lg] Hs _. simpl in Hs. subst d. unfold read. simpl.
  destruct (f (w_db w)) as [b|e] eqn:E.
  - eexists. split; [apply rtc_once, (step_read _ _ _ _ b), Hf, E|]. split; [done|]. by left.
  - by eexists.
Qed.

Lemma zero_indicator_balance ind cur :
  zero_balance (empty_balance <| b_Indicator := ind |> <| b_LedgerID := GeneralLedgerID |>
                              <| b_Currency := cur |>).
Proof. done. Qed.

Lemma sim_create (b : Balance) id nw (ok : error → bool) :
  zero_balance b →
  sim (λ _, True)
    (λ w, match write (λ d, CreateBalance d b id nw) w with
          | (w, Ok _) => (w, Ok tt)
          | (w, Err e) => if ok e then (w, Ok tt) else (w, Err e)
          end) (λ _ _, True).
Proof.
  intros Hz w [d sn wk lg] Hs _. simpl in Hs. subst d. unfold write.
  destruct (CreateBalance (w_db w) b id nw) as [[d' b']|e] eqn:E.
  - eexists. split; [apply rtc_once; by eapply step_create|]. done.
  - eexists. split; [done|]. by destruct (ok e).
Qed.

Lemma sim_getOrCreate E ind cur :
  sim (λ _, True) (getOrCreateBalanceByIndicator E ind cur) (λ b st, b ∈ s_snaps st).
Proof.
  assert (Hget : ∀ d b, GetBalanceByIndicator d ind cur = Ok b → reads d b).
  { intros d b Hb. right. right. eauto. }
  assert (Hid : ∀ id, sim (λ _, True) (read (λ d, GetBalanceByID d id true))
                        (λ b st, b ∈ s_snaps st)).
  { intros id. apply sim_read. intros d b Hb. right. left. eauto. }
  intros w st Hs _. unfold getOrCreateBalanceByIndicator.
  destruct (GetBalanceByIndicator (w_db w) ind cur) as [b|e] eqn:Eb.
  - destruct (EnableQueuedChecks E); [by apply Hid|].
    destruct st as [d sn wk lg]. simpl in Hs. subst d.
    eexists. split; [apply rtc_once, (step_read _ _ _ _ b), Hget, Eb|]. split; [done|]. by left.
  - clear e Eb. revert w st Hs.
    match goal with |- ∀ w st, _ → ∃ st', _ ∧ _ = w_db (?m w).1 ∧ _ =>
      enough (sim (λ _, True) m (λ b st, b ∈ s_snaps st)) as Hm by (intros w st Hs; by apply Hm) end.
    eapply sim_bind; [apply (sim_pure (λ _, True) _ (λ _ _, True)); done|]. intros id.
    eapply sim_bind; [apply sim_create, zero_indicator_balance|]. intros [].
    eapply sim_bind; [by apply sim_read|]. intros b. simpl.
    destruct (EnableQueuedChecks E).
    + eapply sim_weaken; [apply Hid|done|done].
    + apply sim_pure; [done|]. by intros w st a _ Hb [= <-].
Qed.

Lemma sim_lookup_side E name cur :
  sim (λ _, True) (lookup_side E name cur) (λ b st, b ∈ s_snaps st).
Proof.
  unfold lookup_side. destruct (has_prefix "@" name); [apply sim_getOrCreate|].
  destruct (EnableQueuedChecks E); apply sim_read; intros d b Hb.
  - right. left. eauto.
  - left. eauto.
Qed.

Definition both_read (x : Transaction * Balance * Balance) (st : state) : Prop :=
  x.1.2 ∈ s_snaps st ∧ x.2 ∈ s_snaps st.

Lemma sim_getSourceAndDestination E t :
  sim (λ _, True) (getSourceAndDestination E t) both_read.
Proof.
  unfold getSourceAndDestination. eapply sim_bind; [apply sim_lookup_side|]. intros s.
  eapply sim_bind.
  - eapply sim_weaken; [apply sim_frame; [apply (stable_snap s)|apply sim_lookup_side]|done|].
    intros r st Hr. exact Hr.
  - intros r. apply sim_pure; [done|]. by intros w st a _ [Hr Hs] [= <-].
Qed.

Lemma sim_resolve E t : sim (λ _, True) (resolveBalanceIDs E t) (λ _ _, True).
Proof.
  assert (Hside : ∀ n c msg, sim (λ _, True) (resolve_side E n c msg) (λ _ _, True)).
  { intros n c msg. unfold resolve_side. destruct (has_prefix "@" n).
    - eapply sim_bind; [apply sim_err, sim_getOrCreate|]. intros b. by apply sim_pure.
    - by apply sim_pure. }
  eapply sim_bind; [apply Hside|]. intros s. eapply sim_bind; [apply Hside|].
  intros d. by apply sim_pure.
Qed.

Lemma sim_validateAndPrepare E t :
  sim (λ _, True) (validateAndPrepareTransaction E t) both_read.
Proof.
  unfold validateAndPrepareTransaction.
  eapply sim_bind; [apply sim_err, (sim_pure (λ _, True) _ (λ _ _, True)); done|]. intros [].
  eapply sim_bind; [apply sim_err, sim_getSourceAndDestination|]. intros [[t' s] r].
  apply sim_pure; [done|]. by intros w st a _ Hb [= <-].
Qed.

Lemma rtc_persist d snaps works log t s r t' s' r' wk now d' x y :
  s ∈ snaps → r ∈ snaps →
  applyTransactionToBalances t s r = Ok (t', s', r') →
  buildTransactionExecutionWork t' s' r' = (wk, false) →
  RecordTransactionWithBalancesAndOutbox d (wk_transaction wk) (wk_source wk)
    (wk_destination wk) (wk_outbox wk) now = Ok (d', x, y) →
  ∃ works' log', rtc step (mkState d snaps works log) (mkState d' snaps works' log').
Proof.
  intros Hs Hr Ea Eb Ep.
  assert (∃ a, t_PreciseAmount t' = Some a) as [a Ha].
  { destruct (build_work _ _ _ _ _ Eb) as (_ & _ & Ht).
    assert (Hv : valid_numeric (wk_transaction wk) = true).
    { unfold RecordTransactionWithBalancesAndOutbox in Ep.
      apply bind_Ok in Ep as ([d1 s1] & _ & Ep). apply bind_Ok in Ep as ([d2 r1] & _ & Ep).
      apply bind_Ok in Ep as (d3 & E3 & _). apply recordTransactionInTx_Ok in E3. apply E3. }
    unfold valid_numeric in Hv. apply andb_true_iff in Hv as [Hv _].
    apply bool_decide_eq_true in Hv. rewrite Ht, updateTransactionDetails_amount in Hv.
    exact Hv. }
  do 2 eexists. eapply rtc_l.
  - exact (step_prepare d snaps works log t s r t' s' r' wk a Hs Hr Ea Ha Eb).
  - apply rtc_once. eapply step_persist; [by left|exact Ep].
Qed.

(** Nothing was written. *)
Ltac stays := eexists; split; [reflexivity|]; split; [reflexivity|exact I].

Lemma sim_apply_persist E t s r :
  sim (λ st, s ∈ s_snaps st ∧ r ∈ s_snaps st)
    ('(t, source, destination) ← lift (processBalances t s r);
     let '(wk, skip) := buildTransactionExecutionWork t source destination in
     if (skip : bool) then mret (wk_transaction wk)
     else wk ← persistSingleTransactionExecutionWork E wk; mret (wk_transaction wk))
    (λ _ _, True).
Proof.
  intros w [d snaps works log] Hd [Hs Hr]. simpl in Hd, Hs, Hr. subst d.
  unfold persistSingleTransactionExecutionWork, ctx_err, map_err, write, lift, mbind, prog_bind,
    result_bind, mret, prog_ret, result_ret.
  destruct (processBalances t s r) as [[[t' s'] r']|e] eqn:Ea; [|stays].
  apply wrap_err_Ok in Ea. cbv beta iota.
  destruct (buildTransactionExecutionWork t' s' r') as [wk [|]] eqn:Eb; [stays|].
  destruct (RecordTransactionWithBalancesAndOutbox _ _ _ _ _ _) as [[[d' x] y]|e] eqn:Ep;
    [|stays].
  destruct (rtc_persist _ snaps works log _ _ _ _ _ _ _ _ _ _ _ Hs Hr Ea Eb Ep)
    as (works' & log' & Hrtc).
  eexists. split; [exact Hrtc|]. done.
Qed.

Lemma sim_record_body E t : sim (λ _, True) (record_body E t) (λ _ _, True).
Proof.
  unfold record_body.
  eapply sim_bind; [apply (sim_pure (λ _, True) _ (λ _ _, True)); done|]. intros [].
  eapply sim_bind; [apply sim_validateAndPrepare|]. intros [[t' s] r].
  eapply sim_weaken; [apply sim_apply_persist| |done]. by intros st [? ?].
Qed.

Lemma run_locker_db E m w : w_db (run_locker E m w).1 = w_db w.
Proof.
  unfold run_locker. by destruct (Lock.acquireTransactionLocker _ _ _ _ _ _ _) as [[e|] ? ?|].
Qed.

Lemma sim_acquireLock E s d : sim (λ _, True) (acquireLock E s d) (λ _ _, True).
Proof.
  unfold acquireLock. apply sim_pure; [|done]. intros w.
  unfold mbind, prog_bind, fresh_id. cbn -[run_locker].
  match goal with |- context [run_locker E ?m ?w1] =>
    pose proof (run_locker_db E m w1) as Hdb; destruct (run_locker E m w1) as [w2 [u|e]] end;
    exact Hdb.
Qed.

Lemma sim_on_contention {A} E s d c (m : M A) Q :
  sim (λ _, True) m Q → sim (λ _, True) (on_contention E s d c m) Q.
Proof.
  intros Hm w st Hs HP. destruct (Hm w st Hs HP) as (st1 & H1 & D1 & Q1). exists st1.
  unfold on_contention. destruct (m w) as [w1 [a|e]]; done.
Qed.

Lemma sim_with_release {A} E m (body : M A) :
  sim (λ _, True) body (λ _ _, True) → sim (λ _, True) (with_release E m body) (λ _ _, True).
Proof.
  intros Hb w st Hs HP. destruct (Hb w st Hs HP) as (st1 & H1 & D1 & Q1). exists st1.
  unfold with_release, releaseLock. destruct (body w) as [w1 r].
  destruct (Lock.Unlock _ _ _ _) as [o rd]. done.
Qed.

Lemma sim_recordTransactionSingle E t :
  sim (λ _, True) (recordTransactionSingle E t) (λ _ _, True).
Proof.
  unfold recordTransactionSingle, executeWithLock.
  eapply sim_bind; [apply sim_err, sim_resolve|]. intros ids.
  eapply sim_bind; [apply sim_err, sim_on_contention, sim_acquireLock|]. intros locker.
  apply sim_with_release, sim_record_body.
Qed.

(** ** Properties *)

(** C1. Double entry at all times.  In every state reachable by any
    interleaving of workers, total credits equal total debits over the whole
    ledger, settled and inflight; every balance equals its credits minus its
    debits; and no inflight hold is negative. *)
Theorem ledger_double_entry st :
  reachable st →
  total Balances.credit (s_db st) = total Balances.debit (s_db st)
  ∧ total Balances.icredit (s_db st) = total Balances.idebit (s_db st)
  ∧ (∀ id row, db_balances (s_db st) !! id = Some row →
       Balances.balance_ok row
       ∧ 0 <= Balances.idebit (Balances.amounts row)
       ∧ 0 <= Balances.icredit (Balances.amounts row)).
Proof.
  intros Hr. destruct (reachable_inv st Hr) as [Hrows _ _ _ Hset Hinf _].
  split; [done|]. split; [done|]. intros id row (_ & ? & [? ?] & _)%Hrows. done.
Qed.

(** C2. No lost update.  In every reachable state the accumulators of each
    balance are exactly the replay of the committed postings that name it, in
    commit order, its version counts them, and no two recorded transactions
    share a reference or an id: a worker that computed from a stale copy never
    gets its result written. *)
Theorem ledger_no_lost_update st :
  reachable st →
  (∀ id row, db_balances (s_db st) !! id = Some row →
     Balances.amounts row = replay id (s_log st)
     ∧ b_Version row = 1 + sumZ (touches id) (s_log st))
  ∧ NoDup (map t_Reference (db_transactions (s_db st)))
  ∧ NoDup (map t_TransactionID (db_transactions (s_db st))).
Proof.
  intros Hr. destruct (reachable_inv st Hr) as [Hrows _ _ _ _ _ Hrefs].
  split; [|exact Hrefs]. by intros id row (_ & _ & _ & ? & ?)%Hrows.
Qed.

(** C3. The single-transaction path refines the system: whatever the
    transaction, configuration and lock behaviour, running
    [recordTransactionSingle] in a reachable state leaves a database that is
    again reachable, whether it returned a transaction or an error. *)
Theorem recordTransactionSingle_refines E t w st :
  reachable st → s_db st = w_db w →
  ∃ st', reachable st' ∧ rtc step st st' ∧ s_db st' = w_db (recordTransactionSingle E t w).1.
Proof.
  intros Hr Hd. destruct (sim_recordTransactionSingle E t w st Hd I) as (st' & H1 & H2 & _).
  exists st'. split; [|done]. unfold reachable in *. by etrans.
Qed.

End steps.

(** ** Witnesses *)

Definition ex_env : env :=
  mkEnv false 1800 0 1000 (λ m n, m +:+ "_" +:+ Z_to_string (Z.of_nat n)) (λ _, None)
    (Lock.mkEnvironment (λ _, 0) (λ _, false) (λ _, Lock.no_faults) (λ _ s, s))
    None (λ _ _, None).
Definition ex_world : world := mkWorld empty_db ∅ 0.

Definition ex_deposit : Transaction :=
  empty_transaction <| t_TransactionID := "txn_1" |> <| t_Reference := "ref_1" |>
    <| t_Source := "@world" |> <| t_Destination := "@alice" |> <| t_Currency := "USD" |>
    <| t_PreciseAmount := Some 500 |> <| t_Precision := Float64.of_Z 100 |>
    <| t_AllowOverdraft := true |> <| t_Status := StatusQueued |>.

Definition ex_after : world := (recordTransactionSingle ex_env ex_deposit ex_world).1.

Lemma ex_run_ok : is_ok (recordTransactionSingle ex_env ex_deposit ex_world).2 = true.
Proof. vm_compute. reflexivity. Qed.

Lemma ex_reachable : ∃ st, reachable st ∧ s_db st = w_db ex_after.
Proof.
  destruct (sim_recordTransactionSingle ex_env ex_deposit ex_world init_state eq_refl I)
    as (st & H1 & H2 & _).
  exists st. by split.
Qed.

Lemma ledger_double_entry_witness :
  ∃ st, s_db st = w_db ex_after ∧ length (db_transactions (s_db st)) = 1%nat
    ∧ total Balances.credit (s_db st) = total Balances.debit (s_db st).
Proof.
  destruct ex_reachable as (st & Hr & Hd). exists st. split; [done|].
  split; [rewrite Hd; vm_compute; reflexivity|].
  apply (ledger_double_entry st Hr).
Defined.

Lemma ledger_no_lost_update_witness :
  ∃ st, s_db st = w_db ex_after ∧ length (db_transactions (s_db st)) = 1%nat
    ∧ NoDup (map t_Reference (db_transactions (s_db st))).
Proof.
  destruct ex_reachable as (st & Hr & Hd). exists st. split; [done|].
  split; [rewrite Hd; vm_compute; reflexivity|].
  apply (ledger_no_lost_update st Hr).
Defined.

Lemma recordTransactionSingle_refines_witness :
  is_ok (recordTransactionSingle ex_env ex_deposit ex_world).2 = true
  ∧ ∃ st', reachable st' ∧ s_db st' = w_db ex_after.
Proof.
  split; [vm_compute; reflexivity|].
  destruct (recordTransactionSingle_refines ex_env ex_deposit ex_world init_state
              (rtc_refl _ _) eq_refl) as (st' & Hr & _ & Hd).
  exists st'. by split.
Defined.

End Ledger.
