(* ===== verification/Coalescing.v ===== *)
(** * Coalescing queued transactions (transaction_coalescing.go)

    A worker that takes a queued transaction may settle it together with other
    queued transactions of the same pair, source or destination: one lock over
    all their balances, the transactions applied one after the other to shared
    in-memory balances, and one database transaction for the final balances,
    the rows and the lineage outbox.  Whenever that is not possible the worker
    falls back to the single-transaction path. *)

From S2P Require Import Prelude Float64 Decimal Types Balances Datastore Lock HotPairs Execution.
From S2P Require Import Ledger.

Module Coalescing.

Import Datastore Execution.

(** Configuration of the queue's workers and the failures of the lookups a
    batch makes beside the ledger's own. *)
Record qenv := mkQEnv {
  q_exec : env;
  EnableCoalescing : bool;
  q_BatchSize : Z;
  DisableBatchReferenceCheck : bool;
  hooks_fault : option error;                 (* listing the pre-transaction hooks *)
  lookup_fault : string → option error;       (* the sibling query of a scope *)
}.

Inductive scope := ScopePair | ScopeSource | ScopeDestination.

(** ** Queue copies *)

(** [createQueueCopy]. *)
Definition createQueueCopy (E : env) (persisted : Transaction) (originalRef : string)
    : M Transaction :=
  id ← fresh_id E "txn";
  mret (persisted <| t_TransactionID := id |>
                  <| t_ParentTransaction := t_TransactionID persisted |>
                  <| t_Reference := originalRef +:+ "_q" |>).

Definition meta_bool (m : metadata) (k : string) (default : bool) : bool :=
  match m !! k with Some (MBool b) => b | _ => default end.

Definition restoreTransactionFlagsFromMetadata (t : Transaction) : Transaction :=
  t <| t_Inflight := meta_bool (t_MetaData t) "inflight" (t_Inflight t) |>
    <| t_Atomic := meta_bool (t_MetaData t) "atomic" (t_Atomic t) |>
    <| t_AllowOverdraft := meta_bool (t_MetaData t) "allow_overdraft" (t_AllowOverdraft t) |>.

(** ** Eligibility *)

Definition canCoalesceQueuedOriginal (t : Transaction) : bool :=
  String.eqb (t_Status t) StatusQueued
  && negb (t_Atomic t || t_SkipQueue t)
  && negb (negb (bool_decide (t_Sources t = [])) || negb (bool_decide (t_Destinations t = [])))
  && is_zero_time (t_ScheduledFor t)
  && negb (String.eqb (t_Source t) "" || String.eqb (t_Destination t) ""
           || String.eqb (t_Currency t) "").

Definition canCoalesceQueuedTransaction (t : Transaction) : bool :=
  negb (String.eqb (t_ParentTransaction t) "") && canCoalesceQueuedOriginal t.

Definition maxQueuedCoalescingBatchSize : Z := 10000.

Definition queuedCoalescingBatchSize (Q : qenv) (force : bool) : Z :=
  if negb force && negb (EnableCoalescing Q) then 0
  else if q_BatchSize Q <=? 1 then q_BatchSize Q
  else Z.min (q_BatchSize Q) maxQueuedCoalescingBatchSize.

Section coalescing.
Context `{Decimal}.

(** ** Building a batch *)

Definition scope_name (s : scope) : string :=
  match s with ScopePair => "pair" | ScopeSource => "source" | ScopeDestination => "destination" end.

Definition loadQueuedTransactionsForCoalescingScope (Q : qenv) (d : db) (leader : Transaction)
    (s : scope) (limit : nat) : result (list Transaction) :=
  match lookup_fault Q (scope_name s) with
  | Some e => Err e
  | None =>
      let exclude := t_ParentTransaction leader in
      let rows := match s with
        | ScopePair => GetQueuedTransactionsForCoalescing d (t_Source leader) (t_Destination leader)
                         (t_Currency leader) exclude (t_CreatedAt leader) limit
        | ScopeSource => GetQueuedTransactionsForSourceCoalescing d (t_Source leader)
                           (t_Currency leader) exclude (t_CreatedAt leader) limit
        | ScopeDestination => GetQueuedTransactionsForDestinationCoalescing d (t_Destination leader)
                                (t_Currency leader) exclude (t_CreatedAt leader) limit
        end in
      Ok (map (λ r, (Balances.ApplyPrecision r).2) rows)
  end.

Fixpoint copy_siblings (E : env) (siblings : list Transaction) : M (list Transaction) :=
  match siblings with
  | [] => mret []
  | sibling :: siblings =>
      let sibling := restoreTransactionFlagsFromMetadata sibling in
      if canCoalesceQueuedOriginal sibling then
        t ← createQueueCopy E sibling (t_Reference sibling);
        rest ← copy_siblings E siblings;
        mret (t :: rest)
      else copy_siblings E siblings
  end.

Definition buildQueuedCoalescingBatchForScope (Q : qenv) (leader : Transaction) (s : scope)
    (batchSize : Z) : M (list Transaction) :=
  siblings ← read (λ d, loadQueuedTransactionsForCoalescingScope Q d leader s
                          (Z.to_nat (batchSize - 1)));
  copies ← copy_siblings (q_exec Q) siblings;
  mret (leader :: copies).

Fixpoint first_batch (Q : qenv) (leader : Transaction) (batchSize : Z) (scopes : list scope)
    : M (list Transaction) :=
  match scopes with
  | [] => mret []
  | s :: scopes =>
      batch ← buildQueuedCoalescingBatchForScope Q leader s batchSize;
      if (2 <=? length batch)%nat then mret batch else first_batch Q leader batchSize scopes
  end.

Definition buildQueuedCoalescingBatch (Q : qenv) (leader : Transaction) (batchSize : Z)
    : M (list Transaction) :=
  first_batch Q leader batchSize [ScopePair; ScopeSource; ScopeDestination].

(** ** The shared balances *)

Definition collectQueuedCoalescingBalanceIDs (txns : list Transaction) : list string :=
  sort_strings (Lock.dedup_keys ∅ (flat_map (λ t, [t_Source t; t_Destination t]) txns)).

Fixpoint load_each (load : string → result Balance) (ids : list string)
    : result (gmap string Balance) :=
  match ids with
  | [] => Ok ∅
  | id :: ids => b ← load id; m ← load_each load ids; mret (<[id := b]> m)
  end.

(** [GetBalancesByIDsLite]: the ids that exist. *)
Fixpoint GetBalancesByIDsLite (d : db) (ids : list string) : gmap string Balance :=
  match ids with
  | [] => ∅
  | id :: ids =>
      match GetBalanceByIDLite d id with
      | Ok b => <[id := b]> (GetBalancesByIDsLite d ids)
      | Err _ => GetBalancesByIDsLite d ids
      end
  end.

Definition loadBalancesForQueuedBatch (E : env) (d : db) (ids : list string)
    : result (gmap string Balance) :=
  m ← (if EnableQueuedChecks E then load_each (λ id, GetBalanceByID d id true) ids
       else Ok (GetBalancesByIDsLite d ids));
  match List.find (λ id, negb (bool_decide (is_Some (m !! id)))) ids with
  | Some id => Err (ENew ("failed to load balance " +:+ id +:+ " for coalesced batch"))
  | None => Ok m
  end.

Definition coalescingBalancesForTransaction (m : gmap string Balance) (t : Transaction)
    : result (Balance * Balance) :=
  match m !! t_Source t, m !! t_Destination t with
  | None, _ => Err (ENew ("missing source balance " +:+ t_Source t +:+ " for coalesced transaction"))
  | _, None => Err (ENew ("missing destination balance " +:+ t_Destination t
                          +:+ " for coalesced transaction"))
  | Some s, Some r => Ok (s, r)
  end.

(** ** References *)

Definition queuedBatchReferenceSets (Q : qenv) (d : db) (txns : list Transaction)
    : gset string * gset string :=
  if DisableBatchReferenceCheck Q then (∅, ∅)
  else
    let references := List.filter (λ r, negb (String.eqb r "")) (map t_Reference txns) in
    (list_to_set references, GetExistingTransactionReferences d references).

Definition used (reference : string) : error :=
  ENew ("reference " +:+ reference +:+ " has already been used").

Definition validateQueuedBatchTransactionReference (d : db) (t : Transaction)
    (prefetched existing batch : gset string) : result (gset string) :=
  let reference := t_Reference t in
  if String.eqb reference "" then Err (ENew "reference is required")
  else if bool_decide (reference ∈ batch) then Err (used reference)
  else if bool_decide (reference ∈ existing) then Err (used reference)
  else if bool_decide (reference ∈ prefetched) then Ok ({[reference]} ∪ batch)
  else _ ← validateTxn d t; Ok ({[reference]} ∪ batch).

(** ** Applying one transaction of the batch

    Both endpoints are pointers into the shared map; they are the same pointer
    when a transaction moves money from a balance to itself.  The balances a
    [work] names are these pointers too: only their identity is used before the
    final values are written. *)

Definition applyTransactionToBalances_alias (t : Transaction) (b : Balance)
    : result (Transaction * Balance) :=
  if String.eqb (t_Status t) StatusCommit then
    '(t, b) ← wrap_err "commit inflight debit failed" (Balances.CommitInflightDebit t b);
    wrap_err "commit inflight credit failed" (Balances.CommitInflightCredit t b)
  else if String.eqb (t_Status t) StatusVoid then
    let amount := ival (t_PreciseAmount t) in
    b ← wrap_err "void inflight debit failed" (Balances.RollbackInflightDebit amount b);
    b ← wrap_err "void inflight credit failed" (Balances.RollbackInflightCredit amount b);
    mret (t, b)
  else Balances.UpdateBalances_alias t b.

Definition apply_shared (m : gmap string Balance) (src dst : string) (t : Transaction)
    (source destination : Balance) : result (Transaction * gmap string Balance) :=
  if String.eqb src dst then
    '(t, b) ← applyTransactionToBalances_alias t source;
    mret (t, <[src := b]> m)
  else
    '(t, s, r) ← applyTransactionToBalances t source destination;
    mret (t, <[dst := r]> (<[src := s]> m)).

(** What the failed attempt to apply a transaction leaves in it. *)
Definition touched (t : Transaction) : Transaction :=
  if String.eqb (t_Status t) StatusCommit || String.eqb (t_Status t) StatusVoid then t
  else (Balances.ApplyPrecision t).2.

(** [prepareQueuedBatchTransaction]: the transaction as it leaves the call, and
    the row with its outbox entry, the shared balances and the references of
    the batch so far. *)
Definition prepareQueuedBatchTransaction (E : env) (d : db) (t : Transaction)
    (m : gmap string Balance) (prefetched existing batch : gset string)
    : Transaction * result (work * gmap string Balance * gset string) :=
  match coalescingBalancesForTransaction m t with
  | Err e => (t, Err e)
  | Ok (source, destination) =>
      match pre_hook E t with
      | Some e => (t, Err (EWrap "batch pre-transaction hook failed" e))
      | None =>
          match validateQueuedBatchTransactionReference d t prefetched existing batch with
          | Err e => (t, Err (EWrap "batch transaction validation failed" e))
          | Ok batch =>
              let src := t_Source t in
              let dst := t_Destination t in
              let t := updateTransactionDetails t source destination in
              match wrap_err "failed to apply transaction to balances"
                      (apply_shared m src dst t source destination) with
              | Err e => (touched t, Err e)
              | Ok (t, m) =>
                  let '(wk, skip) := buildTransactionExecutionWork t source destination in
                  (wk_transaction wk,
                   if (skip : bool)
                   then Err (ENew "batch coalescing does not support zero-amount transactions")
                   else Ok (wk, m, batch))
              end
          end
      end
  end.

Fixpoint prepare_batch (E : env) (d : db) (txns : list Transaction) (m : gmap string Balance)
    (prefetched existing batch : gset string)
    : list Transaction * result (list work * gmap string Balance) :=
  match txns with
  | [] => ([], Ok ([], m))
  | t :: txns =>
      let '(t', r) := prepareQueuedBatchTransaction E d t m prefetched existing batch in
      match r with
      | Err e => (t' :: txns, Err e)
      | Ok (wk, m, batch) =>
          let '(txns', r) := prepare_batch E d txns m prefetched existing batch in
          (t' :: txns', '(wks, m) ← r; mret (wk :: wks, m))
      end
  end.

(** ** Persisting *)

Definition outboxes_of (wks : list work) : list (option LineageOutbox) :=
  List.filter (λ o, bool_decide (is_Some o)) (map wk_outbox wks).

(** [persistQueuedTransactionBatchLocked] on the database: what it leaves in
    the transactions, and the new tables when it commits. *)
Definition persistQueuedTransactionBatchLocked (Q : qenv) (ids : list string)
    (txns : list Transaction) (d : db) : list Transaction * result db :=
  let E := q_exec Q in
  match wrap_err "failed to load balances for coalesced batch"
          (loadBalancesForQueuedBatch E d ids) with
  | Err e => (txns, Err e)
  | Ok m =>
      match hooks_fault Q with
      | Some e => (txns, Err (EWrap "failed to list pre-transaction hooks for coalesced batch" e))
      | None =>
          let '(prefetched, existing) := queuedBatchReferenceSets Q d txns in
          let '(txns, r) := prepare_batch E d txns m prefetched existing ∅ in
          (txns,
           '(wks, m) ← r;
           wrap_err "failed to persist coalesced transaction batch"
             (RecordTransactionsWithBalanceSetAndOutboxes d (map wk_transaction wks)
                (map (λ id, m !! id) ids) (outboxes_of wks) (now E)))
      end
  end.

Definition validateQueuedBatchCurrencies (txns : list Transaction) : result unit :=
  match txns with
  | [] => Ok tt
  | t :: txns =>
      fail_if (negb (forallb (λ x, String.eqb (t_Currency x) (t_Currency t)) txns))
        (ENew "coalescing batch contains multiple currencies")
  end.

Definition acquireBalanceSetLock (E : env) (ids : list string) : M Lock.MultiLocker :=
  v ← fresh_id E "loc";
  let m := Lock.NewMultiLocker ids v in
  _ ← run_locker E m;
  mret m.

(** The batch under its lock. *)
Definition persist_locked (Q : qenv) (ids : list string) (leader : Transaction)
    (rest : list Transaction) : world → world * (Transaction * result unit) := λ w,
  let '(txns, r) := persistQueuedTransactionBatchLocked Q ids (leader :: rest) (w_db w) in
  let leader := hd leader txns in
  match r with
  | Ok d => (w <| w_db := d |>, (leader, Ok tt))
  | Err e => (w, (leader, Err e))
  end.

(** [persistQueuedTransactionBatch] on a leader and its siblings. *)
Definition persistQueuedTransactionBatch (Q : qenv) (leader : Transaction)
    (rest : list Transaction) : world → world * (Transaction * result unit) := λ w,
  let E := q_exec Q in
  let txns := leader :: rest in
  match validateQueuedBatchCurrencies txns with
  | Err e => (w, (leader, Err e))
  | Ok _ =>
      let ids := collectQueuedCoalescingBalanceIDs txns in
      match on_contention E (t_Source leader) (t_Destination leader) (t_Currency leader)
              (acquireBalanceSetLock E ids) w with
      | (w, Err e) => (w, (leader, Err (EWrap "failed to acquire batch lock" e)))
      | (w, Ok locker) =>
          let '(w, r) := persist_locked Q ids leader rest w in
          let '(w, _) := releaseLock E locker w in
          (w, r)
      end
  end.

(** [tryRecordQueuedTransactionBatch]: whether the transaction was handled, and
    the caller's transaction afterwards. *)
Definition tryRecordQueuedTransactionBatch (Q : qenv) (force : bool) (t : Transaction)
    : world → world * (bool * Transaction) := λ w,
  if canCoalesceQueuedTransaction t then
    let batchSize := queuedCoalescingBatchSize Q force in
    if batchSize <? 2 then (w, (false, t))
    else
      match buildQueuedCoalescingBatch Q t batchSize w with
      | (w, Err _) => (w, (false, t))
      | (w, Ok []) => (w, (false, t))
      | (w, Ok (leader :: rest)) =>
          match persistQueuedTransactionBatch Q leader rest w with
          | (w, (t, Ok _)) => (w, (true, t))
          | (w, (t, Err _)) => (w, (false, t))
          end
      end
  else (w, (false, t)).

Definition TryRecordQueuedTransactionBatch (Q : qenv) := tryRecordQueuedTransactionBatch Q false.
Definition TryRecordQueuedTransactionBatchForHotLane (Q : qenv) :=
  tryRecordQueuedTransactionBatch Q true.

(** [ProcessQueuedTransaction] with its two kinds of batches. *)
Definition ProcessQueued (Q : qenv) (t : Transaction) (hotLane : bool) : M (mode * Transaction) :=
  executeTransactionPlan 2 (q_exec Q) (TryRecordQueuedTransactionBatch Q)
    (TryRecordQueuedTransactionBatchForHotLane Q) (planTransactionExecution true hotLane) t.
End coalescing.

(** ** The write of several balances *)

Lemma chunk_apply_lookup d l :
  NoDup (map b_BalanceID l) → List.find (λ b, negb (chunk_matches d b)) l = None →
  (∀ b, b ∈ l → ∃ row, db_balances d !! b_BalanceID b = Some row ∧ b_Version row = b_Version b
      ∧ db_balances (chunk_apply d l) !! b_BalanceID b = Some (balance_row_set row b))
  ∧ (∀ id, id ∉ map b_BalanceID l → db_balances (chunk_apply d l) !! id = db_balances d !! id).
Proof.
  unfold chunk_apply, chunk_matches. cbn [db_balances set]. generalize (db_balances d). clear d.
  induction l as [|b l IH]; intros m Hnd Hf; [split; [by intros b Hb%elem_of_nil|done]|].
  cbn [map] in Hnd. apply NoDup_cons in Hnd as [Hb Hnd]. cbn [List.find] in Hf.
  destruct (m !! b_BalanceID b) as [row|] eqn:Er; [|done].
  destruct (Z.eqb_spec (b_Version row) (b_Version b)) as [Ev|]; [|done]. cbn [negb] in Hf.
  cbn [foldl]. rewrite Er, (proj2 (Z.eqb_eq _ _) Ev).
  assert (Hf' : List.find (λ x, negb match <[b_BalanceID b := balance_row_set row b]> m !! b_BalanceID x with
                           | Some row => b_Version row =? b_Version x | None => false end) l = None).
  { destruct (List.find (λ x, negb match <[b_BalanceID b := balance_row_set row b]> m !! b_BalanceID x with
                           | Some row => b_Version row =? b_Version x | None => false end) l) as [x|] eqn:Ef; [|done].
    apply find_some in Ef as [Hin Hx]. pose proof (find_none _ _ Hf x Hin) as Hn.
    rewrite lookup_insert_ne in Hx; [congruence|]. intros E. apply Hb. rewrite E.
    apply list_elem_of_fmap. exists x. split; [done|]. by apply list_elem_of_In. }
  destruct (IH _ Hnd Hf') as [H1 H2]. split.
  - intros x [->|Hx]%elem_of_cons.
    + exists row. split; [done|]. split; [done|]. rewrite H2 by done. apply lookup_insert_eq.
    + destruct (H1 x Hx) as (row' & Er' & Ev' & El). exists row'. split; [|done].
      rewrite lookup_insert_ne in Er'; [done|]. intros E. apply Hb. rewrite E.
      apply list_elem_of_fmap. by exists x.
  - intros id Hid. cbn [map] in Hid. apply not_elem_of_cons in Hid as [Hne Hid].
    rewrite H2 by done. by apply lookup_insert_ne.
Qed.

(** What writing a set of balances does: every one of them, whose version was
    current, and nothing else. *)
Definition written (d d' : db) (l : list Balance) : Prop :=
  db_transactions d' = db_transactions d ∧ db_outbox d' = db_outbox d
  ∧ (∀ b, b ∈ l → ∃ row, db_balances d !! b_BalanceID b = Some row ∧ b_Version row = b_Version b
       ∧ db_balances d' !! b_BalanceID b = Some (balance_row_set row b))
  ∧ (∀ id, id ∉ map b_BalanceID l → db_balances d' !! id = db_balances d !! id).

Lemma written_nil d : written d d [].
Proof. split_and!; try done. by intros b Hb%elem_of_nil. Qed.

Lemma written_app d1 d2 d3 l1 l2 :
  NoDup (map b_BalanceID (l1 ++ l2)) → written d1 d2 l1 → written d2 d3 l2 →
  written d1 d3 (l1 ++ l2).
Proof.
  rewrite map_app. intros (_ & Hdisj & _)%NoDup_app (T1 & O1 & W1 & F1) (T2 & O2 & W2 & F2).
  assert (Hmap : ∀ b l, b ∈ l → b_BalanceID b ∈ map b_BalanceID l)
    by (intros b l Hb; apply list_elem_of_fmap; by exists b).
  split; [congruence|]. split; [congruence|]. split.
  - intros b [Hb|Hb]%elem_of_app.
    + destruct (W1 b Hb) as (row & Er & Ev & El). exists row. split; [done|]. split; [done|].
      rewrite F2; [done|]. by apply Hdisj, Hmap.
    + destruct (W2 b Hb) as (row & Er & Ev & El). exists row. split; [|done].
      rewrite <- F1; [done|]. intros Hin. by apply (Hdisj _ Hin), Hmap.
  - intros id Hid. rewrite map_app in Hid. apply not_elem_of_app in Hid as [H1 H2].
    by rewrite F2, F1.
Qed.

Lemma updateBalanceChunk_written d l d' :
  NoDup (map b_BalanceID l) → updateBalanceChunk d l = Ok d' → written d d' l.
Proof.
  intros Hnd. unfold updateBalanceChunk. destruct (List.find _ l) eqn:Ef; [done|]. intros [= <-].
  destruct (chunk_apply_lookup d l Hnd Ef). by split_and!.
Qed.

Lemma update_chunks_written fuel d l d' :
  (length l <= fuel)%nat → NoDup (map b_BalanceID l) → update_chunks fuel d l = Ok d' →
  written d d' l.
Proof.
  revert d l. induction fuel as [|fuel IH]; intros d l Hlen Hnd.
  - destruct l; [|simpl in Hlen; lia]. intros [= <-]. apply written_nil.
  - destruct l as [|b l]; [intros [= <-]; apply written_nil|]. cbn [update_chunks].
    intros (d1 & E1 & E2)%bind_Ok. rewrite <- (take_drop maxBalancesPerUpdateChunk (b :: l)) in Hnd |- *.
    pose proof Hnd as Hnd2. rewrite map_app in Hnd2. apply NoDup_app in Hnd2 as (H1 & _ & H2).
    eapply written_app; [done|by apply updateBalanceChunk_written|apply IH; [|done|done]].
    rewrite length_drop. unfold maxBalancesPerUpdateChunk. cbn [length] in *. lia.
Qed.

Lemma unique_balances_id seen l :
  NoDup (map b_BalanceID l) → (∀ b, b ∈ l → b_BalanceID b ≠ "" ∧ b_BalanceID b ∉ seen) →
  unique_balances seen (map Some l) = l.
Proof.
  revert seen. induction l as [|b l IH]; intros seen Hnd Hl; [done|]. cbn [map unique_balances].
  cbn [map] in Hnd. apply NoDup_cons in Hnd as [Hb Hnd].
  destruct (Hl b ltac:(by left)) as [Hne Hs]. apply String.eqb_neq in Hne.
  rewrite Hne, bool_decide_false by done. cbn [orb]. f_equal. apply IH; [done|].
  intros x Hx. destruct (Hl x ltac:(by right)) as [Hx1 Hx2]. split; [done|].
  apply not_elem_of_union. split; [|done]. apply not_elem_of_singleton. intros E. apply Hb.
  rewrite <- E. apply list_elem_of_fmap. by exists x.
Qed.

Lemma updateBalanceSet_written d l d' :
  NoDup (map b_BalanceID l) → (∀ b, b ∈ l → b_BalanceID b ≠ "") →
  updateBalanceSet d (map Some l) = Ok d' → written d d' l.
Proof.
  intros Hnd Hne. unfold updateBalanceSet.
  rewrite unique_balances_id; [|done|intros b Hb; split; [by apply Hne|apply not_elem_of_empty]].
  by apply update_chunks_written.
Qed.

Lemma updateBalanceSet_frame d l d' :
  updateBalanceSet d l = Ok d' →
  db_transactions d' = db_transactions d ∧ db_outbox d' = db_outbox d.
Proof.
  unfold updateBalanceSet. generalize (unique_balances ∅ l). intros u.
  generalize (length u) as fuel. intros fuel. revert d u.
  induction fuel as [|fuel IH]; intros d [|b u]; try (by intros [= <-]). cbn [update_chunks].
  intros (d1 & E1 & [T O]%IH)%bind_Ok. unfold updateBalanceChunk in E1.
  destruct (List.find _ _); [done|]. injection E1 as <-. split; [exact T|exact O].
Qed.

(** ** One transaction in a batch and on its own *)

Definition set_version (v : Z) (b : Balance) : Balance := b <| b_Version := v |>.
Definition set_status (st : string) (t : Transaction) : Transaction := t <| t_Status := st |>.

Section equivalence.
Context `{Decimal}.

Lemma ApplyPrecision_status st t :
  Balances.ApplyPrecision (set_status st t)
  = ((Balances.ApplyPrecision t).1, set_status st (Balances.ApplyPrecision t).2).
Proof.
  unfold Balances.ApplyPrecision, Balances.applyPrecisionLogic.
  assert (Hd : ∀ t, Balances.default_precision (set_status st t)
                    = set_status st (Balances.default_precision t)).
  { intros t0. unfold Balances.default_precision.
    change (t_Precision (set_status st t0)) with (t_Precision t0).
    destruct (Float64.eqb _ _); by destruct t0. }
  rewrite !Hd. set (t0 := Balances.default_precision (Balances.default_precision t)).
  change (t_PreciseAmount (set_status st t0)) with (t_PreciseAmount t0).
  destruct (t_PreciseAmount t0) as [p|]; [destruct (0 <? p)|]; by destruct t0.
Qed.

Lemma canProcessTransaction_status st v t b :
  Balances.canProcessTransaction (set_status st t) (set_version v b)
  = match Balances.canProcessTransaction t b with
    | Ok b => Ok (set_version v b) | Err e => Err e end.
Proof.
  unfold Balances.canProcessTransaction.
  change (t_AllowOverdraft (set_status st t)) with (t_AllowOverdraft t).
  change (t_OverdraftLimit (set_status st t)) with (t_OverdraftLimit t).
  change (t_PreciseAmount (set_status st t)) with (t_PreciseAmount t).
  change (Balances.overdraft_limit_precise (set_status st t)) with (Balances.overdraft_limit_precise t).
  change (Balances.available_balance (Balances.InitializeBalanceFields (set_version v b)))
    with (Balances.available_balance (Balances.InitializeBalanceFields b)).
  destruct (_ && _)%bool; [done|]. cbv zeta. destruct (_ <=? _); [done|].
  destruct (Float64.gtb _ _); [|done]. by destruct (_ <=? _).
Qed.

(** The transaction's status and the balances' versions do not matter. *)
Lemma UpdateBalances_frame st v u t s r :
  Balances.UpdateBalances (set_status st t) (set_version v s) (set_version u r)
  = match Balances.UpdateBalances t s r with
    | Ok (t', s', r') => Ok (set_status st t', set_version v s', set_version u r')
    | Err e => Err e
    end.
Proof.
  unfold Balances.UpdateBalances, Balances.admit_update. rewrite ApplyPrecision_status.
  destruct (Balances.ApplyPrecision t) as [a t0]. cbn [fst snd].
  change ((set_status st t0) <| t_PreciseAmount := Some a |>)
    with (set_status st (t0 <| t_PreciseAmount := Some a |>)).
  set (t1 := t0 <| t_PreciseAmount := Some a |>).
  change (Balances.validate (set_status st t1)) with (Balances.validate t1).
  destruct (Balances.validate t1) as [[]|e]; [|done]. cbn [mbind result_bind].
  rewrite canProcessTransaction_status.
  destruct (Balances.canProcessTransaction t1 s) as [s1|e]; [|done]. cbn [mbind result_bind mret result_ret].
  unfold Balances.debit_source, Balances.credit_destination.
  change (t_Inflight (set_status st t1)) with (t_Inflight t1).
  change (t_PreciseAmount (set_status st t1)) with (t_PreciseAmount t1).
  clearbody t1. destruct s1, r. by destruct (t_Inflight t1).
Qed.

(** The arithmetic writes the six amounts of a balance and nothing else. *)
Definition no_money (b : Balance) : Balance :=
  b <| b_Balance := None |> <| b_CreditBalance := None |> <| b_DebitBalance := None |>
    <| b_InflightBalance := None |> <| b_InflightCreditBalance := None |>
    <| b_InflightDebitBalance := None |>.
Definition same_but_money (b b' : Balance) : Prop := no_money b = no_money b'.

Lemma UpdateBalances_money t s r t' s' r' :
  Balances.UpdateBalances t s r = Ok (t', s', r') → same_but_money s s' ∧ same_but_money r r'.
Proof.
  unfold Balances.UpdateBalances, Balances.admit_update. intros E.
  destruct (Balances.ApplyPrecision t) as [a t1].
  apply bind_Ok in E as ([t2 s1] & E1 & E). apply bind_Ok in E1 as ([] & _ & E1).
  apply bind_Ok in E1 as (s2 & E2 & E1). injection E1 as <- <-. injection E as <- <- <-.
  unfold same_but_money, Balances.debit_source, Balances.credit_destination.
  apply Balances.canProcessTransaction_frame in E2.
  split; [|by destruct r, (t_Inflight _)]. destruct E2 as [->| ->]; destruct s; by destruct (t_Inflight _).
Qed.

Definition lite (b : Balance) : Balance :=
  b <| b_QueuedDebitBalance := None |> <| b_QueuedCreditBalance := None |> <| b_MetaData := ∅ |>.

Lemma GetBalanceByIDLite_lite d id row :
  db_balances d !! id = Some row → GetBalanceByIDLite d id = Ok (lite row).
Proof. unfold GetBalanceByIDLite. by intros ->. Qed.

(** A shared balance stands for the row it was read from with its amounts. *)
Definition stands_for (row b : Balance) : Prop :=
  b_Version b = b_Version row ∧ lite (balance_row_set row b) = set_version (b_Version row + 1) b.

Lemma stands_for_read row : stands_for row (lite row).
Proof. unfold stands_for, lite, set_version, balance_row_set. destruct row. by cbn. Qed.

Lemma stands_for_money row b b' : stands_for row b → same_but_money b b' → stands_for row b'.
Proof.
  unfold stands_for, lite, set_version, balance_row_set, same_but_money, no_money.
  destruct row, b, b'. cbn. intros [Hv Hl] Hm. injection Hl; injection Hm. by intros; subst.
Qed.

(** Reading and writing the row alone, at a later version. *)
Lemma stands_for_lite row b v :
  stands_for row b → lite (set_version v (balance_row_set row b)) = set_version v b.
Proof.
  unfold stands_for, lite, set_version, balance_row_set. destruct row, b. cbn.
  intros [Hv Hl]. injection Hl. by intros; subst.
Qed.

Lemma stands_for_write row b b' v :
  same_but_money b b' →
  balance_row_set (set_version v (balance_row_set row b)) (set_version v b')
  = set_version (v + 1) (balance_row_set row b').
Proof.
  unfold same_but_money, no_money. destruct row, b, b'. cbn. intros Hm. injection Hm. by intros; subst.
Qed.

(** What reading a queued transaction's two balances by id comes to. *)
Lemma record_body_lite E t w s r :
  EnableQueuedChecks E = false → pre_hook E t = None →
  TransactionExistsByRef (w_db w) (t_Reference t) = false →
  has_prefix "@" (t_Source t) = false → has_prefix "@" (t_Destination t) = false →
  GetBalanceByIDLite (w_db w) (t_Source t) = Ok s → b_BalanceID s = t_Source t →
  GetBalanceByIDLite (w_db w) (t_Destination t) = Ok r → b_BalanceID r = t_Destination t →
  record_body E t w
  = ('(t, source, destination) ← lift (processBalances t s r);
     let '(wk, skip) := buildTransactionExecutionWork t source destination in
     if (skip : bool) then mret (wk_transaction wk)
     else wk ← persistSingleTransactionExecutionWork E wk; mret (wk_transaction wk)) w.
Proof.
  intros Hq Hh Href Hs Hd Es Is Er Ir.
  assert (Hv : validateAndPrepareTransaction E t w = (w, Ok (t, s, r))).
  { unfold validateAndPrepareTransaction, getSourceAndDestination, lookup_side, resolved_name.
    rewrite Hs, Hq. unfold ctx_err, map_err, read, validateTxn, mbind, prog_bind.
    rewrite Href. cbn [fail_if]. rewrite Es.
    change (t_Destination (t <| t_Source := t_Source t |>)) with (t_Destination t). rewrite Hd, Er.
    unfold mret, prog_ret. rewrite Is, Ir. by destruct t. }
  unfold record_body, mbind, prog_bind, lift. rewrite Hh, Hv. done.
Qed.

Definition strip (o : LineageOutbox) : LineageOutbox := o <| o_CreatedAt := 0 |>.

(** The same rows, and the same outbox up to the time an entry was made. *)
Definition same_outbox (d d' : db) : Prop := map strip (db_outbox d) = map strip (db_outbox d').

Lemma recordTransactionInTx_same d1 d1' d2 t :
  db_transactions d1 = db_transactions d2 → recordTransactionInTx d1 t = Ok d1' →
  recordTransactionInTx d2 t = Ok (d2 <| db_transactions := db_transactions d1' |>)
  ∧ db_outbox d1' = db_outbox d1.
Proof.
  unfold recordTransactionInTx. intros E. rewrite E. destruct (_ && _); [|done].
  intros [= <-]. by rewrite <- E.
Qed.

Lemma next_outbox_same d1 d2 : same_outbox d1 d2 → next_outbox_id d1 = next_outbox_id d2.
Proof.
  unfold same_outbox, next_outbox_id. intros E. f_equal.
  assert (Hf : ∀ l, foldr (λ o m, Z.max (o_ID o) m) 0 l
                    = foldr (λ o m, Z.max (o_ID o) m) 0 (map strip l)).
  { induction l as [|o l IH]; [done|]. cbn [foldr map]. by rewrite IH. }
  by rewrite Hf, E, <- Hf.
Qed.

Lemma InsertLineageOutbox_same d1 d1' d2 o n1 n2 :
  same_outbox d1 d2 → InsertLineageOutbox d1 o n1 = Ok d1' →
  ∃ d2', InsertLineageOutbox d2 o n2 = Ok d2' ∧ same_outbox d1' d2'
    ∧ db_balances d2' = db_balances d2 ∧ db_transactions d2' = db_transactions d2.
Proof.
  intros Hs. unfold InsertLineageOutbox. rewrite (next_outbox_same _ _ Hs).
  assert (Hex : ∀ l, existsb (λ r, String.eqb (o_TransactionID r) (o_TransactionID o)) l
                = existsb (λ r, String.eqb (o_TransactionID r) (o_TransactionID o)) (map strip l)).
  { induction l as [|x l IH]; [done|]. cbn [existsb map]. by rewrite IH. }
  rewrite (Hex (db_outbox d1)), (Hex (db_outbox d2)). unfold same_outbox in *. rewrite Hs.
  destruct (existsb _ _); [done|]. intros [= <-]. eexists. split; [reflexivity|].
  split; [|split; reflexivity]. simpl. rewrite !map_app, Hs. reflexivity.
Qed.

(** The shared balances [m] against the rows of a run of the single path. *)
Definition shared (d0 d : db) (m : gmap string Balance) : Prop :=
  (∀ id b, m !! id = Some b → ∃ row v,
     db_balances d0 !! id = Some row ∧ b_BalanceID b = id ∧ stands_for row b
     ∧ db_balances d !! id = Some (set_version v (balance_row_set row b)))
  ∧ (∀ id, m !! id = None → db_balances d !! id = db_balances d0 !! id).

Lemma no_money_id b b' : same_but_money b b' →
  b_BalanceID b' = b_BalanceID b ∧ b_TrackFundLineage b' = b_TrackFundLineage b.
Proof. unfold same_but_money, no_money. destruct b, b'. intros E. by injection E. Qed.

Definition settled_status (t : Transaction) : string :=
  if t_Inflight t then StatusInflight else StatusApplied.

(** The final form of a queued transaction, alone or in a batch. *)
Lemma updateTransactionDetails_queued t t' s r s' r' :
  t_Status t' = StatusQueued → t_Inflight t' = t_Inflight t →
  b_BalanceID s' = b_BalanceID s → b_BalanceID r' = b_BalanceID r →
  updateTransactionDetails (set_status (settled_status t) t') s r
  = updateTransactionDetails t' s' r'.
Proof.
  intros Hst Hi Es Er. unfold updateTransactionDetails, set_status, settled_status. rewrite Es, Er, Hst.
  destruct t'. cbn in *. rewrite <- Hi. by destruct t_Inflight.
Qed.

Lemma buildTransactionExecutionWork_queued t t' s r s' r' :
  t_Status t' = StatusQueued → t_Inflight t' = t_Inflight t →
  b_BalanceID s' = b_BalanceID s → b_TrackFundLineage s' = b_TrackFundLineage s →
  b_BalanceID r' = b_BalanceID r → b_TrackFundLineage r' = b_TrackFundLineage r →
  let b1 := buildTransactionExecutionWork (set_status (settled_status t) t') s r in
  let b2 := buildTransactionExecutionWork t' s' r' in
  wk_transaction b1.1 = wk_transaction b2.1 ∧ wk_outbox b1.1 = wk_outbox b2.1 ∧ b1.2 = b2.2.
Proof.
  intros Hst Hi Es Fs Er Fr. unfold buildTransactionExecutionWork.
  rewrite (updateTransactionDetails_queued t t' s r s' r') by done.
  destruct (bool_decide _); [done|]. cbn [fst snd wk_transaction wk_outbox]. split; [done|].
  split; [|done]. unfold prepareTransactionOutbox, PrepareLineageOutbox. by rewrite Es, Er, Fs, Fr.
Qed.

(** Both updates of the single path, from current copies. *)
Lemma persist_lite d t s r o nw row1 row2 :
  db_balances d !! b_BalanceID s = Some row1 → b_Version row1 = b_Version s →
  db_balances d !! b_BalanceID r = Some row2 → b_Version row2 = b_Version r →
  b_BalanceID s ≠ b_BalanceID r →
  ∃ s2 r2, RecordTransactionWithBalancesAndOutbox d t s r o nw
  = (d ← recordTransactionInTx
           (d <| db_balances := <[b_BalanceID r := balance_row_set row2 r]>
                                  (<[b_BalanceID s := balance_row_set row1 s]> (db_balances d)) |>) t;
     d ← match o with
         | Some o => wrap_err "failed to insert lineage outbox" (InsertLineageOutbox d o nw)
         | None => Ok d
         end;
     mret (d, s2, r2)).
Proof.
  intros E1 V1 E2 V2 Hne. unfold RecordTransactionWithBalancesAndOutbox, updateBalance.
  rewrite E1, V1, Z.eqb_refl. cbn [mbind result_bind db_balances set].
  rewrite lookup_insert_ne, E2, V2, Z.eqb_refl by done. by do 2 eexists.
Qed.

Lemma processBalances_queued t s r :
  t_Status t ≠ StatusCommit → t_Status t ≠ StatusVoid →
  applyTransactionToBalances t s r = Balances.UpdateBalances t s r.
Proof.
  intros H1%String.eqb_neq H2%String.eqb_neq. unfold applyTransactionToBalances. by rewrite H1, H2.
Qed.

Lemma set_version_self b : set_version (b_Version b) b = b.
Proof. by destruct b. Qed.
Lemma set_version_twice v u b : set_version v (set_version u b) = set_version v b.
Proof. by destruct b. Qed.
Lemma set_status_self t : set_status (t_Status t) t = t.
Proof. by destruct t. Qed.
Lemma set_status_twice st st' t : set_status st (set_status st' t) = set_status st t.
Proof. by destruct t. Qed.

(** What a successful preparation did. *)
Lemma prepare_inv E d0 t m pf ex bt t' wk m' bt' :
  prepareQueuedBatchTransaction E d0 t m pf ex bt = (t', Ok (wk, m', bt')) →
  t_Status t = StatusQueued → t_Source t ≠ t_Destination t →
  (∀ id b, m !! id = Some b → b_BalanceID b = id) →
  ∃ s r t2 s2 r2,
    m !! t_Source t = Some s ∧ m !! t_Destination t = Some r ∧ pre_hook E t = None
    ∧ Balances.UpdateBalances t s r = Ok (t2, s2, r2) ∧ t_Status t2 = StatusQueued
    ∧ t_Inflight t2 = t_Inflight t
    ∧ m' = <[t_Destination t := r2]> (<[t_Source t := s2]> m)
    ∧ buildTransactionExecutionWork (set_status (settled_status t) t2) s r = (wk, false)
    ∧ t' = wk_transaction wk.
Proof.
  intros Hp Hst Hne Hid. unfold prepareQueuedBatchTransaction, coalescingBalancesForTransaction in Hp.
  destruct (m !! t_Source t) as [s|] eqn:Es; [|done].
  destruct (m !! t_Destination t) as [r|] eqn:Er; [|done].
  destruct (pre_hook E t); [done|]. destruct (validateQueuedBatchTransactionReference _ _ _ _ _); [|done].
  cbv zeta in Hp.
  assert (Ht : updateTransactionDetails t s r = set_status (settled_status t) t).
  { unfold updateTransactionDetails, set_status, settled_status.
    rewrite (Hid _ _ Es), (Hid _ _ Er), Hst. by destruct t. }
  rewrite Ht in Hp. apply String.eqb_neq in Hne. unfold apply_shared in Hp. rewrite Hne in Hp.
  rewrite processBalances_queued in Hp
    by (change (t_Status (set_status (settled_status t) t)) with (settled_status t);
        unfold settled_status; by destruct (t_Inflight t)).
  pose proof (UpdateBalances_frame (settled_status t) (b_Version s) (b_Version r) t s r) as Hf.
  rewrite !set_version_self in Hf. rewrite Hf in Hp.
  destruct (Balances.UpdateBalances t s r) as [[[t2 s2] r2]|e] eqn:EU; [|done].
  cbn [wrap_err mbind result_bind mret result_ret] in Hp.
  destruct (buildTransactionExecutionWork _ s r) as [wk1 [|]] eqn:Eb; [done|].
  injection Hp as <- <- <- _. exists s, r, t2, s2, r2.
  assert (Hframe : Balances.same_but_amounts t t2).
  { rewrite <- (processBalances_queued t s r) in EU by (by rewrite Hst).
    by eapply applyTransactionToBalances_frame. }
  assert (Hfields : t_Status t2 = t_Status t ∧ t_Inflight t2 = t_Inflight t)
    by (rewrite Hframe; by destruct t).
  destruct (UpdateBalances_money _ _ _ _ _ _ EU) as [Ms Mr].
  assert (Hver : ∀ b b', same_but_money b b' → set_version (b_Version b) b' = b').
  { intros b b' Hm. unfold same_but_money, no_money in Hm. destruct b, b'. injection Hm.
    by intros; subst. }
  rewrite (Hver _ _ Ms), (Hver _ _ Mr).
  split_and!; try done; [by rewrite (proj1 Hfields)|apply Hfields].
Qed.

Lemma prepared_reference t s r t2 s2 r2 st s' r' wk skip :
  Balances.UpdateBalances t s r = Ok (t2, s2, r2) →
  buildTransactionExecutionWork (set_status st t2) s' r' = (wk, skip) →
  t_Reference (wk_transaction wk) = t_Reference t.
Proof.
  intros EU Eb. destruct (Ledger.build_work _ _ _ _ _ Eb) as (_ & _ & ->).
  assert (Hf : Balances.same_but_amounts t t2).
  { unfold Balances.UpdateBalances in EU. apply bind_Ok in EU as ([t1 s1] & E1 & EU). injection EU as <- _ _.
    apply Balances.admit_update_Ok in E1 as (a & _ & _ & _ & -> & _ & _).
    destruct (Balances.ApplyPrecision t) as [p t3] eqn:EP. apply Balances.ApplyPrecision_frame in EP.
    eapply Balances.same_but_amounts_trans; [exact EP|]. by destruct t3. }
  rewrite Hf. by destruct t.
Qed.

Lemma shared_update d0 d m id b b' row v :
  shared d0 d m → m !! id = Some b → same_but_money b b' →
  db_balances d0 !! id = Some row → db_balances d !! id = Some (set_version v (balance_row_set row b)) →
  shared d0 (d <| db_balances := <[id := balance_row_set (set_version v (balance_row_set row b))
                                           (set_version v b')]> (db_balances d) |>)
    (<[id := b']> m).
Proof.
  intros [Hin Hout] Hb Hm Hrow Hd. destruct (Hin _ _ Hb) as (row' & v' & E0 & Hid & Hs & _).
  assert (row' = row) as -> by congruence.
  rewrite (stands_for_write row b b' v Hm). split.
  - intros i x. destruct (decide (i = id)) as [->|Hne].
    + rewrite lookup_insert_eq. intros [= <-]. exists row, (v + 1). cbn [db_balances set].
      rewrite lookup_insert_eq. split_and!; try done.
      * rewrite <- Hid. apply (no_money_id b b' Hm).
      * by eapply stands_for_money.
    + rewrite lookup_insert_ne by done. intros Hx. destruct (Hin _ _ Hx) as (rw & z & H1 & H2 & H3 & H4).
      exists rw, z. split_and!; try done. simpl. by rewrite lookup_insert_ne.
  - intros i Hi. assert (i ≠ id) by (intros ->; by rewrite lookup_insert_eq in Hi).
    rewrite lookup_insert_ne in Hi by done. simpl. rewrite lookup_insert_ne by done. by apply Hout.
Qed.

Lemma shared_same_balances d0 d d' m :
  db_balances d' = db_balances d → shared d0 d m → shared d0 d' m.
Proof. intros E. unfold shared. by rewrite E. Qed.

(** Recording and the outbox entry in the tables of the single run. *)
Lemma record_and_outbox dA dA' dC dC' d t o nw nw2 :
  recordTransactionInTx dA t = Ok dA' → db_transactions dA = db_transactions d →
  match o with Some o => InsertLineageOutbox dC o nw = Ok dC' | None => dC' = dC end →
  same_outbox dC d →
  ∃ d', (d1 ← recordTransactionInTx d t;
         match o with
         | Some o => wrap_err "failed to insert lineage outbox" (InsertLineageOutbox d1 o nw2)
         | None => Ok d1
         end) = Ok d'
    ∧ db_balances d' = db_balances d ∧ db_transactions d' = db_transactions dA'
    ∧ same_outbox dC' d'.
Proof.
  intros Hrec Htx Hob Hs. destruct (recordTransactionInTx_same _ _ _ _ Htx Hrec) as [-> _].
  set (d1 := d <| db_transactions := db_transactions dA' |>). cbn [mbind result_bind].
  destruct o as [o|]; [|by exists d1; subst dC'].
  destruct (InsertLineageOutbox_same dC dC' d1 o nw nw2 Hs Hob) as (d2 & -> & H1 & H2 & H3).
  by exists d2.
Qed.

(** One transaction of the batch, run on its own. *)
Lemma coalesce_one E d0 t m pf ex bt t' wk m' bt' w dA dA' dC dC' nw :
  prepareQueuedBatchTransaction E d0 t m pf ex bt = (t', Ok (wk, m', bt')) →
  EnableQueuedChecks E = false → t_Status t = StatusQueued → t_Source t ≠ t_Destination t →
  (∀ id, is_Some (m !! id) → has_prefix "@" id = false) →
  shared d0 (w_db w) m →
  recordTransactionInTx dA t' = Ok dA' → db_transactions dA = db_transactions (w_db w) →
  match wk_outbox wk with
  | Some o => InsertLineageOutbox dC o nw = Ok dC'
  | None => dC' = dC
  end → same_outbox dC (w_db w) →
  ∃ w', record_body E t w = (w', Ok t') ∧ shared d0 (w_db w') m'
    ∧ db_transactions (w_db w') = db_transactions dA' ∧ same_outbox dC' (w_db w')
    ∧ t' = wk_transaction wk ∧ dom m' = dom m.
Proof.
  intros Hp Hq Hst Hne Hat [Hin Hout] Hrec Htx Hob Hsame.
  destruct (prepare_inv E d0 t m pf ex bt t' wk m' bt' Hp Hst Hne) as
    (s & r & t2 & s2 & r2 & Es & Er & Hh & EU & Hst2 & Hi2 & -> & Eb & ->).
  { intros id b Hb. by destruct (Hin id b Hb) as (row & v & _ & Hid & _). }
  destruct (Hin _ _ Es) as (row1 & v & E01 & Is & Ss & Ed1).
  destruct (Hin _ _ Er) as (row2 & u & E02 & Ir & Sr & Ed2).
  destruct (UpdateBalances_money _ _ _ _ _ _ EU) as [Ms Mr].
  destruct (no_money_id _ _ Ms) as [Js Ts], (no_money_id _ _ Mr) as [Jr Tr].
  destruct (buildTransactionExecutionWork_queued t t2 s r (set_version v s2) (set_version u r2)
                Hst2 Hi2 Js Ts Jr Tr) as (Hb1 & Hb2 & Hb3).
  rewrite Eb in Hb1, Hb2, Hb3.
  destruct (buildTransactionExecutionWork t2 (set_version v s2) (set_version u r2)) as [wk2 skip] eqn:Eb2.
  cbn [fst snd] in Hb1, Hb2, Hb3. subst skip.
  destruct (Ledger.build_work _ _ _ _ _ Eb2) as (Ws & Wr & _).
  destruct (recordTransactionInTx_Ok _ _ _ Hrec) as (_ & Hfresh & _).
  assert (Hex : TransactionExistsByRef (w_db w) (t_Reference t) = false).
  { apply existsb_false. intros x Hx. apply String.eqb_neq. rewrite <- Htx in Hx.
    destruct (Hfresh x Hx) as [_ Href]. by rewrite (prepared_reference _ _ _ _ _ _ _ _ _ _ _ EU Eb) in Href. }
  rewrite (record_body_lite E t w (set_version v s) (set_version u r)); try done;
    [|by apply Hat; eexists|by apply Hat; eexists
     |by rewrite (GetBalanceByIDLite_lite _ _ _ Ed1), stands_for_lite
     |by rewrite (GetBalanceByIDLite_lite _ _ _ Ed2), stands_for_lite].
  set (d1 := (w_db w) <| db_balances := <[t_Source t := balance_row_set (set_version v (balance_row_set row1 s))
                (set_version v s2)]> (db_balances (w_db w)) |>).
  set (d2 := d1 <| db_balances := <[t_Destination t := balance_row_set (set_version u (balance_row_set row2 r))
                (set_version u r2)]> (db_balances d1) |>).
  destruct (record_and_outbox dA dA' dC dC' d2 (wk_transaction wk) (wk_outbox wk) nw (now E) Hrec Htx
              Hob Hsame) as (d' & Ed' & Hbal & Htx' & Hout').
  exists (w <| w_db := d' |>). split; [|split; [|split_and!; try done]].
  - pose proof (UpdateBalances_frame (t_Status t) v u t s r) as Hf.
    rewrite set_status_self, EU in Hf.
    assert (set_status (t_Status t) t2 = t2) as Ht2 by (rewrite Hst, <- Hst2; apply set_status_self).
    rewrite Ht2 in Hf. unfold lift, mbind, prog_bind, processBalances.
    rewrite processBalances_queued by (by rewrite Hst). rewrite Hf. cbn [wrap_err]. rewrite Eb2.
    unfold persistSingleTransactionExecutionWork, ctx_err, map_err, write, mbind, prog_bind.
    rewrite Ws, Wr, <- Hb1, <- Hb2.
    destruct (persist_lite (w_db w) (wk_transaction wk) (set_version v s2) (set_version u r2)
      (wk_outbox wk) (now E) (set_version v (balance_row_set row1 s))
      (set_version u (balance_row_set row2 r))) as (x & y & Hx);
      [by rewrite <- Ed1, <- Is, <- Js|done|by rewrite <- Ed2, <- Ir, <- Jr|done
      |change (b_BalanceID s2 ≠ b_BalanceID r2); congruence|].
    rewrite Hx. cbv beta.
    change (b_BalanceID (set_version v s2)) with (b_BalanceID s2).
    change (b_BalanceID (set_version u r2)) with (b_BalanceID r2).
    rewrite Js, Is, Jr, Ir.
    match goal with |- context [recordTransactionInTx ?d (wk_transaction wk)] => change d with d2 end.
    destruct (recordTransactionInTx d2 (wk_transaction wk)) as [d3|]; [|done].
    cbn [mbind result_bind] in Ed' |- *. by rewrite Ed'.
  - apply (shared_same_balances _ d2); [done|]. eapply shared_update; [eapply shared_update| | | |];
      try done; [by rewrite lookup_insert_ne|by subst d1; simpl; rewrite lookup_insert_ne].
  - rewrite !dom_insert_lookup_L; [done|done|by rewrite lookup_insert_ne].
Qed.

(** The transactions one after the other, each under its own lock and in its
    own database transaction. *)
Fixpoint run_each (E : env) (txns : list Transaction) : M (list Transaction) :=
  match txns with
  | [] => mret []
  | t :: txns => t ← record_body E t; rest ← run_each E txns; mret (t :: rest)
  end.

(** A queued transaction between two balances. *)
Definition coalescible (t : Transaction) : Prop :=
  t_Status t = StatusQueued ∧ t_Source t ≠ t_Destination t.

Lemma insertLineageOutboxesInTx_cons d wk wks nw d' :
  insertLineageOutboxesInTx d (outboxes_of (wk :: wks)) nw = Ok d' →
  ∃ d1 nw', match wk_outbox wk with
            | Some o => InsertLineageOutbox d o nw = Ok d1
            | None => d1 = d
            end ∧ insertLineageOutboxesInTx d1 (outboxes_of wks) nw' = Ok d'.
Proof.
  unfold outboxes_of. cbn [map List.filter]. destruct (wk_outbox wk) as [o|].
  - rewrite bool_decide_true by done. cbn [insertLineageOutboxesInTx].
    destruct (InsertLineageOutbox d o nw) as [d1|]; [|done]. eauto.
  - rewrite bool_decide_false by (by intros [? ?]). eauto.
Qed.

Lemma coalesce_all E d0 txns m pf ex bt ts wks m' w dA dB dC dD nw :
  prepare_batch E d0 txns m pf ex bt = (ts, Ok (wks, m')) →
  EnableQueuedChecks E = false → Forall coalescible txns →
  (∀ id, is_Some (m !! id) → has_prefix "@" id = false) →
  shared d0 (w_db w) m →
  recordTransactionsInTx dA (map wk_transaction wks) = Ok dB →
  db_transactions dA = db_transactions (w_db w) →
  insertLineageOutboxesInTx dC (outboxes_of wks) nw = Ok dD → same_outbox dC (w_db w) →
  ∃ w', run_each E txns w = (w', Ok ts) ∧ shared d0 (w_db w') m'
    ∧ db_transactions (w_db w') = db_transactions dB ∧ same_outbox dD (w_db w') ∧ dom m' = dom m.
Proof.
  intros Hp Hq Hco. revert m bt ts wks w dA dC nw Hp.
  induction Hco as [|t txns [Hst Hne] _ IH]; intros m bt ts wks w dA dC nw Hp Hat Hsh Hrec Htx Hob Hs.
  { injection Hp as <- <- <-. injection Hrec as <-. injection Hob as <-. by exists w. }
  cbn [prepare_batch] in Hp.
  destruct (prepareQueuedBatchTransaction E d0 t m pf ex bt) as [t' [[[wk m1] bt1]|e]] eqn:E1; [|done].
  destruct (prepare_batch E d0 txns m1 pf ex bt1) as [ts1 [[wks1 m2]|e]] eqn:E2; [|done].
  injection Hp as <- <- <-. cbn [map recordTransactionsInTx] in Hrec.
  destruct (recordTransactionInTx dA (wk_transaction wk)) as [dA'|] eqn:ER; [|done].
  destruct (insertLineageOutboxesInTx_cons _ _ _ _ _ Hob) as (dC' & nw' & HO1 & HO2).
  assert (Ht' : t' = wk_transaction wk).
  { destruct (prepare_inv _ _ _ _ _ _ _ _ _ _ _ E1 Hst Hne) as (? & ? & ? & ? & ? & H'); [|apply H'].
    intros id b Hb. by destruct Hsh as [Hin _], (Hin id b Hb) as (row & v & _ & Hid & _). }
  rewrite <- Ht' in ER.
  destruct (coalesce_one _ _ _ _ _ _ _ _ _ _ _ _ _ _ _ _ _ E1 Hq Hst Hne Hat Hsh ER Htx HO1 Hs)
    as (w1 & R1 & Hsh1 & Htx1 & Hs1 & _ & Hdom1).
  destruct (IH m1 bt1 ts1 wks1 w1 dA' dC' nw' E2) as (w2 & R2 & Hsh2 & Htx2 & Hs2 & Hdom2); try done.
  { intros id Hid. apply Hat. apply elem_of_dom. rewrite <- Hdom1. by apply elem_of_dom. }
  exists w2. split; [|split_and!; try done; congruence].
  cbn [run_each]. unfold mbind, prog_bind. by rewrite R1, R2.
Qed.

(** *** The whole batch *)

Lemma GetBalancesByIDsLite_lookup d ids id b :
  GetBalancesByIDsLite d ids !! id = Some b →
  id ∈ ids ∧ ∃ row, db_balances d !! id = Some row ∧ b = lite row.
Proof.
  induction ids as [|i ids IH]; [done|]. cbn [GetBalancesByIDsLite].
  destruct (GetBalanceByIDLite d i) as [x|] eqn:E.
  - intros [[<- <-]|[_ Hl]]%lookup_insert_Some; [|split; [right|]; by apply IH].
    split; [by left|]. unfold GetBalanceByIDLite in E.
    destruct (db_balances d !! i) as [row|]; [|done]. exists row. by injection E as <-.
  - intros Hl. split; [right|]; by apply IH.
Qed.

(** Ids as the database generates them. *)
Definition keyed (d : db) : Prop :=
  ∀ id row, db_balances d !! id = Some row → b_BalanceID row = id ∧ has_prefix "@" id = false.

Lemma shared_start d m :
  keyed d →
  (∀ id b, m !! id = Some b → ∃ row, db_balances d !! id = Some row ∧ b = lite row) →
  shared d d m.
Proof.
  intros Hk Hm. split; [|done]. intros id b Hb. destruct (Hm id b Hb) as (row & Er & ->).
  exists row, (b_Version row). split; [done|]. split; [apply (Hk id row Er)|].
  split; [apply stands_for_read|]. rewrite Er. f_equal.
  unfold set_version, balance_row_set, lite. by destruct row.
Qed.

(** Two databases with the same rows and the same balances; the versions of
    the balances and the times of the outbox entries may differ. *)
Definition same_ledger (d d' : db) : Prop :=
  db_transactions d = db_transactions d' ∧ same_outbox d d'
  ∧ ∀ id, set_version 0 <$> db_balances d !! id = set_version 0 <$> db_balances d' !! id.

Lemma collect_ids_spec txns :
  NoDup (collectQueuedCoalescingBalanceIDs txns)
  ∧ ∀ id, id ∈ collectQueuedCoalescingBalanceIDs txns → id ≠ "".
Proof.
  destruct (Lock.dedup_keys_spec ∅ (flat_map (λ t, [t_Source t; t_Destination t]) txns)) as [Hnd Hin].
  split; [by apply NoDup_sort_strings|]. intros id Hid.
  apply elem_of_sort_strings, Hin in Hid. tauto.
Qed.

Lemma recordTransactionsInTx_frame d ts d' :
  recordTransactionsInTx d ts = Ok d' →
  db_balances d' = db_balances d ∧ db_outbox d' = db_outbox d.
Proof.
  revert d. induction ts as [|t ts IH]; intros d; [by intros [= <-]|]. cbn [recordTransactionsInTx].
  destruct (recordTransactionInTx d t) as [d1|] eqn:E; [|done].
  apply recordTransactionInTx_Ok in E as (-> & _ & _). intros [E1 E2]%IH. by rewrite E1, E2.
Qed.

Lemma insertLineageOutboxesInTx_frame d os nw d' :
  insertLineageOutboxesInTx d os nw = Ok d' →
  db_balances d' = db_balances d ∧ db_transactions d' = db_transactions d.
Proof.
  revert d nw. induction os as [|[o|] os IH]; intros d nw; [by intros [= <-]| |by intros ?%IH].
  cbn [insertLineageOutboxesInTx]. destruct (InsertLineageOutbox d o nw) as [d1|] eqn:E; [|done].
  apply InsertLineageOutbox_Ok in E as (E1 & E2 & _). intros [F1 F2]%IH. split; congruence.
Qed.

(** The shared balances in the order of their ids. *)
Lemma ordered_balances (m : gmap string Balance) ids :
  (∀ id, id ∈ ids → ∃ b, m !! id = Some b ∧ b_BalanceID b = id) →
  ∃ bs, map (λ id, m !! id) ids = map Some bs ∧ map b_BalanceID bs = ids.
Proof.
  induction ids as [|id ids IH]; intros Hm; [by exists []|].
  destruct (Hm id ltac:(by left)) as (b & Eb & Ib).
  destruct IH as (bs & E1 & E2); [intros i Hi; apply Hm; by right|].
  exists (b :: bs). cbn [map]. by rewrite Eb, E1, E2, Ib.
Qed.

(** Writing the final balances of the set leaves the rows of the single run. *)
Lemma shared_final d d1 d' m ids bs :
  shared d d' m → map (λ id, m !! id) ids = map Some bs → map b_BalanceID bs = ids →
  (∀ id, is_Some (m !! id) ↔ id ∈ ids) → written d d1 bs →
  ∀ id, set_version 0 <$> db_balances d1 !! id = set_version 0 <$> db_balances d' !! id.
Proof.
  intros [Hin Hout] Hbs Hids Hdom (_ & _ & Hw & Hf) id.
  destruct (m !! id) as [b|] eqn:Eb.
  - assert (Hb : b ∈ bs).
    { assert (Some b ∈ map Some bs) as Hsome.
      { rewrite <- Hbs. apply list_elem_of_fmap. exists id. split; [done|]. apply Hdom. by eexists. }
      apply list_elem_of_fmap in Hsome as (b' & E & Hb'). by injection E as ->. }
    destruct (Hin _ _ Eb) as (row & v & E0 & Hid & _ & Ed').
    destruct (Hw b Hb) as (row' & Er & _ & Ed1). rewrite Hid in Er, Ed1.
    assert (row' = row) as -> by congruence. rewrite Ed1, Ed'. cbn [fmap option_fmap option_map].
    rewrite (set_version_twice 0 v (balance_row_set row b)). reflexivity.
  - rewrite Hout by done. f_equal. apply Hf. rewrite Hids. rewrite <- Hdom, Eb. by intros [? ?].
Qed.

(** The set write followed by the records, against the single runs. *)
Lemma set_and_record E d txns m m1 pf ex ts wks w d1 d2 d' ids nw :
  prepare_batch E d txns m pf ex ∅ = (ts, Ok (wks, m1)) →
  EnableQueuedChecks E = false → Forall coalescible txns →
  (∀ id, is_Some (m !! id) → has_prefix "@" id = false) → shared d (w_db w) m → w_db w = d →
  (NoDup ids ∧ ∀ id, id ∈ ids → id ≠ "") → (∀ id, id ∈ ids → is_Some (m !! id)) →
  updateBalanceSet d (map (λ id, m1 !! id) ids) = Ok d1 →
  recordTransactionsInTx d1 (map wk_transaction wks) = Ok d2 →
  insertLineageOutboxesInTx d2 (outboxes_of wks) nw = Ok d' →
  ∃ w', run_each E txns w = (w', Ok ts) ∧ shared d (w_db w') m1
    ∧ db_transactions (w_db w') = db_transactions d2 ∧ same_outbox d' (w_db w') ∧ dom m1 = dom m
    ∧ ∃ bs, written d d1 bs ∧ map (λ id, m1 !! id) ids = map Some bs ∧ map b_BalanceID bs = ids.
Proof.
  intros HP Hq Hco Hat Hsh Hw [Hnd Hne] Hids Hset Hrec Hob.
  destruct (updateBalanceSet_frame _ _ _ Hset) as [F1 F2].
  destruct (recordTransactionsInTx_frame _ _ _ Hrec) as [_ R2].
  destruct (coalesce_all E d txns m pf ex ∅ ts wks m1 w d1 d2 d2 d' nw HP Hq Hco Hat Hsh Hrec)
    as (w' & Hrun & Hsh' & Htx & Hout & Hdom); [congruence|done|unfold same_outbox; congruence|].
  exists w'. split_and!; try done.
  destruct (ordered_balances m1 ids) as (bs & Hbs & Hbid).
  { intros id Hid. specialize (Hids id Hid). rewrite <- elem_of_dom, <- Hdom, elem_of_dom in Hids.
    destruct Hids as [b Hb]. exists b. split; [done|].
    destruct (proj1 Hsh' id b Hb) as (row & v & _ & Hi & _). exact Hi. }
  exists bs. split; [|done]. rewrite Hbs in Hset. apply updateBalanceSet_written; [by rewrite Hbid| |done].
  intros b Hb. apply Hne. rewrite <- Hbid. apply list_elem_of_fmap. by exists b.
Qed.

Lemma batch_locked_sequence Q txns d ts d' w :
  EnableQueuedChecks (q_exec Q) = false → keyed d → Forall coalescible txns →
  persistQueuedTransactionBatchLocked Q (collectQueuedCoalescingBalanceIDs txns) txns d = (ts, Ok d') →
  w_db w = d →
  ∃ w', run_each (q_exec Q) txns w = (w', Ok ts) ∧ same_ledger d' (w_db w').
Proof.
  intros Hq Hk Hco Hp <-. unfold persistQueuedTransactionBatchLocked, loadBalancesForQueuedBatch in Hp.
  destruct (collect_ids_spec txns) as [Hnd Hne]. set (ids := collectQueuedCoalescingBalanceIDs txns) in *.
  rewrite Hq in Hp. cbn [mbind result_bind] in Hp.
  set (m := GetBalancesByIDsLite (w_db w) ids) in *.
  destruct (List.find _ ids) eqn:Ef; [done|]. cbn [wrap_err] in Hp.
  destruct (hooks_fault Q); [done|].
  destruct (queuedBatchReferenceSets Q (w_db w) txns) as [pf ex].
  destruct (prepare_batch _ _ txns m pf ex ∅) as [ts1 [[wks m1]|e]] eqn:EP; [|done].
  injection Hp as <- Hp. cbn [mbind result_bind] in Hp. apply wrap_err_Ok in Hp.
  unfold RecordTransactionsWithBalanceSetAndOutboxes in Hp.
  apply bind_Ok in Hp as (d1 & Hset & Hp). apply bind_Ok in Hp as (d2 & Hrec & Hob).
  apply wrap_err_Ok in Hob.
  destruct (recordTransactionsInTx_frame _ _ _ Hrec) as [R1 R2].
  destruct (insertLineageOutboxesInTx_frame _ _ _ _ Hob) as [O1 O2].
  assert (Hm : ∀ id, is_Some (m !! id) ↔ id ∈ ids).
  { intros id. split; [intros [b Hb]; apply (GetBalancesByIDsLite_lookup _ _ _ _ Hb)|].
    intros Hid%list_elem_of_In. pose proof (find_none _ _ Ef id Hid) as Hn.
    apply negb_false_iff, bool_decide_eq_true in Hn. exact Hn. }
  assert (Hsh : shared (w_db w) (w_db w) m).
  { apply shared_start; [done|]. intros id b Hb. apply (GetBalancesByIDsLite_lookup _ _ _ _ Hb). }
  assert (Hat : ∀ id, is_Some (m !! id) → has_prefix "@" id = false).
  { intros id [b Hb]. destruct (proj1 Hsh id b Hb) as (row & _ & Er & _). apply (Hk id row Er). }
  assert (Hdone : ∃ w', run_each (q_exec Q) txns w = (w', Ok ts1) ∧ shared (w_db w) (w_db w') m1
            ∧ db_transactions (w_db w') = db_transactions d2 ∧ same_outbox d' (w_db w') ∧ dom m1 = dom m
            ∧ ∃ bs, written (w_db w) d1 bs ∧ map (λ id, m1 !! id) ids = map Some bs
                    ∧ map b_BalanceID bs = ids).
  { apply (set_and_record (q_exec Q) (w_db w) txns m m1 pf ex ts1 wks w d1 d2 d' ids (now (q_exec Q)));
      [exact EP|exact Hq|exact Hco|exact Hat|exact Hsh|reflexivity|exact (conj Hnd Hne)
      |intros id; apply Hm|exact Hset|exact Hrec|exact Hob]. }
  destruct Hdone as (w' & Hrun & Hsh' & Htx & Hout & Hdom & bs & Hw & Hbs & Hids).
  exists w'. split; [done|]. split; [congruence|]. split; [done|]. intros id.
  rewrite O1, R1. apply (shared_final (w_db w) d1 (w_db w') m1 ids bs); try done.
  intros i. rewrite <- Hm, <- !elem_of_dom. by rewrite Hdom.
Qed.

(** *** The members of a batch *)

(** [c] is a queue copy of the row [r], which waits without a child. *)
Definition queue_copy_of (d : db) (r c : Transaction) : Prop :=
  r ∈ db_transactions d ∧ t_Status r = StatusQueued ∧ has_child d r = false
  ∧ t_ParentTransaction c = t_TransactionID r ∧ t_Reference c = t_Reference r +:+ "_q"
  ∧ t_Source c = t_Source r ∧ t_Destination c = t_Destination r ∧ t_Currency c = t_Currency r
  ∧ t_Status c = StatusQueued.

Lemma queued_for_coalescing_rows d sc cur ex at_ limit t :
  t ∈ queued_for_coalescing d sc cur ex at_ limit →
  ∃ r, r ∈ db_transactions d ∧ t = scan_transaction_sched r ∧ t_Status r = StatusQueued
    ∧ has_child d r = false.
Proof.
  unfold queued_for_coalescing. intros (i & Hi & _)%elem_of_take.
  apply list_elem_of_lookup_2, list_elem_of_fmap in Hi as (r & -> & Hr).
  rewrite order_asc_perm in Hr. apply elem_of_list_filter in Hr as [Hr Hf].
  repeat (apply andb_true_iff in Hf as [Hf ?]). exists r. split; [done|]. split; [done|].
  split; [by apply String.eqb_eq|]. by apply negb_true_iff.
Qed.

Lemma load_scope_rows Q d leader sc limit l t :
  loadQueuedTransactionsForCoalescingScope Q d leader sc limit = Ok l → t ∈ l →
  ∃ r, r ∈ db_transactions d ∧ t_Status r = StatusQueued ∧ has_child d r = false
    ∧ Balances.same_but_amounts (scan_transaction_sched r) t.
Proof.
  unfold loadQueuedTransactionsForCoalescingScope. destruct (lookup_fault Q _); [done|].
  intros E Ht.
  assert (Hrow : ∃ u, (∃ r, r ∈ db_transactions d ∧ u = scan_transaction_sched r
                        ∧ t_Status r = StatusQueued ∧ has_child d r = false)
                  ∧ t = (Balances.ApplyPrecision u).2).
  { injection E as <-. apply list_elem_of_fmap in Ht as (u & -> & Hu). exists u. split; [|done].
    destruct sc; by eapply queued_for_coalescing_rows. }
  destruct Hrow as (u & (r & Hr & -> & Hst & Hc) & ->). exists r. split_and!; try done.
  destruct (Balances.ApplyPrecision _) eqn:EP. by eapply Balances.ApplyPrecision_frame.
Qed.

Lemma copy_siblings_spec E d siblings w w' copies :
  (∀ t, t ∈ siblings → ∃ r, r ∈ db_transactions d ∧ t_Status r = StatusQueued
     ∧ has_child d r = false ∧ Balances.same_but_amounts (scan_transaction_sched r) t) →
  copy_siblings E siblings w = (w', Ok copies) →
  w_db w' = w_db w ∧ Forall (λ c, ∃ r, queue_copy_of d r c) copies.
Proof.
  revert w copies. induction siblings as [|t siblings IH]; intros w copies Hrows Hc.
  { by injection Hc as <- <-. }
  cbn [copy_siblings] in Hc.
  destruct (canCoalesceQueuedOriginal _); [|apply IH in Hc; [done|intros x Hx; apply Hrows; by right]].
  apply prog_bind_Ok in Hc as (w1 & c & E1 & Hc). apply prog_bind_Ok in Hc as (w2 & rest & E2 & Hc).
  injection Hc as <- <-. apply IH in E2 as [Hdb Hf]; [|intros x Hx; apply Hrows; by right].
  unfold createQueueCopy, fresh_id in E1. injection E1 as <- <-. split; [exact Hdb|].
  constructor; [|done]. destruct (Hrows t ltac:(by left)) as (r & Hr & Hst & Hch & Hsame).
  exists r. unfold queue_copy_of. split; [done|]. split; [done|]. split; [done|].
  unfold Balances.same_but_amounts in Hsame. rewrite Hsame. destruct r, t. cbn in *. done.
Qed.

Lemma build_batch_spec Q leader size scopes w w' batch :
  first_batch Q leader size scopes w = (w', Ok batch) →
  w_db w' = w_db w
  ∧ (batch = [] ∨ ∃ rest, batch = leader :: rest ∧ rest ≠ []
       ∧ Forall (λ c, ∃ r, queue_copy_of (w_db w) r c) rest).
Proof.
  revert w. induction scopes as [|sc scopes IH]; intros w Hb.
  { injection Hb as <- <-. split; [done|by left]. }
  cbn [first_batch] in Hb. apply prog_bind_Ok in Hb as (w1 & b & E1 & Hb).
  unfold buildQueuedCoalescingBatchForScope in E1.
  apply prog_bind_Ok in E1 as (w2 & sib & E2 & E1). apply prog_bind_Ok in E1 as (w3 & copies & E3 & E1).
  injection E1 as <- <-. unfold read in E2. injection E2 as <- E2.
  apply (copy_siblings_spec _ (w_db w)) in E3 as [Hdb Hf]; [|intros t Ht; by eapply load_scope_rows].
  destruct (_ <=? _)%nat eqn:El.
  - injection Hb as <- <-. split; [exact Hdb|]. right. exists copies. split_and!; try done.
    apply Nat.leb_le in El. intros ->. simpl in El. lia.
  - destruct (IH _ Hb) as [Hdb2 H2]. rewrite Hdb in *. done.
Qed.

Lemma copy_siblings_db E siblings w : w_db (copy_siblings E siblings w).1 = w_db w.
Proof.
  revert w. induction siblings as [|t siblings IH]; intros w; [done|]. cbn [copy_siblings].
  destruct (canCoalesceQueuedOriginal _); [|apply IH].
  unfold mbind, prog_bind, createQueueCopy, mbind, prog_bind, fresh_id, mret, prog_ret.
  specialize (IH (w <| w_next := S (w_next w) |>)).
  by destruct (copy_siblings E siblings _) as [w2 [l|e]].
Qed.

Lemma first_batch_db Q leader size scopes w w' r :
  first_batch Q leader size scopes w = (w', r) → w_db w' = w_db w.
Proof.
  revert w. induction scopes as [|sc scopes IH]; intros w; [by intros [= <- _]|]. cbn [first_batch].
  unfold mbind, prog_bind, buildQueuedCoalescingBatchForScope, mbind, prog_bind, read.
  destruct (loadQueuedTransactionsForCoalescingScope _ _ _ _ _) as [l|e]; [|by intros [= <- _]].
  pose proof (copy_siblings_db (q_exec Q) l w) as Hc.
  destruct (copy_siblings (q_exec Q) l w) as [w1 [copies|e]]; [|by intros [= <- _]].
  unfold mret, prog_ret. cbn [fst] in Hc. destruct (2 <=? length (leader :: copies))%nat.
  - by intros [= <- _].
  - intros E%IH. congruence.
Qed.

Lemma batch_lock_db E ids a b c w :
  w_db (on_contention E a b c (acquireBalanceSetLock E ids) w).1 = w_db w.
Proof.
  unfold on_contention, acquireBalanceSetLock, mbind, prog_bind, fresh_id. cbn -[run_locker].
  match goal with |- context [run_locker E ?m ?w1] =>
    pose proof (Ledger.run_locker_db E m w1) as Hdb; destruct (run_locker E m w1) as [w2 [u|e]] end;
    exact Hdb.
Qed.

Lemma releaseLock_db E m w : w_db (releaseLock E m w).1 = w_db w.
Proof. unfold releaseLock. by destruct (Lock.Unlock _ _ _ _). Qed.

(** A batch that fails leaves the database alone; one that succeeds leaves what
    its transactions leave one by one. *)
Lemma persist_batch_sequence Q leader rest w :
  EnableQueuedChecks (q_exec Q) = false → keyed (w_db w) → Forall coalescible (leader :: rest) →
  match persistQueuedTransactionBatch Q leader rest w with
  | (w', (leader', Ok _)) =>
      ∃ w2 ts, run_each (q_exec Q) (leader :: rest) w = (w2, Ok (leader' :: ts))
        ∧ same_ledger (w_db w') (w_db w2)
  | (w', (_, Err _)) => w_db w' = w_db w
  end.
Proof.
  intros Hq Hk Hco. unfold persistQueuedTransactionBatch.
  destruct (validateQueuedBatchCurrencies _); [|done].
  set (ids := collectQueuedCoalescingBalanceIDs (leader :: rest)).
  pose proof (batch_lock_db (q_exec Q) ids (t_Source leader) (t_Destination leader) (t_Currency leader) w) as Hdb.
  destruct (on_contention _ _ _ _ _ w) as [w1 [locker|e]]; cbn [fst] in Hdb; [|exact Hdb].
  unfold persist_locked. rewrite Hdb.
  destruct (persistQueuedTransactionBatchLocked Q ids (leader :: rest) (w_db w)) as [ts [d'|e]] eqn:EP.
  - destruct (batch_locked_sequence Q (leader :: rest) (w_db w) ts d' w Hq Hk Hco EP eq_refl)
      as (w2 & Hrun & Hsame).
    pose proof (releaseLock_db (q_exec Q) locker (w1 <| w_db := d' |>)) as Hr.
    destruct (releaseLock (q_exec Q) locker _) as [w3 u]. cbn [fst] in Hr. rewrite Hr.
    assert (Hts : ∃ l ts', ts = l :: ts').
    { cbn [run_each] in Hrun. apply prog_bind_Ok in Hrun as (? & l & _ & Hrun).
      apply prog_bind_Ok in Hrun as (? & tl & _ & Hrun). injection Hrun as _ <-. eauto. }
    destruct Hts as (l & ts' & ->). exists w2, ts'. done.
  - pose proof (releaseLock_db (q_exec Q) locker w1) as Hr.
    destruct (releaseLock (q_exec Q) locker w1) as [w3 u]. cbn [fst] in Hr. congruence.
Qed.


End equivalence.

(** ** Witness

    Two payments of 300 and 200 from a funded balance wait in the queue. *)

Definition ex_row (id : string) (amount : Z) : Balance :=
  empty_balance <| b_BalanceID := id |> <| b_Version := 1 |> <| b_Currency := "USD" |>
    <| b_CreditBalance := Some amount |> <| b_DebitBalance := Some 0 |> <| b_Balance := Some amount |>.
Definition ex_queued (id ref : string) (amount : Z) (at_ : time) : Transaction :=
  empty_transaction <| t_TransactionID := id |> <| t_Reference := ref |>
    <| t_Source := "bln_a" |> <| t_Destination := "bln_b" |> <| t_Currency := "USD" |>
    <| t_PreciseAmount := Some amount |> <| t_AmountString := "3" |>
    <| t_Precision := Float64.of_Z 100 |> <| t_Status := StatusQueued |> <| t_CreatedAt := at_ |>.

Definition ex_db : db :=
  mkDB (<["bln_a" := ex_row "bln_a" 1000]> {["bln_b" := ex_row "bln_b" 0]})
    [ex_queued "txn_1" "ref_1" 300 10; ex_queued "txn_2" "ref_2" 200 20] [].
Definition ex_qenv : qenv := mkQEnv Ledger.ex_env true 100 false None (λ _, None).
Definition ex_leader : Transaction :=
  (ex_queued "txn_c" "ref_1_q" 300 10) <| t_ParentTransaction := "txn_1" |>.
Definition ex_world : world := mkWorld ex_db ∅ 0.

Definition ex_handled : world * (bool * Transaction) :=
  tryRecordQueuedTransactionBatch ex_qenv false ex_leader ex_world.

Example ex_batch_rows :
  map (λ t, (t_Reference t, t_Status t)) (db_transactions (w_db ex_handled.1))
  = [("ref_1", "QUEUED"); ("ref_2", "QUEUED"); ("ref_1_q", "APPLIED"); ("ref_2_q", "APPLIED")]
  ∧ b_Balance <$> db_balances (w_db ex_handled.1) !! "bln_a" = Some (Some 500).
Proof. vm_compute. by split. Qed.

Lemma ex_batch_keyed : keyed ex_db.
Proof.
  assert (Hall : map_Forall (λ id row, b_BalanceID row = id ∧ has_prefix "@" id = false) (db_balances ex_db)).
  { refine (bool_decide_unpack _ _). vm_compute. exact I. }
  exact Hall.
Qed.

Lemma ex_rows_ok r : r ∈ db_transactions ex_db → t_Status r = StatusQueued → t_Source r ≠ t_Destination r.
Proof. intros Hr _. apply list_elem_of_In in Hr. by destruct Hr as [<-|[<-|[]]]. Qed.


End Coalescing.
