(* ===== verification/TaskQueue.v ===== *)
(** * The task queue (queue.go)

    Tasks wait in named asynq queues under a task id.  asynq itself is a
    library: the interface [Asynq] says what the code relies on.  Routing by
    the hash of the source balance, the hot lane, and the tasks for inflight
    commits, voids and expiries follow queue.go. *)

From S2P Require Import Prelude Float64 Types Lock Execution HotPairs.

Module TaskQueue.

(** ** Payloads *)

Record InflightActionPayload := mkInflightActionPayload {
  TransactionID : string;
  Action : string;
  PreciseAmount : string;
  ActionID : string;
}.

Inductive payload :=
| PTransaction (t : Transaction)
| PInflightAction (p : InflightActionPayload)
| PTransactionID (id : string).

Definition InflightActionCommit : string := "commit".
Definition InflightActionVoid : string := "void".

(** [json.Marshal] fails on NaN and infinities. *)
Fixpoint meta_json_ok (v : metaval) : bool :=
  match v with
  | MNum x => Float64.is_finite x
  | MStr _ | MBool _ | MNil => true
  | MList l => forallb meta_json_ok l
  | MObj l => forallb (λ kv, meta_json_ok kv.2) l
  end.

Definition txn_json_ok (t : Transaction) : bool :=
  Float64.is_finite (t_Amount t) && Float64.is_finite (t_Precision t)
  && Float64.is_finite (t_OverdraftLimit t)
  && forallb (λ kv, meta_json_ok kv.2) (map_to_list (t_MetaData t)).

(** A transaction after [json.Marshal] and [json.Unmarshal]:
    [SkipBalanceUpdate] is not serialised. *)
Definition json_txn (t : Transaction) : Transaction := t <| t_SkipBalanceUpdate := false |>.

(** ** asynq *)

Class Asynq := {
  tasks : Type;
  no_tasks : tasks;
  (** [Inspector.GetTaskInfo(queue, id)]. *)
  lookup_task : tasks → string → string → option payload;
  (** [Client.Enqueue] with [TaskID], [Queue] and [ProcessIn]. *)
  enqueue_task : tasks → string → string → payload → Z → tasks * option error;
  lookup_no_tasks : ∀ queue id, lookup_task no_tasks queue id = None;
  enqueue_free : ∀ ts queue id p d ts',
    enqueue_task ts queue id p d = (ts', None) →
    lookup_task ts queue id = None
    ∧ ∀ q i, lookup_task ts' q i
             = if decide (q = queue ∧ i = id) then Some p else lookup_task ts q i;
  enqueue_taken : ∀ ts queue id p d p0,
    lookup_task ts queue id = Some p0 →
    enqueue_task ts queue id p d
    = (ts, Some (ESentinel ErrTaskIDConflict "task ID conflicts with another task"));
  enqueue_failed : ∀ ts queue id p d ts' e,
    enqueue_task ts queue id p d = (ts', Some e) → ts' = ts;
}.

(** A queue that never loses its connection. *)
#[export] Program Instance memory_queue : Asynq := {|
  tasks := gmap (string * string) payload;
  no_tasks := ∅;
  lookup_task ts queue id := ts !! (queue, id);
  enqueue_task ts queue id p d :=
    match ts !! (queue, id) with
    | Some _ => (ts, Some (ESentinel ErrTaskIDConflict "task ID conflicts with another task"))
    | None => (<[(queue, id) := p]> ts, None)
    end;
|}.
Next Obligation. intros. apply lookup_empty. Qed.
Next Obligation.
  intros ts queue id p d ts' E. simpl in *. destruct (ts !! (queue, id)) eqn:El; [done|].
  injection E as <-. split; [done|]. intros q i. destruct (decide _) as [[-> ->]|Hne].
  - apply lookup_insert_eq.
  - apply lookup_insert_ne. intros [= -> ->]. by apply Hne.
Qed.
Next Obligation. intros ts queue id p d p0 E. simpl in *. by rewrite E. Qed.
Next Obligation.
  intros ts queue id p d ts' e E. simpl in *. destruct (ts !! (queue, id)); congruence.
Qed.

(** ** Configuration *)

Record Config := mkConfig {
  TransactionQueue : string;
  NumberOfQueues : Z;
  EnableHotLane : bool;
  HotQueueName : string;
  InflightExpiryQueue : string;
  InflightCommitQueue : string;
}.

(** ** Routing *)

(** FNV-1a on 32 bits: [hasher.Write] then [Sum32]. *)
Definition fnv_step (h : Z) (c : ascii) : Z :=
  (Z.lxor h (Z.of_N (N_of_ascii c)) * 16777619) mod 2 ^ 32.
Definition hashBalanceID (balanceID : string) : Z :=
  foldl fnv_step 2166136261 (list_ascii_of_string balanceID).

Definition queue_name (c : Config) (i : Z) : string :=
  TransactionQueue c +:+ "_" +:+ Z_to_string i.

Definition transactionQueueName (c : Config) (t : Transaction) : result string :=
  if EnableHotLane c
     && String.eqb (HotPairs.QueueLaneFromMetadata (t_MetaData t)) HotPairs.LaneHot
  then Ok (HotQueueName c)
  else if NumberOfQueues c =? 0 then Err (EPanic "integer divide by zero")
  else Ok (queue_name c (Z.rem (hashBalanceID (t_Source t)) (NumberOfQueues c) + 1)).

(** ** Enqueueing *)

Section queue.
Context `{Asynq}.

Definition json_error : error := ENew "json: unsupported value".

(** [Enqueue]: delayed until [ScheduledFor]. *)
Definition Enqueue (c : Config) (now : time) (t : Transaction) : prog tasks unit := λ ts,
  if txn_json_ok t then
    match transactionQueueName c t with
    | Err e => (ts, Err e)
    | Ok name =>
        let delay := if is_zero_time (t_ScheduledFor t) then 0 else t_ScheduledFor t - now in
        match enqueue_task ts name (t_TransactionID t) (PTransaction (json_txn t)) delay with
        | (ts, None) => (ts, Ok tt)
        | (ts, Some e) => (ts, Err e)
        end
    end
  else (ts, Err json_error).

Definition ErrInflightActionQueued_msg : string :=
  "a commit or void is already queued for this transaction".

Definition EnqueueInflightAction (c : Config) (p : InflightActionPayload) : prog tasks unit := λ ts,
  match enqueue_task ts (InflightCommitQueue c) ("inflight-action:" +:+ TransactionID p)
          (PInflightAction p) 0 with
  | (ts, None) => (ts, Ok tt)
  | (ts, Some e) =>
      if errors_is e ErrTaskIDConflict
      then (ts, Err (ESentinel ErrInflightActionQueued ErrInflightActionQueued_msg))
      else (ts, Err e)
  end.

Definition enqueue_plain (queue id : string) (p : payload) (delay : Z) : prog tasks unit := λ ts,
  match enqueue_task ts queue id p delay with
  | (ts, None) => (ts, Ok tt)
  | (ts, Some e) => (ts, Err e)
  end.

Definition queueInflightExpiry (c : Config) (now : time) (id : string) (expiresAt : time)
    : prog tasks unit :=
  enqueue_plain (InflightExpiryQueue c) id (PTransactionID id) (expiresAt - now).

Definition QueueInflightExpiry (c : Config) (now : time) (t : Transaction) : prog tasks unit :=
  if is_zero_time (t_InflightExpiryDate t) then mret tt
  else queueInflightExpiry c now (t_TransactionID t) (t_InflightExpiryDate t).

(** [actionID] is the generated one. *)
Definition queueInflightCommit (c : Config) (now : time) (actionID id : string)
    (commitAt : time) : prog tasks unit :=
  enqueue_plain (InflightCommitQueue c) id
    (PInflightAction (mkInflightActionPayload id InflightActionCommit "0" actionID))
    (commitAt - now).

Definition QueueInflightCommit (c : Config) (now : time) (actionID : string) (t : Transaction)
    : prog tasks unit :=
  if is_zero_time (t_InflightCommitDate t) then mret tt
  else queueInflightCommit c now actionID (t_TransactionID t) (t_InflightCommitDate t).

(** ** Lookup *)

(** [json.Unmarshal(task.Payload, &txn)] *)
Definition payload_txn (p : payload) : result Transaction :=
  match p with
  | PTransaction t => Ok t
  | _ => Err (ENew "json: cannot unmarshal into Go value of type model.Transaction")
  end.

Fixpoint search_queues (ts : tasks) (c : Config) (id : string) (n : nat) (i : Z)
    : option payload :=
  match n with
  | O => None
  | S n =>
      match lookup_task ts (queue_name c i) id with
      | Some p => Some p
      | None => search_queues ts c id n (i + 1)
      end
  end.

Definition GetTransactionFromQueue (ts : tasks) (c : Config) (id : string)
    : result (option Transaction) :=
  let found :=
    match search_queues ts c id (Z.to_nat (NumberOfQueues c)) 1 with
    | Some p => Some p
    | None => if EnableHotLane c then lookup_task ts (HotQueueName c) id else None
    end in
  match found with
  | Some p => Some <$> payload_txn p
  | None => Ok None
  end.

(** ** Lemmas *)

Lemma hashBalanceID_range s : 0 <= hashBalanceID s < 2 ^ 32.
Proof.
  unfold hashBalanceID. assert (∀ l h, 0 <= h < 2 ^ 32 → 0 <= foldl fnv_step h l < 2 ^ 32) as Hl.
  { induction l as [|c l IH]; intros h Hh; [done|]. apply IH. unfold fnv_step.
    apply Z.mod_pos_bound. lia. }
  apply Hl. lia.
Qed.

Lemma queue_name_inj c i j : queue_name c i = queue_name c j → i = j.
Proof.
  unfold queue_name. intros E. apply string_app_inj_l, string_app_inj_l in E.
  by apply Z_to_string_inj in E.
Qed.

Lemma search_queues_range ts c id n i p :
  search_queues ts c id n i = Some p →
  ∃ j, i <= j < i + Z.of_nat n ∧ lookup_task ts (queue_name c j) id = Some p.
Proof.
  revert i. induction n as [|n IH]; intros i; [done|]. cbn [search_queues].
  destruct (lookup_task ts (queue_name c i) id) eqn:E.
  - intros [= <-]. exists i. split; [lia|done].
  - intros (j & Hj & Ej)%IH. exists j. split; [lia|done].
Qed.

Lemma search_queues_found ts c id n i j p :
  i <= j < i + Z.of_nat n → lookup_task ts (queue_name c j) id = Some p →
  is_Some (search_queues ts c id n i).
Proof.
  revert i. induction n as [|n IH]; intros i Hj Ej; [lia|]. cbn [search_queues].
  destruct (lookup_task ts (queue_name c i) id) eqn:E; [by eexists|].
  apply IH; [|done]. assert (j ≠ i) by (intros ->; congruence). lia.
Qed.

Lemma search_queues_none ts c id n i :
  (∀ q, lookup_task ts q id = None) → search_queues ts c id n i = None.
Proof. intros Hn. revert i. induction n; intros i; [done|]. simpl. by rewrite Hn. Qed.

(** Where [Enqueue] puts a transaction. *)
Lemma Enqueue_Ok c now t ts ts' :
  Enqueue c now t ts = (ts', Ok tt) →
  ∃ name, transactionQueueName c t = Ok name ∧ lookup_task ts name (t_TransactionID t) = None
    ∧ ∀ q i, lookup_task ts' q i
             = if decide (q = name ∧ i = t_TransactionID t) then Some (PTransaction (json_txn t))
               else lookup_task ts q i.
Proof.
  unfold Enqueue. destruct (txn_json_ok t); [|done].
  destruct (transactionQueueName c t) as [name|e]; [|done].
  destruct (enqueue_task _ _ _ _ _) as [ts1 [e|]] eqn:E; [done|]. intros [= <-].
  exists name. split; [done|]. by apply enqueue_free in E.
Qed.

Lemma queue_index_range c s :
  0 < NumberOfQueues c →
  1 <= Z.rem (hashBalanceID s) (NumberOfQueues c) + 1 <= NumberOfQueues c.
Proof.
  intros Hn. pose proof (hashBalanceID_range s).
  pose proof (Z.rem_bound_pos (hashBalanceID s) (NumberOfQueues c)). lia.
Qed.

Lemma transactionQueueName_cases c t name :
  0 < NumberOfQueues c → transactionQueueName c t = Ok name →
  (EnableHotLane c = true ∧ name = HotQueueName c)
  ∨ ∃ j, 1 <= j <= NumberOfQueues c ∧ name = queue_name c j.
Proof.
  intros Hn. unfold transactionQueueName. destruct (Z.eqb_spec (NumberOfQueues c) 0); [lia|].
  destruct (EnableHotLane c); cbn [andb]; [destruct (String.eqb _ _)|];
    intros [= <-]; eauto using queue_index_range.
Qed.

(** ** Properties *)

(** A transaction that was enqueued is found again under its id, as it was
    given up to the unserialised field, in whatever queue routing put it; and
    the transactions of one source that are not in the hot lane share one of
    the [NumberOfQueues] queues the workers serve. *)
Theorem Enqueue_then_GetTransactionFromQueue c now t ts ts' :
  0 < NumberOfQueues c → (∀ q, lookup_task ts q (t_TransactionID t) = None) →
  Enqueue c now t ts = (ts', Ok tt) →
  GetTransactionFromQueue ts' c (t_TransactionID t) = Ok (Some (json_txn t))
  ∧ (∀ t2, HotPairs.QueueLaneFromMetadata (t_MetaData t2) = HotPairs.LaneNormal →
       t_Source t2 = t_Source t →
       ∃ i, 1 <= i <= NumberOfQueues c ∧ transactionQueueName c t2 = Ok (queue_name c i)
         ∧ (HotPairs.QueueLaneFromMetadata (t_MetaData t) = HotPairs.LaneNormal →
            transactionQueueName c t = Ok (queue_name c i))).
Proof.
  intros Hn Hfree HE. apply Enqueue_Ok in HE as (name & Hname & _ & Hl). split.
  - unfold GetTransactionFromQueue.
    assert (Hval : ∀ q p, lookup_task ts' q (t_TransactionID t) = Some p →
              p = PTransaction (json_txn t)).
    { intros q p. rewrite Hl, Hfree. destruct (decide _); congruence. }
    assert (Hat : lookup_task ts' name (t_TransactionID t) = Some (PTransaction (json_txn t))).
    { rewrite Hl. by rewrite decide_True. }
    destruct (search_queues ts' c _ _ 1) as [p|] eqn:Es.
    + apply search_queues_range in Es as (j & _ & Ej). by rewrite (Hval _ _ Ej).
    + destruct (transactionQueueName_cases c t name Hn Hname) as [[-> ->]|(j & Hj & ->)].
      * by rewrite Hat.
      * apply (search_queues_found _ _ _ (Z.to_nat (NumberOfQueues c)) 1) in Hat as [? ?];
          [congruence|lia].
  - intros t2 Hlane Hsrc.
    exists (Z.rem (hashBalanceID (t_Source t)) (NumberOfQueues c) + 1).
    split; [by apply queue_index_range|]. unfold transactionQueueName.
    rewrite (proj2 (Z.eqb_neq (NumberOfQueues c) 0)) by lia. rewrite Hlane, Hsrc.
    rewrite andb_false_r. split; [done|]. intros ->. by rewrite andb_false_r.
Qed.

End queue.

Definition ex_config : Config :=
  mkConfig "new:transaction" 20 true "hot_transactions" "new:inflight-expiry" "new:inflight-commit".
Definition ex_txn : Transaction :=
  empty_transaction <| t_TransactionID := "txn_1" |> <| t_Source := "bln_1" |>
    <| t_SkipBalanceUpdate := true |>.

Example hash_abc : hashBalanceID "foobar" = 0xbf9cf968.
Proof. vm_compute. reflexivity. Qed.

Lemma Enqueue_then_GetTransactionFromQueue_witness :
  let ts' := (Enqueue ex_config 0 ex_txn no_tasks).1 in
  GetTransactionFromQueue ts' ex_config "txn_1" = Ok (Some (json_txn ex_txn)).
Proof.
  destruct (Enqueue ex_config 0 ex_txn no_tasks) as [ts' [[]|e]] eqn:E;
    [|vm_compute in E; discriminate E].
  apply (Enqueue_then_GetTransactionFromQueue ex_config 0 ex_txn no_tasks ts'
           ltac:(vm_compute; reflexivity) (λ q, lookup_no_tasks q "txn_1") E).
Defined.

End TaskQueue.
