(* ===== verification/Inflight.v ===== *)
(** * Inflight transactions (transaction_inflight.go, lineage_shadow.go)

    Committing and voiding held transactions, in full or in part, one leg or
    every leg under a parent, directly or through the task queue, with the
    shadow transactions of fund lineage following their parent.  The path to
    the ledger is [Execution.RecordTransaction]; the lock on the transaction,
    the checks and the order of effects are those of the code. *)

From Stdlib Require Import Floats.SpecFloat.
From S2P Require Import Prelude Float64 Decimal Types Balances Distributions Datastore Lock.
From S2P Require Import HotPairs Execution Ledger TaskQueue.

Module Inflight.

Import Datastore Execution TaskQueue.

Record ienv := mkIEnv {
  i_exec : env;
  i_queue : TaskQueue.Config;
  BatchSize : Z;
  shadow_fuel : nat;             (* bounds the chain of shadows of shadows *)
}.

(** The ledger's stores and the task queue. *)
Record qworld `{Asynq} := mkQ { q_core : world; q_tasks : tasks }.
Arguments mkQ {_} _ _.

Section world.
Context `{Decimal, Asynq}.

Abbreviation I := (prog qworld).

Definition core {A} (m : M A) : I A := λ w,
  let '(c, r) := m (q_core w) in (mkQ c (q_tasks w), r).
Definition queue {A} (m : prog tasks A) : I A := λ w,
  let '(ts, r) := m (q_tasks w) in (mkQ (q_core w) ts, r).

Definition is_panic (e : error) : bool := match e with EPanic _ => true | _ => false end.

(** An error that is only logged; a panic still unwinds. *)
Definition logged (m : I unit) : I unit := λ w,
  match m w with
  | (w, Err e) => (w, if is_panic e then Err e else Ok tt)
  | r => r
  end.

Definition lock_single (E : env) (l : Lock.Locker) : M unit := λ w,
  match Lock.Locker_Lock (now E) (Lock.on_lock (Lock.faults_at (lock_env E) 0) (Lock.key l)) l
          (LockDuration E) (w_redis w) with
  | (None, s) => (w <| w_redis := s |>, Ok tt)
  | (Some e, s) => (w <| w_redis := s |>, Err e)
  end.

(** [releaseSingleLock]: an error is only logged. *)
Definition releaseSingleLock (E : env) (l : Lock.Locker) : M unit := λ w,
  let '(_, s) := Lock.Locker_Unlock (now E) None l (w_redis w) in
  (w <| w_redis := s |>, Ok tt).

Definition with_single_release {A} (E : env) (l : Lock.Locker) (body : I A) : I A := λ w,
  let '(w, r) := body w in
  let '(w, _) := core (releaseSingleLock E l) w in
  (w, r).

(** A single-key lock held around [body] and released on every path. *)
Definition locked {A} (E : env) (lockKey msg : string) (body : I A) : I A :=
  v ← core (fresh_id E "loc");
  let l := Lock.mkLocker lockKey v in
  _ ← ctx_err msg (core (lock_single E l));
  with_single_release E l body.

(** ** Checks *)

Definition IsInflightTransaction (t : Transaction) : bool :=
  String.eqb (t_Status t) StatusInflight
  || (String.eqb (t_Status t) StatusQueued
      && bool_decide (t_MetaData t !! "inflight" = Some (MBool true))).

(** The row, or the queued transaction when the error is [sql.ErrNoRows]
    itself. *)
Definition fetch_inflight (E : ienv) (id : string) : I Transaction := λ w,
  match GetTransaction (w_db (q_core w)) id with
  | Ok t => (w, Ok t)
  | Err e =>
      if error_is_exactly e ErrNoRows then
        match GetTransactionFromQueue (q_tasks w) (i_queue E) id with
        | Ok (Some t) => (w, Ok t)
        | Ok None => (w, Err (ENew "transaction not found"))
        | Err e => (w, Err e)
        end
      else (w, Err e)
  end.

Definition fetchAndValidateInflightTransaction (E : ienv) (id : string) : I Transaction :=
  t ← fetch_inflight E id;
  if IsInflightTransaction t then
    voided ← core (read (λ d, Ok (IsParentTransactionVoid d id)));
    if (voided : bool) then raise (ENew "transaction has already been voided") else mret t
  else raise (ENew "transaction is not in inflight status").

Definition calculateRemainingAmount (t : Transaction) : I Z :=
  core (read (λ d, Ok (ival (t_PreciseAmount t)
                       - GetTotalCommittedTransactions d (t_TransactionID t)))).

Definition checkTransactionCommitStatus (amountLeft : Z) : result unit :=
  fail_if (amountLeft =? 0) (ENew "cannot commit. Transaction already committed").

(** A quotient of [big.Float]s at the precision of the integer (at least 64
    bits), rounded again to a float64. *)
Definition to_float64 (x : spec_float) : float64 :=
  match x with
  | S754_finite s m e =>
      binary_normalize Float64.prec Float64.emax (if s then Zneg m else Zpos m) e s
  | _ => x
  end.

Definition convertPreciseToFloat (amount : Z) (precision : float64) : result float64 :=
  let a := match amount with
           | Z0 => S754_zero false
           | Zpos m => S754_finite false m 0
           | Zneg m => S754_finite true m 0
           end in
  match SFdiv (Z.max 64 (Z.log2 (Z.abs amount) + 1)) (2 ^ 31) a precision with
  | S754_nan => Err (EPanic "division of zero by zero or infinity by infinity")
  | x => Ok (to_float64 x)
  end.

(** ["%.2f"] on a [*big.Int]. *)
Definition bad_verb (amount : Z) : string := "%!f(big.Int=" +:+ Z_to_string amount +:+ ")".

Definition validateRequestedAmount (t : Transaction) (amount amountLeft : Z) : result unit :=
  if amount <? 0 then Err (ENew "commit amount cannot be negative")
  else if amount =? 0 then Ok tt
  else if ival (t_PreciseAmount t) <? amount then
    Err (ENew ("cannot commit more than the original transaction amount. Original: "
               +:+ t_Currency t +:+ Float64.format_fixed2 (t_Amount t) +:+ ", Requested: "
               +:+ t_Currency t +:+ bad_verb amount))
  else if amountLeft <? amount then
    left ← convertPreciseToFloat amountLeft (t_Precision t);
    Err (ENew ("cannot commit more than the remaining amount. Available: "
               +:+ t_Currency t +:+ Float64.format_fixed2 left +:+ ", Requested: "
               +:+ t_Currency t +:+ bad_verb amount))
  else Ok tt.

Definition updateTransactionAmount (t : Transaction) (amount amountLeft : Z) : result Transaction :=
  if amount =? 0 then
    x ← convertPreciseToFloat amountLeft (t_Precision t);
    mret (t <| t_Amount := x |> <| t_PreciseAmount := Some amountLeft |>)
  else mret (t <| t_PreciseAmount := Some amount |>).

Definition validateAndUpdateAmount (t : Transaction) (amount : Z) : I Transaction :=
  amountLeft ← calculateRemainingAmount t;
  _ ← lift (checkTransactionCommitStatus amountLeft);
  _ ← lift (validateRequestedAmount t amount amountLeft);
  t ← lift (updateTransactionAmount t amount amountLeft);
  _ ← lift (convertPreciseToFloat amountLeft (t_Precision t));
  mret t.

(** ** Committing and voiding one transaction *)

(** The child of an inflight transaction that settles it. *)
Definition settling_child (E : env) (t : Transaction) (id reference : string) : Transaction :=
  let t := t <| t_ParentTransaction := t_TransactionID t |> <| t_CreatedAt := now E |> in
  let t := t <| t_EffectiveDate := match t_EffectiveDate t with
                                   | Some d => Some d | None => Some (t_CreatedAt t) end |> in
  let t := t <| t_TransactionID := id |> <| t_Reference := reference |> in
  t <| t_Hash := Distributions.HashTxn t |>.

Definition child_reference (E : env) (reference : string) : M string :=
  if String.eqb reference "" then fresh_id E "ref" else mret reference.

(** [enqueueTransactions(ctx, queue, t, nil)] *)
Definition enqueue_one (E : ienv) (t : Transaction) : I unit :=
  queue (Enqueue (i_queue E) (now (i_exec E)) t).

Definition finalizeCommitment (E : ienv) (t : Transaction) (withQueue : bool) (reference : string)
    : I Transaction :=
  let t := t <| t_Status := StatusCommit |> in
  id ← core (fresh_id (i_exec E) "txn");
  reference ← core (child_reference (i_exec E) reference);
  let t := settling_child (i_exec E) t id reference in
  if withQueue then
    _ ← ctx_err "failed to enqueue transaction" (enqueue_one E t);
    mret (t <| t_Status := StatusApplied |>)
  else ctx_err "saving transaction to db error" (core (RecordTransaction (i_exec E) t)).

Definition finalizeVoidTransaction (E : ienv) (t : Transaction) (amountLeft : Z)
    (reference : string) : I Transaction :=
  let t := t <| t_Status := StatusVoid |> <| t_PreciseAmount := Some amountLeft |> in
  id ← core (fresh_id (i_exec E) "txn");
  reference ← core (child_reference (i_exec E) reference);
  let t := (Balances.ApplyPrecision (settling_child (i_exec E) t id reference)).2 in
  ctx_err "saving transaction to db error" (core (RecordTransaction (i_exec E) t)).

Definition LineageTypeShadowCommit : string := "shadow_commit".
Definition LineageTypeShadowVoid : string := "shadow_void".

Definition commit_body (E : ienv) (withQueue : bool) (id : string) (amount : Z)
    (reference : string) : I Transaction :=
  t ← fetchAndValidateInflightTransaction E id;
  t ← validateAndUpdateAmount t amount;
  finalizeCommitment E t withQueue reference.

Definition void_body (E : ienv) (id reference : string) : I Transaction :=
  t ← fetchAndValidateInflightTransaction E id;
  amountLeft ← calculateRemainingAmount t;
  if amountLeft =? 0 then raise (ENew "cannot void. Transaction already committed")
  else finalizeVoidTransaction E t amountLeft reference.

(** [shadow] is [queueShadowWork]. *)
Definition commit_with (shadow : string → string → I unit) (E : ienv) (withQueue : bool)
    (id : string) (amount : Z) (reference : string) : I Transaction :=
  locked (i_exec E) ("inflight-commit:" +:+ id) "failed to acquire lock for inflight commit" (
    committed ← commit_body E withQueue id amount reference;
    _ ← logged (shadow id LineageTypeShadowCommit);
    mret committed).

Definition void_with (shadow : string → string → I unit) (E : ienv) (id reference : string)
    : I Transaction :=
  locked (i_exec E) ("inflight-commit:" +:+ id) "failed to acquire lock for inflight void" (
    voided ← void_body E id reference;
    _ ← logged (shadow id LineageTypeShadowVoid);
    mret voided).

(** ** Shadow transactions *)

Definition already_processed (e : error) : bool :=
  contains (error_text e) "already committed" || contains (error_text e) "not in inflight status".

(** Applies [act] to every shadow; the ids that failed. *)
Fixpoint each_shadow (act : Transaction → I Transaction) (shadows : list Transaction)
    : I (list string) :=
  match shadows with
  | [] => mret []
  | s :: shadows => λ w,
      match act s w with
      | (w, Ok _) => each_shadow act shadows w
      | (w, Err e) =>
          if is_panic e then (w, Err e)
          else if already_processed e then each_shadow act shadows w
          else (failed ← each_shadow act shadows; mret (t_TransactionID s :: failed)) w
      end
  end.

Definition all_shadows (verb : string) (act : Transaction → I Transaction) (parentID : string)
    : I unit :=
  shadows ← core (read (λ d, Ok (GetTransactionsByShadowFor d parentID)));
  failed ← each_shadow act shadows;
  match failed with
  | [] => mret tt
  | _ => raise (ENew ("failed to " +:+ verb +:+ " " +:+ Z_to_string (Z.of_nat (length failed))
                      +:+ " shadow transactions: [" +:+ join " " failed +:+ "]"))
  end.

Definition shadow_outbox (parentID lineageType : string) : LineageOutbox :=
  mkLineageOutbox 0 (parentID +:+ "_" +:+ lineageType) "" "" "" lineageType
    {["parent_transaction_id" := MStr parentID]} "" 0 5 "" 0 None false.

(** Tries the shadows at once and leaves failed work in the outbox. *)
Definition queue_shadow_work (commit : Transaction → I Transaction)
    (void : Transaction → I Transaction) (E : ienv) (parentID lineageType : string) : I unit :=
  let work := if String.eqb lineageType LineageTypeShadowCommit
              then all_shadows "commit" commit parentID
              else if String.eqb lineageType LineageTypeShadowVoid
              then all_shadows "void" void parentID
              else mret tt in
  λ w,
    match work w with
    | (w, Ok _) => (w, Ok tt)
    | (w, Err e) =>
        if is_panic e then (w, Err e)
        else
          let '(w, _) := core (write (λ d,
            d ← InsertLineageOutbox d (shadow_outbox parentID lineageType) (now (i_exec E));
            mret (d, tt))) w in
          (w, Err e)
    end.

Fixpoint queueShadowWork (fuel : nat) (E : ienv) (parentID lineageType : string) : I unit :=
  match fuel with
  | O => raise (EPanic "shadow recursion")
  | S fuel =>
      queue_shadow_work
        (λ s, commit_with (queueShadowWork fuel E) E false (t_TransactionID s)
                (ival (t_PreciseAmount s)) "")
        (λ s, void_with (queueShadowWork fuel E) E (t_TransactionID s) "")
        E parentID lineageType
  end.

Definition CommitInflightTransactionWithRef (E : ienv) (id : string) (amount : Z)
    (reference : string) : I Transaction :=
  commit_with (queueShadowWork (shadow_fuel E) E) E false id amount reference.
Definition CommitInflightTransaction (E : ienv) (id : string) (amount : Z) : I Transaction :=
  CommitInflightTransactionWithRef E id amount "".
Definition CommitInflightTransactionWithQueue (E : ienv) (id : string) (amount : Z)
    : I Transaction :=
  commit_with (queueShadowWork (shadow_fuel E) E) E true id amount "".
Definition VoidInflightTransactionWithRef (E : ienv) (id reference : string) : I Transaction :=
  void_with (queueShadowWork (shadow_fuel E) E) E id reference.
Definition VoidInflightTransaction (E : ienv) (id : string) : I Transaction :=
  VoidInflightTransactionWithRef E id "".

(** ** Actions over every leg of a parent *)

Definition inflightActionReference (legID action actionID : string) : string :=
  if String.eqb actionID "" then "" else legID +:+ "_" +:+ action +:+ "_" +:+ actionID.

(** [classifyInflightError] on a non-nil error. *)
Definition classifyInflightError (e : error) : string :=
  let msg := error_text e in
  if contains msg "transaction not found" || contains msg "no rows in result set"
     || contains msg "not found" then "NOT_FOUND"
  else if contains msg "has already been voided" then "ALREADY_VOIDED"
  else if contains msg "Transaction already committed"
          || contains msg "cannot void. Transaction already committed" then "ALREADY_COMMITTED"
  else if contains msg "not in inflight status" then "NOT_INFLIGHT"
  else if contains msg "cannot commit more than" then "INVALID_AMOUNT"
  else if contains msg "failed to acquire lock" then "LOCKED"
  else "INTERNAL_ERROR".

Definition isTerminalInflightError (e : error) : bool :=
  IsDuplicateReferenceError e
  || bool_decide (classifyInflightError e
       ∈ ["ALREADY_COMMITTED"; "ALREADY_VOIDED"; "NOT_INFLIGHT"; "INVALID_AMOUNT"]).

(** Pages of [batchSize] until a short one; each full page is at least one row
    long, so [fuel] rows bound the number of pages. *)
Fixpoint collect_pages (fuel batchSize offset : nat) (page : nat → nat → list Transaction)
    : option (list Transaction) :=
  match fuel with
  | O => None
  | S fuel =>
      let batch := page batchSize offset in
      if Nat.ltb (length batch) batchSize then Some batch
      else app batch <$> collect_pages fuel batchSize (offset + batchSize) page
  end.

Definition collectInflightLegs (E : ienv) (parentID : string) : I (list Transaction) := λ w,
  let batchSize := if BatchSize E <=? 0 then 100%nat else Z.to_nat (BatchSize E) in
  let d := w_db (q_core w) in
  match collect_pages (2 + length (db_transactions d)) batchSize 0
          (GetInflightTransactionsByParentID d parentID) with
  | Some legs => (w, Ok legs)
  | None => (w, Err (EPanic "unreachable"))
  end.

Definition applyInflightActionToLeg (E : ienv) (leg : Transaction) (action : string)
    (amount : Z) (actionID : string) : I unit :=
  let ref := inflightActionReference (t_TransactionID leg) action actionID in
  if String.eqb action InflightActionVoid
  then _ ← VoidInflightTransactionWithRef E (t_TransactionID leg) ref; mret tt
  else _ ← CommitInflightTransactionWithRef E (t_TransactionID leg) amount ref; mret tt.

(** The last transient error, if any. *)
Fixpoint apply_legs (E : ienv) (legs : list Transaction) (action : string) (amount : Z)
    (actionID : string) (last : option error) : I (option error) :=
  match legs with
  | [] => mret last
  | leg :: legs => λ w,
      match applyInflightActionToLeg E leg action amount actionID w with
      | (w, Ok _) => apply_legs E legs action amount actionID last w
      | (w, Err e) =>
          if is_panic e then (w, Err e)
          else if isTerminalInflightError e then apply_legs E legs action amount actionID last w
          else apply_legs E legs action amount actionID (Some e) w
      end
  end.

(** Whether to retry, and the error. *)
Definition RunInflightActionByParent (E : ienv) (parentID action : string) (amount : Z)
    (actionID : string) : I (bool * option error) := λ w,
  match collectInflightLegs E parentID w with
  | (w, Err e) => (w, Ok (true, Some e))
  | (w, Ok legs) =>
      (last ← apply_legs E legs action amount actionID None;
       mret (match last with Some e => (true, Some e) | None => (false, None) end)) w
  end.

(** The worker's entry point; [amount] as in the payload. *)
Definition processInflightCommit (E : ienv) (p : InflightActionPayload) : I unit :=
  let action := if String.eqb (Action p) "" then InflightActionCommit else Action p in
  let amount := match Z_of_string (PreciseAmount p) with Some z => z | None => 0 end in
  r ← RunInflightActionByParent E (TransactionID p) action amount (ActionID p);
  match r with
  | (true, Some e) => raise e
  | _ => mret tt
  end.

(** [processInflightExpiry] *)
Definition processInflightExpiry (E : ienv) (id : string) : I unit :=
  _ ← VoidInflightTransaction E id; mret tt.

Definition preValidateInflightAction (E : ienv) (id action : string) (amount : option Z)
    : I Transaction :=
  t ← fetchAndValidateInflightTransaction E id;
  amountLeft ← calculateRemainingAmount t;
  _ ← lift (checkTransactionCommitStatus amountLeft);
  _ ← lift (match amount with
            | Some amount => if String.eqb action InflightActionCommit
                             then validateRequestedAmount t amount amountLeft else Ok tt
            | None => Ok tt
            end);
  mret t.

Definition QueueInflightAction (E : ienv) (id : string) (amount : option Z) (action : string)
    : I Transaction :=
  t ← preValidateInflightAction E id action amount;
  actionID ← core (fresh_id (i_exec E) "act");
  let preciseAmount := match amount with Some z => Z_to_string z | None => "0" end in
  _ ← queue (EnqueueInflightAction (i_queue E)
               (mkInflightActionPayload id action preciseAmount actionID));
  mret t.

(** ** Bulk updates *)

Inductive BulkInflightAction := BulkInflightVoid | BulkInflightCommit.

Record BulkInflightOutcome := mkOutcome {
  o_id : string;
  o_txn : result Transaction;
  o_code : string;
}.

Definition bulk_one (E : ienv) (action : BulkInflightAction) (item : string * Z)
    : I BulkInflightOutcome := λ w,
  let '(w, r) := match action with
                 | BulkInflightCommit => CommitInflightTransaction E item.1 item.2 w
                 | BulkInflightVoid => VoidInflightTransaction E item.1 w
                 end in
  (w, Ok (mkOutcome item.1 r (match r with Ok _ => "" | Err e => classifyInflightError e end))).

(** The worker pool takes the items in the order [schedule] gives; results are
    stored by index. *)
Fixpoint bulk_run (E : ienv) (action : BulkInflightAction) (items : list (string * Z))
    (schedule : list nat) (results : gmap nat BulkInflightOutcome)
    : I (gmap nat BulkInflightOutcome) :=
  match schedule with
  | [] => mret results
  | i :: schedule =>
      match items !! i with
      | Some item =>
          r ← bulk_one E action item;
          bulk_run E action items schedule (<[i := r]> results)
      | None => bulk_run E action items schedule results
      end
  end.

Definition BulkInflightUpdate (E : ienv) (action : BulkInflightAction)
    (items : list (string * Z)) (schedule : list nat) : I (list (option BulkInflightOutcome)) :=
  match items with
  | [] => raise (ENew "transaction_ids cannot be empty")
  | _ =>
      results ← bulk_run E action items schedule ∅;
      mret (map (λ i, results !! i) (seq 0 (length items)))
  end.

(** ** What an action does to the rows *)

Definition rows (w : qworld) : list Transaction := db_transactions (w_db (q_core w)).
Definition rowsP (φ : list Transaction → Prop) (w : qworld) : Prop := φ (rows w).

Definition committed (l : list Transaction) (id : string) : Z :=
  GetTotalCommittedTransactions (mkDB ∅ l []) id.

(** No inflight row is committed beyond its amount. *)
Definition held_ok (l : list Transaction) : Prop :=
  NoDup (map t_TransactionID l)
  ∧ ∀ r, r ∈ l → t_Inflight r = false
      ∧ (IsInflightTransaction r = true →
         0 <= committed l (t_TransactionID r) <= ival (t_PreciseAmount r)).

Lemma committed_snoc l r id :
  committed (l ++ [r]) id = committed l id
    + (if String.eqb (t_ParentTransaction r) id && String.eqb (t_Status r) "APPLIED"
       then ival (t_PreciseAmount r) else 0).
Proof.
  unfold committed, GetTotalCommittedTransactions. cbn [db_transactions].
  rewrite List.filter_app, sumZ_app. cbn [List.filter].
  destruct (_ && _); simpl; lia.
Qed.

(** A settling child of [r]. *)
Definition child_of (l : list Transaction) (r t : Transaction) : Prop :=
  r ∈ l ∧ t_ParentTransaction t = t_TransactionID r
  ∧ (∀ x, x ∈ l → t_TransactionID x ≠ t_TransactionID t)
  ∧ (t_Status t = "VOID"
     ∨ t_Status t = "APPLIED" ∧ IsInflightTransaction r = true
       ∧ 0 <= ival (t_PreciseAmount t)
         <= ival (t_PreciseAmount r) - committed l (t_TransactionID r)).

Lemma held_ok_child l r t : held_ok l → child_of l r t → held_ok (l ++ [stored_row t]).
Proof.
  intros [Hnd Hall] (Hr & Hpar & Hfresh & Hst).
  assert (K : t_TransactionID (stored_row t) = t_TransactionID t
    ∧ t_ParentTransaction (stored_row t) = t_ParentTransaction t
    ∧ t_Status (stored_row t) = t_Status t
    ∧ t_PreciseAmount (stored_row t) = t_PreciseAmount t
    ∧ t_Inflight (stored_row t) = false) by (by destruct t).
  destruct K as (K1 & K2 & K3 & K4 & K5).
  assert (Hni : IsInflightTransaction (stored_row t) = false).
  { unfold IsInflightTransaction. rewrite K3. by destruct Hst as [->|[-> _]]. }
  split.
  { rewrite map_app. cbn [map]. rewrite K1. apply NoDup_app. split; [done|].
    split; [|apply NoDup_singleton]. intros x (y & -> & Hy)%list_elem_of_fmap Hx.
    apply list_elem_of_singleton in Hx. by apply (Hfresh y). }
  intros x [Hx|Hx]%elem_of_app; [|apply list_elem_of_singleton in Hx as ->; by rewrite Hni].
  destruct (Hall x Hx) as [Hi Hc]. split; [done|]. intros Hinf. specialize (Hc Hinf).
  rewrite committed_snoc, K2, K3, K4, Hpar.
  destruct (String.eqb_spec (t_TransactionID r) (t_TransactionID x)) as [E|]; cbn [andb]; [|lia].
  apply (NoDup_map_eq _ _ _ _ Hnd Hr Hx) in E as ->.
  destruct Hst as [->|(-> & _ & Hle)]; [|simpl; lia]. simpl. lia.
Qed.

(** *** Triples of the building blocks *)

Lemma triple_core_quiet {A} φ (m : M A) :
  quiet m → triple (rowsP φ) (core m) (λ _, rowsP φ) (rowsP φ).
Proof.
  intros Hm w Hw. unfold core. specialize (Hm (q_core w)). unfold rowsP, rows in *.
  destruct (m (q_core w)) as [c [a|e]]; cbn [q_core fst] in *; by destruct Hm as [-> _].
Qed.

Lemma triple_core_read {A} φ (f : db → result A) :
  triple (rowsP φ) (core (read f)) (λ a w, f (w_db (q_core w)) = Ok a ∧ rowsP φ w) (rowsP φ).
Proof. intros w Hw. unfold core, read. by destruct (f (w_db (q_core w))) eqn:E. Qed.

Lemma triple_queue {A} φ (m : prog tasks A) :
  triple (rowsP φ) (queue m) (λ _, rowsP φ) (rowsP φ).
Proof. intros w Hw. unfold queue. by destruct (m (q_tasks w)) as [ts [a|e]]. Qed.

Lemma quiet_lock_single E l : quiet (lock_single E l).
Proof. intros w. unfold lock_single. by destruct (Lock.Locker_Lock _ _ _ _ _) as [[e|] s]. Qed.

Lemma quiet_releaseSingleLock E l : quiet (releaseSingleLock E l).
Proof. intros w. unfold releaseSingleLock. by destruct (Lock.Locker_Unlock _ _ _ _). Qed.

Lemma triple_locked_err {A} φ ψ χ E k msg (body : I A) :
  triple (rowsP φ) body (λ a, rowsP (ψ a)) (rowsP χ) →
  triple (rowsP φ) (locked E k msg body) (λ a, rowsP (ψ a)) (rowsP (λ l, φ l ∨ χ l)).
Proof.
  intros Hb. unfold locked.
  assert (Hw : ∀ {B} (m : I B), triple (rowsP φ) m (λ _, rowsP φ) (rowsP φ) →
    triple (rowsP φ) m (λ _, rowsP φ) (rowsP (λ l, φ l ∨ χ l))).
  { intros B m Hm. eapply triple_weaken; [exact Hm|done|done|]. intros w Hw. by left. }
  eapply triple_bind; [apply Hw, triple_core_quiet, quiet_fresh|].
  intros v. eapply triple_bind.
  { apply Hw, triple_err, triple_core_quiet, quiet_lock_single. }
  intros _ w Hφ. specialize (Hb w Hφ). unfold with_single_release.
  destruct (body w) as [w1 r] eqn:E1.
  set (m := releaseSingleLock E {| Lock.key := k; Lock.value := v |}).
  assert (Hm : quiet m) by apply quiet_releaseSingleLock. specialize (Hm (q_core w1)).
  unfold core. destruct (m (q_core w1)) as [c u].
  assert (Hrows : rows (mkQ c (q_tasks w1)) = rows w1) by (unfold rows; simpl; apply Hm).
  unfold rowsP in *. destruct r; rewrite Hrows; [done|by right].
Qed.

Lemma triple_locked {A} φ ψ E k msg (body : I A) :
  triple (rowsP φ) body (λ a, rowsP (ψ a)) (rowsP φ) →
  triple (rowsP φ) (locked E k msg body) (λ a, rowsP (ψ a)) (rowsP φ).
Proof.
  intros Hb. eapply triple_weaken; [by apply triple_locked_err|done|done|]. by intros w [?|?].
Qed.

Lemma triple_fetchAndValidate E l id :
  triple (rowsP (eq l)) (fetchAndValidateInflightTransaction E id)
    (λ t w, (∃ r, r ∈ l ∧ t_TransactionID r = id ∧ t = scan_transaction r
                  ∧ IsInflightTransaction r = true) ∧ rowsP (eq l) w) (rowsP (eq l)).
Proof.
  unfold fetchAndValidateInflightTransaction.
  eapply (triple_bind _ _ (λ t w, (∃ r, r ∈ l ∧ t_TransactionID r = id ∧ t = scan_transaction r)
                                  ∧ rowsP (eq l) w)).
  - intros w Hw. unfold fetch_inflight, GetTransaction.
    destruct (List.find _ _) as [r|] eqn:Ef; [|done].
    apply find_some in Ef as [Hin Hid]. apply String.eqb_eq in Hid. split; [|done].
    exists r. apply list_elem_of_In in Hin. by rewrite Hw.
  - intros t. apply triple_pure. intros (r & Hr & Hid & ->).
    destruct (IsInflightTransaction (scan_transaction r)) eqn:Hi; [|apply triple_raise].
    assert (Hi' : IsInflightTransaction r = true) by (by destruct r).
    eapply triple_bind; [apply triple_core_read|]. intros v w [_ Hw].
    destruct v; [done|]. split; [|done]. eauto.
Qed.

Lemma triple_remaining l t :
  triple (rowsP (eq l)) (calculateRemainingAmount t)
    (λ z w, z = ival (t_PreciseAmount t) - committed l (t_TransactionID t) ∧ rowsP (eq l) w)
    (rowsP (eq l)).
Proof.
  unfold calculateRemainingAmount. eapply triple_weaken; [apply triple_core_read|done| |done].
  intros z w [[= <-] Hw]. split; [|done]. unfold committed. unfold rowsP, rows in Hw.
  by rewrite Hw.
Qed.

Definition requested (amount left : Z) : Z := if amount =? 0 then left else amount.

(** What the amount checks of a commit let through. *)
Definition amount_ok (amount left : Z) : Prop := left ≠ 0 ∧ 0 <= amount ∧ (amount ≠ 0 → amount <= left).

Lemma validateRequestedAmount_Ok t amount left u :
  validateRequestedAmount t amount left = Ok u → 0 <= amount ∧ (amount ≠ 0 → amount <= left).
Proof.
  unfold validateRequestedAmount. destruct (Z.ltb_spec amount 0); [done|].
  destruct (Z.eqb_spec amount 0); [intros _; split; [lia|done]|].
  destruct (ival (t_PreciseAmount t) <? amount); [done|].
  destruct (Z.ltb_spec left amount); [|lia].
  by destruct (convertPreciseToFloat left (t_Precision t)).
Qed.

Lemma updateTransactionAmount_Ok t amount left t' :
  updateTransactionAmount t amount left = Ok t' →
  Balances.same_but_amounts t t' ∧ t_PreciseAmount t' = Some (requested amount left).
Proof.
  unfold updateTransactionAmount, requested. destruct (amount =? 0); intros E.
  - apply bind_Ok in E as (x & _ & E). inv_result. by destruct t.
  - inv_result. by destruct t.
Qed.

Lemma triple_validateAndUpdate l t amount :
  triple (rowsP (eq l)) (validateAndUpdateAmount t amount)
    (λ t' w, let left := ival (t_PreciseAmount t) - committed l (t_TransactionID t) in
       (amount_ok amount left ∧ Balances.same_but_amounts t t'
        ∧ t_PreciseAmount t' = Some (requested amount left)) ∧ rowsP (eq l) w)
    (rowsP (eq l)).
Proof.
  unfold validateAndUpdateAmount. eapply triple_bind; [apply triple_remaining|].
  intros z. apply triple_pure. intros ->.
  set (left := ival (t_PreciseAmount t) - committed l (t_TransactionID t)).
  eapply triple_bind; [apply triple_lift|]. intros u. apply triple_pure. intros E1.
  eapply triple_bind; [apply triple_lift|]. intros u2. apply triple_pure. intros E2.
  eapply triple_bind; [apply triple_lift|]. intros t'. apply triple_pure. intros E3.
  eapply triple_bind; [apply triple_lift|]. intros x. apply triple_pure. intros _.
  eapply triple_weaken; [apply triple_ret|done| |done]. intros a w [-> Hw]. split; [|done].
  apply fail_if_Ok, Z.eqb_neq in E1. apply validateRequestedAmount_Ok in E2 as [? ?].
  apply updateTransactionAmount_Ok in E3 as [? ?]. done.
Qed.

(** The one row [RecordTransaction] may add. *)
Definition added (l : list Transaction) (t t' : Transaction) (l' : list Transaction) : Prop :=
  recorded_as t t' ∧ (∀ x, x ∈ l → t_Reference x ≠ t_Reference t)
  ∧ (t_PreciseAmount t' = Some 0 ∧ l' = l
     ∨ l' = l ++ [stored_row t'] ∧ (∀ x, x ∈ l → t_TransactionID x ≠ t_TransactionID t')).

Lemma triple_record E l t :
  triple (rowsP (eq l)) (core (RecordTransaction E t)) (λ t' w, added l t t' (rows w)) (rowsP (eq l)).
Proof.
  intros w Hw. pose proof (RecordTransaction_recorded E t (q_core w)) as Hr. unfold core.
  unfold rowsP, rows in *. destruct (RecordTransaction E t (q_core w)) as [c [t'|e]]; cbn in Hr.
  - destruct Hr as (Has & Hf & Hr). subst l. split; [done|]. split.
    { intros x Hx E1. unfold TransactionExistsByRef in Hf. rewrite existsb_false in Hf.
      specialize (Hf x Hx). rewrite E1 in Hf. by rewrite String.eqb_refl in Hf. }
    destruct (bool_decide_reflect (t_PreciseAmount t' = Some 0)).
    + left. split; [done|]. apply Hr.
    + destruct Hr as (Hr & Hfr & _). right. split; [done|]. intros x Hx. by apply Hfr.
  - destruct Hr as [Hr _]. unfold rows. simpl. by rewrite Hw, Hr.
Qed.

(** The settling child keeps what matters of its parent. *)
Lemma settling_child_facts E t id reference :
  let c := settling_child E t id reference in
  t_ParentTransaction c = t_TransactionID t ∧ t_Status c = t_Status t
  ∧ t_Inflight c = t_Inflight t ∧ t_PreciseAmount c = t_PreciseAmount t
  ∧ t_Reference c = reference ∧ t_TransactionID c = id.
Proof. by destruct t. Qed.

Lemma scan_transaction_facts r :
  t_TransactionID (scan_transaction r) = t_TransactionID r
  ∧ t_PreciseAmount (scan_transaction r) = t_PreciseAmount r
  ∧ t_Inflight (scan_transaction r) = t_Inflight r.
Proof. by destruct r. Qed.

Lemma triple_finalizeCommitment E l t reference p :
  t_Inflight t = false → t_PreciseAmount t = Some p → 0 < p →
  triple (rowsP (eq l)) (finalizeCommitment E t false reference)
    (λ t' w, t_ParentTransaction t' = t_TransactionID t ∧ t_Status t' = "APPLIED"
             ∧ t_PreciseAmount t' = Some p
             ∧ (reference ≠ "" → t_Reference t' = reference
                ∧ ∀ x, x ∈ l → t_Reference x ≠ reference)
             ∧ rows w = l ++ [stored_row t']
             ∧ ∀ x, x ∈ l → t_TransactionID x ≠ t_TransactionID t') (rowsP (eq l)).
Proof.
  intros Hi Hp Hpos. unfold finalizeCommitment.
  eapply triple_bind; [apply triple_core_quiet, quiet_fresh|]. intros id.
  eapply (triple_bind _ _ (λ ref w, (reference ≠ "" → ref = reference) ∧ rowsP (eq l) w)).
  { unfold child_reference. destruct (String.eqb_spec reference ""); intros w Hw.
    - split; [done|exact Hw].
    - split; [done|exact Hw]. }
  intros ref. apply triple_pure. intros Href.
  set (t0 := settling_child _ _ id ref).
  destruct (settling_child_facts (i_exec E) (t <| t_Status := StatusCommit |>) id ref)
    as (F1 & F2 & F3 & F4 & F5 & F6). fold t0 in F1, F2, F3, F4, F5, F6.
  apply triple_err. eapply triple_weaken; [apply triple_record|done| |done].
  intros t' w (((R1 & R2 & R3 & R4 & R5) & Hst & Ham) & Hrefs & Hadd).
  assert (Hp' : t_PreciseAmount t' = Some p) by (apply Ham; [by rewrite F4; destruct t|done]).
  split; [by rewrite R3, F1; destruct t|]. split.
  { rewrite Hst. unfold final_status. rewrite F3, F2.
    replace (t_Inflight (t <| t_Status := StatusCommit |>)) with false by (by destruct t).
    by destruct t. }
  split; [done|]. split.
  { intros Hne. specialize (Href Hne). split; [by rewrite R1, F5|].
    intros x Hx. rewrite <- Href, <- F5. by apply Hrefs. }
  destruct Hadd as [[Hz _]|[Hl Hfr]]; [|done]. rewrite Hp' in Hz. injection Hz. lia.
Qed.

Lemma triple_finalizeVoid E l t left reference :
  t_Inflight t = false → 0 < left →
  triple (rowsP (eq l)) (finalizeVoidTransaction E t left reference)
    (λ t' w, t_ParentTransaction t' = t_TransactionID t ∧ t_Status t' = "VOID"
             ∧ t_PreciseAmount t' = Some left
             ∧ (reference ≠ "" → t_Reference t' = reference
                ∧ ∀ x, x ∈ l → t_Reference x ≠ reference)
             ∧ rows w = l ++ [stored_row t']
             ∧ ∀ x, x ∈ l → t_TransactionID x ≠ t_TransactionID t') (rowsP (eq l)).
Proof.
  intros Hi Hpos. unfold finalizeVoidTransaction.
  eapply triple_bind; [apply triple_core_quiet, quiet_fresh|]. intros id.
  eapply (triple_bind _ _ (λ ref w, (reference ≠ "" → ref = reference) ∧ rowsP (eq l) w)).
  { unfold child_reference. destruct (String.eqb_spec reference ""); intros w Hw.
    - split; [done|exact Hw].
    - split; [done|exact Hw]. }
  intros ref. apply triple_pure. intros Href.
  set (t1 := t <| t_Status := StatusVoid |> <| t_PreciseAmount := Some left |>).
  destruct (settling_child_facts (i_exec E) t1 id ref) as (F1 & F2 & F3 & F4 & F5 & F6).
  set (t0 := settling_child _ t1 id ref) in *.
  assert (T1 : t_PreciseAmount t1 = Some left ∧ t_Status t1 = StatusVoid
               ∧ t_Inflight t1 = false ∧ t_TransactionID t1 = t_TransactionID t)
    by (unfold t1; by destruct t).
  destruct T1 as (G1 & G2 & G3 & G4).
  destruct (Balances.ApplyPrecision t0) as [q t2] eqn:Eap. cbn [snd].
  pose proof (Balances.ApplyPrecision_precise t0 left ltac:(congruence) Hpos) as Hq.
  rewrite Eap in Hq. cbn [fst] in Hq. subst q.
  pose proof (Balances.ApplyPrecision_amount _ _ _ Eap) as Hp2.
  apply Balances.ApplyPrecision_frame, same_but_amounts_keys in Eap
    as ((S1 & S2 & S3 & S4 & S5) & Hst2).
  apply triple_err. eapply triple_weaken; [apply triple_record|done| |done].
  intros t' w (((R1 & R2 & R3 & R4 & R5) & Hst & Ham) & Hrefs & Hadd).
  assert (Hp' : t_PreciseAmount t' = Some left) by (by apply Ham).
  split; [congruence|]. split.
  { rewrite Hst. unfold final_status. rewrite S4, F3, G3, Hst2, F2, G2. done. }
  split; [done|]. split.
  { intros Hne. specialize (Href Hne). split; [by rewrite R1, S1, F5|].
    intros x Hx. rewrite <- Href, <- F5, <- S1. by apply Hrefs. }
  destruct Hadd as [[Hz _]|[Hl Hfr]]; [|done]. rewrite Hp' in Hz. injection Hz. lia.
Qed.

(** A settling child of the inflight row [id]: it adds exactly one row. *)
Definition settles (l : list Transaction) (id reference status : string) (amount : Z → Z)
    (ok : Z → Prop) (t' : Transaction) (l' : list Transaction) : Prop :=
  ∃ r, r ∈ l ∧ t_TransactionID r = id ∧ IsInflightTransaction r = true
    ∧ let left := ival (t_PreciseAmount r) - committed l id in
      0 < left ∧ ok left ∧ t_PreciseAmount t' = Some (amount left)
      ∧ t_ParentTransaction t' = id ∧ t_Status t' = status
      ∧ (reference ≠ "" → t_Reference t' = reference ∧ ∀ x, x ∈ l → t_Reference x ≠ reference)
      ∧ l' = l ++ [stored_row t'] ∧ ∀ x, x ∈ l → t_TransactionID x ≠ t_TransactionID t'.

Lemma triple_commit_body E l id amount reference :
  held_ok l →
  triple (rowsP (eq l)) (commit_body E false id amount reference)
    (λ t' w, settles l id reference "APPLIED" (requested amount) (amount_ok amount) t' (rows w))
    (rowsP (eq l)).
Proof.
  intros [Hnd Hall]. unfold commit_body.
  eapply triple_bind; [apply triple_fetchAndValidate|]. intros t. apply triple_pure.
  intros (r & Hr & Hid & -> & Hinf). destruct (Hall r Hr) as [Hi Hc]. specialize (Hc Hinf).
  destruct (scan_transaction_facts r) as (E1 & E2 & E3).
  eapply triple_bind; [apply triple_validateAndUpdate|]. intros t1. apply triple_pure.
  rewrite E1, E2, Hid in *. set (left := ival (t_PreciseAmount r) - committed l id) in *.
  intros (Hok & Hsame & Hp).
  apply same_but_amounts_keys in Hsame as ((S1 & S2 & S3 & S4 & S5) & _).
  assert (0 < left) by (destruct Hok; lia).
  assert (Hpos : 0 < requested amount left).
  { unfold requested. destruct (Z.eqb_spec amount 0); [done|]. destruct Hok as (_ & ? & _). lia. }
  eapply triple_weaken;
    [apply (triple_finalizeCommitment E l t1 reference (requested amount left) ltac:(congruence) Hp Hpos)
    |done| |done].
  intros t' w (F1 & F2 & F3 & F4 & F5 & F6). exists r. fold left.
  split_and!; try done. by rewrite F1, S2, E1.
Qed.

Lemma triple_void_body E l id reference :
  held_ok l →
  triple (rowsP (eq l)) (void_body E id reference)
    (λ t' w, settles l id reference "VOID" (λ left, left) (λ _, True) t' (rows w))
    (rowsP (eq l)).
Proof.
  intros [Hnd Hall]. unfold void_body.
  eapply triple_bind; [apply triple_fetchAndValidate|]. intros t. apply triple_pure.
  intros (r & Hr & Hid & -> & Hinf). destruct (Hall r Hr) as [Hi Hc]. specialize (Hc Hinf).
  destruct (scan_transaction_facts r) as (E1 & E2 & E3).
  eapply triple_bind; [apply triple_remaining|]. intros z. apply triple_pure. intros ->.
  rewrite E1, E2, Hid in *. set (left := ival (t_PreciseAmount r) - committed l id) in *.
  destruct (Z.eqb_spec left 0); [apply triple_raise|].
  assert (0 < left) by lia.
  eapply triple_weaken;
    [apply (triple_finalizeVoid E l (scan_transaction r) left reference ltac:(congruence))
    |done| |done]; [done|].
  intros t' w (F1 & F2 & F3 & F4 & F5 & F6). exists r. fold left.
  split_and!; try done. by rewrite F1, E1.
Qed.

Lemma settles_held_ok l id reference status amount ok t' l' :
  held_ok l → settles l id reference status amount ok t' l' →
  (status = "VOID" ∨ status = "APPLIED" ∧ ∀ left, 0 < left → ok left → 0 <= amount left <= left) →
  held_ok l'.
Proof.
  intros Hok (r & Hr & Hid & Hinf & Hpos & Ho & Ha & Hpar & Hst & _ & -> & Hfr) Hs.
  apply (held_ok_child l r); [done|]. split; [done|]. split; [by rewrite Hpar|].
  split; [done|]. rewrite Hst. destruct Hs as [->|[-> Hle]]; [by left|right].
  split; [done|]. split; [done|]. rewrite Ha, Hid. cbn [ival]. by apply Hle.
Qed.

Lemma requested_range amount left : 0 < left → amount_ok amount left →
  0 <= requested amount left <= left.
Proof. unfold requested. intros ? (_ & ? & ?). destruct (Z.eqb_spec amount 0); lia. Qed.

Lemma settles_prefix base l id reference status amount ok t' l' :
  base `prefix_of` l → settles l id reference status amount ok t' l' → base `prefix_of` l'.
Proof.
  intros Hb (r & _ & _ & _ & _ & _ & _ & _ & _ & _ & -> & _). etrans; [exact Hb|].
  by exists [stored_row t'].
Qed.

(** *** The invariant through every operation *)

Section invariant.
Context (base : list Transaction).

(** Holds are not exceeded and no row of [base] has changed. *)
Definition held_from (l : list Transaction) : Prop := held_ok l ∧ base `prefix_of` l.

Definition keeps {A} (m : I A) : Prop :=
  triple (rowsP held_from) m (λ _, rowsP held_from) (rowsP held_from).

Lemma keeps_at {A} (m : I A) :
  (∀ l, held_from l → triple (rowsP (eq l)) m (λ _, rowsP held_from) (rowsP (eq l))) → keeps m.
Proof.
  intros Hm w Hw. specialize (Hm (rows w) Hw w eq_refl).
  destruct (m w) as [w1 [a|e]]; [done|]. unfold rowsP in *. by rewrite <- Hm.
Qed.

Lemma keeps_commit_body E withQueue id amount reference :
  keeps (commit_body E withQueue id amount reference).
Proof.
  apply keeps_at. intros l [Hl Hb]. destruct withQueue.
  - unfold commit_body. eapply triple_bind; [apply triple_fetchAndValidate|]. intros t.
    apply triple_pure. intros _. eapply triple_bind; [apply triple_validateAndUpdate|].
    intros t1. apply triple_pure. intros _. unfold finalizeCommitment.
    eapply triple_bind; [apply triple_core_quiet, quiet_fresh|]. intros x.
    eapply triple_bind.
    { apply triple_core_quiet. unfold child_reference. destruct (String.eqb _ _);
        [apply quiet_fresh|apply quiet_ret]. }
    intros ref. eapply triple_bind; [apply triple_err, triple_queue|]. intros u. cbv beta.
    eapply triple_weaken; [apply triple_ret|done| |done]. intros ? w [_ Hw].
    unfold rowsP in *. rewrite <- Hw. by split.
  - eapply triple_weaken; [by apply triple_commit_body|done| |done]. intros t' w Hs. split.
    + eapply settles_held_ok; [done|exact Hs|]. right. split; [done|]. apply requested_range.
    + exact (settles_prefix _ _ _ _ _ _ _ _ _ Hb Hs).
Qed.

Lemma keeps_void_body E id reference : keeps (void_body E id reference).
Proof.
  apply keeps_at. intros l [Hl Hb].
  eapply triple_weaken; [by apply triple_void_body|done| |done]. intros t' w Hs. split.
  - eapply settles_held_ok; [done|exact Hs|]. by left.
  - exact (settles_prefix _ _ _ _ _ _ _ _ _ Hb Hs).
Qed.

End invariant.

(** *** Properties of programs closed under the control flow of this file

    Such a property of the two bodies, of silent steps and of outbox writes
    holds of every operation. *)

Record closed (P : ∀ {A}, I A → Prop) : Prop := {
  closed_ext : ∀ A (m m' : I A), (∀ w, m w = m' w) → P m → P m';
  closed_ret : ∀ A (a : A), P (mret a);
  closed_raise : ∀ A e, P (raise (A := A) e);
  closed_handle : ∀ A B (m : I A) (f : A → I B) (g : error → I B),
    P m → (∀ a, P (f a)) → (∀ e, P (g e)) →
    P (λ w, match m w with (w, Ok a) => f a w | (w, Err e) => g e w end);
  closed_locked : ∀ A E k msg (body : I A), P body → P (locked E k msg body);
  closed_read : ∀ A (f : db → result A), P (core (read f));
  closed_outbox : ∀ o nw, P (core (write (λ d, d ← InsertLineageOutbox d o nw; mret (d, tt))));
  closed_commit_body : ∀ E q id amount reference, P (commit_body E q id amount reference);
  closed_void_body : ∀ E id reference, P (void_body E id reference);
}.

Section closed.
Context (P : ∀ {A}, I A → Prop) (HP : closed (@P)).
Arguments P {A} _.

Lemma closed_bind {A B} (m : I A) (f : A → I B) : P m → (∀ a, P (f a)) → P (m ≫= f).
Proof.
  intros Hm Hf. eapply (closed_ext _ HP); [|exact (closed_handle _ HP _ _ m f (λ e, raise e) Hm Hf
    (closed_raise _ HP _))].
  intros w. unfold mbind, prog_bind. by destruct (m w) as [w1 [a|e]].
Qed.

Lemma closed_logged (m : I unit) : P m → P (logged m).
Proof.
  intros Hm. eapply (closed_ext _ HP); [|apply (closed_handle _ HP _ _ m (λ u, mret u)
    (λ e, if is_panic e then raise e else mret tt) Hm)].
  - intros w. unfold logged. destruct (m w) as [w1 [a|e]]; [done|]. by destruct (is_panic e).
  - intros a. apply (closed_ret _ HP).
  - intros e. destruct (is_panic e); [apply (closed_raise _ HP)|apply (closed_ret _ HP)].
Qed.

Lemma closed_commit_with shadow E q id amount reference :
  (∀ p ty, P (shadow p ty)) → P (commit_with shadow E q id amount reference).
Proof.
  intros Hs. apply (closed_locked _ HP), closed_bind; [apply (closed_commit_body _ HP)|]. intros t.
  apply closed_bind; [by apply closed_logged|]. intros _. apply (closed_ret _ HP).
Qed.

Lemma closed_void_with shadow E id reference :
  (∀ p ty, P (shadow p ty)) → P (void_with shadow E id reference).
Proof.
  intros Hs. apply (closed_locked _ HP), closed_bind; [apply (closed_void_body _ HP)|]. intros t.
  apply closed_bind; [by apply closed_logged|]. intros _. apply (closed_ret _ HP).
Qed.

Lemma closed_each_shadow act shadows : (∀ t, P (act t)) → P (each_shadow act shadows).
Proof.
  intros Ha. induction shadows as [|s l IH]; [apply (closed_ret _ HP)|].
  eapply (closed_ext _ HP); [|apply (closed_handle _ HP _ _ (act s) (λ _, each_shadow act l)
    (λ e, if is_panic e then raise e else if already_processed e then each_shadow act l
          else (failed ← each_shadow act l; mret (t_TransactionID s :: failed))) (Ha s))].
  - intros w. cbn [each_shadow]. destruct (act s w) as [w1 [a|e]]; [done|].
    destruct (is_panic e); [done|]. by destruct (already_processed e).
  - intros _. exact IH.
  - intros e. destruct (is_panic e); [apply (closed_raise _ HP)|].
    destruct (already_processed e); [exact IH|]. apply closed_bind; [exact IH|].
    intros a. apply (closed_ret _ HP).
Qed.

Lemma closed_all_shadows verb act parentID : (∀ t, P (act t)) → P (all_shadows verb act parentID).
Proof.
  intros Ha. apply closed_bind; [apply (closed_read _ HP)|]. intros l.
  apply closed_bind; [by apply closed_each_shadow|].
  intros [|? ?]; [apply (closed_ret _ HP)|apply (closed_raise _ HP)].
Qed.

Lemma closed_queueShadowWork fuel E parentID ty : P (queueShadowWork fuel E parentID ty).
Proof.
  revert parentID ty. induction fuel as [|fuel IH]; intros parentID ty; [apply (closed_raise _ HP)|].
  cbn [queueShadowWork]. unfold queue_shadow_work.
  match goal with |- P (λ w, match ?m w with _ => _ end) => set (work := m) end.
  assert (Hwork : P work).
  { unfold work. destruct (String.eqb ty LineageTypeShadowCommit);
      [|destruct (String.eqb ty LineageTypeShadowVoid)].
    - apply closed_all_shadows. intros t. by apply closed_commit_with.
    - apply closed_all_shadows. intros t. by apply closed_void_with.
    - apply (closed_ret _ HP). }
  set (save := core (write (λ d,
    d ← InsertLineageOutbox d (shadow_outbox parentID ty) (now (i_exec E)); mret (d, tt)))).
  eapply (closed_ext _ HP); [|apply (closed_handle _ HP _ _ work (λ _, mret tt)
    (λ e, if is_panic e then raise e
          else λ w, match save w with (w, Ok _) => raise e w | (w, Err _) => raise e w end) Hwork)].
  - intros w. cbv beta. destruct (work w) as [w1 [a|e]]; [done|]. destruct (is_panic e); [done|].
    fold save. by destruct (save w1) as [w2 [u|e2]].
  - intros _. apply (closed_ret _ HP).
  - intros e. destruct (is_panic e); [apply (closed_raise _ HP)|].
    apply (closed_handle _ HP); [apply (closed_outbox _ HP)| |]; intros; apply (closed_raise _ HP).
Qed.

Lemma closed_commit E id amount reference :
  P (CommitInflightTransactionWithRef E id amount reference).
Proof. apply closed_commit_with. intros. apply closed_queueShadowWork. Qed.

Lemma closed_void E id reference : P (VoidInflightTransactionWithRef E id reference).
Proof. apply closed_void_with. intros. apply closed_queueShadowWork. Qed.

Lemma closed_leg E leg action amount actionID :
  P (applyInflightActionToLeg E leg action amount actionID).
Proof.
  unfold applyInflightActionToLeg. destruct (String.eqb action InflightActionVoid);
    (apply closed_bind; [apply closed_void || apply closed_commit|]); intros; apply (closed_ret _ HP).
Qed.

Lemma closed_apply_legs E legs action amount actionID last :
  P (apply_legs E legs action amount actionID last).
Proof.
  revert last. induction legs as [|leg legs IH]; intros last; [apply (closed_ret _ HP)|].
  eapply (closed_ext _ HP); [|apply (closed_handle _ HP _ _
    (applyInflightActionToLeg E leg action amount actionID)
    (λ _, apply_legs E legs action amount actionID last)
    (λ e, if is_panic e then raise e
          else if isTerminalInflightError e then apply_legs E legs action amount actionID last
          else apply_legs E legs action amount actionID (Some e)) (closed_leg _ _ _ _ _))].
  - intros w. cbn [apply_legs].
    destruct (applyInflightActionToLeg E leg action amount actionID w) as [w1 [a|e]]; [done|].
    destruct (is_panic e); [done|]. by destruct (isTerminalInflightError e).
  - intros _. apply IH.
  - intros e. destruct (is_panic e); [apply (closed_raise _ HP)|].
    destruct (isTerminalInflightError e); apply IH.
Qed.

Lemma closed_run E parentID action amount actionID :
  P (RunInflightActionByParent E parentID action amount actionID).
Proof.
  eapply (closed_ext _ HP); [|apply (closed_handle _ HP _ _
    (core (read (λ d, match collect_pages (2 + length (db_transactions d))
                        (if BatchSize E <=? 0 then 100%nat else Z.to_nat (BatchSize E)) 0
                        (GetInflightTransactionsByParentID d parentID) with
                      | Some legs => Ok legs | None => Err (EPanic "unreachable") end)))
    (λ legs, last ← apply_legs E legs action amount actionID None;
             mret (match last with Some e => (true, Some e) | None => (false, None) end))
    (λ e, mret (true, Some e)))].
  - intros w. unfold RunInflightActionByParent, collectInflightLegs, core, read.
    destruct w as [c ts]. cbn [q_core q_tasks].
    by destruct (collect_pages _ _ _ _).
  - apply (closed_read _ HP).
  - intros legs. apply closed_bind; [apply closed_apply_legs|]. intros a. apply (closed_ret _ HP).
  - intros e. apply (closed_ret _ HP).
Qed.

Lemma closed_bulk_one E action item : P (bulk_one E action item).
Proof.
  set (code := λ r : result Transaction, match r with Ok _ => "" | Err e => classifyInflightError e end).
  set (act := match action with
              | BulkInflightCommit => CommitInflightTransaction E item.1 item.2
              | BulkInflightVoid => VoidInflightTransaction E item.1 end).
  assert (Ha : P act) by (unfold act; destruct action; [apply closed_void|apply closed_commit]).
  eapply (closed_ext _ HP); [|apply (closed_handle _ HP _ _ act
    (λ t, mret (mkOutcome item.1 (Ok t) ""))
    (λ e, mret (mkOutcome item.1 (Err e) (classifyInflightError e))) Ha)].
  - intros w. unfold bulk_one, act. destruct action.
    + by destruct (VoidInflightTransaction E item.1 w) as [w1 [a|e]].
    + by destruct (CommitInflightTransaction E item.1 item.2 w) as [w1 [a|e]].
  - intros t. apply (closed_ret _ HP).
  - intros e. apply (closed_ret _ HP).
Qed.

Lemma closed_bulk E action items schedule : P (BulkInflightUpdate E action items schedule).
Proof.
  unfold BulkInflightUpdate. destruct items as [|item items]; [apply (closed_raise _ HP)|].
  apply closed_bind; [|intros; apply (closed_ret _ HP)].
  generalize (∅ : gmap nat BulkInflightOutcome). generalize (item :: items).
  intros l. induction schedule as [|i sch IH]; intros results; [apply (closed_ret _ HP)|].
  cbn [bulk_run]. destruct (l !! i) as [it|]; [|apply IH].
  apply closed_bind; [apply closed_bulk_one|]. intros a. apply IH.
Qed.

End closed.

(** *** Two closed properties *)

Lemma keeps_closed base : closed (@keeps base).
Proof.
  constructor.
  - intros A m m' E Hm w Hw. rewrite <- E. by apply Hm.
  - by intros A a w Hw.
  - by intros A e w Hw.
  - intros A B m f g Hm Hf Hg w Hw. specialize (Hm w Hw). destruct (m w) as [w1 [a|e]].
    + by apply Hf.
    + by apply Hg.
  - intros A E k msg body Hb. by apply (triple_locked (held_from base) (λ _, held_from base)).
  - intros A f. apply triple_core_quiet, quiet_read.
  - intros o nw w Hw.
    unfold core, write, rowsP, rows in *.
    destruct (InsertLineageOutbox (w_db (q_core w)) o nw) as [d|e] eqn:E; [|done].
    apply InsertLineageOutbox_Ok in E as (_ & Hr & _). simpl. by rewrite Hr.
  - intros. apply keeps_commit_body.
  - intros. apply keeps_void_body.
Qed.

(** The database moves along steps of the concurrent ledger. *)
Definition tracks {A} (m : I A) : Prop := ∀ w st,
  Ledger.s_db st = w_db (q_core w) →
  ∃ st', rtc Ledger.step st st' ∧ Ledger.s_db st' = w_db (q_core (m w).1).

Lemma tracks_same {A} (m : I A) : (∀ w, w_db (q_core (m w).1) = w_db (q_core w)) → tracks m.
Proof. intros Hm w st Hs. exists st. split; [done|]. by rewrite Hm. Qed.

Lemma tracks_bind {A B} (m : I A) (f : A → I B) : tracks m → (∀ a, tracks (f a)) → tracks (m ≫= f).
Proof.
  intros Hm Hf w st Hs. destruct (Hm w st Hs) as (st1 & H1 & D1). unfold mbind, prog_bind.
  destruct (m w) as [w1 [a|e]]; [|by exists st1]. destruct (Hf a w1 st1 D1) as (st2 & H2 & D2).
  exists st2. split; [by etrans|done].
Qed.

Lemma tracks_err {A} (m : I A) f : tracks m → tracks (map_err f m).
Proof.
  intros Hm w st Hs. destruct (Hm w st Hs) as (st1 & H1 & D1). exists st1. split; [done|].
  by rewrite map_err_state.
Qed.

Lemma core_db {A} (m : M A) w : w_db (q_core (core m w).1) = w_db (m (q_core w)).1.
Proof. unfold core. by destruct (m (q_core w)) as [c r]. Qed.

Lemma tracks_core_same {A} (m : M A) : (∀ w, w_db (m w).1 = w_db w) → tracks (core m).
Proof. intros Hm. apply tracks_same. intros w. by rewrite core_db. Qed.

Lemma tracks_record E t : tracks (core (RecordTransaction E t)).
Proof.
  intros w st Hs. destruct (Ledger.sim_recordTransactionSingle E t (q_core w) st Hs Logic.I)
    as (st1 & H1 & D1 & _). exists st1. split; [done|]. rewrite core_db, D1.
  unfold RecordTransaction, executeTransactionPlan, planTransactionExecution.
  unfold mbind, prog_bind, mret, prog_ret. by destruct (recordTransactionSingle E t (q_core w)) as [? [?|?]].
Qed.

Lemma tracks_child_reference E reference : tracks (core (child_reference E reference)).
Proof. apply tracks_core_same. intros w. unfold child_reference. by destruct (String.eqb _ _). Qed.

Lemma tracks_fetch E id : tracks (fetchAndValidateInflightTransaction E id).
Proof.
  apply tracks_bind.
  - apply tracks_same. intros w. unfold fetch_inflight.
    destruct (GetTransaction _ _) as [t|e]; [done|]. destruct (error_is_exactly e ErrNoRows); [|done].
    by destruct (GetTransactionFromQueue _ _ _) as [[t|]|e2].
  - intros t. destruct (IsInflightTransaction t); [|by apply tracks_same].
    apply tracks_bind; [by apply tracks_core_same|]. intros [|]; by apply tracks_same.
Qed.

Lemma tracks_lift {A} (r : result A) : tracks (lift r).
Proof. by apply tracks_same. Qed.

Lemma tracks_commit_body E q id amount reference : tracks (commit_body E q id amount reference).
Proof.
  apply tracks_bind; [apply tracks_fetch|]. intros t. apply tracks_bind.
  - apply tracks_bind; [by apply tracks_core_same|]. intros z.
    do 2 (apply tracks_bind; [apply tracks_lift|]; intros ?).
    apply tracks_bind; [apply tracks_lift|]. intros t'.
    apply tracks_bind; [apply tracks_lift|]. intros ?. by apply tracks_same.
  - intros t1. apply tracks_bind; [by apply tracks_core_same|]. intros x.
    apply tracks_bind; [apply tracks_child_reference|]. intros ref. cbv zeta. destruct q.
    + apply tracks_bind; [apply tracks_err, tracks_same|intros; by apply tracks_same].
      intros w. unfold enqueue_one, queue. by destruct (Enqueue _ _ _ _).
    + apply tracks_err, tracks_record.
Qed.

Lemma tracks_void_body E id reference : tracks (void_body E id reference).
Proof.
  apply tracks_bind; [apply tracks_fetch|]. intros t.
  apply tracks_bind; [by apply tracks_core_same|]. intros z.
  destruct (z =? 0); [by apply tracks_same|].
  apply tracks_bind; [by apply tracks_core_same|]. intros x.
  apply tracks_bind; [apply tracks_child_reference|]. intros ref.
  apply tracks_err, tracks_record.
Qed.

Lemma tracks_closed : closed (@tracks).
Proof.
  constructor.
  - intros A m m' E Hm w st Hs. rewrite <- E. by apply Hm.
  - intros. by apply tracks_same.
  - intros. by apply tracks_same.
  - intros A B m f g Hm Hf Hg w st Hs. destruct (Hm w st Hs) as (st1 & H1 & D1).
    destruct (m w) as [w1 [a|e]].
    + destruct (Hf a w1 st1 D1) as (st2 & H2 & D2). exists st2. split; [by etrans|done].
    + destruct (Hg e w1 st1 D1) as (st2 & H2 & D2). exists st2. split; [by etrans|done].
  - intros A E k msg body Hb. apply tracks_bind; [by apply tracks_core_same|]. intros v.
    apply tracks_bind.
    { apply tracks_err, tracks_core_same. intros w. unfold lock_single.
      by destruct (Lock.Locker_Lock _ _ _ _ _) as [[e|] s]. }
    intros _ w st Hs. destruct (Hb w st Hs) as (st1 & H1 & D1). exists st1. split; [done|].
    unfold with_single_release. destruct (body w) as [w1 r]. unfold core, releaseSingleLock.
    by destruct (Lock.Locker_Unlock _ _ _ _).
  - intros. by apply tracks_core_same.
  - intros o nw w [d sn wk lg] Hs. simpl in Hs. subst d. unfold core, write.
    destruct (InsertLineageOutbox (w_db (q_core w)) o nw) as [d|e] eqn:E; [|by eexists].
    apply InsertLineageOutbox_Ok in E as (Eb & Er & _).
    exists (Ledger.mkState d sn wk lg). split; [|done].
    apply rtc_once. by apply Ledger.step_other; rewrite ?Er.
  - intros. apply tracks_commit_body.
  - intros. apply tracks_void_body.
Qed.

(** *** Any sequence of operations *)

Inductive op :=
| OpCommit (id : string) (amount : Z) (reference : string)
| OpCommitQueued (id : string) (amount : Z)
| OpVoid (id reference : string)
| OpAction (parentID action : string) (amount : Z) (actionID : string)
| OpBulk (action : BulkInflightAction) (items : list (string * Z)) (schedule : list nat).

Definition ignore {A} (m : I A) : I unit := λ w, let '(w, r) := m w in (w, Ok tt).

Definition run_op (E : ienv) (o : op) : I unit :=
  match o with
  | OpCommit id amount reference => ignore (CommitInflightTransactionWithRef E id amount reference)
  | OpCommitQueued id amount => ignore (CommitInflightTransactionWithQueue E id amount)
  | OpVoid id reference => ignore (VoidInflightTransactionWithRef E id reference)
  | OpAction p action amount actionID => ignore (RunInflightActionByParent E p action amount actionID)
  | OpBulk action items schedule => ignore (BulkInflightUpdate E action items schedule)
  end.

(** Each operation with the configuration and time it runs at. *)
Fixpoint run_ops (ops : list (ienv * op)) (w : qworld) : qworld :=
  match ops with
  | [] => w
  | (E, o) :: ops => run_ops ops (run_op E o w).1
  end.

Lemma closed_op (P : ∀ A, I A → Prop) E o : closed P → P _ (run_op E o).
Proof.
  intros HP. assert (Hi : ∀ A (m : I A), P _ m → P _ (ignore m)).
  { intros A m Hm. eapply (closed_ext _ HP); [|apply (closed_handle _ HP _ _ m (λ _, mret tt)
      (λ _, mret tt) Hm); intros; apply (closed_ret _ HP)].
    intros w. unfold ignore. by destruct (m w) as [w1 [a|e]]. }
  destruct o; apply Hi.
  - exact (closed_commit P HP E id amount reference).
  - exact (closed_commit_with P HP _ E true id amount "" (closed_queueShadowWork P HP _ E)).
  - exact (closed_void P HP E id reference).
  - exact (closed_run P HP E parentID action amount actionID).
  - exact (closed_bulk P HP E action items schedule).
Qed.

(** ** Properties *)

Lemma run_ops_held ops w :
  held_ok (rows w) → held_ok (rows (run_ops ops w)) ∧ rows w `prefix_of` rows (run_ops ops w).
Proof.
  intros Hok. assert (Hgen : ∀ w', held_from (rows w) (rows w') →
    held_from (rows w) (rows (run_ops ops w'))); [|by apply Hgen].
  induction ops as [|[E o] ops IH]; intros w' Hw'; [done|]. cbn [run_ops]. apply IH.
  pose proof (closed_op (@keeps (rows w)) E o (keeps_closed _) w' Hw') as Hk.
  by destruct (run_op E o w') as [w1 [u|e]].
Qed.


(** C12. Committing and voiding do what they say.  On success the transaction
    is inflight with [left] of its hold uncommitted; a commit asks for at most
    [left] (zero asks for all of it) and adds one APPLIED row of that amount
    under the transaction, a void adds one VOID row of all that is left; a
    given reference was free and is the new row's.  On an error no row was
    added or changed. *)
Theorem settlement_effect E id amount reference w :
  held_ok (rows w) →
  match commit_body E false id amount reference w with
  | (w', Ok t) => settles (rows w) id reference "APPLIED" (requested amount) (amount_ok amount) t
                    (rows w')
  | (w', Err _) => rows w' = rows w
  end
  ∧ match void_body E id reference w with
    | (w', Ok t) => settles (rows w) id reference "VOID" (λ left, left) (λ _, True) t (rows w')
    | (w', Err _) => rows w' = rows w
    end.
Proof.
  intros Hok. split.
  - pose proof (triple_commit_body E (rows w) id amount reference Hok w eq_refl) as Ht.
    destruct (commit_body E false id amount reference w) as [w1 [t|e]]; [exact Ht|by symmetry].
  - pose proof (triple_void_body E (rows w) id reference Hok w eq_refl) as Ht.
    destruct (void_body E id reference w) as [w1 [t|e]]; [exact Ht|by symmetry].
Qed.

(** A leg whose reference is taken is refused before anything is written. *)
Lemma leg_taken E leg action amount actionID w :
  held_ok (rows w) → actionID ≠ "" →
  (∃ x, x ∈ rows w
        ∧ t_Reference x = inflightActionReference (t_TransactionID leg) action actionID) →
  ∃ w' e, applyInflightActionToLeg E leg action amount actionID w = (w', Err e) ∧ rows w' = rows w.
Proof.
  intros Hok Ha (x & Hx & Href). unfold applyInflightActionToLeg.
  set (ref := inflightActionReference _ _ _) in *.
  assert (Hne : ref ≠ "").
  { unfold ref, inflightActionReference. apply String.eqb_neq in Ha as ->.
    intros E0. apply (f_equal String.length) in E0. rewrite !string_length_app in E0. simpl in E0. lia. }
  assert (Hno : ∀ {A} k msg (body : I Transaction) (f : Transaction → I Transaction) (g : Transaction → I A),
    triple (rowsP (eq (rows w))) body (λ _ _, False) (rowsP (eq (rows w))) →
    ∃ w' e, (locked (i_exec E) k msg (body ≫= f) ≫= g) w = (w', Err e) ∧ rows w' = rows w).
  { intros A k msg body f g Hb.
    assert (Hl : triple (rowsP (eq (rows w))) (locked (i_exec E) k msg (body ≫= f))
                   (λ _, rowsP (λ _, False)) (rowsP (eq (rows w)))).
    { apply triple_locked. eapply triple_bind; [exact Hb|]. by intros a w0 Hw0. }
    specialize (Hl w eq_refl). unfold mbind at 1, prog_bind at 1.
    destruct (locked _ _ _ _ w) as [w1 [a|e]]; [done|]. eauto. }
  destruct (String.eqb action InflightActionVoid).
  - apply Hno. eapply triple_weaken; [by apply triple_void_body|done| |done].
    intros t w' (r & _ & _ & _ & _ & _ & _ & _ & _ & Hr & _). destruct (Hr Hne) as [_ Hr']. by apply (Hr' x).
  - apply Hno. eapply triple_weaken; [by apply triple_commit_body|done| |done].
    intros t w' (r & _ & _ & _ & _ & _ & _ & _ & _ & Hr & _). destruct (Hr Hne) as [_ Hr']. by apply (Hr' x).
Qed.

(** A body that adds a row under [ref], and then the shadow work. *)
Lemma locked_records_ref E k msg (body : I Transaction) (shadow : I unit) l ref :
  held_ok l →
  triple (rowsP (eq l)) body
    (λ t, rowsP (λ l', held_ok l' ∧ ∃ x, x ∈ l' ∧ t_Reference x = ref)) (rowsP (eq l)) →
  (∀ base, @keeps base unit shadow) →
  triple (rowsP (eq l)) (locked E k msg (t ← body; _ ← logged shadow; mret t))
    (λ _, rowsP (λ l', ∃ x, x ∈ l' ∧ t_Reference x = ref)) (rowsP (λ _, True)).
Proof.
  intros Hok Hb Hs. eapply triple_weaken;
    [apply (triple_locked_err (eq l) (λ _ l', ∃ x, x ∈ l' ∧ t_Reference x = ref) (λ _, True))
    |done|done|done].
  eapply triple_bind; [eapply triple_weaken; [exact Hb|done|done|done]|]. intros t w Hw.
  pose proof (closed_logged (@keeps (rows w)) (keeps_closed _) shadow (Hs _)) as Hk.
  destruct Hw as [Hok' (x & Hx & Href)]. specialize (Hk w (conj Hok' (reflexivity _))).
  unfold mbind, prog_bind. destruct (logged shadow w) as [w1 [u|e]]; [|done].
  destruct Hk as [_ Hpre]. exists x. split; [|done].
  destruct Hpre as [more Hmore]. unfold rowsP in *. simpl. rewrite Hmore. apply elem_of_app. by left.
Qed.

Lemma settles_has_ref l id reference status amount ok t' l' :
  settles l id reference status amount ok t' l' → reference ≠ "" →
  ∃ x, x ∈ l' ∧ t_Reference x = reference.
Proof.
  intros (r & _ & _ & _ & _ & _ & _ & _ & _ & Hr & -> & _) Hne.
  exists (stored_row t'). split; [apply elem_of_app; right; by left|].
  destruct (Hr Hne) as [Hr' _]. destruct (stored_row_keys t') as [-> _]. done.
Qed.

Lemma leg_records_ref E leg action amount actionID w w1 :
  held_ok (rows w) → actionID ≠ "" →
  applyInflightActionToLeg E leg action amount actionID w = (w1, Ok tt) →
  ∃ x, x ∈ rows w1 ∧ t_Reference x = inflightActionReference (t_TransactionID leg) action actionID.
Proof.
  intros Hok Ha. unfold applyInflightActionToLeg.
  set (ref := inflightActionReference _ _ _) in *.
  assert (Hne : ref ≠ "").
  { unfold ref, inflightActionReference. apply String.eqb_neq in Ha as ->.
    intros E0. apply (f_equal String.length) in E0. rewrite !string_length_app in E0. simpl in E0. lia. }
  assert (Hgo : ∀ m : I Transaction,
    triple (rowsP (eq (rows w))) m (λ _, rowsP (λ l', ∃ x, x ∈ l' ∧ t_Reference x = ref))
      (rowsP (λ _, True)) →
    (_ ← m; mret tt) w = (w1, Ok tt) → ∃ x, x ∈ rows w1 ∧ t_Reference x = ref).
  { intros m Hm. specialize (Hm w eq_refl). unfold mbind, prog_bind.
    destruct (m w) as [w2 [t|e]]; [|done]. by intros [= <-]. }
  destruct (String.eqb action InflightActionVoid); apply Hgo.
  - apply (locked_records_ref _ _ _ (void_body E (t_TransactionID leg) ref)); [done| |].
    + eapply triple_weaken; [by apply triple_void_body|done| |done]. intros t w' Hs. split.
      * eapply settles_held_ok; [done|exact Hs|by left].
      * exact (settles_has_ref _ _ _ _ _ _ _ _ Hs Hne).
    + intros base. apply (closed_queueShadowWork _ (keeps_closed base)).
  - apply (locked_records_ref _ _ _ (commit_body E false (t_TransactionID leg) amount ref)); [done| |].
    + eapply triple_weaken; [by apply triple_commit_body|done| |done]. intros t w' Hs. split.
      * eapply settles_held_ok; [done|exact Hs|]. right. split; [done|]. apply requested_range.
      * exact (settles_has_ref _ _ _ _ _ _ _ _ Hs Hne).
    + intros base. apply (closed_queueShadowWork _ (keeps_closed base)).
Qed.

(** C9. A retried action is idempotent.  Once the commit or void of a leg has
    succeeded under an action id, every later attempt at the same leg, action
    and id, in any configuration and after any further operations, fails and
    adds no row. *)
Theorem inflight_retry_idempotent E E' leg action amount amount' actionID w w1 ops :
  held_ok (rows w) → actionID ≠ "" →
  applyInflightActionToLeg E leg action amount actionID w = (w1, Ok tt) →
  let w2 := run_ops ops w1 in
  ∃ w3 e, applyInflightActionToLeg E' leg action amount' actionID w2 = (w3, Err e)
          ∧ rows w3 = rows w2.
Proof.
  intros Hok Ha Happ w2.
  destruct (leg_records_ref _ _ _ _ _ _ _ Hok Ha Happ) as (x & Hx & Href).
  assert (Hok1 : held_ok (rows w1)).
  { pose proof (closed_leg (@keeps []) (keeps_closed _) E leg action amount actionID w) as Hk.
    rewrite Happ in Hk. apply Hk. split; [done|]. apply prefix_nil. }
  destruct (run_ops_held ops w1 Hok1) as [Hok2 [more Hmore]]. fold w2 in Hok2, Hmore.
  apply leg_taken; [done|done|]. exists x. split; [|done]. rewrite Hmore. apply elem_of_app. by left.
Qed.

(** C16. Every sequence of inflight operations is a run of the concurrent
    ledger: from a reachable database it leads to a reachable one, so double
    entry and the absence of lost updates hold of it. *)
Theorem inflight_refines ops w st :
  Ledger.reachable st → Ledger.s_db st = w_db (q_core w) →
  ∃ st', Ledger.reachable st' ∧ rtc Ledger.step st st'
         ∧ Ledger.s_db st' = w_db (q_core (run_ops ops w)).
Proof.
  intros Hr Hd. assert (Hgen : ∃ st', rtc Ledger.step st st'
                          ∧ Ledger.s_db st' = w_db (q_core (run_ops ops w))).
  { clear Hr. revert w st Hd. induction ops as [|[E o] ops IH]; intros w st Hd; [by exists st|].
    destruct (closed_op (@tracks) E o tracks_closed w st Hd) as (st1 & H1 & D1).
    cbn [run_ops]. destruct (IH _ st1 D1) as (st2 & H2 & D2). exists st2. split; [by etrans|done]. }
  destruct Hgen as (st' & H1 & D1). exists st'. split; [|done]. unfold Ledger.reachable in *. by etrans.
Qed.

End world.

(** ** Witnesses and findings *)

Definition ex_ienv : ienv :=
  mkIEnv Ledger.ex_env TaskQueue.ex_config 100 4.

Definition ex_hold (id ref parent : string) (inflight : bool) : Transaction :=
  empty_transaction <| t_TransactionID := id |> <| t_Reference := ref |>
    <| t_ParentTransaction := parent |>
    <| t_Source := "@alice" |> <| t_Destination := "@bob" |> <| t_Currency := "USD" |>
    <| t_PreciseAmount := Some 500 |> <| t_Amount := Float64.of_Z 5 |>
    <| t_AmountString := "5" |> <| t_Precision := Float64.of_Z 100 |>
    <| t_AllowOverdraft := true |> <| t_Status := StatusQueued |> <| t_Inflight := inflight |>
    <| t_MetaData := {["inflight" := MBool true]} |>.

Definition ex_start : qworld := mkQ (mkWorld empty_db ∅ 0) no_tasks.

(** One hold of 500, recorded through the ledger. *)
Definition ex_held : qworld :=
  (core (RecordTransaction Ledger.ex_env (ex_hold "txn_h" "ref_h" "" true)) ex_start).1.

Definition ex_ops : list (ienv * op) :=
  [(ex_ienv, OpCommit "txn_h" 200 "first"); (ex_ienv, OpCommit "txn_h" 400 "");
   (ex_ienv, OpVoid "txn_h" "rest"); (ex_ienv, OpCommit "txn_h" 100 "late")].

Lemma singleton_held_ok r l :
  l = [r] → t_Inflight r = false → committed [r] (t_TransactionID r) = 0 →
  0 <= ival (t_PreciseAmount r) → held_ok l.
Proof.
  intros -> Hi Hc Ha. split; [apply NoDup_singleton|].
  intros x ->%list_elem_of_singleton. split; [done|]. intros _. lia.
Qed.

Lemma ex_held_ok : held_ok (rows ex_held).
Proof.
  destruct (rows ex_held) as [|r [|r2 l]] eqn:E; [vm_compute in E; discriminate E| |
    apply (f_equal (@length _)) in E; vm_compute in E; discriminate E].
  assert (Hr : hd empty_transaction (rows ex_held) = r) by (by rewrite E).
  apply (singleton_held_ok r); [done|..]; rewrite <- Hr; vm_compute; done.
Qed.


Lemma settlement_effect_witness :
  ∃ w' t, commit_body ex_ienv false "txn_h" 200 "first" ex_held = (w', Ok t)
    ∧ settles (rows ex_held) "txn_h" "first" "APPLIED" (requested 200) (amount_ok 200) t (rows w').
Proof.
  destruct (commit_body ex_ienv false "txn_h" 200 "first" ex_held) as [w' [t|e]] eqn:E.
  - exists w', t. split; [done|].
    pose proof (settlement_effect ex_ienv "txn_h" 200 "first" ex_held ex_held_ok) as [Hc _].
    rewrite E in Hc. exact Hc.
  - apply (f_equal (λ x, is_ok x.2)) in E. vm_compute in E. discriminate E.
Defined.

Definition ex_leg : Transaction := ex_hold "txn_h" "ref_h" "" true.

Lemma inflight_retry_idempotent_witness :
  ∃ w1 w3 e, applyInflightActionToLeg ex_ienv ex_leg "commit" 200 "act_1" ex_held = (w1, Ok tt)
    ∧ applyInflightActionToLeg ex_ienv ex_leg "commit" 200 "act_1" (run_ops ex_ops w1) = (w3, Err e)
    ∧ rows w3 = rows (run_ops ex_ops w1).
Proof.
  destruct (applyInflightActionToLeg ex_ienv ex_leg "commit" 200 "act_1" ex_held)
    as [w1 [[]|e]] eqn:E.
  - destruct (inflight_retry_idempotent ex_ienv ex_ienv ex_leg "commit" 200 200 "act_1" ex_held w1
                ex_ops ex_held_ok ltac:(done) E) as (w3 & e & H1 & H2).
    exists w1, w3, e. split; [reflexivity|]. split; [exact H1|exact H2].
  - apply (f_equal (λ x, is_ok x.2)) in E. vm_compute in E. discriminate E.
Defined.

Lemma inflight_refines_witness :
  ∃ st', Ledger.reachable st' ∧ Ledger.s_db st' = w_db (q_core (run_ops ex_ops ex_held)).
Proof.
  destruct (tracks_record Ledger.ex_env (ex_hold "txn_h" "ref_h" "" true) ex_start
              Ledger.init_state eq_refl) as (st & H1 & D1).
  destruct (inflight_refines ex_ops ex_held st H1 D1) as (st' & Hr & _ & D).
  exists st'. split; [exact Hr|exact D].
Defined.

(** A queued hold can be settled twice: once under the id of its queued row
    and once under the id of the inflight copy the worker records, the second
    time out of another transaction's hold. *)
Definition ex_twice : qworld :=
  let w := (core (write (λ d, d ← Datastore.RecordTransaction d
                                    (ex_hold "txn_q" "ref_q0" "" true); mret (d, tt))) ex_start).1 in
  let w := (core (RecordTransaction Ledger.ex_env (ex_hold "txn_c" "ref_q0_q" "txn_q" true)) w).1 in
  (core (RecordTransaction Ledger.ex_env (ex_hold "txn_other" "ref_o" "" true)) w).1.

Lemma queued_hold_settled_twice :
  let '(w1, r1) := CommitInflightTransaction ex_ienv "txn_q" 0 ex_twice in
  let '(w2, r2) := CommitInflightTransaction ex_ienv "txn_c" 0 w1 in
  let '(w3, r3) := CommitInflightTransaction ex_ienv "txn_other" 0 w2 in
  is_ok r1 = true ∧ is_ok r2 = true ∧ is_ok r3 = false.
Proof. vm_compute. done. Qed.

(** An already voided shadow is not recognised as processed, so voiding the
    shadows of a parent again reports a failure. *)
Lemma voided_shadow_not_recognised :
  already_processed (ENew "transaction has already been voided") = false.
Proof. reflexivity. Qed.

(** A negative commit amount is neither a terminal error nor an invalid one,
    so a queued action with it is retried. *)
Lemma negative_amount_retried :
  isTerminalInflightError (ENew "commit amount cannot be negative") = false
  ∧ classifyInflightError (ENew "commit amount cannot be negative") = "INTERNAL_ERROR".
Proof. by vm_compute. Qed.

End Inflight.
