(* ===== verification/Queueing.v ===== *)
(** * Accepting transactions (transaction_queue.go, transaction_rejection.go,
    transaction_refunds.go, transaction_bulk.go, transaction_batch_processing.go)

    [QueueTransaction] fixes a transaction's metadata, splits it, and either
    records it at once or leaves the rest to a background goroutine, which
    persists a QUEUED row and enqueues a copy of it for the workers.  Goroutines
    that were started and have not run are part of the state; each runs as one
    step.  Rejections, refunds, bulk requests and the rollback of an atomic
    batch are built on it.  A Go function that takes a [*Transaction] changes
    the caller's transaction also when it fails, so such functions are programs
    over the stores and that transaction. *)

From S2P Require Import Prelude Float64 Decimal Types Time Balances Distributions Datastore Lock.
From S2P Require Import HotPairs Execution Ledger TaskQueue Inflight Coalescing.

Module Queueing.

Import Datastore Execution TaskQueue Inflight Coalescing.

Record senv := mkSEnv {
  s_batch : qenv;
  s_queue : TaskQueue.Config;
  s_BatchSize : nat;
  MaxQueueSize : nat;
  s_shadow_fuel : nat;
  s_fetch_first : nat → bool;   (* which goroutine of a batch run moves next *)
}.

Definition s_exec (E : senv) : env := q_exec (s_batch E).
Definition s_ienv (E : senv) : ienv :=
  mkIEnv (s_exec E) (s_queue E) (Z.of_nat (s_BatchSize E)) (s_shadow_fuel E).

(** ** Goroutines that were started *)

Inductive job :=
| JQueue (txn : Transaction) (legs : list Transaction) (originalRef originalTxnID : string)
| JBulk (txns : list Transaction) (batchID : string) (inflight skipQueue atomic : bool).

Definition is_bulk (j : job) : bool := match j with JBulk _ _ _ _ _ => true | _ => false end.

(** [asyncBulkSemaphore]. *)
Definition max_async_bulk : nat := 100.

Record sys `{Asynq} := mkSys { s_world : qworld; s_jobs : list job }.
Arguments mkSys {_} _ _.

Definition meta_set (k : string) (v : metaval) (t : Transaction) : Transaction :=
  t <| t_MetaData := <[k := v]> (t_MetaData t) |>.

(** [setTransactionStatus]. *)
Definition setTransactionStatus (t : Transaction) : Transaction :=
  if negb (is_zero_time (t_ScheduledFor t)) then t <| t_Status := StatusScheduled |>
  else if String.eqb (t_Status t) "" then t <| t_Status := StatusQueued |>
  else t.

(** [updateSplitTransactions]. *)
Fixpoint updateSplitTransactions (i : Z) (legs : list Transaction) (parentID originalRef : string)
    : list Transaction :=
  match legs with
  | [] => []
  | t :: legs =>
      (t <| t_ParentTransaction := parentID |>
         <| t_Reference := originalRef +:+ "_" +:+ Z_to_string i |>)
      :: updateSplitTransactions (i + 1) legs parentID originalRef
  end.

(** [categorizeRejectionReason]. *)
Definition categorizeRejectionReason (reason : string) : string :=
  let lower := to_lower reason in
  if contains lower "insufficient funds" then "insufficient_funds"
  else if contains lower "overdraft limit" then "overdraft_limit"
  else if HotPairs.IsLockContentionError (ENew reason) then "lock_contention"
  else if contains lower "exceeded max" then "max_retries"
  else "other".

(** [prepareRefundTransaction]. *)
Definition prepareRefundTransaction (original : Transaction) (new_id : string) (skipQueue : bool)
    : Transaction :=
  original <| t_TransactionID := new_id |>
    <| t_Reference := t_TransactionID original +:+ "_refund" |>
    <| t_ParentTransaction := t_TransactionID original |>
    <| t_Source := t_Destination original |>
    <| t_Destination := t_Source original |>
    <| t_AllowOverdraft := true |>
    <| t_SkipQueue := skipQueue |>
    <| t_Inflight := String.eqb (t_Status original) StatusVoid |>
    <| t_Status := "" |>.

Section queueing.
Context `{Decimal, MapIter, Asynq}.

Abbreviation S := (prog sys).
(** Programs that also own the caller's transaction. *)
Abbreviation T := (prog (world * Transaction)).
Abbreviation TS := (prog (sys * Transaction)).

Definition inq {A} (m : prog qworld A) : S A := λ y,
  let '(w, r) := m (s_world y) in (mkSys w (s_jobs y), r).
Definition inc {A} (m : M A) : S A := inq (core m).
Definition spawn (j : job) : S unit := λ y, (mkSys (s_world y) (s_jobs y ++ [j]), Ok tt).

Section owner.
Context {W : Type}.
Definition outside {A} (m : prog W A) : prog (W * Transaction) A := λ p,
  let '(w, r) := m p.1 in ((w, p.2), r).
Definition own : prog (W * Transaction) Transaction := λ p, (p, Ok p.2).
Definition become (t : Transaction) : prog (W * Transaction) unit := λ p, ((p.1, t), Ok tt).
End owner.

(** A program over the ledger alone, in the larger state. *)
Definition on_core {A} (m : T A) : TS A := λ p,
  let '((w, t), r) := m (q_core (s_world p.1), p.2) in
  ((mkSys (mkQ w (q_tasks (s_world p.1))) (s_jobs p.1), t), r).

(** A transaction of the callee's own: the caller does not see it. *)
Definition with_txn {W A} (t : Transaction) (m : prog (W * Transaction) A) : prog W A := λ w,
  let '(p, r) := m (w, t) in (p.1, r).

(** ** Preparing *)

(** [setTransactionMetadata] up to the id, and after it. *)
Definition stamp (E : env) (t : Transaction) : Transaction :=
  let t := t <| t_CreatedAt := now E |> in
  let t := match t_EffectiveDate t with
           | None => t <| t_EffectiveDate := Some (t_CreatedAt t) |> | Some _ => t end in
  let t := t <| t_Hash := Distributions.HashTxn t |> in
  (Balances.ApplyPrecision t).2.

Definition flag (t : Transaction) : Transaction :=
  let t := if t_Inflight t then meta_set "inflight" (MBool true) t else t in
  let t := if t_Atomic t then meta_set "atomic" (MBool true) t else t in
  if t_AllowOverdraft t then meta_set "allow_overdraft" (MBool true) t else t.

Definition setTransactionMetadata (E : env) : T unit :=
  t ← own;
  let t := stamp E t in
  t ← (if String.eqb (t_TransactionID t) ""
       then id ← outside (fresh_id E "txn"); mret (t <| t_TransactionID := id |>)
       else mret t);
  become (flag t).

(** [getSourceAndDestination] with the ids it writes back. *)
Definition resolve_ends (E : env) : T unit :=
  t ← own;
  source ← outside (lookup_side E (t_Source t) (t_Currency t));
  _ ← become (t <| t_Source := resolved_name (t_Source t) source |>);
  destination ← outside (lookup_side E (t_Destination t) (t_Currency t));
  become (t <| t_Source := b_BalanceID source |>
            <| t_Destination := b_BalanceID destination |>).

Definition assign_lane (E : env) : T unit := λ '(w, t),
  let counter lane := Ok (CountQueuedTransactionsForPairLane (w_db w) (t_Source t)
                            (t_Destination t) (t_Currency t) lane) in
  match HotPairs.AssignQueueLane (now E) (hot_fault E) (hot_manager E) counter t (w_redis w) with
  | (s, Ok t) => ((w <| w_redis := s |>, t), Ok tt)
  | (s, Err e) => ((w <| w_redis := s |>, t), Err e)
  end.

Definition prepareTransactionForQueue (E : env) : T unit :=
  t ← own;
  _ ← become (setTransactionStatus t);
  _ ← setTransactionMetadata E;
  _ ← ctx_err "failed to get source/destination balances" (resolve_ends E);
  ctx_err "failed to assign queue lane" (assign_lane E).

(** [datasource.RecordTransaction]: one INSERT. *)
Definition insert_transaction (t : Transaction) : M unit :=
  write (λ d, d ← Datastore.RecordTransaction d t; mret (d, tt)).

Definition processSingleTransaction (E : env) (originalRef : string) : T (list Transaction) :=
  t ← own;
  _ ← (if bool_decide (t_Sources t = []) && bool_decide (t_Destinations t = [])
       then prepareTransactionForQueue E else mret tt);
  t ← own;
  _ ← ctx_err "failed to persist original transaction" (outside (insert_transaction t));
  copy ← outside (createQueueCopy E t originalRef);
  mret [copy].

(** The legs share one metadata map, [m]: what one leg writes the later ones
    read, and every copy carries what it holds in the end. *)
Fixpoint process_legs (E : env) (i : Z) (legs : list Transaction) (m : metadata)
    : M (list Transaction * metadata) :=
  match legs with
  | [] => mret ([], m)
  | leg :: legs =>
      leg ← ctx_err ("failed to prepare split transaction " +:+ Z_to_string i)
              (with_txn (leg <| t_MetaData := m |>) (_ ← prepareTransactionForQueue E; own));
      _ ← ctx_err "failed to persist original transaction" (insert_transaction leg);
      copy ← createQueueCopy E leg (t_Reference leg);
      '(copies, m) ← process_legs E (i + 1) legs (t_MetaData leg);
      mret (copy :: copies, m)
  end.

Definition processSplitTransactions (E : env) (legs : list Transaction)
    (originalTxnID originalRef : string) (m : metadata) : M (list Transaction) :=
  '(copies, m) ← process_legs E 0 (updateSplitTransactions 1 legs originalTxnID originalRef) m;
  mret (map (λ c, c <| t_MetaData := m |>) copies).

(** What a failed single attempt leaves in the caller's transaction. *)
Definition left_by_single (E : env) (t : Transaction) (w : world) : Transaction :=
  match resolveBalanceIDs E t w with
  | (_, Err _) => t
  | (w, Ok ids) =>
      let t := t <| t_Source := ids.1 |> <| t_Destination := ids.2 |> in
      match acquireLock E ids.1 ids.2 w with
      | (_, Err _) => t
      | (w, Ok _) =>
          match pre_hook E t with
          | Some _ => t
          | None =>
              match validateAndPrepareTransaction E t w with
              | (_, Err _) => t
              | (_, Ok (t, s, d)) =>
                  match processBalances t s d with
                  | Err _ => touched t
                  | Ok (t, s, d) => wk_transaction (buildTransactionExecutionWork t s d).1
                  end
              end
          end
      end
  end.

(** [l.RecordTransaction(ctx, transaction)] on the caller's transaction. *)
Definition record_own (E : env) : T unit := λ '(w, t),
  match RecordTransaction E t w with
  | (w', Ok t') => ((w', t'), Ok tt)
  | (w', Err e) => ((w', left_by_single E t w), Err e)
  end.

(** ** Queueing

    [on_failure] is [handleAsyncBulkTransactionFailure]. *)

Definition failure_handler := string → bool → bool → S unit.

Fixpoint record_legs (on_failure : failure_handler) (E : senv) (originalTxnID : string) (i : Z)
    (legs : list Transaction) : S (list Transaction) :=
  match legs with
  | [] => mret []
  | leg :: legs => λ y,
      match inc (RecordTransaction (s_exec E) leg) y with
      | (y, Ok recorded) =>
          (rest ← record_legs on_failure E originalTxnID (i + 1) legs;
           mret (recorded :: rest)) y
      | (y, Err e) =>
          (_ ← (if t_Atomic leg then on_failure originalTxnID true (t_Inflight leg) else mret tt);
           raise (EWrap ("failed to record split transaction " +:+ Z_to_string i) e)) y
      end
  end.

Definition processTxns (on_failure : failure_handler) (E : senv) (legs : list Transaction)
    (originalTxnID originalRef : string) (leg_meta : metadata) : TS (list Transaction) :=
  t ← own;
  if t_SkipQueue t then
    match legs with
    | [] => _ ← on_core (record_own (s_exec E)); t ← own; mret [t]
    | _ => outside (record_legs on_failure E originalTxnID 0 legs)
    end
  else
    match legs with
    | [] => on_core (processSingleTransaction (s_exec E) originalRef)
    | _ => outside (inc (processSplitTransactions (s_exec E) legs originalTxnID originalRef leg_meta))
    end.

Fixpoint enqueue_each (E : senv) (txns : list Transaction) : S unit :=
  match txns with
  | [] => mret tt
  | t :: txns =>
      _ ← inq (queue (Enqueue (s_queue E) (now (s_exec E)) t));
      enqueue_each E txns
  end.

(** [enqueueTransactions]. *)
Definition enqueueTransactions (E : senv) (original : Transaction) (split : list Transaction)
    : S unit :=
  enqueue_each E (match split with [] => [original] | _ => split end).

(** [handleSplitTransactions]: the children's ids are generated. *)
Definition handleSplitTransactions (E : env) : T (list Transaction) := λ '(w, t),
  match Distributions.SplitTransactionPrecise t (λ n, gen E "txn" (w_next w + n)) with
  | Ok (t, legs) => ((w <| w_next := (w_next w + length legs)%nat |>, t), Ok legs)
  | Err e => ((w, t), Err (EWrap "failed to split transaction" e))
  end.

(** Scheduled tasks of an accepted transaction. *)
Definition queue_dates (E : senv) : TS unit :=
  t ← own;
  let nw := now (s_exec E) in
  _ ← outside (ctx_err "failed to queue inflight expiry"
                (inq (queue (QueueInflightExpiry (s_queue E) nw t))));
  if is_zero_time (t_InflightCommitDate t) then mret tt
  else
    actionID ← outside (inc (fresh_id (s_exec E) "act"));
    outside (ctx_err "failed to queue inflight commit"
               (inq (queue (QueueInflightCommit (s_queue E) nw actionID t)))).

(** The goroutine gets a clone of the transaction; the legs still refer to the
    caller's metadata map. *)
Definition queue_transaction (on_failure : failure_handler) (E : senv) : TS unit :=
  t ← own;
  let originalRef := t_Reference t in
  _ ← on_core (setTransactionMetadata (s_exec E));
  t ← own;
  _ ← become (setTransactionStatus t);
  let originalTxnID := t_TransactionID t in
  legs ← on_core (handleSplitTransactions (s_exec E));
  t ← own;
  _ ← (if t_SkipQueue t then
         _ ← processTxns on_failure E legs originalTxnID originalRef (t_MetaData t);
         t ← own;
         become (t <| t_Status := (if t_Inflight t then StatusInflight else StatusApplied) |>)
       else
         let t := meta_set "QUEUED_PARENT_TRANSACTION" (MStr originalTxnID) t in
         let t := if contains (t_ParentTransaction t) "bulk"
                  then meta_set "QUEUED_PARENT_TRANSACTION" (MStr (t_ParentTransaction t)) t
                  else t in
         _ ← become t;
         outside (spawn (JQueue t legs originalRef originalTxnID)));
  queue_dates E.

(** ** Refunds *)

Definition with_release_s {A} (E : env) (l : Lock.Locker) (body : S A) : S A := λ y,
  let '(y, r) := body y in
  let '(y, _) := inc (releaseSingleLock E l) y in
  (y, r).

Definition locked_s {A} (E : env) (lockKey msg : string) (body : S A) : S A :=
  v ← inc (fresh_id E "loc");
  let l := Lock.mkLocker lockKey v in
  _ ← ctx_err msg (inc (lock_single E l));
  with_release_s E l body.

Definition getOriginalTransactionForRefund (E : senv) (id : string) : S Transaction := λ y,
  match GetTransaction (w_db (q_core (s_world y))) id with
  | Ok t => (y, Ok t)
  | Err e =>
      if errors_is e ErrNoRows
         || contains (error_text e) ("Transaction with ID '" +:+ id +:+ "' not found") then
        match GetTransactionFromQueue (q_tasks (s_world y)) (s_queue E) id with
        | Ok (Some t) => (y, Ok t)
        | Ok None => (y, Err (ENew ("transaction " +:+ id +:+ " not found in DB or queue")))
        | Err _ => (y, Err (EWrap ("transaction " +:+ id +:+ " not found in DB or queue") e))
        end
      else (y, Err (EWrap ("failed to get transaction " +:+ id +:+ " from DB") e))
  end.

Definition validateTransactionForRefund (d : db) (t : Transaction) : result unit :=
  if String.eqb (t_Status t) StatusApplied || String.eqb (t_Status t) StatusVoid then
    fail_if (IsTransactionRefunded d t)
      (ENew ("transaction " +:+ t_TransactionID t +:+ " has already been refunded"))
  else Err (ENew ("transaction " +:+ t_TransactionID t +:+ " cannot be refunded in status "
                  +:+ t_Status t +:+ " (only APPLIED or VOID)")).

(** [queue] is [QueueTransaction]. *)
Definition refund_body (queue : TS unit) (E : senv) (id : string) (skipQueue : bool)
    : S Transaction :=
  original ← getOriginalTransactionForRefund E id;
  _ ← inc (read (λ d, validateTransactionForRefund d original));
  new_id ← inc (fresh_id (s_exec E) "txn");
  ctx_err ("failed to queue refund transaction " +:+ new_id)
    (with_txn (prepareRefundTransaction original new_id skipQueue) (_ ← queue; own)).

Definition refund_with (queue : TS unit) (E : senv) (id : string) (skipQueue : bool)
    : S Transaction :=
  locked_s (s_exec E) ("refund:" +:+ id) "failed to acquire lock for refund"
    (refund_body queue E id skipQueue).

(** ** Batches of transactions

    One worker and one fetcher around a channel of [MaxQueueSize] jobs: the
    fetcher reads the next page once the rows of the last one are in the
    channel.  [n] counts the steps taken; [fuel] bounds them. *)

Fixpoint run_batches (fuel n : nat) (E : senv) (page : db → nat → nat → list Transaction)
    (act : Transaction → S Transaction) (offset : nat) (fetching : bool) (jobs : list Transaction)
    (done : list Transaction) (errs : list error) : S (list Transaction * list error) :=
  match fuel with
  | O => raise (EPanic "batch steps")
  | Datatypes.S fuel =>
      if fetching && Nat.leb (length jobs) (MaxQueueSize E)
         && (bool_decide (jobs = []) || s_fetch_first E n) then λ y,
        match page (w_db (q_core (s_world y))) (s_BatchSize E) offset with
        | [] => run_batches fuel (Datatypes.S n) E page act offset false jobs done errs y
        | txns => run_batches fuel (Datatypes.S n) E page act (offset + length txns) true
                    (jobs ++ txns) done errs y
        end
      else
        match jobs with
        | [] => mret (done, errs)
        | t :: jobs => λ y,
            match act t y with
            | (y, Ok r) => run_batches fuel (Datatypes.S n) E page act offset fetching jobs
                             (done ++ [r]) errs y
            | (y, Err e) =>
                if is_panic e then (y, Err e)
                else run_batches fuel (Datatypes.S n) E page act offset fetching jobs done
                       (errs ++ [e]) y
            end
        end
  end.

(** The transactions the workers made, in the order of their results. *)
Definition ProcessTransactionInBatches (E : senv) (page : db → nat → nat → list Transaction)
    (act : Transaction → S Transaction) : S (list Transaction) := λ y,
  let fuel := (2 * length (db_transactions (w_db (q_core (s_world y)))) + 4)%nat in
  ('(done, errs) ← run_batches fuel 0 E page act 0 true [] [] [];
   match errs with
   | [] => mret done
   | _ => raise (ENew ("error occurred during processing: ["
                       +:+ join " " (map error_text errs) +:+ "]"))
   end) y.

Definition CommitWorker (E : senv) (amount : Z) (t : Transaction) : S Transaction :=
  if IsInflightTransaction t
  then inq (CommitInflightTransaction (s_ienv E) (t_TransactionID t) amount)
  else raise (ENew "transaction is not in inflight status").

Definition VoidWorker (E : senv) (t : Transaction) : S Transaction :=
  if IsInflightTransaction t
  then inq (VoidInflightTransaction (s_ienv E) (t_TransactionID t))
  else raise (ENew "transaction is not in inflight status").

Definition RefundWorker (refund : string → bool → S Transaction) (t : Transaction) : S Transaction :=
  refund (t_TransactionID t) (t_SkipQueue t).

(** [rollbackBatchTransactions]. *)
Definition rollbackBatchTransactions (refund : string → bool → S Transaction) (E : senv)
    (batchID : string) (isInflight : bool) : S string := λ y,
  if isInflight then
    (_ ← ProcessTransactionInBatches E (λ d, GetInflightTransactionsByParentID d batchID)
           (VoidWorker E);
     mret "voided") y
  else
    (_ ← ProcessTransactionInBatches E (λ d, GetRefundableTransactionsByParentID d batchID)
           (RefundWorker refund);
     mret "refunded") y.

(** [handleAsyncBulkTransactionFailure]; its webhook aside.  A panic unwinds. *)
Definition bulk_failure (refund : string → bool → S Transaction) (E : senv) : failure_handler :=
  λ batchID isAtomic isInflight y,
  if isAtomic then
    match rollbackBatchTransactions refund E batchID isInflight y with
    | (y, Ok _) => (y, Ok tt)
    | (y, Err e) => (y, if is_panic e then Err e else Ok tt)
    end
  else (y, Ok tt).

(** A rollback refunds rows of the table, whose [SkipQueue] is not stored, so
    the refunds it queues are asynchronous and start no rollback. *)
Fixpoint QueueTransaction (fuel : nat) (E : senv) : TS unit :=
  match fuel with
  | O => raise (EPanic "rollback recursion")
  | Datatypes.S fuel => queue_transaction (bulk_failure (refund_with (QueueTransaction fuel E) E) E) E
  end.

Definition RefundTransaction (E : senv) : string → bool → S Transaction :=
  refund_with (QueueTransaction 2 E) E.
Definition handleAsyncBulkTransactionFailure (E : senv) : failure_handler :=
  bulk_failure (RefundTransaction E) E.

(** [RefundWorkerWithOptions]. *)
Definition RefundWorkerWithOptions (E : senv) (skipQueue : bool) (t : Transaction) : S Transaction :=
  RefundTransaction E (t_TransactionID t) skipQueue.

(** ** Rejection *)

Definition RejectTransaction (E : senv) (t : Transaction) (reason : string) : S Transaction :=
  let t := meta_set "blnk_rejection_reason" (MStr reason) (t <| t_Status := StatusRejected |>) in
  _ ← inc (insert_transaction t);
  if t_Atomic t then
    match meta_string (t_MetaData t) "QUEUED_PARENT_TRANSACTION" with
    | None => raise (ENew "parent transaction ID not found in meta data")
    | Some parent =>
        _ ← handleAsyncBulkTransactionFailure E parent (t_Atomic t) (t_Inflight t);
        mret t
    end
  else mret t.

(** ** Bulk requests *)

Record BulkTransactionRequest := mkBulkRequest {
  bq_Transactions : list Transaction;
  bq_Inflight : bool;
  bq_Atomic : bool;
  bq_RunAsync : bool;
  bq_SkipQueue : bool;
}.

Record BulkTransactionResult := mkBulkResult {
  br_BatchID : string;
  br_Status : string;
  br_Error : string;
  br_TransactionCount : nat;
}.

Definition bulk_error (i : Z) (t : Transaction) : string :=
  "failed to queue transaction " +:+ Z_to_string i +:+ " (Reference: " +:+ t_Reference t
  +:+ ", Source: " +:+ t_Source t +:+ ", Destination: " +:+ t_Destination t
  +:+ ", Amount: " +:+ Float64.format_fixed2 (t_Amount t) +:+ ")".

Fixpoint processBulkTransactions (E : senv) (i : Z) (txns : list Transaction) (batchID : string)
    (inflight skipQueue : bool) : S unit :=
  match txns with
  | [] => mret tt
  | t :: txns => λ y,
      let t := t <| t_Inflight := inflight |> <| t_SkipQueue := skipQueue |>
                 <| t_ParentTransaction := batchID |> in
      let t := meta_set "sequence" (MNum (Float64.of_Z i)) t in
      match QueueTransaction 2 E (y, t) with
      | ((y, _), Ok _) => processBulkTransactions E (i + 1) txns batchID inflight skipQueue y
      | ((y, t), Err e) => (y, Err (EWrap (bulk_error i t) e))
      end
  end.

Definition bulk_status (inflight : bool) : string := if inflight then "inflight" else "applied".

Definition start_bulk (E : senv) (req : BulkTransactionRequest) (batchID : string)
    : S (BulkTransactionResult * option error) := λ y,
  if Nat.ltb (length (List.filter is_bulk (s_jobs y))) max_async_bulk then
    (_ ← spawn (JBulk (bq_Transactions req) batchID (bq_Inflight req) (bq_SkipQueue req)
                  (bq_Atomic req));
     mret (mkBulkResult batchID "processing" "" 0, None)) y
  else (y, Err (EAPI "RATE_LIMITED"
                  "too many async bulk operations in progress, try again later")).

Definition bulk_now (E : senv) (req : BulkTransactionRequest) (batchID : string)
    : S (BulkTransactionResult * option error) := λ y,
  match processBulkTransactions E 1 (bq_Transactions req) batchID (bq_Inflight req)
          (bq_SkipQueue req) y with
  | (y, Ok _) =>
      (y, Ok (mkBulkResult batchID (bulk_status (bq_Inflight req)) ""
                (length (bq_Transactions req)), None))
  | (y, Err e) =>
      if is_panic e then (y, Err e)
      else
        let failed msg := (mkBulkResult batchID "failed" msg 0, Some (ENew msg)) in
        if bq_Atomic req then
          match rollbackBatchTransactions (RefundTransaction E) E batchID (bq_Inflight req) y with
          | (y, Ok action) =>
              (y, Ok (failed (error_text e +:+ ". All transactions in this batch have been "
                              +:+ action +:+ ".")))
          | (y, Err e') =>
              if is_panic e' then (y, Err e')
              else (y, Ok (failed (error_text e +:+ ". Failed to roll back all transactions: "
                                   +:+ error_text e')))
          end
        else (y, Ok (failed (error_text e +:+ ". Previous transactions were not rolled back.")))
  end.

(** The response and the error returned beside it. *)
Definition CreateBulkTransactions (E : senv) (req : BulkTransactionRequest)
    : S (BulkTransactionResult * option error) :=
  batchID ← inc (fresh_id (s_exec E) "bulk");
  if bq_RunAsync req then start_bulk E req batchID else bulk_now E req batchID.

(** ** Running a goroutine

    Errors are recorded on the span; a panic ends the process. *)

Definition run_job (E : senv) (j : job) : S unit := λ y,
  match j with
  | JQueue t legs originalRef originalTxnID =>
      let '((y, t), r) := processTxns (handleAsyncBulkTransactionFailure E) E legs originalTxnID
                            originalRef (t_MetaData t) (y, t) in
      match r with
      | Err (EPanic msg) => (y, Err (EPanic msg))
      | _ =>
          let copies := match r with Ok copies => copies | Err _ => [] end in
          if t_SkipQueue t then (y, Ok tt)
          else match enqueueTransactions E t copies y with
               | (y, Err e) => (y, if is_panic e then Err e else Ok tt)
               | r => r
               end
      end
  | JBulk txns batchID inflight skipQueue atomic =>
      match processBulkTransactions E 1 txns batchID inflight skipQueue y with
      | (y, Ok _) => (y, Ok tt)
      | (y, Err e) =>
          if is_panic e then (y, Err e)
          else handleAsyncBulkTransactionFailure E batchID atomic inflight y
      end
  end.

(** The scheduler picks a started goroutine. *)
Definition run_nth_job (E : senv) (i : nat) : S unit := λ y,
  match s_jobs y !! i with
  | Some j => run_job E j (mkSys (s_world y) (base.delete i (s_jobs y)))
  | None => (y, Ok tt)
  end.

End queueing.

(** ** The transaction table is an append-only log *)

(** A row without its metadata, which alone is ever rewritten. *)
Definition bare (r : Transaction) : Transaction := r <| t_MetaData := ∅ |>.

(** The two tables that only ever grow: transactions, and the lineage outbox. *)
Definition logs : Type := list Transaction * list LineageOutbox.
Definition logs_of_db (d : db) : logs := (map bare (db_transactions d), db_outbox d).

(** States that hold the database. *)
Class HasTables (W : Type) := tables_of : W → logs.
#[export] Instance world_tables : HasTables world := λ w, logs_of_db (w_db w).
#[export] Instance qworld_tables `{Asynq} : HasTables qworld := λ w, tables_of (q_core w).
#[export] Instance sys_tables `{Asynq} : HasTables sys := λ y, tables_of (s_world y).
#[export] Instance owned_tables `{HasTables W} : HasTables (W * Transaction) := λ p, tables_of p.1.

(** Rows are added at the end, under references that were free. *)
Definition rows_grow (l l' : list Transaction) : Prop :=
  l `prefix_of` l' ∧ (NoDup (map t_Reference l) → NoDup (map t_Reference l')).

#[export] Instance rows_grow_preorder : PreOrder rows_grow.
Proof.
  split; [by intros l|]. intros l1 l2 l3 [P1 N1] [P2 N2]. split; [by etrans|auto].
Qed.

Definition grows (s s' : logs) : Prop := rows_grow s.1 s'.1 ∧ outbox_grows s.2 s'.2.

#[export] Instance grows_preorder : PreOrder grows.
Proof.
  split; [by intros s|]. intros s1 s2 s3 [P1 N1] [P2 N2]. split; by etrans.
Qed.

Definition appends `{HasTables W} {A} (m : prog W A) : Prop :=
  ∀ w, grows (tables_of w) (tables_of (m w).1).

Section appends.
Context `{HasTables W}.
Implicit Types (w : W).

Lemma appends_same {A} (m : prog W A) : (∀ w, tables_of (m w).1 = tables_of w) → appends m.
Proof. intros E w. by rewrite E. Qed.

Lemma appends_ret {A} (a : A) : appends (mret a : prog W A).
Proof. by apply appends_same. Qed.

Lemma appends_raise {A} e : appends (raise e : prog W A).
Proof. by apply appends_same. Qed.

Lemma appends_lift {A} (r : result A) : appends (lift r : prog W A).
Proof. by apply appends_same. Qed.

Lemma appends_ext {A} (m m' : prog W A) : (∀ w, m w = m' w) → appends m → appends m'.
Proof. intros E Hm w. rewrite <- E. apply Hm. Qed.

Lemma appends_handle {A B} (m : prog W A) (f : A → prog W B) (g : error → prog W B) :
  appends m → (∀ a, appends (f a)) → (∀ e, appends (g e)) →
  appends (λ w, match m w with (w, Ok a) => f a w | (w, Err e) => g e w end).
Proof.
  intros Hm Hf Hg w. specialize (Hm w). destruct (m w) as [w1 [a|e]]; cbn [fst] in Hm.
  - etrans; [exact Hm|apply Hf].
  - etrans; [exact Hm|apply Hg].
Qed.

Lemma appends_bind {A B} (m : prog W A) (f : A → prog W B) :
  appends m → (∀ a, appends (f a)) → appends (m ≫= f).
Proof.
  intros Hm Hf. eapply appends_ext; [|exact (appends_handle m f raise Hm Hf appends_raise)].
  intros w. unfold mbind, prog_bind. by destruct (m w) as [w1 [a|e]].
Qed.

Lemma appends_err {A} f (m : prog W A) : appends m → appends (map_err f m).
Proof. intros Hm w. rewrite map_err_state. apply Hm. Qed.

Lemma appends_keep_ref {A} (m : prog W A) w ref :
  appends m → ref ∈ map t_Reference (tables_of w).1 → ref ∈ map t_Reference (tables_of (m w).1).1.
Proof. intros Hm Hr. destruct (Hm w) as [[[l ->] _] _]. rewrite map_app. apply elem_of_app. by left. Qed.

End appends.

Section owned.
Context `{HasTables W}.

Lemma appends_outside {A} (m : prog W A) : appends m → appends (outside m).
Proof.
  intros Hm [w t]. specialize (Hm w). unfold outside. cbn [fst].
  by destruct (m w) as [w1 r].
Qed.

Lemma appends_own : appends (W := W * Transaction) own.
Proof. by apply appends_same. Qed.

Lemma appends_become t : appends (W := W * Transaction) (become t).
Proof. by apply appends_same. Qed.

Lemma appends_with_txn {A} t (m : prog (W * Transaction) A) : appends m → appends (with_txn t m).
Proof.
  intros Hm w. specialize (Hm (w, t)). unfold with_txn.
  by destruct (m (w, t)) as [[w1 t1] r].
Qed.
End owned.

Create HintDb appends.
#[export] Hint Resolve appends_ret appends_raise appends_lift appends_err appends_outside
  appends_own appends_become appends_with_txn : appends.
#[export] Hint Extern 2 (appends (_ ≫= _)) => (apply appends_bind; [|intros ?]) : appends.
#[export] Hint Extern 1 (appends (ctx_err _ _)) => (apply appends_err) : appends.

Section service.
Context `{Decimal, MapIter, Asynq}.

Lemma bare_keys r :
  t_Reference (bare r) = t_Reference r ∧ t_ParentTransaction (bare r) = t_ParentTransaction r
  ∧ t_Status (bare r) = t_Status r ∧ t_TransactionID (bare r) = t_TransactionID r.
Proof. by destruct r. Qed.

Lemma bare_refs l : map t_Reference (map bare l) = map t_Reference l.
Proof. rewrite map_map. apply map_ext. intros r. apply (bare_keys r). Qed.

Lemma grows_row d t :
  fresh_row d t →
  rows_grow (map bare (db_transactions d)) (map bare (db_transactions d ++ [stored_row t])).
Proof.
  intros Hf. split; [rewrite map_app; by eexists|]. rewrite !bare_refs, map_app. intros Hnd.
  destruct (stored_row_keys t) as (E & _). cbn [map]. rewrite E. apply NoDup_app.
  split; [done|]. split; [|apply NoDup_singleton].
  intros x (r & -> & Hr)%list_elem_of_fmap ?%list_elem_of_singleton. by destruct (Hf r Hr).
Qed.

Lemma appends_quiet {A} (m : M A) : quiet m → appends m.
Proof.
  intros Hm. apply appends_same. intros w. unfold tables_of, world_tables, logs_of_db.
  by destruct (Hm w) as (-> & -> & _).
Qed.

Lemma appends_core {A} (m : M A) : appends m → appends (core m).
Proof.
  intros Hm w. specialize (Hm (q_core w)). unfold core.
  by destruct (m (q_core w)) as [c r].
Qed.

Lemma appends_queue {A} (m : prog tasks A) : appends (queue m).
Proof. apply appends_same. intros w. unfold queue. by destruct (m (q_tasks w)). Qed.

Lemma appends_inq {A} (m : prog qworld A) : appends m → appends (inq m).
Proof.
  intros Hm y. specialize (Hm (s_world y)). unfold inq.
  by destruct (m (s_world y)) as [w r].
Qed.

Lemma appends_inc {A} (m : M A) : appends m → appends (inc m).
Proof. intros Hm. by apply appends_inq, appends_core. Qed.

Lemma appends_on_core {A} (m : prog (world * Transaction) A) : appends m → appends (on_core m).
Proof.
  intros Hm [y t]. specialize (Hm (q_core (s_world y), t)). unfold on_core.
  cbn [fst snd]. by destruct (m (q_core (s_world y), t)) as [[w t1] r].
Qed.

Lemma appends_spawn j : appends (spawn j).
Proof. by apply appends_same. Qed.

Lemma appends_fresh E module : appends (fresh_id E module).
Proof. apply appends_quiet, quiet_fresh. Qed.

Lemma appends_read {A} (f : db → result A) : appends (read f).
Proof. by apply appends_same. Qed.

Lemma appends_record E t : appends (RecordTransaction E t).
Proof.
  intros w. pose proof (RecordTransaction_recorded E t w) as Hr.
  unfold tables_of, world_tables, logs_of_db.
  destruct (RecordTransaction E t w) as [w1 [t1|e]]; cbn [fst snd] in *.
  - destruct Hr as (_ & _ & Hr). destruct (bool_decide _).
    + by destruct Hr as (-> & -> & _).
    + destruct Hr as (-> & Hf & _ & Ho). split; [by apply grows_row|exact Ho].
  - by destruct Hr as (-> & -> & _).
Qed.

Lemma appends_insert t : appends (insert_transaction t).
Proof.
  intros w. unfold insert_transaction, write, Datastore.RecordTransaction, tables_of, world_tables.
  destruct (recordTransactionInTx (w_db w) t) as [d|e] eqn:E; [|done].
  apply recordTransactionInTx_Ok in E as (-> & Hf & _). split; [by apply grows_row|done].
Qed.

Lemma appends_assign_lane E : appends (assign_lane E).
Proof.
  apply appends_same. intros [w t]. unfold assign_lane.
  by destruct (HotPairs.AssignQueueLane _ _ _ _ _ _) as [s [?|?]].
Qed.

Lemma appends_split E : appends (handleSplitTransactions E).
Proof.
  apply appends_same. intros [w t]. unfold handleSplitTransactions.
  by destruct (Distributions.SplitTransactionPrecise _ _) as [[? ?]|].
Qed.

Lemma appends_record_own E : appends (record_own E).
Proof.
  intros [w t]. pose proof (appends_record E t w) as Hr. unfold record_own.
  by destruct (RecordTransaction E t w) as [w1 [t1|e]].
Qed.

Lemma appends_lookup_side E name cur : appends (lookup_side E name cur).
Proof. apply appends_quiet, quiet_lookup_side. Qed.

Lemma appends_lock E l : appends (lock_single E l).
Proof. apply appends_quiet, quiet_lock_single. Qed.

#[local] Hint Resolve appends_core appends_queue appends_inq appends_inc appends_on_core
  appends_spawn appends_fresh appends_read appends_record appends_insert appends_assign_lane
  appends_split appends_record_own appends_lookup_side appends_lock : appends.

(** *** Inflight actions *)

Lemma appends_locked {A} E k msg (body : prog qworld A) : appends body → appends (locked E k msg body).
Proof.
  intros Hb. unfold locked. do 2 (apply appends_bind; [auto with appends|intros ?]).
  intros w. specialize (Hb w). unfold with_single_release.
  destruct (body w) as [w1 r]. unfold core.
  pose proof (quiet_releaseSingleLock E (Lock.mkLocker k a) (q_core w1)) as (Eq & Eo & _).
  destruct (releaseSingleLock E _ (q_core w1)) as [c u]. cbn [fst] in *.
  unfold tables_of, qworld_tables, tables_of, world_tables, logs_of_db in *. cbn [q_core].
  by rewrite Eq, Eo.
Qed.

Lemma appends_fetch E id : appends (fetchAndValidateInflightTransaction E id).
Proof.
  apply appends_bind.
  - apply appends_same. intros w. unfold fetch_inflight.
    destruct (GetTransaction _ _) as [t|e]; [done|]. destruct (error_is_exactly e ErrNoRows); [|done].
    by destruct (GetTransactionFromQueue _ _ _) as [[t|]|e2].
  - intros t. destruct (IsInflightTransaction t); [|auto with appends].
    apply appends_bind; [auto with appends|]. intros [|]; auto with appends.
Qed.

Lemma appends_child_reference E reference : appends (core (child_reference E reference)).
Proof.
  apply appends_core. unfold child_reference. destruct (String.eqb _ _); auto with appends.
Qed.
#[local] Hint Resolve appends_locked appends_fetch appends_child_reference : appends.

Lemma appends_commit_body E q id amount reference : appends (commit_body E q id amount reference).
Proof.
  apply appends_bind; [auto with appends|]. intros t. apply appends_bind.
  - unfold validateAndUpdateAmount. apply appends_bind; [unfold calculateRemainingAmount; auto with appends|].
    intros z. do 3 (apply appends_bind; [auto with appends|]; intros ?). auto with appends.
  - intros t1. unfold finalizeCommitment. apply appends_bind; [auto with appends|]. intros x.
    apply appends_bind; [auto with appends|]. intros ref. cbv zeta. destruct q; [|auto with appends].
    apply appends_bind; [|intros; auto with appends]. apply appends_err, appends_same.
    intros w. unfold enqueue_one, queue. by destruct (Enqueue _ _ _ _).
Qed.

Lemma appends_void_body E id reference : appends (void_body E id reference).
Proof.
  apply appends_bind; [auto with appends|]. intros t.
  apply appends_bind; [unfold calculateRemainingAmount; auto with appends|]. intros z.
  destruct (z =? 0); [auto with appends|]. unfold finalizeVoidTransaction.
  do 2 (apply appends_bind; [auto with appends|]; intros ?). auto with appends.
Qed.

Lemma appends_closed : closed (λ A, @appends qworld _ A).
Proof.
  constructor; intros.
  - by eapply appends_ext.
  - auto with appends.
  - auto with appends.
  - by apply appends_handle.
  - auto with appends.
  - auto with appends.
  - intros w. unfold core, write, tables_of, qworld_tables, tables_of, world_tables, logs_of_db.
    destruct (InsertLineageOutbox (w_db (q_core w)) o nw) as [d|e] eqn:E; [|done].
    pose proof (InsertLineageOutbox_grows _ _ _ _ E).
    apply InsertLineageOutbox_Ok in E as (_ & Hr & _). simpl. by rewrite Hr.
  - apply appends_commit_body.
  - apply appends_void_body.
Qed.

(** *** Queueing, refunds, rejections and bulk requests *)

Lemma appends_if {W A} `{HasTables W} (b : bool) (m1 m2 : prog W A) :
  appends m1 → appends m2 → appends (if b then m1 else m2).
Proof. by destruct b. Qed.
#[local] Hint Resolve appends_if : appends.
#[local] Hint Extern 2 (appends (let _ := _ in _)) => cbv zeta : appends.

Lemma appends_set_metadata E : appends (setTransactionMetadata E).
Proof.
  unfold setTransactionMetadata. apply appends_bind; [auto with appends|]. intros t. cbv zeta.
  apply appends_bind; [|intros; auto with appends]. auto 6 with appends.
Qed.
#[local] Hint Resolve appends_set_metadata : appends.

Lemma appends_prepare E : appends (prepareTransactionForQueue E).
Proof. unfold prepareTransactionForQueue, resolve_ends. auto 15 with appends. Qed.
#[local] Hint Resolve appends_prepare : appends.

Lemma appends_queue_copy E t ref : appends (createQueueCopy E t ref).
Proof. unfold createQueueCopy. auto with appends. Qed.
#[local] Hint Resolve appends_queue_copy : appends.

Lemma appends_single E ref : appends (processSingleTransaction E ref).
Proof. unfold processSingleTransaction. auto 15 with appends. Qed.

Lemma appends_split_legs E legs id ref m : appends (processSplitTransactions E legs id ref m).
Proof.
  unfold processSplitTransactions. apply appends_bind; [|intros [? ?]; auto with appends].
  generalize (updateSplitTransactions 1 legs id ref). clear legs. intros legs. generalize 0.
  revert m. induction legs as [|leg legs IH]; intros m i; [apply appends_ret|]. cbn [process_legs].
  do 3 (apply appends_bind; [auto 10 with appends|]; intros ?).
  apply appends_bind; [apply IH|]. intros [? ?]. auto with appends.
Qed.
#[local] Hint Resolve appends_single appends_split_legs : appends.

Definition safe_handler (f : failure_handler) : Prop := ∀ b a i, appends (f b a i).

Lemma appends_record_legs f E id i legs : safe_handler f → appends (record_legs f E id i legs).
Proof.
  intros Hf. revert i. induction legs as [|leg legs IH]; intros i; [apply appends_ret|].
  cbn [record_legs].
  apply (appends_handle (inc (RecordTransaction (s_exec E) leg))
           (λ recorded, rest ← record_legs f E id (i + 1) legs; mret (recorded :: rest))
           (λ e, _ ← (if t_Atomic leg then f id true (t_Inflight leg) else mret tt);
                 raise (EWrap ("failed to record split transaction " +:+ Z_to_string i) e)));
    auto with appends.
Qed.

Lemma appends_processTxns f E legs id ref m : safe_handler f → appends (processTxns f E legs id ref m).
Proof.
  intros Hf. pose proof (appends_record_legs f E id 0 legs Hf). unfold processTxns.
  apply appends_bind; [auto with appends|]. intros t.
  destruct (t_SkipQueue t), legs; auto 10 with appends.
Qed.

Lemma appends_dates E : appends (queue_dates E).
Proof. unfold queue_dates. auto 15 with appends. Qed.
#[local] Hint Resolve appends_dates appends_processTxns : appends.

Lemma appends_queue_transaction f E : safe_handler f → appends (queue_transaction f E).
Proof.
  intros Hf. unfold queue_transaction. do 6 (apply appends_bind; [auto with appends|]; intros ?; cbv zeta).
  apply appends_bind; [|auto with appends]. destruct (t_SkipQueue _); auto 10 with appends.
Qed.

Lemma appends_locked_s {A} E k msg (body : prog sys A) : appends body → appends (locked_s E k msg body).
Proof.
  intros Hb. unfold locked_s. do 2 (apply appends_bind; [auto with appends|]; intros ?; cbv zeta).
  intros y. specialize (Hb y). unfold with_release_s.
  destruct (body y) as [y1 r]. cbn [fst] in Hb.
  pose proof (quiet_releaseSingleLock E (Lock.mkLocker k a) (q_core (s_world y1))) as (Eq & Eo & _).
  unfold inc, inq, core.
  destruct (releaseSingleLock E _ (q_core (s_world y1))) as [c u]. cbn [fst] in *.
  unfold tables_of, sys_tables, tables_of, qworld_tables, tables_of, world_tables, logs_of_db in *.
  cbn [s_world q_core]. by rewrite Eq, Eo.
Qed.

Lemma appends_refund_with q E id skip : appends q → appends (refund_with q E id skip).
Proof.
  intros Hq. apply appends_locked_s. unfold refund_body. apply appends_bind.
  - apply appends_same. intros y. unfold getOriginalTransactionForRefund.
    destruct (GetTransaction _ _); [done|]. destruct (_ || _); [|done].
    by destruct (GetTransactionFromQueue _ _ _) as [[?|]|].
  - intros t. do 2 (apply appends_bind; [auto with appends|]; intros ?; cbv zeta).
    auto 10 with appends.
Qed.

Lemma appends_run_batches fuel n E page act off fetching jobs done errs :
  (∀ t, appends (act t)) → appends (run_batches fuel n E page act off fetching jobs done errs).
Proof.
  intros Ha. revert n off fetching jobs done errs.
  induction fuel as [|fuel IH]; intros n off fetching jobs done errs; [apply appends_raise|].
  cbn [run_batches]. destruct (_ && _ && _).
  { intros y. destruct (page _ _ off); apply IH. }
  destruct jobs as [|t jobs]; [auto with appends|].
  eapply appends_ext; [|apply (appends_handle (act t)
    (λ r, run_batches fuel (S n) E page act off fetching jobs (done ++ [r]) errs)
    (λ e, if is_panic e then raise e
          else run_batches fuel (S n) E page act off fetching jobs done (errs ++ [e])));
    auto with appends].
  intros y. cbv beta. destruct (act t y) as [y1 [u|e]]; [reflexivity|]. by destruct (is_panic e).
Qed.

Lemma appends_batches E page act : (∀ t, appends (act t)) → appends (ProcessTransactionInBatches E page act).
Proof.
  intros Ha y. unfold ProcessTransactionInBatches.
  match goal with |- context [run_batches ?fuel _ _ _ _ _ _ _ _ _] => generalize fuel end.
  intros fuel. pose proof (appends_run_batches fuel 0 E page act 0 true [] [] [] Ha) as Hr.
  revert y. match goal with |- ∀ y, grows _ (tables_of (?m y).1) => change (appends m) end.
  apply appends_bind; [exact Hr|]. intros [l [|? ?]]; auto with appends.
Qed.

Lemma appends_commit_worker E amount t : appends (CommitWorker E amount t).
Proof.
  unfold CommitWorker. apply appends_if; [|auto with appends].
  apply appends_inq, (closed_commit _ appends_closed).
Qed.

Lemma appends_void_worker E t : appends (VoidWorker E t).
Proof.
  unfold VoidWorker. apply appends_if; [|auto with appends].
  apply appends_inq, (closed_void _ appends_closed).
Qed.

Lemma appends_bulk_failure refund E :
  (∀ id skip, appends (refund id skip)) → safe_handler (bulk_failure refund E).
Proof.
  intros Hr b a i. unfold bulk_failure. destruct a; [|by apply appends_same].
  eapply appends_ext; [|apply (appends_handle (rollbackBatchTransactions refund E b i)
    (λ _, mret tt) (λ e, if is_panic e then raise e else mret tt)); auto with appends].
  - intros y. cbv beta. destruct (rollbackBatchTransactions refund E b i y) as [y1 [u|e]]; [done|].
    by destruct (is_panic e).
  - unfold rollbackBatchTransactions. destruct i; (apply appends_bind; [|auto with appends]);
      apply appends_batches; intros t; [apply appends_void_worker|].
    unfold RefundWorker. auto with appends.
Qed.

Lemma appends_QueueTransaction fuel E : appends (QueueTransaction fuel E).
Proof.
  induction fuel as [|fuel IH]; [apply appends_raise|]. cbn [QueueTransaction].
  apply appends_queue_transaction, appends_bulk_failure. intros. by apply appends_refund_with.
Qed.

Lemma appends_RefundTransaction E id skip : appends (RefundTransaction E id skip).
Proof. apply appends_refund_with, appends_QueueTransaction. Qed.

Lemma appends_handler E : safe_handler (handleAsyncBulkTransactionFailure E).
Proof. apply appends_bulk_failure, appends_RefundTransaction. Qed.
#[local] Hint Resolve appends_QueueTransaction appends_RefundTransaction appends_handler : appends.

Lemma appends_RejectTransaction E t reason : appends (RejectTransaction E t reason).
Proof.
  unfold RejectTransaction. cbv zeta. apply appends_bind; [auto with appends|]. intros _.
  apply appends_if; [|auto with appends]. destruct (meta_string _ _); [|auto with appends].
  apply appends_bind; [apply appends_handler|auto with appends].
Qed.

Lemma appends_bulk E i txns batchID inflight skip :
  appends (processBulkTransactions E i txns batchID inflight skip).
Proof.
  revert i. induction txns as [|t txns IH]; intros i; [apply appends_ret|].
  intros y. cbn [processBulkTransactions]. cbv zeta.
  match goal with |- context [QueueTransaction 2 E (y, ?t0)] =>
    pose proof (appends_QueueTransaction 2 E (y, t0)) as Hq;
    destruct (QueueTransaction 2 E (y, t0)) as [[y1 t1] [u|e]] end; cbn [fst] in Hq.
  - etrans; [exact Hq|apply IH].
  - exact Hq.
Qed.

Lemma appends_rollback E batchID inflight :
  appends (rollbackBatchTransactions (RefundTransaction E) E batchID inflight).
Proof.
  unfold rollbackBatchTransactions. destruct inflight; (apply appends_bind; [|auto with appends]);
    apply appends_batches; intros t; [apply appends_void_worker|].
  unfold RefundWorker. auto with appends.
Qed.

Lemma appends_bulk_now E req batchID : appends (bulk_now E req batchID).
Proof.
  set (R := (BulkTransactionResult * option error)%type).
  set (failed := λ msg, (mkBulkResult batchID "failed" msg 0, Some (ENew msg)) : R).
  set (undone := λ e action, mret (failed (error_text e
    +:+ ". All transactions in this batch have been " +:+ action +:+ ".")) : prog sys R).
  set (stuck := λ e e', (if is_panic e' then raise e' else mret (failed (error_text e
    +:+ ". Failed to roll back all transactions: " +:+ error_text e'))) : prog sys R).
  set (rollback := rollbackBatchTransactions (RefundTransaction E) E batchID (bq_Inflight req)).
  set (on_error := λ e, if is_panic e then raise e
          else if bq_Atomic req then λ y,
            match rollback y with (y, Ok a) => undone e a y | (y, Err e') => stuck e e' y end
          else mret (failed (error_text e +:+ ". Previous transactions were not rolled back."))).
  set (done_ := λ _ : unit, mret (mkBulkResult batchID (bulk_status (bq_Inflight req)) ""
                  (length (bq_Transactions req)), None) : prog sys R).
  eapply appends_ext; [|apply (appends_handle
    (processBulkTransactions E 1 (bq_Transactions req) batchID (bq_Inflight req) (bq_SkipQueue req))
    done_ on_error)].
  - intros y. unfold bulk_now, on_error. cbv zeta. fold rollback.
    destruct (processBulkTransactions _ _ _ _ _ _ y) as [y1 [u|e]]; [done|].
    destruct (is_panic e); [done|]. destruct (bq_Atomic req); [|done].
    destruct (rollback y1) as [y2 [a|e']]; [done|]. unfold stuck. by destruct (is_panic e').
  - apply appends_bulk.
  - intros u. apply appends_ret.
  - intros e. apply appends_if; [apply appends_raise|]. apply appends_if; [|apply appends_ret].
    apply appends_handle; [apply appends_rollback|intros; apply appends_ret|].
    intros e'. apply appends_if; [apply appends_raise|apply appends_ret].
Qed.

Lemma appends_CreateBulkTransactions E req : appends (CreateBulkTransactions E req).
Proof.
  unfold CreateBulkTransactions. apply appends_bind; [auto with appends|]. intros id.
  apply appends_if; [|apply appends_bulk_now]. apply appends_same. intros y. unfold start_bulk.
  by destruct (Nat.ltb _ _).
Qed.

Lemma appends_enqueue E t copies : appends (enqueueTransactions E t copies).
Proof.
  unfold enqueueTransactions. generalize (match copies with [] => [t] | _ => copies end).
  intros l. induction l as [|x l IH]; cbn [enqueue_each]; auto 10 with appends.
Qed.

Lemma appends_run_job E j : appends (run_job E j).
Proof.
  destruct j as [t legs ref id|txns batchID inflight skip atomic].
  - intros y. unfold run_job.
    pose proof (appends_processTxns _ E legs id ref (t_MetaData t) (appends_handler E) (y, t)) as Hp.
    destruct (processTxns _ _ _ _ _ _ (y, t)) as [[y1 t1] r]. cbn [fst] in Hp.
    assert (He : ∀ c, grows (tables_of y) (tables_of (enqueueTransactions E t1 c y1).1))
      by (intros c; etrans; [exact Hp|apply appends_enqueue]).
    destruct r as [copies|[]]; try exact Hp; (destruct (t_SkipQueue t1); [exact Hp|]);
    match goal with |- context [enqueueTransactions E t1 ?c y1] =>
      specialize (He c); destruct (enqueueTransactions E t1 c y1) as [y2 [u|e2]] end; exact He.
  - eapply appends_ext; [|apply (appends_handle
      (processBulkTransactions E 1 txns batchID inflight skip) (λ _, mret tt)
      (λ e, if is_panic e then raise e else handleAsyncBulkTransactionFailure E batchID atomic inflight))].
    + intros y. unfold run_job. destruct (processBulkTransactions _ _ _ _ _ _ y) as [y1 [u|e]]; [done|].
      by destruct (is_panic e).
    + apply appends_bulk.
    + auto with appends.
    + intros e. apply appends_if; [auto with appends|]. apply appends_handler.
Qed.

Lemma appends_run_nth_job E i : appends (run_nth_job E i).
Proof.
  intros y. unfold run_nth_job. destruct (s_jobs y !! i) as [j|]; [|done].
  exact (appends_run_job E j (mkSys (s_world y) (base.delete i (s_jobs y)))).
Qed.
End service.

(** ** What accepting a transaction does *)

Definition table `{Asynq} (y : sys) : list Transaction :=
  db_transactions (w_db (q_core (s_world y))).

(** What preparing keeps of a transaction. *)
Definition prepared (t t' : Transaction) : Prop :=
  t_Reference t' = t_Reference t ∧ t_ParentTransaction t' = t_ParentTransaction t
  ∧ t_SkipQueue t' = t_SkipQueue t ∧ t_Sources t' = t_Sources t
  ∧ t_Destinations t' = t_Destinations t ∧ t_Currency t' = t_Currency t
  ∧ (t_TransactionID t ≠ "" → t_TransactionID t' = t_TransactionID t)
  ∧ (∀ p, t_PreciseAmount t = Some p → 0 < p → t_PreciseAmount t' = Some p).

#[export] Instance prepared_preorder : PreOrder prepared.
Proof.
  unfold prepared. split; [by intros t|]. intros t1 t2 t3 (?&?&?&?&?&?&I1&P1) (?&?&?&?&?&?&I2&P2).
  split_and!; try congruence; [|eauto]. intros Hi. rewrite I2; rewrite I1; done.
Qed.

Lemma prepared_meta_any m t : prepared t (t <| t_MetaData := m |>).
Proof. by destruct t. Qed.

Lemma prepared_meta k v t : prepared t (meta_set k v t).
Proof. apply prepared_meta_any. Qed.

Lemma prepared_status t : prepared t (setTransactionStatus t).
Proof.
  unfold setTransactionStatus. destruct (negb _); [by destruct t|].
  destruct (String.eqb _ _); by destruct t.
Qed.

Section accept.
Context `{Decimal, MapIter, Asynq}.

Lemma prepared_precision t : prepared t (Balances.ApplyPrecision t).2.
Proof.
  pose proof (Balances.ApplyPrecision_precise t) as Hp.
  destruct (Balances.ApplyPrecision t) as [a t'] eqn:E. cbn [fst snd] in *.
  pose proof (Balances.ApplyPrecision_amount _ _ _ E) as Ha.
  apply Balances.ApplyPrecision_frame in E. unfold Balances.same_but_amounts in E.
  assert (Hamt : ∀ p, t_PreciseAmount t = Some p → 0 < p → t_PreciseAmount t' = Some p)
    by (intros p Et Hpos; rewrite Ha; f_equal; by apply Hp).
  clear Hp Ha. unfold prepared. rewrite E in *. clear E. generalize Hamt. clear Hamt.
  destruct t. cbn. intros Hamt. by split_and!.
Qed.

Lemma prepared_stamp E t : prepared t (stamp E t).
Proof.
  unfold stamp. cbv zeta. etrans; [|apply prepared_precision].
  destruct (t_EffectiveDate _); by destruct t.
Qed.

Lemma prepared_flag t : prepared t (flag t).
Proof.
  assert (Hif : ∀ (b : bool) k v u, prepared t u → prepared t (if b then meta_set k v u else u)).
  { intros [|] k v u Hu; [|exact Hu]. by apply (transitivity Hu), prepared_meta. }
  unfold flag. cbv zeta. by repeat apply Hif.
Qed.

(** [setTransactionMetadata] always succeeds and touches no row. *)
Lemma set_metadata_spec E w t :
  ∃ w' t', setTransactionMetadata E (w, t) = ((w', t'), Ok tt)
    ∧ w_db w' = w_db w ∧ prepared t t'.
Proof.
  unfold setTransactionMetadata, own, become, outside, fresh_id.
  unfold mbind, prog_bind, mret, prog_ret. cbn [fst snd]. cbv zeta.
  pose proof (prepared_stamp E t) as Hs. revert Hs. generalize (stamp E t). intros t1 Hs.
  destruct (String.eqb_spec (t_TransactionID t1) "") as [Hid|Hid]; cbn [fst snd].
  - eexists _, _. split; [done|]. split; [done|]. etrans; [|apply prepared_flag].
    destruct Hs as (E1&E2&E3&E4&E5&E6&I1&P1). unfold prepared. destruct t1. cbn in *.
    split_and!; try done. intros Hi. by rewrite (I1 Hi) in Hid.
  - eexists _, _. split; [done|]. split; [done|]. etrans; [exact Hs|apply prepared_flag].
Qed.

(** Steps that only prepare the transaction they own. *)
Definition prepares {A} (m : prog (world * Transaction) A) : Prop :=
  ∀ w t, db_transactions (w_db (m (w, t)).1.1) = db_transactions (w_db w)
         ∧ prepared t (m (w, t)).1.2.

Lemma prepares_bind {A B} (m : prog (world * Transaction) A) (f : A → prog (world * Transaction) B) :
  prepares m → (∀ a, prepares (f a)) → prepares (m ≫= f).
Proof.
  intros Hm Hf w t. destruct (Hm w t) as [D1 P1]. unfold mbind, prog_bind.
  destruct (m (w, t)) as [[w1 t1] [a|e]]; cbn [fst snd] in *; [|done].
  destruct (Hf a w1 t1) as [D2 P2]. split; [congruence|by etrans].
Qed.

Lemma prepares_err {A} f (m : prog (world * Transaction) A) : prepares m → prepares (map_err f m).
Proof. intros Hm w t. rewrite map_err_state. apply Hm. Qed.

Lemma prepared_ends t s d : prepared t (t <| t_Source := s |> <| t_Destination := d |>).
Proof. by destruct t. Qed.

Lemma prepared_source t s : prepared t (t <| t_Source := s |>).
Proof. by destruct t. Qed.

Lemma lookup_rows E n c w : db_transactions (w_db (lookup_side E n c w).1) = db_transactions (w_db w).
Proof. apply (quiet_lookup_side E n c w). Qed.

Lemma prepares_ends E : prepares (resolve_ends E).
Proof.
  intros w t. unfold resolve_ends, own, become, outside, mbind, prog_bind. cbn [fst snd].
  pose proof (lookup_rows E (t_Source t) (t_Currency t) w) as D1.
  destruct (lookup_side E (t_Source t) (t_Currency t) w) as [w1 [b1|e1]]; cbn [fst snd] in *; [|done].
  pose proof (lookup_rows E (t_Destination t) (t_Currency t) w1) as D2.
  destruct (lookup_side E (t_Destination t) (t_Currency t) w1) as [w2 [b2|e2]]; cbn [fst snd] in *.
  - split; [congruence|apply prepared_ends].
  - split; [congruence|apply prepared_source].
Qed.

Lemma prepares_lane E : prepares (assign_lane E).
Proof.
  intros w t. unfold assign_lane, HotPairs.AssignQueueLane. cbv zeta.
  destruct (String.eqb _ ""); [split; [done|apply prepared_meta_any]|].
  destruct (HotPairs.ResolveQueueLane _ _ _ _ _ _ _ _) as [s r]. split; [done|].
  apply prepared_meta_any.
Qed.

Lemma prepares_metadata E : prepares (setTransactionMetadata E).
Proof. intros w t. destruct (set_metadata_spec E w t) as (w' & t' & -> & E1 & Hp). cbn. by rewrite E1. Qed.

Lemma prepares_queue E : prepares (prepareTransactionForQueue E).
Proof.
  intros w t. unfold prepareTransactionForQueue, mbind at 1, prog_bind at 1, own. cbn [fst snd].
  unfold mbind at 1, prog_bind at 1, become. cbn [fst snd].
  match goal with |- context [?m (w, setTransactionStatus t)] => set (rest := m) end.
  assert (Hr : prepares rest).
  { apply prepares_bind; [apply prepares_metadata|]. intros _.
    apply prepares_bind; [apply prepares_err, prepares_ends|]. intros _.
    apply prepares_err, prepares_lane. }
  destruct (Hr w (setTransactionStatus t)) as [D P]. split; [exact D|].
  etrans; [apply prepared_status|exact P].
Qed.

(** Its errors are wrapped, so none is a panic. *)
Lemma prepare_error E w t p e msg : prepareTransactionForQueue E (w, t) = (p, Err e) → e ≠ EPanic msg.
Proof.
  unfold prepareTransactionForQueue, mbind at 1, prog_bind at 1, own. cbn [fst snd].
  unfold mbind at 1, prog_bind at 1, become. cbn [fst snd]. unfold mbind at 1, prog_bind at 1.
  destruct (set_metadata_spec E w (setTransactionStatus t)) as (w' & t' & -> & _).
  unfold mbind, prog_bind, ctx_err, map_err.
  destruct (resolve_ends E (w', t')) as [p1 [u|e1]]; [|by intros [= _ <-]].
  destruct (assign_lane E p1) as [p2 [u2|e2]]; [done|by intros [= _ <-]].
Qed.

(** The tasks after enqueueing one transaction. *)
Definition enqueued (E : senv) (x : Transaction) (ts : tasks) : tasks :=
  (Enqueue (s_queue E) (now (s_exec E)) x ts).1.

(** [x] is the queue copy of the row [q]. *)
Definition copy_of_row (q x : Transaction) (ref : string) : Prop :=
  t_ParentTransaction x = t_TransactionID q ∧ t_Reference x = ref +:+ "_q"
  ∧ t_Source x = t_Source q ∧ t_Destination x = t_Destination q ∧ t_Currency x = t_Currency q
  ∧ t_PreciseAmount x = t_PreciseAmount q ∧ t_MetaData x = t_MetaData q
  ∧ t_Status x = t_Status q ∧ t_Inflight x = t_Inflight q ∧ t_Atomic x = t_Atomic q.

Lemma single_spec E ref w t w' t' r :
  t_Sources t = [] → t_Destinations t = [] →
  processSingleTransaction E ref (w, t) = ((w', t'), r) →
  prepared t t'
  ∧ match r with
    | Ok copies => ∃ x, copies = [x] ∧ copy_of_row t' x ref
        ∧ db_transactions (w_db w') = db_transactions (w_db w) ++ [stored_row t']
    | Err e => db_transactions (w_db w') = db_transactions (w_db w) ∧ ∀ msg, e ≠ EPanic msg
    end.
Proof.
  intros Hs Hd. unfold processSingleTransaction, mbind at 1, prog_bind at 1, own at 1. cbn [fst snd].
  rewrite Hs, Hd. cbn [bool_decide andb]. unfold mbind at 1, prog_bind at 1.
  change (if true then ?m else _) with m.
  destruct (prepares_queue E w t) as [D P].
  destruct (bool_decide_reflect (@nil Distribution = [])) as [_|]; [|done]. cbn [andb].
  destruct (prepareTransactionForQueue E (w, t)) as [[w1 t1] [u|e]] eqn:EP; cbn [fst snd] in *;
    [|intros [= <- <- <-]; split; [done|]; split; [done|]; intros msg; by eapply prepare_error].
  unfold ctx_err, map_err, outside, insert_transaction, write, Datastore.RecordTransaction,
    own, mbind, prog_bind. cbn [fst snd].
  destruct (recordTransactionInTx (w_db w1) t1) as [d|e] eqn:E1; [|intros [= <- <- <-]; by split].
  apply recordTransactionInTx_Ok in E1 as (-> & _ & _).
  cbn [mbind result_bind mret result_ret]. unfold createQueueCopy, mbind, prog_bind, fresh_id, mret, prog_ret.
  intros [= <- <- <-]. split; [done|]. eexists. split; [done|]. split.
  - clear. unfold copy_of_row. by destruct t1.
  - cbn [w_db set db_transactions]. by rewrite D.
Qed.


(** What queueing keeps of a transaction. *)
Definition queued_as (t t' : Transaction) : Prop :=
  t_Reference t' = t_Reference t ∧ t_ParentTransaction t' = t_ParentTransaction t
  ∧ t_Source t' = t_Source t ∧ t_Destination t' = t_Destination t
  ∧ t_SkipQueue t' = t_SkipQueue t ∧ t_Currency t' = t_Currency t
  ∧ t_AllowOverdraft t' = t_AllowOverdraft t ∧ t_Inflight t' = t_Inflight t
  ∧ (∀ p, t_PreciseAmount t = Some p → 0 < p → t_PreciseAmount t' = Some p).

#[export] Instance queued_as_preorder : PreOrder queued_as.
Proof.
  unfold queued_as. split; [by intros t|].
  intros t1 t2 t3 (?&?&?&?&?&?&?&?&P1) (?&?&?&?&?&?&?&?&P2). split_and!; try congruence. eauto.
Qed.

Lemma queued_as_meta m t : queued_as t (t <| t_MetaData := m |>).
Proof. by destruct t. Qed.

Lemma queued_as_set k v t : queued_as t (meta_set k v t).
Proof. apply queued_as_meta. Qed.

Lemma queued_as_status t : queued_as t (setTransactionStatus t).
Proof.
  unfold setTransactionStatus. destruct (negb _); [by destruct t|].
  destruct (String.eqb _ _); by destruct t.
Qed.

Lemma queued_as_precision t : queued_as t (Balances.ApplyPrecision t).2.
Proof.
  destruct (prepared_precision t) as (_&_&_&_&_&_&_&Hp). revert Hp.
  destruct (Balances.ApplyPrecision t) as [a t'] eqn:E. cbn [snd].
  apply Balances.ApplyPrecision_frame in E. unfold Balances.same_but_amounts in E. rewrite E.
  clear E. intros Hp. destruct t. cbn in *. by split_and!.
Qed.

Lemma queued_as_stamp E t : queued_as t (stamp E t).
Proof.
  unfold stamp. cbv zeta. etrans; [|apply queued_as_precision].
  destruct (t_EffectiveDate _); by destruct t.
Qed.

Lemma queued_as_flag t : queued_as t (flag t).
Proof.
  assert (Hif : ∀ (b : bool) k v u, queued_as t u → queued_as t (if b then meta_set k v u else u)).
  { intros [|] k v u Hu; [|exact Hu]. apply (transitivity Hu), queued_as_meta. }
  unfold flag. cbv zeta. by repeat apply Hif.
Qed.

Lemma queued_as_metadata E w t :
  ∃ w' t', setTransactionMetadata E (w, t) = ((w', t'), Ok tt) ∧ w_db w' = w_db w ∧ queued_as t t'.
Proof.
  unfold setTransactionMetadata, own, become, outside, fresh_id, mbind, prog_bind, mret, prog_ret.
  cbn [fst snd]. cbv zeta. destruct (String.eqb _ ""); cbn [fst snd];
    (eexists _, _; split; [done|]; split; [done|]).
  - etrans; [apply (queued_as_stamp E)|]. etrans; [|apply queued_as_flag]. by destruct (stamp E t).
  - etrans; [apply queued_as_stamp|apply queued_as_flag].
Qed.

Lemma split_keeps t new_id n shares :
  queued_as t (Distributions.split_loop t new_id n shares).1.
Proof.
  revert t n. induction shares as [|[dir a] shares IH]; intros t n; [done|].
  cbn [Distributions.split_loop]. cbv zeta.
  destruct (negb (bool_decide (t_Sources t = []))).
  - specialize (IH (t <| t_Sources := Distributions.set_txn_id (new_id n) (t_Sources t) n |>) (S n)).
    destruct (Distributions.split_loop _ _ _ _) as [t'' legs]. cbn [fst] in *.
    etrans; [|exact IH]. by destruct t.
  - specialize (IH (t <| t_Destinations := Distributions.set_txn_id (new_id n) (t_Destinations t) n |>) (S n)).
    destruct (Distributions.split_loop _ _ _ _) as [t'' legs]. cbn [fst] in *.
    etrans; [|exact IH]. by destruct t.
Qed.

(** [QueueTransaction] without [SkipQueue] starts one goroutine and changes
    neither the database nor what the transaction moves. *)
Lemma queue_async f E y t y' t' u :
  queue_transaction f E (y, t) = ((y', t'), Ok u) → t_SkipQueue t = false →
  w_db (q_core (s_world y')) = w_db (q_core (s_world y)) ∧ queued_as t t'
  ∧ ∃ legs id, s_jobs y' = s_jobs y ++ [JQueue t' legs (t_Reference t) id].
Proof.
  unfold queue_transaction. unfold mbind at 1, prog_bind at 1, own at 1. cbn [fst snd]. intros Eq Hsk.
  unfold mbind at 1, prog_bind at 1, on_core at 1 in Eq. cbn [fst snd] in Eq.
  destruct (queued_as_metadata (s_exec E) (q_core (s_world y)) t) as (w1 & t1 & Em & Ed & Q1).
  rewrite Em in Eq. set (y1 := mkSys (mkQ w1 (q_tasks (s_world y))) (s_jobs y)) in Eq.
  unfold mbind at 1, prog_bind at 1, own at 1 in Eq. cbn [fst snd] in Eq.
  unfold mbind at 1, prog_bind at 1, become at 1 in Eq. cbn [fst snd] in Eq.
  set (t2 := setTransactionStatus t1) in Eq.
  assert (Q2 : queued_as t t2) by (etrans; [exact Q1|apply queued_as_status]).
  apply prog_bind_Ok in Eq as ([y3 t3] & legs & E3 & Eq).
  assert (H3 : w_db (q_core (s_world y3)) = w_db (q_core (s_world y)) ∧ s_jobs y3 = s_jobs y
               ∧ queued_as t t3).
  { revert E3. unfold on_core, handleSplitTransactions. cbn [fst snd].
    unfold Distributions.SplitTransactionPrecise.
    destruct (Distributions.CalculateDistributionsPrecise _ _ _) as [shares|]; cbn; [|done].
    pose proof (split_keeps t2 (λ n, gen (s_exec E) "txn" (w_next w1 + n)) 0 (map_iter shares)) as Hk.
    destruct (Distributions.split_loop _ _ _ _) as [t4 l]. intros [= <- <- _]. cbn.
    split; [exact Ed|]. split; [done|]. by etrans. }
  destruct H3 as (D3 & J3 & Q3). clear Em.
  unfold mbind at 1, prog_bind at 1, own at 1 in Eq. cbn [fst snd] in Eq.
  replace (t_SkipQueue t3) with false in Eq by (rewrite <- Hsk; symmetry; apply Q3). cbv zeta in Eq.
  unfold mbind at 1, prog_bind at 1 in Eq. unfold mbind at 1, prog_bind at 1, become at 1 in Eq.
  cbn [fst snd] in Eq.
  match type of Eq with context [spawn (JQueue ?x legs _ _)] => set (t5 := x) in Eq end.
  assert (Q5 : queued_as t t5).
  { etrans; [exact Q3|]. subst t5. destruct (contains _ _); [|apply queued_as_set].
    etrans; [eapply queued_as_set|apply queued_as_set]. }
  clearbody t5. unfold outside, spawn in Eq. cbn [fst snd] in Eq.
  assert (Hd : ∀ (p : sys * Transaction), p.2 = (queue_dates E p).1.2
    ∧ s_jobs (queue_dates E p).1.1 = s_jobs p.1
    ∧ w_db (q_core (s_world (queue_dates E p).1.1)) = w_db (q_core (s_world p.1))).
  { intros [y4 t4]. unfold queue_dates, own, outside, ctx_err, map_err, inq, queue, mbind, prog_bind.
    cbn [fst snd].
    destruct (QueueInflightExpiry _ _ t4 (q_tasks (s_world y4))) as [ts [u1|e1]]; [|done].
    cbn [fst snd]. destruct (is_zero_time _); [done|].
    unfold inc, inq, core, fresh_id. cbn [fst snd q_core q_tasks s_world s_jobs].
    by destruct (QueueInflightCommit _ _ _ t4 ts) as [ts2 [u2|e2]]. }
  match type of Eq with queue_dates E ?p = _ => destruct (Hd p) as (Hp & Hj & Hw) end.
  rewrite Eq in Hp, Hj, Hw. cbn [fst snd s_world s_jobs] in *. subst t5.
  split; [by rewrite Hw|]. split; [exact Q5|]. rewrite Hj, J3. by eexists _, _.
Qed.

(** The same tables and jobs; locks and generated ids may differ. *)
Definition same_stores (y y' : sys) : Prop :=
  w_db (q_core (s_world y')) = w_db (q_core (s_world y)) ∧ s_jobs y' = s_jobs y
  ∧ q_tasks (s_world y') = q_tasks (s_world y).

Lemma same_stores_fresh E module y y' a : inc (fresh_id E module) y = (y', Ok a) → same_stores y y'.
Proof. unfold inc, inq, core, fresh_id. by intros [= <- _]. Qed.

Lemma same_stores_lock E l y y' a : inc (lock_single E l) y = (y', Ok a) → same_stores y y'.
Proof.
  unfold inc, inq, core, lock_single.
  destruct (Lock.Locker_Lock _ _ _ _ _) as [[e|] s]; by intros [= <- _].
Qed.

Lemma same_stores_release E l y : same_stores y (inc (releaseSingleLock E l) y).1.
Proof.
  unfold inc, inq, core, releaseSingleLock. by destruct (Lock.Locker_Unlock _ _ _ _) as [? ?].
Qed.

Lemma same_stores_trans y1 y2 y3 : same_stores y1 y2 → same_stores y2 y3 → same_stores y1 y3.
Proof. unfold same_stores. intros (?&?&?) (?&?&?). split_and!; congruence. Qed.

Lemma locked_s_Ok {A} E k msg (body : prog sys A) y y' a :
  locked_s E k msg body y = (y', Ok a) →
  ∃ y1 y2, same_stores y y1 ∧ body y1 = (y2, Ok a) ∧ same_stores y2 y'.
Proof.
  unfold locked_s. intros Eq.
  apply prog_bind_Ok in Eq as (y1 & v & E1 & Eq). apply same_stores_fresh in E1. cbv zeta in Eq.
  apply prog_bind_Ok in Eq as (y2 & u & E2 & Eq). unfold ctx_err in E2. apply map_err_Ok in E2.
  apply same_stores_lock in E2. unfold with_release_s in Eq.
  destruct (body y2) as [y3 r] eqn:Eb. pose proof (same_stores_release E (Lock.mkLocker k v) y3) as E3.
  destruct (inc (releaseSingleLock E (Lock.mkLocker k v)) y3) as [y4 u4]. injection Eq as -> ->.
  exists y2, y3. split; [by eapply same_stores_trans|]. by split.
Qed.

Lemma original_for_refund E id y y' o :
  getOriginalTransactionForRefund E id y = (y', Ok o) →
  y' = y ∧ (GetTransaction (w_db (q_core (s_world y))) id = Ok o
            ∨ GetTransactionFromQueue (q_tasks (s_world y)) (s_queue E) id = Ok (Some o)).
Proof.
  unfold getOriginalTransactionForRefund.
  destruct (GetTransaction _ id) as [o1|e]; [intros [= <- <-]; by split; [|left]|].
  destruct (_ || _); [|done]. destruct (GetTransactionFromQueue _ _ _) as [[o1|]|]; try done.
  intros [= <- <-]. by split; [|right].
Qed.

Lemma inc_read_Ok {A} (f : db → result A) y y' a :
  inc (read f) y = (y', Ok a) → y' = y ∧ f (w_db (q_core (s_world y))) = Ok a.
Proof.
  unfold inc, inq, core, read. intros [= <- E]. split; [by destruct y as [[? ?] ?]|exact E].
Qed.

Lemma eligible_for_refund d o u :
  validateTransactionForRefund d o = Ok u →
  (t_Status o = StatusApplied ∨ t_Status o = StatusVoid) ∧ IsTransactionRefunded d o = false.
Proof.
  unfold validateTransactionForRefund. destruct (_ || _) eqn:Est; [|done].
  intros Hf%fail_if_Ok. split; [|exact Hf].
  apply orb_true_iff in Est as [Est|Est]; apply String.eqb_eq in Est; auto.
Qed.

(** What a transaction queued for [o]'s refund looks like. *)
Definition reverses (o t : Transaction) : Prop :=
  t_Source t = t_Destination o ∧ t_Destination t = t_Source o ∧ t_Currency t = t_Currency o
  ∧ t_ParentTransaction t = t_TransactionID o
  ∧ t_Reference t = t_TransactionID o +:+ "_refund"
  ∧ t_Inflight t = String.eqb (t_Status o) StatusVoid
  ∧ ∀ p, t_PreciseAmount o = Some p → 0 < p → t_PreciseAmount t = Some p.

Lemma reverses_queued o id skip t : queued_as (prepareRefundTransaction o id skip) t → reverses o t.
Proof.
  unfold reverses. intros (Q1&Q2&Q3&Q4&_&Q6&_&Q8&Q9). rewrite Q1, Q2, Q3, Q4, Q6, Q8.
  clear - Q9. by destruct o.
Qed.

Lemma QueueTransaction_eq fuel E :
  QueueTransaction (S fuel) E
  = queue_transaction (bulk_failure (refund_with (QueueTransaction fuel E) E) E) E.
Proof. done. Qed.

Lemma queue_refund E o nid y y' t :
  with_txn (prepareRefundTransaction o nid false) (_ ← QueueTransaction 2 E; own) y = (y', Ok t) →
  w_db (q_core (s_world y')) = w_db (q_core (s_world y)) ∧ reverses o t
  ∧ ∃ legs tid, s_jobs y' = s_jobs y ++ [JQueue t legs (t_Reference t) tid].
Proof.
  set (x := prepareRefundTransaction o nid false). unfold with_txn, mbind, prog_bind.
  destruct (QueueTransaction 2 E (y, x)) as [[y7 t7] [u7|]] eqn:EQ; [|done].
  unfold own. intros [= <- <-]. cbn [fst snd]. rewrite QueueTransaction_eq in EQ.
  apply queue_async in EQ as (D & Q & legs & tid & J); [|by destruct o].
  split; [exact D|]. split; [by apply (reverses_queued o nid false)|]. exists legs, tid.
  destruct Q as [-> _]. exact J.
Qed.

(** What a queue that starts one goroutine makes of a refund. *)
Definition starts_reversal (q : prog (sys * Transaction) unit) : Prop := ∀ o nid y y' t,
  with_txn (prepareRefundTransaction o nid false) (_ ← q; own) y = (y', Ok t) →
  w_db (q_core (s_world y')) = w_db (q_core (s_world y)) ∧ reverses o t
  ∧ ∃ legs tid, s_jobs y' = s_jobs y ++ [JQueue t legs (t_Reference t) tid].

Definition refund_started (E : senv) (id : string) (y y' : sys) (t : Transaction) : Prop :=
  w_db (q_core (s_world y')) = w_db (q_core (s_world y))
  ∧ ∃ original legs tid,
      (t_Status original = StatusApplied ∨ t_Status original = StatusVoid)
      ∧ IsTransactionRefunded (w_db (q_core (s_world y))) original = false
      ∧ (GetTransaction (w_db (q_core (s_world y))) id = Ok original
         ∨ GetTransactionFromQueue (q_tasks (s_world y)) (s_queue E) id = Ok (Some original))
      ∧ reverses original t
      ∧ s_jobs y' = s_jobs y ++ [JQueue t legs (t_Reference t) tid].

Lemma refund_body_Ok q E id y y' t :
  starts_reversal q → refund_body q E id false y = (y', Ok t) → refund_started E id y y' t.
Proof.
  intros Hq. unfold refund_body. intros Eb.
  apply prog_bind_Ok in Eb as (y4 & o & [-> G4]%original_for_refund & Eb).
  apply prog_bind_Ok in Eb as (y5 & u5 & [-> [Hst Hnr]%eligible_for_refund]%inc_read_Ok & Eb).
  apply prog_bind_Ok in Eb as (y6 & nid & (D6 & J6 & _)%same_stores_fresh & Eb).
  unfold ctx_err in Eb. apply map_err_Ok, Hq in Eb as (D7 & Hrev & legs & tid & J7).
  split; [congruence|]. exists o, legs, tid. split_and!; try done. congruence.
Qed.

Lemma refund_with_Ok q E id y y' t :
  starts_reversal q → refund_with q E id false y = (y', Ok t) → refund_started E id y y' t.
Proof.
  intros Hq. unfold refund_with. intros Eq.
  apply locked_s_Ok in Eq as (y1 & y2 & (D1 & J1 & T1) & Eb & (D2 & J2 & _)).
  apply (refund_body_Ok q) in Eb as (D7 & o & legs & tid & Hst & Hnr & Ho & Hrev & J7); [|done].
  split; [congruence|]. exists o, legs, tid. rewrite D1 in Ho, Hnr. rewrite T1 in Ho.
  split_and!; try done. congruence.
Qed.

(** C11. A refund is queued only for a settled transaction and is its exact
    reversal.  When [RefundTransaction] (asynchronous) returns a transaction,
    the original was APPLIED or VOID with no reverse child in the table, the
    database is unchanged, and exactly one goroutine was started, for a
    transaction from the original's destination back to its source, of the same
    positive amount and currency, held inflight when the original was a void,
    whose parent is the original and whose reference is the original's id with
    _refund, so that the unique index admits one refund only. *)
Theorem refund_reverses E id y y' t :
  RefundTransaction E id false y = (y', Ok t) → refund_started E id y y' t.
Proof.
  unfold RefundTransaction. apply refund_with_Ok. intros o nid y1 y2 t1. apply queue_refund.
Qed.
(** A synchronous transaction without legs adds its own row, or fails. *)
Lemma dates_rows E p : table (queue_dates E p).1.1 = table p.1.
Proof.
  destruct p as [y t]. unfold queue_dates, own, outside, ctx_err, map_err, inq, queue, mbind, prog_bind, table.
  cbn [fst snd].
  destruct (QueueInflightExpiry _ _ t (q_tasks (s_world y))) as [ts [u1|e1]]; [|done].
  cbn [fst snd]. destruct (is_zero_time _); [done|].
  unfold inc, inq, core, fresh_id. cbn [fst snd q_core q_tasks s_world s_jobs].
  by destruct (QueueInflightCommit _ _ _ t ts) as [ts2 [u2|e2]].
Qed.

Definition adds_own_row (t : Transaction) (p : Z) (ok : bool) (l l' : list Transaction) : Prop :=
  l' = l ∧ ok = false ∨ ∃ row, l' = l ++ [row] ∧ t_Reference row = t_Reference t ∧ t_PreciseAmount row = Some p
                 ∧ ∀ x, x ∈ l → t_Reference x ≠ t_Reference t.

Lemma record_own_rows E w t p :
  t_PreciseAmount t = Some p → 0 < p →
  adds_own_row t p (is_ok (record_own E (w, t)).2)
    (db_transactions (w_db w)) (db_transactions (w_db (record_own E (w, t)).1.1)).
Proof.
  intros Hp Hpos. pose proof (RecordTransaction_recorded E t w) as Hr. unfold record_own.
  destruct (RecordTransaction E t w) as [w1 [t1|e]]; cbn [fst snd] in *.
  - destruct Hr as (((R & _) & _ & Ha) & Hf & Hr). specialize (Ha p Hp Hpos). rewrite Ha in Hr.
    rewrite bool_decide_false in Hr by (intros [= ->]; lia). destruct Hr as (-> & Hfr & _).
    right. exists (stored_row t1). destruct (stored_row_keys t1) as (E1 & _ & _ & _ & E2).
    rewrite E1, E2, Ha, R. split_and!; try done. intros x Hx. rewrite <- R. by apply Hfr.
  - left. split; [apply Hr|done].
Qed.

Definition outcome_row (t : Transaction) (p : Z) (l : list Transaction)
    (res : sys * Transaction * result unit) : Prop :=
  adds_own_row t p (is_ok res.2) l (table res.1.1).

Lemma queue_sync_rows f E y t p :
  t_SkipQueue t = true → t_Sources t = [] → t_Destinations t = [] →
  t_PreciseAmount t = Some p → 0 < p →
  outcome_row t p (table y) (queue_transaction f E (y, t)).
Proof.
  intros Hsk Hs Hd Hp Hpos. unfold queue_transaction.
  unfold mbind at 1, prog_bind at 1, own at 1. cbn [fst snd].
  unfold mbind at 1, prog_bind at 1, on_core at 1. cbn [fst snd].
  destruct (set_metadata_spec (s_exec E) (q_core (s_world y)) t) as (w1 & t1 & -> & Ed & P1).
  set (y1 := mkSys (mkQ w1 (q_tasks (s_world y))) (s_jobs y)).
  assert (T1 : table y1 = table y) by (unfold table; cbn; by rewrite Ed).
  unfold mbind at 1, prog_bind at 1, own at 1. cbn [fst snd].
  unfold mbind at 1, prog_bind at 1, become at 1. cbn [fst snd]. cbv zeta.
  assert (P2 : prepared t (setTransactionStatus t1)) by (etrans; [exact P1|apply prepared_status]).
  revert P2. generalize (t_TransactionID (setTransactionStatus t1)). generalize (setTransactionStatus t1). intros t2 id P2.
  destruct P2 as (R2 & _ & K2 & S2 & D2 & _ & _ & A2). rewrite Hsk in K2. rewrite Hs in S2.
  rewrite Hd in D2. specialize (A2 p Hp Hpos).
  unfold mbind at 1, prog_bind at 1, on_core at 1, handleSplitTransactions. cbn [fst snd].
  unfold Distributions.SplitTransactionPrecise. rewrite S2, D2. cbn [bool_decide].
  destruct (Distributions.CalculateDistributionsPrecise _ _ _) as [shares|e] eqn:Ec; [|left; split; [exact T1|done]].
  assert (shares = ∅) as -> by (revert Ec; case_bool_decide; apply Distributions.no_distributions).
  assert (Hi : map_iter (∅ : gmap string Z) = []).
  { apply Permutation_nil_r. rewrite map_iter_perm. by rewrite map_to_list_empty. }
  cbn [mbind result_bind]. rewrite Hi. cbn [Distributions.split_loop length Nat.add].
  unfold mbind at 1, prog_bind at 1, own at 1. cbn [fst snd]. rewrite K2.
  set (y2 := mkSys _ _). assert (T2 : table y2 = table y) by exact T1.
  unfold mbind at 1, prog_bind at 1.
  match goal with |- context [?m (y2, t2)] => set (body := m) end.
  assert (Hb : outcome_row t p (table y) (body (y2, t2))).
  { subst body. unfold processTxns. unfold mbind at 1, prog_bind at 1.
    unfold mbind at 1, prog_bind at 1, own at 1. cbn [fst snd]. rewrite K2.
    unfold mbind at 1, prog_bind at 1, on_core. cbn [fst snd].
    pose proof (record_own_rows (s_exec E) (q_core (s_world y2)) t2 p A2 Hpos) as Hr.
    fold (table y2) in Hr. rewrite T2 in Hr. unfold outcome_row, adds_own_row in *. rewrite R2 in Hr.
    destruct (record_own (s_exec E) (q_core (s_world y2), t2)) as [[w3 t3] [u|e]]; exact Hr. }
  destruct (body (y2, t2)) as [[y3 t3] [u|e]]; [|exact Hb]. unfold outcome_row in *.
  cbn [fst snd is_ok] in Hb. rewrite dates_rows. destruct Hb as [[_ [=]]|Hb]; by right.
Qed.

End accept.

(** ** Concrete runs *)

Definition ex_senv : senv :=
  mkSEnv (mkQEnv Ledger.ex_env false 0 false None (λ _, None)) TaskQueue.ex_config 100 100 1 (λ _, true).

Definition ex_accepted : Transaction :=
  empty_transaction <| t_TransactionID := "txn_a" |> <| t_Reference := "pay" |>
    <| t_Source := "@alice" |> <| t_Destination := "@bob" |> <| t_Currency := "USD" |>
    <| t_PreciseAmount := Some 500 |> <| t_AllowOverdraft := true |>.

Definition ex_idle : sys := mkSys (mkQ (mkWorld empty_db ∅ 0) no_tasks) [].


Definition ex_settled : sys := mkSys (mkQ Ledger.ex_after no_tasks) [].

Lemma refund_reverses_witness :
  ∃ y' t, RefundTransaction ex_senv "txn_1" false ex_settled = (y', Ok t)
    ∧ refund_started ex_senv "txn_1" ex_settled y' t.
Proof.
  destruct (RefundTransaction ex_senv "txn_1" false ex_settled) as [y' [t|e]] eqn:E.
  - exists y', t. split; [reflexivity|].
    exact (refund_reverses ex_senv "txn_1" ex_settled y' t E).
  - apply (f_equal (λ x, is_ok x.2)) in E. vm_compute in E. discriminate E.
Defined.

End Queueing.
