(* ===== verification/Workers.v ===== *)
(** * The queue's workers and the recovery of stuck transactions
    (cmd/workers.go, queue_recovery.go)

    A worker takes a task, tries to settle it in a batch, else on its own, and
    on failure acknowledges, rejects or leaves the task for a retry.  The
    recovery pass replays QUEUED rows no child of which was recorded.  The
    acknowledgement is [Ok tt]; an error makes the queue deliver the task
    again. *)

From S2P Require Import Prelude Float64 Decimal Types Time Balances Distributions Datastore Lock.
From S2P Require Import HotPairs Execution Ledger TaskQueue Inflight Coalescing Queueing.

Module Workers.

Import Datastore Execution TaskQueue Inflight Coalescing Queueing.

Record wenv := mkWEnv {
  w_senv : senv;
  InsufficientFundRetries : bool;
  MaxRetryAttempts : Z;
  RejectLockContentionImmediately : bool;
  webhook_fault : option error;   (* enqueueing the rejection's webhook *)
}.

Section workers.
Context `{Decimal, MapIter, Asynq}.

Abbreviation S := (prog sys).

(** ** Processing one task *)

(** The part of the state a batch works on. *)
Definition on_world {A} (f : world → world * A) (y : sys) : sys * A :=
  let '(w, a) := f (q_core (s_world y)) in
  (mkSys (mkQ w (q_tasks (s_world y))) (s_jobs y), a).

(** What [ProcessQueuedTransaction] leaves in the caller's transaction when it
    fails: the marks of the batch attempt, then those of the single one. *)
Definition left_by_process (Q : qenv) (hotLane : bool) (t : Transaction) (w : world) : Transaction :=
  let '(w, (_, t)) := tryRecordQueuedTransactionBatch Q hotLane t w in
  left_by_single (q_exec Q) t w.

Definition hasReachedMaxRetryAttempt (E : wenv) (retryCount : Z) : bool :=
  if MaxRetryAttempts E <=? 0 then false else MaxRetryAttempts E <=? retryCount.

Definition shouldRejectLockContentionImmediately (E : wenv) (e : error) : bool :=
  RejectLockContentionImmediately E && HotPairs.IsLockContentionError e.

(** What the worker does with an error. *)
Inductive verdict := VAck | VReject | VRetry.
#[local] Instance verdict_eq_dec : EqDecision verdict.
Proof. solve_decision. Defined.

Definition classify (E : wenv) (retryCount : Z) (e : error) : verdict :=
  let msg := to_lower (error_text e) in
  if IsDuplicateReferenceError e then VAck
  else if contains msg "insufficient funds" then
    if negb (InsufficientFundRetries E) then VReject
    else if hasReachedMaxRetryAttempt E retryCount then VReject else VRetry
  else if contains msg "transaction exceeds overdraft limit" then VReject
  else if shouldRejectLockContentionImmediately E e then VReject
  else if hasReachedMaxRetryAttempt E retryCount then VReject
  else VRetry.

Definition handleTransactionRejection (E : wenv) (t : Transaction) (e : error) : S unit :=
  _ ← RejectTransaction (w_senv E) t (error_text e);
  match webhook_fault E with Some e => raise e | None => mret tt end.

(** [hotTask]: the task came from the hot queue. *)
Definition processTransaction (E : wenv) (hotTask : bool) (retryCount : Z) (t : Transaction)
    : S unit := λ y,
  let Q := s_batch (w_senv E) in
  let hot := EnableHotLane (s_queue (w_senv E)) && hotTask in
  let '(y, (handled, t)) := on_world (TryRecordQueuedTransactionBatch Q t) y in
  let '(y, (handled, t)) :=
    if hot then on_world (TryRecordQueuedTransactionBatchForHotLane Q t) y
    else (y, (handled, t)) in
  if (handled : bool) then (y, Ok tt)
  else
    match inc (ProcessQueued Q t hot) y with
    | (y', Ok _) => (y', Ok tt)
    | (y', Err e) =>
        let t := left_by_process Q hot t (q_core (s_world y)) in
        match classify E retryCount e with
        | VAck => (y', Ok tt)
        | VReject => handleTransactionRejection E t e y'
        | VRetry => (y', Err e)
        end
    end.

(** ** Recovery *)

Definition maxRecoveryAttempts : Z := 3.
Definition recoveryBatchSize : nat := 100.

Definition minute : Z := 60 * 1000000000.

(** [t.UTC().Format(time.RFC3339)]. *)
Definition format_rfc3339 (t : time) : string :=
  Time.format_rfc3339nano (t - t mod 1000000000).

(** A number read back from the row is a float64. *)
Definition recovery_attempts (t : Transaction) : Z :=
  match t_MetaData t !! "recovery_attempts" with Some (MNum x) => Float64.to_int x | _ => 0 end.

(** [UpdateTransactionMetadata]: merged into the row and into its children. *)
Definition merge_metadata (id : string) (m : metadata) (r : Transaction) : Transaction :=
  if String.eqb (t_TransactionID r) id || String.eqb (t_ParentTransaction r) id
  then r <| t_MetaData := m ∪ t_MetaData r |> else r.

Definition UpdateTransactionMetadata (d : db) (id : string) (m : metadata) : result db :=
  if forallb (λ kv, meta_json_ok kv.2) (map_to_list m)
  then Ok (d <| db_transactions := map (merge_metadata id m) (db_transactions d) |>)
  else Err json_error.

Definition recovery_metadata (nw : time) (attempts : Z) (status : string) (m : metadata) : metadata :=
  <["recovery_last_attempt" := MStr (format_rfc3339 nw)]>
    (<["recovery_status" := MStr status]>
      (<["recovery_attempts" := MNum (Float64.of_Z attempts)]> m)).

(** [updateRecoveryMetadata]: an error is only logged. *)
Definition updateRecoveryMetadata (E : senv) (t : Transaction) (attempts : Z) (status : string)
    : S unit := λ y,
  let m := recovery_metadata (now (s_exec E)) attempts status (t_MetaData t) in
  match inc (write (λ d, d ← UpdateTransactionMetadata d (t_TransactionID t) m; mret (d, tt))) y with
  | (y, _) => (y, Ok tt)
  end.

Definition rejected_sibling (d : db) (t : Transaction) : bool :=
  match meta_string (t_MetaData t) "QUEUED_PARENT_TRANSACTION" with
  | Some parent =>
      negb (String.eqb parent "")
      && existsb (λ s, String.eqb (t_Status s) StatusRejected)
           (GetTransactionsByParent d parent 100 0)
  | None => false
  end.

(** [tryRecordRecoveredTransaction]. *)
Definition tryRecordRecoveredTransaction (E : senv) (copy : Transaction) : S unit :=
  let hot := String.eqb (HotPairs.QueueLaneFromMetadata (t_MetaData copy)) HotPairs.LaneHot in
  _ ← inc (ProcessQueued (s_batch E) copy hot); mret tt.

Definition replay_copy (E : senv) (t : Transaction) (attempts : Z) (copy : Transaction)
    : S unit := λ y,
  match tryRecordRecoveredTransaction E copy y with
  | (y, Ok _) => updateRecoveryMetadata E t attempts "recovered" y
  | (y, Err e) =>
      if IsDuplicateReferenceError e
      then updateRecoveryMetadata E t attempts "already_processed" y
      else let '(y, _) := updateRecoveryMetadata E t attempts "failed" y in (y, Err e)
  end.

Definition replay (E : senv) (t : Transaction) (attempts : Z) : S unit :=
  copy ← inc (createQueueCopy (s_exec E) t (t_Reference t));
  replay_copy E t attempts copy.

Definition reject_copy (E : senv) (copy : Transaction) : S unit := λ y,
  match RejectTransaction E copy "exceeded max queued recovery attempts" y with
  | (y, Ok _) => (y, Ok tt)
  | (y, Err e) => (y, if IsDuplicateReferenceError e then Ok tt else Err e)
  end.

Definition give_up_on (E : senv) (t : Transaction) : S unit :=
  copy ← inc (createQueueCopy (s_exec E) t (t_Reference t));
  reject_copy E copy.

Definition processStuckTransaction (E : senv) (t : Transaction) : S unit := λ y,
  let t := restoreTransactionFlagsFromMetadata t in
  let attempts := recovery_attempts t + 1 in
  if maxRecoveryAttempts <? attempts then give_up_on E t y
  else if t_Atomic t && rejected_sibling (w_db (q_core (s_world y))) t then (y, Ok tt)
  else replay E t attempts y.

Fixpoint process_stuck (E : senv) (txns : list Transaction) : S unit :=
  match txns with
  | [] => mret tt
  | t :: txns => λ y,
      let '(y, r) := processStuckTransaction E t y in
      match r with
      | Err (EPanic msg) => (y, Err (EPanic msg))
      | _ => process_stuck E txns y
      end
  end.

(** [recoverWithThreshold]: how many stuck rows the pass saw. *)
Definition recoverWithThreshold (E : senv) (threshold : Z) : S nat := λ y,
  let stuck := map (λ t, (Balances.ApplyPrecision t).2)
    (GetStuckQueuedTransactions (w_db (q_core (s_world y))) (now (s_exec E) - threshold)
       recoveryBatchSize) in
  (_ ← process_stuck E stuck; mret (length stuck)) y.

Definition processBatch (E : senv) : S nat := recoverWithThreshold E (120 * minute).

Definition RecoverQueuedTransactions (E : senv) (threshold : Z) : S nat :=
  recoverWithThreshold E (Z.max threshold (2 * minute)).

End workers.

(** ** What an attempt keeps of the transaction *)

Definition kept (t t' : Transaction) : Prop :=
  t_Reference t' = t_Reference t
  ∧ ∀ p, t_PreciseAmount t = Some p → 0 < p → t_PreciseAmount t' = Some p.

Lemma kept_refl t : kept t t.
Proof. done. Qed.

Lemma kept_trans t1 t2 t3 : kept t1 t2 → kept t2 t3 → kept t1 t3.
Proof. intros [R1 P1] [R2 P2]. split; [congruence|eauto]. Qed.

Lemma kept_details t s d : kept t (updateTransactionDetails t s d).
Proof. by destruct t. Qed.

Lemma kept_ends t t' : same_but_ends t t' → kept t t'.
Proof. unfold same_but_ends. intros ->. by destruct t. Qed.

Create HintDb kept.
#[export] Hint Resolve kept_refl kept_details : kept.

Section attempts.
Context `{Decimal}.

Lemma ApplyPrecision_kept t : kept t (Balances.ApplyPrecision t).2.
Proof.
  destruct (Balances.ApplyPrecision t) as [a t'] eqn:E. split.
  - by apply Balances.ApplyPrecision_frame, same_but_amounts_keys in E as [(? & _) _].
  - intros p Hp Hpos. pose proof (Balances.ApplyPrecision_precise t p Hp Hpos) as Ha.
    rewrite E in Ha. apply Balances.ApplyPrecision_amount in E. simpl in *. congruence.
Qed.

Lemma touched_kept t : kept t (touched t).
Proof. unfold touched. destruct (_ || _); [done|apply ApplyPrecision_kept]. Qed.

Lemma admit_update_kept t b t' b' : Balances.admit_update t b = Ok (t', b') → kept t t'.
Proof.
  intros (a & _ & _ & Ea & -> & _)%Balances.admit_update_Ok.
  pose proof (ApplyPrecision_kept t) as [R P].
  pose proof (Balances.ApplyPrecision_precise t) as Hp.
  destruct (Balances.ApplyPrecision t) as [a0 t1]. cbn [fst snd] in *. subst a0. split.
  - rewrite <- R. clear. by destruct t1.
  - intros p Et Hpos. cbn. by rewrite (Hp p Et Hpos).
Qed.

Lemma commit_debit_kept t b t' b' : Balances.CommitInflightDebit t b = Ok (t', b') → kept t t'.
Proof.
  unfold Balances.CommitInflightDebit. pose proof (ApplyPrecision_kept t) as K.
  destruct (Balances.ApplyPrecision t). intros E. by inv_result.
Qed.

Lemma commit_credit_kept t b t' b' : Balances.CommitInflightCredit t b = Ok (t', b') → kept t t'.
Proof.
  unfold Balances.CommitInflightCredit. pose proof (ApplyPrecision_kept t) as K.
  destruct (Balances.ApplyPrecision t). intros E. by inv_result.
Qed.

Lemma apply_alias_kept t b t' b' :
  applyTransactionToBalances_alias t b = Ok (t', b') → kept t t'.
Proof.
  unfold applyTransactionToBalances_alias, Balances.UpdateBalances_alias.
  destruct (String.eqb _ _); [|destruct (String.eqb _ _)].
  - intros ([t1 b1] & E1%wrap_err_Ok & E2)%bind_Ok. cbn beta iota in E2. apply wrap_err_Ok in E2.
    eapply kept_trans; [eapply commit_debit_kept; exact E1|eapply commit_credit_kept; exact E2].
  - intros (b1 & _ & (b2 & _ & [= <- _])%bind_Ok)%bind_Ok. apply kept_refl.
  - intros ([t1 b1] & E1 & E2)%bind_Ok. cbn beta iota in E2. injection E2 as <- _.
    eapply admit_update_kept. exact E1.
Qed.

Lemma apply_kept t s r t' s' r' : applyTransactionToBalances t s r = Ok (t', s', r') → kept t t'.
Proof.
  intros E. split.
  - by apply applyTransactionToBalances_frame, same_but_amounts_keys in E as [(? & _) _].
  - intros p. by eapply applyTransactionToBalances_amount.
Qed.

Lemma apply_shared_kept m src dst t s r t' m' :
  apply_shared m src dst t s r = Ok (t', m') → kept t t'.
Proof.
  unfold apply_shared. destruct (String.eqb src dst).
  - intros ([t1 b1] & E1 & E2)%bind_Ok. cbn beta iota in E2. injection E2 as <- _.
    eapply apply_alias_kept. exact E1.
  - intros ([[t1 s1] r1] & E1 & E2)%bind_Ok. cbn beta iota in E2. injection E2 as <- _.
    eapply apply_kept. exact E1.
Qed.

Lemma prepare_one_kept E d t m pf ex bt t' r :
  prepareQueuedBatchTransaction E d t m pf ex bt = (t', r) →
  kept t t' ∧ ∀ wk m' bt', r = Ok (wk, m', bt') → wk_transaction wk = t'.
Proof.
  unfold prepareQueuedBatchTransaction.
  destruct (coalescingBalancesForTransaction m t) as [[s b]|]; [|by intros [= <- <-]].
  destruct (pre_hook E t); [by intros [= <- <-]|].
  destruct (validateQueuedBatchTransactionReference d t pf ex bt); [|by intros [= <- <-]]. cbv zeta.
  destruct (apply_shared _ _ _ _ s b) as [[t2 m2]|e] eqn:Ea; cbn [wrap_err].
  - apply apply_shared_kept in Ea.
    destruct (buildTransactionExecutionWork t2 s b) as [wk skip] eqn:Eb.
    apply Ledger.build_work in Eb as (_ & _ & Ew). intros [= <- <-]. split.
    + rewrite Ew. eapply kept_trans; [apply (kept_details t s b)|].
      eapply kept_trans; [exact Ea|apply kept_details].
    + destruct skip; [done|]. by intros ? ? ? [= <- _ _].
  - intros [= <- <-]. split; [|done]. eapply kept_trans; [apply kept_details|apply touched_kept].
Qed.

Lemma prepare_batch_kept E d txns m pf ex bt ts r :
  prepare_batch E d txns m pf ex bt = (ts, r) →
  Forall2 kept txns ts ∧ ∀ wks m', r = Ok (wks, m') → map wk_transaction wks = ts.
Proof.
  revert m bt ts r. induction txns as [|t txns IH]; intros m bt ts r.
  { intros [= <- <-]. split; [constructor|]. by intros ? ? [= <- _]. }
  cbn [prepare_batch].
  destruct (prepareQueuedBatchTransaction E d t m pf ex bt) as [t' q] eqn:E1.
  apply prepare_one_kept in E1 as [K1 W1]. destruct q as [[[wk m1] bt1]|e].
  - destruct (prepare_batch E d txns m1 pf ex bt1) as [ts' q] eqn:E2.
    apply IH in E2 as [K2 W2]. intros [= <- <-]. split; [by constructor|].
    intros wks m' ([wks1 m2] & -> & Eq)%bind_Ok. inv_result. cbn [map].
    by rewrite (W1 _ _ _ eq_refl), (W2 _ _ eq_refl).
  - intros [= <- <-]. split; [|done]. constructor; [done|].
    clear. induction txns; constructor; auto with kept.
Qed.

Lemma recordTransactionsInTx_rows d ts d' :
  recordTransactionsInTx d ts = Ok d' →
  db_transactions d' = db_transactions d ++ map stored_row ts
  ∧ rows_grow (map bare (db_transactions d)) (map bare (db_transactions d'))
  ∧ db_outbox d' = db_outbox d.
Proof.
  revert d. induction ts as [|t ts IH]; intros d; [intros [= <-]; by rewrite app_nil_r|].
  cbn [recordTransactionsInTx]. destruct (recordTransactionInTx d t) as [d1|] eqn:E; [|done].
  apply recordTransactionInTx_Ok in E as (-> & Hf & _). intros (Er & Hg & Ho)%IH.
  split; [rewrite Er; cbn; by rewrite <- app_assoc|].
  split; [etrans; [by apply grows_row|exact Hg]|exact Ho].
Qed.

(** Rows with a reference. *)
Definition has_ref (l : list Transaction) (ref : string) : Prop :=
  ∃ r, r ∈ l ∧ t_Reference r = ref.

Lemma has_ref_exists d ref : TransactionExistsByRef d ref = true ↔ has_ref (db_transactions d) ref.
Proof.
  unfold TransactionExistsByRef. rewrite existsb_true. unfold has_ref.
  split; intros (r & ? & Er); exists r; (split; [done|]); by apply String.eqb_eq.
Qed.

Lemma has_ref_app l l' ref : has_ref l ref → has_ref (l ++ l') ref.
Proof. intros (r & Hr & E). exists r. split; [apply elem_of_app; by left|done]. Qed.

Lemma has_ref_snoc l t : has_ref (l ++ [stored_row t]) (t_Reference t).
Proof.
  destruct (stored_row_keys t) as (E & _). exists (stored_row t). split; [|exact E].
  apply elem_of_app. right. by apply list_elem_of_singleton.
Qed.

Lemma batch_locked_rows Q ids leader rest d ts r :
  persistQueuedTransactionBatchLocked Q ids (leader :: rest) d = (ts, r) →
  Forall2 kept (leader :: rest) ts
  ∧ ∀ d', r = Ok d' → db_transactions d' = db_transactions d ++ map stored_row ts
      ∧ grows (logs_of_db d) (logs_of_db d').
Proof.
  assert (Hr : ∀ l, Forall2 kept l l) by (induction l; constructor; auto with kept).
  unfold persistQueuedTransactionBatchLocked. cbv zeta.
  destruct (loadBalancesForQueuedBatch _ _ _) as [m|]; cbn [wrap_err]; [|by intros [= <- <-]].
  destruct (hooks_fault Q); [by intros [= <- <-]|].
  destruct (queuedBatchReferenceSets Q d (leader :: rest)) as [pf ex].
  destruct (prepare_batch (q_exec Q) d (leader :: rest) m pf ex ∅) as [ts' q] eqn:EP.
  apply prepare_batch_kept in EP as [K Wk]. intros [= <- <-]. split; [done|].
  intros d' ([wks m'] & -> & Ep)%bind_Ok. specialize (Wk _ _ eq_refl). rewrite Wk in Ep.
  apply wrap_err_Ok in Ep. unfold RecordTransactionsWithBalanceSetAndOutboxes in Ep.
  apply bind_Ok in Ep as (d1 & E1 & Ep). apply bind_Ok in Ep as (d2 & E2 & Ep).
  apply wrap_err_Ok in Ep. pose proof (insertLineageOutboxesInTx_grows _ _ _ _ Ep) as Hob.
  apply insertLineageOutboxesInTx_frame in Ep as [_ Et].
  apply recordTransactionsInTx_rows in E2 as (Er & Hg & Ho).
  apply updateBalanceSet_frame in E1 as [E1 O1]. unfold logs_of_db, grows. cbn [fst snd].
  rewrite Et, <- E1, <- O1, <- Ho. rewrite E1 in *. done.
Qed.

Definition logs_kept (d d' : db) : Prop :=
  db_transactions d' = db_transactions d ∧ db_outbox d' = db_outbox d.

Lemma logs_kept_tables (w w' : world) : logs_kept (w_db w) (w_db w') → tables_of w' = tables_of w.
Proof. intros [E1 E2]. unfold tables_of, world_tables, logs_of_db. by rewrite E1, E2. Qed.

(** A batch attempt records the transaction or leaves the rows alone, and keeps
    its reference and amount either way. *)
Lemma batch_attempt Q force t w w' h t' :
  tryRecordQueuedTransactionBatch Q force t w = (w', (h, t')) →
  kept t t'
  ∧ if h : bool then ∃ l, db_transactions (w_db w') = db_transactions (w_db w) ++ l
                          ∧ has_ref l (t_Reference t) ∧ grows (tables_of w) (tables_of w')
    else logs_kept (w_db w) (w_db w').
Proof.
  unfold tryRecordQueuedTransactionBatch, tables_of, world_tables. destruct (canCoalesceQueuedTransaction t); [|by intros [= <- <- <-]].
  cbv zeta. destruct (_ <? 2); [by intros [= <- <- <-]|].
  destruct (buildQueuedCoalescingBatch Q t _ w) as [w1 [b|e]] eqn:Eb;
    pose proof (first_batch_db _ _ _ _ _ _ _ Eb) as Hdb; [|intros [= <- <- <-]; by rewrite Hdb].
  destruct b as [|leader rest]; [intros [= <- <- <-]; by rewrite Hdb|].
  assert (leader = t) as ->.
  { apply build_batch_spec in Eb as [_ [?|(? & [= <- _] & _)]]; done. }
  unfold persistQueuedTransactionBatch.
  destruct (validateQueuedBatchCurrencies _); [|intros [= <- <- <-]; by rewrite Hdb].
  set (ids := collectQueuedCoalescingBalanceIDs (t :: rest)).
  pose proof (batch_lock_db (q_exec Q) ids (t_Source t) (t_Destination t) (t_Currency t) w1) as Hl.
  destruct (on_contention _ _ _ _ _ w1) as [w2 [locker|e]]; cbn [fst] in Hl;
    [|intros [= <- <- <-]; by rewrite Hl, Hdb].
  unfold persist_locked.
  destruct (persistQueuedTransactionBatchLocked Q ids (t :: rest) (w_db w2)) as [ts q] eqn:EP.
  apply batch_locked_rows in EP as [K Hrows].
  apply Forall2_cons_inv_l in K as (t2 & ts2 & K & _ & ->). cbn [hd]. destruct q as [d'|e].
  - specialize (Hrows d' eq_refl).
    pose proof (releaseLock_db (q_exec Q) locker (w2 <| w_db := d' |>)) as Hr.
    destruct (releaseLock (q_exec Q) locker _) as [w3 u]. cbn [fst] in Hr.
    intros [= <- <- <-]. split; [done|]. rewrite Hr. cbn [w_db set].
    destruct Hrows as [Er Hg]. rewrite Hl, Hdb in Hg. rewrite Er, Hl, Hdb in *.
    eexists. split; [done|]. cbn [map]. destruct K as [<- _]. destruct (stored_row_keys t2) as (E & _). split; [|exact Hg].
    exists (stored_row t2). split; [by left|exact E].
  - pose proof (releaseLock_db (q_exec Q) locker w2) as Hr.
    destruct (releaseLock (q_exec Q) locker w2) as [w3 u]. cbn [fst] in Hr.
    intros [= <- <- <-]. split; [done|]. by rewrite Hr, Hl, Hdb.
Qed.

Lemma left_by_single_kept E t w : kept t (left_by_single E t w).
Proof.
  unfold left_by_single. destruct (resolveBalanceIDs E t w) as [w1 [ids|]]; [|done]. cbv zeta.
  set (t1 := t <| t_Source := ids.1 |> <| t_Destination := ids.2 |>).
  assert (K1 : kept t t1) by apply kept_ends, same_but_ends_intro.
  destruct (acquireLock _ _ _ _) as [w2 [u|]]; [|done]. destruct (pre_hook E t1); [done|].
  destruct (validateAndPrepareTransaction E t1 w2) as [w3 [[[t2 s] d]|]] eqn:Ev; [|done].
  apply validateAndPrepare_Ok in Ev as [K2%kept_ends _].
  destruct (processBalances t2 s d) as [[[t3 s3] d3]|] eqn:Ep; 
    [|exact (kept_trans _ _ _ K1 (kept_trans _ _ _ K2 (touched_kept _)))].
  apply wrap_err_Ok, apply_kept in Ep.
  destruct (buildTransactionExecutionWork t3 s3 d3) as [wk sk] eqn:Eb.
  apply Ledger.build_work in Eb as (_ & _ & Ew). cbn [fst]. rewrite Ew.
  exact (kept_trans _ _ _ K1 (kept_trans _ _ _ K2 (kept_trans _ _ _ Ep (kept_details _ _ _)))).
Qed.

(** The batch attempt, then the single one. *)
Lemma ProcessQueued_eq Q t hot w :
  ProcessQueued Q t hot w =
  let '(w1, (handled, t1)) := tryRecordQueuedTransactionBatch Q hot t w in
  if handled : bool then (w1, Ok (if hot then ModeHotQueuedBatch else ModeQueuedBatch, t1))
  else (r ← recordTransactionSingle (q_exec Q) t1; mret (ModeSingle, r)) w1.
Proof. unfold ProcessQueued. rewrite executeTransactionPlan_falls_back. by destruct hot. Qed.

(** An attempt by the shared executor. *)
Lemma process_attempt Q hot t w w' r p :
  ProcessQueued Q t hot w = (w', r) → t_PreciseAmount t = Some p → 0 < p →
  match r with
  | Ok _ => ∃ l, db_transactions (w_db w') = db_transactions (w_db w) ++ l
                 ∧ has_ref l (t_Reference t) ∧ grows (tables_of w) (tables_of w')
  | Err _ => logs_kept (w_db w) (w_db w')
  end.
Proof.
  rewrite ProcessQueued_eq. intros E' Hp Hpos.
  destruct (tryRecordQueuedTransactionBatch Q hot t w) as [w1 [h t1]] eqn:Eb.
  apply batch_attempt in Eb as [[Kr Kp] Hh]. destruct h.
  { injection E' as <- <-. done. }
  pose proof (recordTransactionSingle_recorded (q_exec Q) t1 w1) as Hrec.
  unfold mbind, prog_bind in E'.
  destruct (recordTransactionSingle (q_exec Q) t1 w1) as [w2 [t2|e]]; injection E' as <- <-;
    cbn [fst snd] in Hrec.
  - destruct Hrec as (((R & _) & _ & Ha) & _ & Hrow).
    rewrite (Ha p (Kp p Hp Hpos) Hpos) in Hrow.
    rewrite bool_decide_false in Hrow by (intros [= ->]; lia).
    destruct Hrow as (Er & Hf & _ & Ho). exists [stored_row t2]. split; [by rewrite Er, (proj1 Hh)|].
    split; [|rewrite <- (logs_kept_tables _ _ Hh); unfold tables_of, world_tables, logs_of_db;
             rewrite Er; split; [by apply grows_row|exact Ho]].
    rewrite <- Kr, <- R. destruct (stored_row_keys t2) as (E & _). exists (stored_row t2). split; [by left|exact E].
  - destruct Hh as [H1 H2]. destruct Hrec as (R1 & R2 & _). split; congruence.
Qed.
End attempts.

(** ** Settling and retrying *)

Section worker.
Context `{Decimal, MapIter, Asynq}.

Lemma kept_world (w : world) y :
  logs_kept (w_db (q_core (s_world y))) (w_db w) →
  let y' := mkSys (mkQ w (q_tasks (s_world y))) (s_jobs y) in
  grows (tables_of y) (tables_of y') ∧ tables_of y' = tables_of y.
Proof.
  intros E%logs_kept_tables. cbv zeta. change (grows (tables_of y) (tables_of w) ∧ tables_of w = tables_of y).
  rewrite E. split; reflexivity.
Qed.

Lemma tables_table y y' : tables_of y' = tables_of y → map bare (table y') = map bare (table y).
Proof. intros [= E _]. exact E. Qed.

(** A row carries the reference. *)
Definition recorded_ref (y : sys) (ref : string) : Prop := ref ∈ map t_Reference (tables_of y).1.
#[global] Instance recorded_ref_dec y ref : Decision (recorded_ref y ref).
Proof. unfold recorded_ref. apply _. Defined.

Lemma recorded_ref_grows y y' ref :
  grows (tables_of y) (tables_of y') → recorded_ref y ref → recorded_ref y' ref.
Proof.
  intros [[[l E] _] _] Hr. unfold recorded_ref in *. rewrite E, map_app. apply elem_of_app. by left.
Qed.

Lemma has_ref_recorded (w : world) l0 l ref :
  db_transactions (w_db w) = l0 ++ l → has_ref l ref → ref ∈ map t_Reference (tables_of w).1.
Proof.
  intros E (r & Hr & <-). cbn [tables_of world_tables logs_of_db fst]. rewrite bare_refs, E.
  apply list_elem_of_fmap_2, elem_of_app. by right.
Qed.

Lemma on_world_batch Q force t y y' h t' :
  on_world (tryRecordQueuedTransactionBatch Q force t) y = (y', (h, t')) →
  kept t t' ∧ grows (tables_of y) (tables_of y')
  ∧ if h : bool then recorded_ref y' (t_Reference t) else tables_of y' = tables_of y.
Proof.
  unfold on_world. destruct (tryRecordQueuedTransactionBatch Q force t _) as [w [h1 t1]] eqn:E.
  apply batch_attempt in E as [K Hh]. intros [= <- -> ->]. split; [done|]. destruct h.
  - destruct Hh as (l & El & Hl & Hg). split; [exact Hg|]. by eapply has_ref_recorded.
  - exact (kept_world _ _ Hh).
Qed.

Lemma inc_process Q hot t y y' r p :
  inc (ProcessQueued Q t hot) y = (y', r) → t_PreciseAmount t = Some p → 0 < p →
  grows (tables_of y) (tables_of y')
  ∧ match r with
    | Ok _ => recorded_ref y' (t_Reference t)
    | Err _ => table y' = table y ∧ tables_of y' = tables_of y
    end.
Proof.
  unfold inc, inq, core. destruct (ProcessQueued Q t hot (q_core (s_world y))) as [w r0] eqn:E.
  intros [= <- ->] Hp Hpos. apply (process_attempt _ _ _ _ _ _ p) in E; [|done..]. destruct r.
  - destruct E as (l & El & Hl & Hg). split; [exact Hg|]. by eapply has_ref_recorded.
  - destruct (kept_world w y E) as [Hg Et]. split; [exact Hg|]. split; [apply E|exact Et].
Qed.

Lemma inc_insert t y y' r :
  inc (insert_transaction t) y = (y', r) →
  match r with
  | Ok _ => recorded_ref y' (t_Reference t)
  | Err _ => y' = y
  end.
Proof.
  unfold inc, inq, core, insert_transaction, write, Datastore.RecordTransaction.
  destruct y as [[w ts] jobs]. cbn [s_world q_core q_tasks s_jobs].
  destruct (recordTransactionInTx (w_db w) t) as [d|e] eqn:E; intros [= <- <-]; [|done].
  apply recordTransactionInTx_Ok in E as (-> & _ & _). unfold recorded_ref, tables_of, sys_tables, tables_of,
    qworld_tables, tables_of, world_tables, logs_of_db. cbn [s_world q_core w_db set db_transactions fst].
  rewrite bare_refs, map_app. apply elem_of_app. right. cbn [map].
  destruct (stored_row_keys t) as (-> & _). by left.
Qed.

Lemma reject_records E t reason y y' r :
  RejectTransaction E t reason y = (y', r) →
  grows (tables_of y) (tables_of y')
  ∧ match r with
    | Ok _ => recorded_ref y' (t_Reference t)
    | Err _ => y' = y ∨ recorded_ref y' (t_Reference t)
    end.
Proof.
  intros E0. pose proof (appends_RejectTransaction E t reason y) as Hg. rewrite E0 in Hg.
  split; [exact Hg|]. revert E0. unfold RejectTransaction. cbv zeta.
  set (t1 := meta_set _ _ _). assert (Href : t_Reference t1 = t_Reference t) by (by destruct t).
  unfold mbind at 1, prog_bind at 1. destruct (inc (insert_transaction t1) y) as [y1 [u|e]] eqn:Ei;
    apply inc_insert in Ei; [|intros [= <- <-]; by left]. rewrite Href in Ei.
  intros E0.
  assert (Hrec : recorded_ref y' (t_Reference t)); [|destruct r; [done|by right]].
  eapply recorded_ref_grows; [|exact Ei]. revert E0.
  destruct (t_Atomic t1); [|by intros [= <- _]].
  destruct (meta_string _ _) as [parent|]; [|by intros [= <- _]]. intros E0.
  pose proof (appends_bind _ (λ _, mret t1)
    (appends_handler E parent true (t_Inflight t1)) (λ _, appends_ret _) y1) as Hb.
  by rewrite E0 in Hb.
Qed.

(** The executor refused the transaction with a text that reads like a
    duplicate reference. *)
Definition taken_for_duplicate (Q : qenv) (hot : bool) (t : Transaction) : Prop :=
  ∃ t' y e, kept t t' ∧ (inc (ProcessQueued Q t' hot) y).2 = Err e
    ∧ IsDuplicateReferenceError e = true.

End worker.

(** ** Recovery *)

Section recovery.
Context `{Decimal, MapIter, Asynq}.

Lemma bare_merge id m l : map bare (map (merge_metadata id m) l) = map bare l.
Proof.
  rewrite map_map. apply map_ext. intros r. unfold merge_metadata. by destruct (_ || _).
Qed.

(** What a metadata update does. *)
Lemma update_metadata E t attempts status y :
  let y' := (updateRecoveryMetadata E t attempts status y).1 in
  let m := recovery_metadata (now (s_exec E)) attempts status (t_MetaData t) in
  (updateRecoveryMetadata E t attempts status y).2 = Ok tt
  ∧ (table y' = table y ∨ table y' = map (merge_metadata (t_TransactionID t) m) (table y))
  ∧ (forallb (λ kv, meta_json_ok kv.2) (map_to_list m) = true →
     table y' = map (merge_metadata (t_TransactionID t) m) (table y))
  ∧ (tables_of y').2 = (tables_of y).2.
Proof.
  cbv zeta. unfold updateRecoveryMetadata, inc, inq, core, write, UpdateTransactionMetadata.
  cbv zeta. destruct (forallb _ _); cbn; [by split_and!; [|right| |]|by split_and!; [|left| |]].
Qed.

Lemma appends_update E t attempts status : appends (updateRecoveryMetadata E t attempts status).
Proof.
  apply appends_same. intros y.
  destruct (update_metadata E t attempts status y) as (_ & Ht & _ & Ho).
  apply injective_projections; [|exact Ho].
  change (map bare (table (updateRecoveryMetadata E t attempts status y).1) = map bare (table y)).
  destruct Ht as [-> | ->]; [done|apply bare_merge].
Qed.

Lemma appends_try Q force t : appends (λ w, let '(w, r) := tryRecordQueuedTransactionBatch Q force t w
                                            in (w, Ok r)).
Proof.
  intros w. destruct (tryRecordQueuedTransactionBatch Q force t w) as [w1 [h t1]] eqn:E.
  apply batch_attempt in E as [_ Hh]. destruct h; [by destruct Hh as (? & _ & _ & ?)|].
  cbn [fst]. by rewrite (logs_kept_tables _ _ Hh).
Qed.

Lemma appends_ProcessQueued Q t hot : appends (ProcessQueued Q t hot).
Proof.
  assert (Hs : ∀ t, appends (recordTransactionSingle (q_exec Q) t)).
  { intros t0. eapply appends_ext; [|apply (appends_record (q_exec Q) t0)]. intros w.
    unfold RecordTransaction, executeTransactionPlan, planTransactionExecution.
    unfold mbind, prog_bind, mret, prog_ret.
    by destruct (recordTransactionSingle (q_exec Q) t0 w) as [? [?|?]]. }
  eapply appends_ext; [|apply (appends_bind _
    (λ r : bool * Transaction, if r.1 then mret (if hot then ModeHotQueuedBatch else ModeQueuedBatch, r.2)
          else (u ← recordTransactionSingle (q_exec Q) r.2; mret (ModeSingle, u)))
    (appends_try Q hot t))].
  - intros w. rewrite ProcessQueued_eq. unfold mbind at 1, prog_bind at 1.
    by destruct (tryRecordQueuedTransactionBatch Q hot t w) as [w1 [[|] t1]].
  - intros [[|] t1]; cbn [fst snd]; [apply appends_ret|].
    apply appends_bind; [apply Hs|intros; apply appends_ret].
Qed.

Lemma appends_replay E t attempts : appends (replay E t attempts).
Proof.
  unfold replay. apply appends_bind; [apply appends_inc, appends_queue_copy|]. intros copy.
  eapply appends_ext; [|apply (appends_handle (tryRecordRecoveredTransaction E copy)
    (λ _, updateRecoveryMetadata E t attempts "recovered")
    (λ e, if IsDuplicateReferenceError e then updateRecoveryMetadata E t attempts "already_processed"
          else (_ ← updateRecoveryMetadata E t attempts "failed"; raise e)))].
  - intros y. unfold replay_copy. destruct (tryRecordRecoveredTransaction E copy y) as [y1 [u|e]]; [done|].
    destruct (IsDuplicateReferenceError e); [done|]. unfold mbind, prog_bind.
    destruct (update_metadata E t attempts "failed" y1) as (Hr & _).
    destruct (updateRecoveryMetadata E t attempts "failed" y1) as [y2 r]. cbn in Hr. by subst r.
  - unfold tryRecordRecoveredTransaction.
    apply appends_bind; [apply appends_inc, appends_ProcessQueued|intros; apply appends_ret].
  - intros _. apply appends_update.
  - intros e. apply appends_if; [apply appends_update|].
    apply appends_bind; [apply appends_update|intros; apply appends_raise].
Qed.

Lemma appends_give_up E t : appends (give_up_on E t).
Proof.
  unfold give_up_on. apply appends_bind; [apply appends_inc, appends_queue_copy|]. intros copy.
  eapply appends_ext; [|apply (appends_handle
    (RejectTransaction E copy "exceeded max queued recovery attempts") (λ _, mret tt)
    (λ e, if IsDuplicateReferenceError e then mret tt else raise e))].
  - intros y. unfold reject_copy. destruct (RejectTransaction _ _ _ y) as [y1 [u|e]]; [done|].
    by destruct (IsDuplicateReferenceError e).
  - apply appends_RejectTransaction.
  - intros _. apply appends_ret.
  - intros e. apply appends_if; [apply appends_ret|apply appends_raise].
Qed.

Lemma appends_stuck E t : appends (processStuckTransaction E t).
Proof.
  intros y. unfold processStuckTransaction. cbv zeta. destruct (_ <? _); [apply appends_give_up|].
  destruct (_ && _); [done|apply appends_replay].
Qed.

Lemma appends_recover E threshold : appends (recoverWithThreshold E threshold).
Proof.
  intros y. unfold recoverWithThreshold. cbv zeta.
  generalize (map (λ t, (Balances.ApplyPrecision t).2)
    (GetStuckQueuedTransactions (w_db (q_core (s_world y))) (now (s_exec E) - threshold)
       recoveryBatchSize)). intros l. generalize (length l). intros n. revert y.
  match goal with |- ∀ y, grows _ (tables_of (?m y).1) => change (appends m) end.
  apply appends_bind; [|intros; apply appends_ret].
  induction l as [|t l IH]; [apply appends_ret|]. intros y. cbn [process_stuck].
  pose proof (appends_stuck E t y) as Hs. destruct (processStuckTransaction E t y) as [y1 r].
  cbn [fst] in Hs. destruct r as [u|[]]; try exact Hs; (etrans; [exact Hs|apply IH]).
Qed.

(** One attempt to replay a row: it is settled, or only the count of its
    attempts changed. *)
Lemma replay_outcome E t attempts y p :
  t_PreciseAmount t = Some p → 0 < p →
  (∀ status, forallb (λ kv, meta_json_ok kv.2)
     (map_to_list (recovery_metadata (now (s_exec E)) attempts status (t_MetaData t))) = true) →
  recorded_ref (replay E t attempts y).1 (t_Reference t +:+ "_q")
  ∨ ∃ status, table (replay E t attempts y).1 = map (merge_metadata (t_TransactionID t)
      (recovery_metadata (now (s_exec E)) attempts status (t_MetaData t))) (table y).
Proof.
  intros Hp Hpos Hjson. destruct (replay E t attempts y) as [y' r'] eqn:Er. cbn [fst].
  revert Er. unfold replay. unfold mbind at 1, prog_bind at 1.
  destruct (inc (createQueueCopy (s_exec E) t (t_Reference t)) y) as [y1 r] eqn:Ec.
  unfold inc, inq, core, createQueueCopy, mbind, prog_bind, fresh_id, mret, prog_ret in Ec.
  injection Ec as Ey <-. assert (Ht : table y1 = table y) by (by subst y1).
  match goal with |- context [replay_copy E t attempts ?c] => set (copy := c) end.
  assert (Hc : t_PreciseAmount copy = Some p ∧ t_Reference copy = t_Reference t +:+ "_q")
    by (subst copy; clear - Hp; by destruct t).
  clearbody copy. destruct Hc as [Hcp Hcr]. unfold replay_copy, tryRecordRecoveredTransaction.
  unfold mbind, prog_bind.
  destruct (inc (ProcessQueued (s_batch E) copy _) y1) as [y2 [x|e]] eqn:EP;
    pose proof (inc_process _ _ _ _ _ _ p EP Hcp Hpos) as [_ Hr]; cbn [mret prog_ret].
  - pose proof (appends_update E t attempts "recovered" y2) as Hg. intros Er. rewrite Er in Hg.
    left. rewrite Hcr in Hr. by eapply recorded_ref_grows.
  - destruct (update_metadata E t attempts "failed" y2) as (Ef & _ & Hf & _).
    destruct (update_metadata E t attempts "already_processed" y2) as (_ & _ & Ha & _).
    destruct Hr as [Hr _]. rewrite Hr, Ht in Hf, Ha. intros Er. right. destruct (IsDuplicateReferenceError e).
    + eexists. rewrite Er in Ha. apply Ha, Hjson.
    + destruct (updateRecoveryMetadata E t attempts "failed" y2) as [y3 r]. cbn [fst snd] in *.
      injection Er as <- _. eexists. apply Hf, Hjson.
Qed.

(** Giving up on a row records its rejection. *)
Lemma give_up_records E t y :
  valid_numeric t = true →
  (∀ n x, x ∈ table y → t_TransactionID x ≠ gen (s_exec E) "txn" n) →
  recorded_ref (give_up_on E t y).1 (t_Reference t +:+ "_q").
Proof.
  intros Hv Hfresh.
  destruct (decide (recorded_ref y (t_Reference t +:+ "_q"))) as [Hin|Hout].
  { eapply recorded_ref_grows; [apply appends_give_up|exact Hin]. }
  destruct (give_up_on E t y) as [y' r'] eqn:Er. cbn [fst]. revert Er.
  unfold give_up_on, mbind at 1, prog_bind at 1.
  destruct (inc (createQueueCopy (s_exec E) t (t_Reference t)) y) as [y1 r] eqn:Ec.
  unfold inc, inq, core, createQueueCopy, mbind, prog_bind, fresh_id, mret, prog_ret in Ec.
  injection Ec as Ey <-. assert (Ht : table y1 = table y) by (by subst y1).
  assert (Ht' : tables_of y1 = tables_of y) by (by subst y1).
  match goal with |- context [reject_copy E ?c] => set (copy := c) end.
  assert (Hc : t_Reference copy = t_Reference t +:+ "_q" ∧ valid_numeric copy = true
               ∧ t_TransactionID copy = gen (s_exec E) "txn" (w_next (q_core (s_world y))))
    by (subst copy; split_and!; [by destruct t|revert Hv; clear; by destruct t|by destruct t]).
  clearbody copy. destruct Hc as (Hcr & Hcv & Hcid).
  unfold reject_copy.
  destruct (RejectTransaction E copy "exceeded max queued recovery attempts" y1) as [y2 [x|e]] eqn:EJ.
  { intros [= <- _]. apply reject_records in EJ as [_ Hr]. by rewrite Hcr in Hr. }
  intros [= <- _]. pose proof EJ as EJ'. apply reject_records in EJ' as [_ [->|Hr]];
    [|by rewrite Hcr in Hr]. exfalso. revert EJ. unfold RejectTransaction. cbv zeta.
  set (t1 := meta_set _ _ _).
  assert (H1' : t_Reference t1 = t_Reference copy ∧ t_TransactionID t1 = t_TransactionID copy
               ∧ valid_numeric t1 = valid_numeric copy) by (subst t1; clear; by destruct copy).
  destruct H1' as (R1 & I1 & V1).
  assert (Hins : ∃ y3, inc (insert_transaction t1) y1 = (y3, Ok tt)).
  { unfold inc, inq, core, insert_transaction, write, Datastore.RecordTransaction, recordTransactionInTx.
    rewrite V1, Hcv.
    replace (existsb _ _) with false.
    - by eexists.
    - symmetry. apply existsb_false. intros x Hx. fold (table y1) in Hx. rewrite Ht in Hx.
      rewrite I1, R1, Hcid, Hcr. apply orb_false_iff. split; apply String.eqb_neq.
      + by apply Hfresh.
      + intros E0. apply Hout. unfold recorded_ref. rewrite <- E0.
        change ((tables_of y).1) with (map bare (table y)). rewrite bare_refs. apply list_elem_of_fmap. by exists x. }
  destruct Hins as (y3 & Hi). unfold mbind at 1, prog_bind at 1. rewrite Hi. intros EJ.
  apply inc_insert in Hi as Hrec. rewrite R1, Hcr in Hrec.
  assert (Hg : grows (tables_of y3) (tables_of y1)).
  { revert EJ. destruct (t_Atomic t1); [|done]. destruct (meta_string _ _) as [parent|];
      [|by intros [= <- _]]. intros EJ.
    pose proof (appends_bind _ (λ _, mret t1)
      (appends_handler E parent true (t_Inflight t1)) (λ _, appends_ret _) y3) as Hb.
    by rewrite EJ in Hb. }
  apply Hout. pose proof (recorded_ref_grows y3 y1 _ Hg Hrec) as Hrec1. unfold recorded_ref in *.
  by rewrite Ht' in Hrec1.
Qed.

(** *** Passes over one stuck row *)

Definition row_of (y : sys) (id : string) : option Transaction :=
  List.find (λ r, String.eqb (t_TransactionID r) id) (table y).

Definition scanned (r : Transaction) : Transaction :=
  (Balances.ApplyPrecision (scan_transaction_sched r)).2.

(** A recovery pass that reaches the row [id]. *)
Definition stuck_pass (id : string) (y : sys) (E : senv) : sys :=
  match row_of y id with
  | Some r => (processStuckTransaction E (scanned r) y).1
  | None => y
  end.

Lemma ApplyPrecision_meta m t :
  (Balances.ApplyPrecision (t <| t_MetaData := m |>)).2
  = (Balances.ApplyPrecision t).2 <| t_MetaData := m |>.
Proof.
  unfold Balances.ApplyPrecision, Balances.applyPrecisionLogic.
  assert (Hd : ∀ t, Balances.default_precision (t <| t_MetaData := m |>)
                    = (Balances.default_precision t) <| t_MetaData := m |>).
  { intros t0. unfold Balances.default_precision.
    change (t_Precision (t0 <| t_MetaData := m |>)) with (t_Precision t0).
    destruct (Float64.eqb _ _); by destruct t0. }
  rewrite !Hd. set (t0 := Balances.default_precision (Balances.default_precision t)).
  change (t_PreciseAmount (t0 <| t_MetaData := m |>)) with (t_PreciseAmount t0).
  destruct (t_PreciseAmount t0) as [p|]; [destruct (0 <? p)|]; by destruct t0.
Qed.

Lemma scanned_facts r p :
  t_PreciseAmount r = Some p → 0 < p →
  t_MetaData (scanned r) = t_MetaData r ∧ t_Reference (scanned r) = t_Reference r
  ∧ t_TransactionID (scanned r) = t_TransactionID r ∧ t_Atomic (scanned r) = t_Atomic r
  ∧ t_PreciseAmount (scanned r) = Some p.
Proof.
  intros Hp Hpos. unfold scanned.
  assert (Hs : t_PreciseAmount (scan_transaction_sched r) = Some p) by (by destruct r).
  pose proof (Balances.ApplyPrecision_precise _ p Hs Hpos) as Ha.
  destruct (Balances.ApplyPrecision (scan_transaction_sched r)) as [a t] eqn:E.
  pose proof (Balances.ApplyPrecision_amount _ _ _ E) as Hamt.
  apply Balances.ApplyPrecision_frame in E. cbn [fst snd] in *. subst a.
  unfold Balances.same_but_amounts in E. rewrite E at 1 2 3 4. clear E Hs. by destruct r.
Qed.

Lemma scanned_meta m r : scanned (r <| t_MetaData := m |>) = (scanned r) <| t_MetaData := m |>.
Proof.
  unfold scanned. rewrite <- ApplyPrecision_meta. f_equal.
Qed.

Lemma find_merge id m l :
  List.find (λ r, String.eqb (t_TransactionID r) id) (map (merge_metadata id m) l)
  = merge_metadata id m <$> List.find (λ r, String.eqb (t_TransactionID r) id) l.
Proof.
  induction l as [|r l IH]; [done|]. cbn [map List.find].
  assert (Hid : t_TransactionID (merge_metadata id m r) = t_TransactionID r).
  { unfold merge_metadata. by destruct (_ || _). }
  rewrite Hid. by destruct (String.eqb _ id).
Qed.

Lemma recovery_union nw a st m : recovery_metadata nw a st m ∪ m = recovery_metadata nw a st m.
Proof. unfold recovery_metadata. by rewrite <- !insert_union_l, map_union_idemp. Qed.

Definition meta_ok (m : metadata) : Prop := map_Forall (λ _ v, meta_json_ok v = true) m.

Lemma meta_ok_forallb m : meta_ok m ↔ forallb (λ kv, meta_json_ok kv.2) (map_to_list m) = true.
Proof.
  unfold meta_ok. rewrite map_Forall_to_list, forallb_forall, Forall_forall.
  split; intros Hf [k v] Hin; apply (Hf (k, v)); by apply list_elem_of_In.
Qed.

Lemma small_attempts a :
  1 <= a <= 3 → Float64.to_int (Float64.of_Z a) = a ∧ Float64.is_finite (Float64.of_Z a) = true.
Proof. intros Ha. assert (a = 1 ∨ a = 2 ∨ a = 3) as [-> |[-> | ->]] by lia; by vm_compute. Qed.

Lemma recovery_meta_ok nw a st m : 1 <= a <= 3 → meta_ok m → meta_ok (recovery_metadata nw a st m).
Proof.
  intros Ha Hm. apply small_attempts in Ha as [_ Hf]. unfold recovery_metadata, meta_ok.
  by repeat apply map_Forall_insert_2.
Qed.

(** A row recovery keeps coming back to: not atomic, with a positive amount. *)
Definition recoverable (r : Transaction) : Prop :=
  (∃ p, t_PreciseAmount r = Some p ∧ 0 < p)
  ∧ meta_bool (t_MetaData r) "atomic" (t_Atomic r) = false
  ∧ meta_ok (t_MetaData r) ∧ valid_numeric (scanned r) = true.

Lemma recoverable_again r nw a st :
  1 <= a <= 3 → recoverable r →
  let r' := r <| t_MetaData := recovery_metadata nw a st (t_MetaData r) |> in
  recoverable r' ∧ recovery_attempts r' = a.
Proof.
  intros Ha (Hp & Hat & Hok & Hv). cbv zeta. split; [split_and!|].
  - destruct Hp as (p & ? & ?). exists p. by destruct r.
  - unfold meta_bool, recovery_metadata in *. cbn [t_MetaData set t_Atomic].
    by rewrite !lookup_insert_ne.
  - by apply recovery_meta_ok.
  - rewrite scanned_meta. by destruct (scanned r).
  - unfold recovery_attempts, recovery_metadata. cbn [t_MetaData set].
    rewrite !lookup_insert_ne, lookup_insert_eq by done. by apply small_attempts.
Qed.

(** A pass settles the row, rejects it, or counts one more attempt. *)
Lemma stuck_pass_outcome id y E r :
  row_of y id = Some r → recoverable r → 0 <= recovery_attempts r →
  (∀ n x, x ∈ table y → t_TransactionID x ≠ gen (s_exec E) "txn" n) →
  let y' := stuck_pass id y E in
  recorded_ref y' (t_Reference r +:+ "_q")
  ∨ recovery_attempts r + 1 <= 3
    ∧ ∃ r' m, row_of y' id = Some r' ∧ recoverable r'
        ∧ recovery_attempts r' = recovery_attempts r + 1 ∧ t_Reference r' = t_Reference r
        ∧ table y' = map (merge_metadata id m) (table y).
Proof.
  intros Hr Hrec Hatt Hfresh. cbv zeta. unfold stuck_pass. rewrite Hr.
  pose proof Hrec as ((p & Hp & Hpos) & Hat & Hok & Hv).
  destruct (scanned_facts r p Hp Hpos) as (Fm & Fr & Fi & Fa & Fp).
  assert (Hid : t_TransactionID r = id).
  { unfold row_of in Hr. apply find_some in Hr as [_ Hr]. by apply String.eqb_eq. }
  set (t := restoreTransactionFlagsFromMetadata (scanned r)).
  assert (Ht : t_MetaData t = t_MetaData r ∧ t_Reference t = t_Reference r
    ∧ t_TransactionID t = id ∧ t_Atomic t = false ∧ t_PreciseAmount t = Some p
    ∧ valid_numeric t = true).
  { subst t. clear - Hv Fm Fr Fi Fa Fp Hid Hat. revert Hv Fm Fr Fi Fa Fp. generalize (scanned r).
    intros s Hv Fm Fr Fi Fa Fp. split; [exact Fm|]. split; [exact Fr|].
    split; [by rewrite <- Hid|]. split; [|split; [exact Fp|exact Hv]].
    change (meta_bool (t_MetaData s) "atomic" (t_Atomic s) = false). by rewrite Fm, Fa. }
  destruct Ht as (Tm & Tr & Ti & Ta & Tp & Tv).
  assert (Hst : (processStuckTransaction E (scanned r) y).1
    = (if maxRecoveryAttempts <? recovery_attempts t + 1 then give_up_on E t y
       else replay E t (recovery_attempts t + 1) y).1).
  { unfold processStuckTransaction. cbv zeta. fold t. rewrite Ta. by destruct (_ <? _). }
  rewrite Hst. assert (Ea : recovery_attempts t = recovery_attempts r)
    by (unfold recovery_attempts; by rewrite Tm).
  rewrite Ea. unfold maxRecoveryAttempts. destruct (Z.ltb_spec 3 (recovery_attempts r + 1)).
  { left. rewrite <- Tr. by apply give_up_records. }
  assert (Ha : 1 <= recovery_attempts r + 1 <= 3) by lia.
  destruct (replay_outcome E t (recovery_attempts r + 1) y p Tp Hpos) as [Hd|(st & Hd)].
  { intros st. apply meta_ok_forallb. rewrite Tm. by apply recovery_meta_ok. }
  { left. by rewrite <- Tr. }
  right. split; [lia|]. rewrite Ti, Tm in Hd.
  set (m := recovery_metadata (now (s_exec E)) (recovery_attempts r + 1) st (t_MetaData r)) in *.
  exists (merge_metadata id m r), m.
  assert (Em : merge_metadata id m r = r <| t_MetaData := m |>).
  { unfold merge_metadata. rewrite Hid, String.eqb_refl. cbn [orb].
    subst m. by rewrite recovery_union. }
  destruct (recoverable_again r (now (s_exec E)) (recovery_attempts r + 1) st Ha Hrec) as [Hr1 Hr2].
  fold m in Hr1, Hr2. rewrite Em. split_and!; try done.
  unfold row_of in *. by rewrite Hd, find_merge, Hr, <- Em.
Qed.

Lemma stuck_pass_grows id y E : grows (tables_of y) (tables_of (stuck_pass id y E)).
Proof. unfold stuck_pass. destruct (row_of y id); [apply appends_stuck|done]. Qed.

Lemma passes_grow id Es y : grows (tables_of y) (tables_of (foldl (stuck_pass id) y Es)).
Proof.
  revert y. induction Es as [|E Es IH]; intros y; [done|]. cbn [foldl].
  etrans; [apply stuck_pass_grows|apply IH].
Qed.

Lemma passes_settle id Es r y :
  row_of y id = Some r → recoverable r → 0 <= recovery_attempts r →
  Es ≠ [] → 4 <= recovery_attempts r + Z.of_nat (length Es) →
  (∀ E n x, E ∈ Es → x ∈ table y → t_TransactionID x ≠ gen (s_exec E) "txn" n) →
  recorded_ref (foldl (stuck_pass id) y Es) (t_Reference r +:+ "_q").
Proof.
  revert r y. induction Es as [|E Es IH]; intros r y Hr Hrec Hatt Hne Hlen Hfresh; [done|].
  cbn [foldl].
  destruct (stuck_pass_outcome id y E r Hr Hrec Hatt) as [Hd|(Ha & r' & m & Hr' & Hrec' & Ha' & Href & Ht)].
  { intros n x. apply Hfresh. by left. }
  { eapply recorded_ref_grows; [apply passes_grow|exact Hd]. }
  rewrite <- Href. apply IH; try done.
  - lia.
  - intros ->. simpl in Hlen. lia.
  - cbn [length] in Hlen. lia.
  - intros E' n x HE Hx. rewrite Ht in Hx. apply list_elem_of_fmap in Hx as (x0 & -> & Hx0).
    assert (Hi : t_TransactionID (merge_metadata id m x0) = t_TransactionID x0)
      by (unfold merge_metadata; by destruct (_ || _)).
    rewrite Hi. apply Hfresh; [by right|done].
Qed.


(** Rows of an atomic group with a rejected sibling are skipped without
    counting an attempt, so they take their place in every later pass. *)
Lemma rejected_group_never_leaves E threshold y :
  (∀ t, t ∈ GetStuckQueuedTransactions (w_db (q_core (s_world y))) (now (s_exec E) - threshold)
              recoveryBatchSize →
     let t := restoreTransactionFlagsFromMetadata (Balances.ApplyPrecision t).2 in
     t_Atomic t = true ∧ recovery_attempts t < 3
     ∧ rejected_sibling (w_db (q_core (s_world y))) t = true) →
  (recoverWithThreshold E threshold y).1 = y.
Proof.
  unfold recoverWithThreshold. cbv zeta.
  generalize (GetStuckQueuedTransactions (w_db (q_core (s_world y))) (now (s_exec E) - threshold)
                recoveryBatchSize). intros l Hl. unfold mbind, prog_bind.
  assert (Hp : process_stuck E (map (λ t, (Balances.ApplyPrecision t).2) l) y = (y, Ok tt)).
  { induction l as [|t l IH]; [done|]. cbn [map process_stuck].
    destruct (Hl t ltac:(by left)) as (Ha & Hn & Hs).
    unfold processStuckTransaction. cbv zeta. unfold maxRecoveryAttempts.
    rewrite Ha, Hs, (proj2 (Z.ltb_ge _ _)) by lia. cbn [andb].
    apply IH. intros x Hx. apply Hl. by right. }
  by rewrite Hp.
Qed.
End recovery.

(** ** Every call the service takes *)

Inductive call :=
| CallQueue (t : Transaction)
| CallBulk (req : BulkTransactionRequest)
| CallRefund (id : string) (skipQueue : bool)
| CallReject (t : Transaction) (reason : string)
| CallInflight (o : Inflight.op)
| RunJob (i : nat)
| RunTask (hotTask : bool) (retryCount : Z) (t : Transaction)
| RunRecovery (threshold : Z).

Section calls.
Context `{Decimal, MapIter, Asynq}.

Definition run_call (E : wenv) (c : call) (y : sys) : sys :=
  let S := w_senv E in
  match c with
  | CallQueue t => (QueueTransaction 2 S (y, t)).1.1
  | CallBulk req => (CreateBulkTransactions S req y).1
  | CallRefund id skipQueue => (RefundTransaction S id skipQueue y).1
  | CallReject t reason => (RejectTransaction S t reason y).1
  | CallInflight o => (inq (run_op (s_ienv S) o) y).1
  | RunJob i => (run_nth_job S i y).1
  | RunTask hotTask retryCount t => (processTransaction E hotTask retryCount t y).1
  | RunRecovery threshold => (RecoverQueuedTransactions S threshold y).1
  end.

Lemma owned_fst `{HasTables W} (p : W * Transaction) : tables_of p = tables_of p.1.
Proof. done. Qed.

Lemma appends_on_world Q force t y :
  grows (tables_of y) (tables_of (on_world (tryRecordQueuedTransactionBatch Q force t) y).1).
Proof.
  destruct (on_world (tryRecordQueuedTransactionBatch Q force t) y) as [y1 [h t1]] eqn:E.
  by apply on_world_batch in E as (_ & Hg & _).
Qed.

Lemma appends_processTransaction E hot retry t : appends (processTransaction E hot retry t).
Proof.
  intros y. unfold processTransaction. cbv zeta.
  pose proof (appends_on_world (s_batch (w_senv E)) false t y) as G1.
  unfold TryRecordQueuedTransactionBatch, TryRecordQueuedTransactionBatchForHotLane.
  destruct (on_world _ y) as [y1 [h1 t1]]. cbn [fst] in G1.
  assert (G2 : ∃ y2 h2 t2, (if EnableHotLane (s_queue (w_senv E)) && hot
      then on_world (tryRecordQueuedTransactionBatch (s_batch (w_senv E)) true t1) y1
      else (y1, (h1, t1))) = (y2, (h2, t2)) ∧ grows (tables_of y) (tables_of y2)).
  { destruct (_ && hot); [|by eexists _, _, _].
    pose proof (appends_on_world (s_batch (w_senv E)) true t1 y1) as G2.
    destruct (on_world _ y1) as [y2 [h2 t2]]. eexists _, _, _. split; [done|].
    etrans; [exact G1|exact G2]. }
  destruct G2 as (y2 & h2 & t2 & -> & G2). destruct h2; [exact G2|].
  pose proof (appends_inc _ (appends_ProcessQueued (s_batch (w_senv E)) t2
    (EnableHotLane (s_queue (w_senv E)) && hot)) y2) as G3.
  destruct (inc _ y2) as [y3 [x|e]]; cbn [fst] in G3; [by etrans|].
  destruct (classify E retry e); [by etrans| |by etrans].
  etrans; [exact G2|]. etrans; [exact G3|].
  set (t4 := left_by_process _ _ _ _). revert y3 G3.
  assert (Ha : appends (handleTransactionRejection E t4 e)).
  { unfold handleTransactionRejection. apply appends_bind; [apply appends_RejectTransaction|].
    intros _. destruct (webhook_fault E); [apply appends_raise|apply appends_ret]. }
  intros y3 _. apply Ha.
Qed.

(** One call only adds. *)
Lemma run_call_grows E c y : grows (tables_of y) (tables_of (run_call E c y)).
Proof.
  destruct c; unfold run_call; cbv zeta.
  - pose proof (appends_QueueTransaction 2 (w_senv E) (y, t)) as Hq. by rewrite !owned_fst in Hq.
  - apply appends_CreateBulkTransactions.
  - apply appends_RefundTransaction.
  - apply appends_RejectTransaction.
  - apply (appends_inq _ (closed_op (λ A, @appends qworld _ A) (s_ienv (w_senv E)) o appends_closed)).
  - apply appends_run_nth_job.
  - apply appends_processTransaction.
  - apply appends_recover.
Qed.

(** C4. The transaction table is an append-only log with unique references.
    Whatever sequence of calls the service takes (accepting, splitting and
    bulk-accepting transactions, refunds, rejections, inflight actions,
    background goroutines, worker deliveries in any order and number, recovery
    passes), under whatever configuration, clock and failures, the rows recorded
    before are still there, in their order, with nothing but metadata changed;
    rows are added at the end only; and references that were unique stay
    unique, so a queue copy is recorded at most once.  The lineage outbox grows
    the same way: its entries stay as they are, new ones are pending and
    unattempted, and entry ids stay unique. *)
Theorem service_appends calls y :
  grows (tables_of y) (tables_of (foldl (λ y c, run_call c.1 c.2 y) y calls)).
Proof.
  revert y. induction calls as [|[E c] calls IH]; intros y; [done|]. cbn [foldl fst snd].
  etrans; [apply run_call_grows|apply IH].
Qed.
End calls.

(** ** Concrete runs *)

Definition ex_wenv_of (E : env) : wenv :=
  mkWEnv (mkSEnv (mkQEnv E false 0 false None (λ _, None)) TaskQueue.ex_config 100 100 1 (λ _, true))
    false 3 false None.
Definition ex_wenv : wenv := ex_wenv_of Ledger.ex_env.

(** A payment of 300 out of the 500 deposited, as the worker gets it. *)
Definition ex_payment (ref source : string) : Transaction :=
  empty_transaction <| t_TransactionID := "txn_p" |> <| t_Reference := ref |>
    <| t_Source := source |> <| t_Destination := "@carol" |> <| t_Currency := "USD" |>
    <| t_PreciseAmount := Some 300 |> <| t_Precision := Float64.of_Z 100 |>
    <| t_Status := StatusQueued |>.


(** A queued row whose payer has no funds: three replays fail, the fourth pass
    rejects it. *)
Definition ex_stuck_row : Transaction :=
  stored_row ((ex_payment "pay" "@alice") <| t_TransactionID := "row_p" |> <| t_AmountString := "3" |>).
Definition ex_stuck : sys :=
  mkSys (mkQ (mkWorld (empty_db <| db_transactions := [ex_stuck_row] |>) ∅ 0) no_tasks) [].
Definition ex_passes : list senv := replicate 4 (w_senv ex_wenv).

Lemma ex_stuck_recoverable : recoverable ex_stuck_row.
Proof.
  split; [by exists 300|]. split; [reflexivity|]. split; [apply map_Forall_empty|].
  vm_compute. reflexivity.
Qed.


(** A payment is accepted, its job persists it, and a worker takes the copy. *)
Definition ex_queue_and_work (E : wenv) (ref source : string) (y : sys)
    : bool * list string :=
  let t := ex_payment ref source in
  let y := (run_job (w_senv E) (JQueue t [] ref "txn_p") y).1 in
  match last (table y) with
  | Some q =>
      let copy := q <| t_TransactionID := "txn_copy" |> <| t_ParentTransaction := t_TransactionID q |>
                    <| t_Reference := ref +:+ "_q" |> in
      let '(y, r) := processTransaction E false 0 copy y in (is_ok r, map t_Status (table y))
  | None => (false, [])
  end.

Definition ex_checking : env :=
  mkEnv true 1800 0 1000 (λ m n, m +:+ "_" +:+ Z_to_string (Z.of_nat n)) (λ _, None)
    (Lock.mkEnvironment (λ _, 0) (λ _, false) (λ _, Lock.no_faults) (λ _ s, s))
    None (λ _ _, None).

(** With queued checks on, a queued payment also counts against itself: its row
    is still open while the worker checks the funds of its copy, so 300 out of
    500 is rejected; with the checks off it is settled. *)
Lemma queued_payment_counts_against_itself :
  ex_queue_and_work (ex_wenv_of ex_checking) "pay" "@alice" ex_settled
  = (true, [StatusApplied; StatusQueued; StatusRejected])
  ∧ ex_queue_and_work ex_wenv "pay" "@alice" ex_settled
    = (true, [StatusApplied; StatusQueued; StatusApplied]).
Proof. split; vm_compute; reflexivity. Qed.

(** A client reference that ends in _q stands in the way of another payment's
    queue copy: the copy is acknowledged as a duplicate and never settled. *)
Lemma client_reference_hides_queue_copy :
  let y := (inc (RecordTransaction Ledger.ex_env
              ((ex_payment "pay_q" "@alice") <| t_TransactionID := "txn_o" |>)) ex_settled).1 in
  map t_Status (table y) = [StatusApplied; StatusApplied]
  ∧ ex_queue_and_work ex_wenv "pay" "@alice" y
    = (true, [StatusApplied; StatusApplied; StatusQueued]).
Proof. split; vm_compute; reflexivity. Qed.

End Workers.
