(* ===== verification/Lineage.v ===== *)
(** * Fund lineage (lineage_*.go, database/lineage.go)

    A balance that tracks fund lineage remembers which provider's money it
    holds.  For each provider there is a shadow balance, and for each identity
    an aggregate balance: a credit moves the amount from the provider's shadow
    to the aggregate, a debit is allocated over the shadows and moved back.
    The postings are made after the fact: the ledger writes an outbox entry
    together with the transaction, and the outbox worker claims entries, posts
    the shadow transactions and retries what failed. *)

From S2P Require Import Prelude Float64 Decimal Types Time Balances Distributions Datastore Lock.
From S2P Require Import HotPairs Execution Ledger TaskQueue Inflight Coalescing Queueing Workers.

Module Lineage.

Import Datastore Execution TaskQueue Inflight Coalescing Queueing Workers.

(** ** Allocation *)

Record LineageSource := mkSource {
  ls_BalanceID : string;
  ls_Balance : Z;
  ls_CreatedAt : time;
}.

Record Allocation := mkAllocation { al_BalanceID : string; al_Amount : Z }.

Definition AllocationLIFO : string := "LIFO".
Definition AllocationProp : string := "PROPORTIONAL".

(** [big.Int.Div]: Euclidean division. *)
Definition big_div (x y : Z) : Z := Z.sgn y * (x / Z.abs y).

(** The loop of [sequentialAllocation]. *)
Fixpoint take_in_turn (sources : list LineageSource) (remaining : Z) : list Allocation :=
  match sources with
  | [] => []
  | s :: sources =>
      if remaining <=? 0 then []
      else
        let alloc := if remaining <=? ls_Balance s then remaining else ls_Balance s in
        if alloc <=? 0 then take_in_turn sources remaining
        else mkAllocation (ls_BalanceID s) alloc :: take_in_turn sources (remaining - alloc)
  end.

Definition sequentialAllocation (sources : list LineageSource) (amount : Z) : list Allocation :=
  if amount <=? 0 then [] else take_in_turn sources amount.

(** The loop of [proportionalAllocation]: the last source takes what is left. *)
Fixpoint share_out (effectiveAmount total : Z) (sources : list LineageSource) (remaining : Z)
    : list Allocation :=
  match sources with
  | [] => []
  | s :: sources =>
      let alloc := match sources with
                   | [] => remaining
                   | _ => big_div (effectiveAmount * ls_Balance s) total
                   end in
      let alloc := if ls_Balance s <? alloc then ls_Balance s else alloc in
      if alloc <=? 0 then share_out effectiveAmount total sources remaining
      else mkAllocation (ls_BalanceID s) alloc
           :: share_out effectiveAmount total sources (remaining - alloc)
  end.

Definition proportionalAllocation (sources : list LineageSource) (amount : Z) : list Allocation :=
  if amount <=? 0 then []
  else
    let total := sumZ ls_Balance sources in
    if total =? 0 then []
    else
      let effectiveAmount := if total <? amount then total else amount in
      share_out effectiveAmount total sources effectiveAmount.

(** [sort.Slice] is not stable; sources of the same age are taken in an order
    that the code leaves open, here the order of the mappings. *)
Definition in_order (strategy : string) (sources : list LineageSource) : list LineageSource :=
  if String.eqb strategy AllocationLIFO then order_desc ls_CreatedAt sources
  else if String.eqb strategy AllocationProp then sources
  else order_asc ls_CreatedAt sources.

Definition calculateAllocation (sources : list LineageSource) (amount : Z) (strategy : string)
    : list Allocation :=
  match sources with
  | [] => []
  | _ =>
      if String.eqb strategy AllocationProp then proportionalAllocation sources amount
      else sequentialAllocation (in_order strategy sources) amount
  end.

(** What is left of a shadow balance. *)
Definition source_of (balances : gmap string Balance) (m : LineageMapping) : list LineageSource :=
  match balances !! lm_ShadowBalanceID m with
  | None => []
  | Some b =>
      match b_DebitBalance b, b_CreditBalance b with
      | Some debit, Some credit =>
          if (0 <? debit) && (0 <? debit - credit)
          then [mkSource (lm_ShadowBalanceID m) (debit - credit) (lm_CreatedAt m)] else []
      | _, _ => []
      end
  end.

Definition lineage_sources (balances : gmap string Balance) (mappings : list LineageMapping)
    : list LineageSource :=
  flat_map (source_of balances) mappings.

Definition getLineageSources (d : db) (mappings : list LineageMapping) : list LineageSource :=
  lineage_sources (GetBalancesByIDsLite d (map lm_ShadowBalanceID mappings)) mappings.

Definition findMappingByShadowID (mappings : list LineageMapping) (id : string)
    : option LineageMapping :=
  List.find (λ m, String.eqb (lm_ShadowBalanceID m) id) mappings.

(** The amount as the JSON number it is read back as. *)
Definition buildFundAllocationList (allocations : list Allocation) (mappings : list LineageMapping)
    : list metaval :=
  flat_map (λ a,
    match findMappingByShadowID mappings (al_BalanceID a) with
    | Some m => [MObj [("provider", MStr (lm_Provider m));
                       ("amount", MNum (Float64.of_Z (al_Amount a)))]]
    | None => []
    end) allocations.

(** ** Identities *)

(** The fields of [model.Identity] that name a lineage balance. *)
Record Identity := mkIdentity {
  id_IdentityID : string;
  id_FirstName : string;
  id_LastName : string;
  id_OrganizationName : string;
}.

(** [strings.ReplaceAll(s, " ", "_")]. *)
Definition underscore (s : string) : string :=
  string_map (λ c, if Ascii.eqb c " " then "_"%char else c) s.

Definition getIdentityIdentifier (i : Identity) : string :=
  let id := id_IdentityID i in
  let idPart := if Nat.ltb 8 (String.length id) then String.substring 0 8 id else id in
  if negb (String.eqb (id_FirstName i) "") && negb (String.eqb (id_LastName i) "")
  then to_lower (id_FirstName i +:+ "_" +:+ id_LastName i) +:+ "_" +:+ idPart
  else if negb (String.eqb (id_OrganizationName i) "")
  then to_lower (underscore (id_OrganizationName i)) +:+ "_" +:+ idPart
  else id.

Definition shadow_indicator (provider identifier : string) : string :=
  "@" +:+ provider +:+ "_" +:+ identifier +:+ "_lineage".
Definition aggregate_indicator (identifier : string) : string := "@" +:+ identifier +:+ "_lineage".

Definition releaseReference (parentRef provider : string) : string :=
  parentRef +:+ "_release_" +:+ provider.
Definition receiveReference (parentRef provider : string) : string :=
  parentRef +:+ "_receive_" +:+ provider.

(** ** The stores

    [blnk.lineage_mappings] and the identities join the stores of the service;
    the outbox is a table of [Datastore.db]. *)

Record lenv := mkLEnv {
  l_senv : senv;
  batchSize : nat;
  lockDuration : Z;
  lineage_faults : Lock.faults;              (* Redis, when taking the lineage locks *)
  mark_fault : Z → option error;             (* the statement that marks an entry *)
}.
Definition l_exec (E : lenv) : env := s_exec (l_senv E).

Record lsys `{Asynq} := mkL {
  l_sys : sys;
  l_mappings : list LineageMapping;
  l_identities : gmap string Identity;
}.
Arguments mkL {_} _ _ _.

Definition next_mapping_id (l : list LineageMapping) : Z :=
  1 + foldr (λ m k, Z.max (lm_ID m) k) 0 l.

Definition same_key (m m' : LineageMapping) : bool :=
  String.eqb (lm_BalanceID m) (lm_BalanceID m') && String.eqb (lm_Provider m) (lm_Provider m').

(** INSERT ... ON CONFLICT (balance_id, provider) DO UPDATE. *)
Definition upsert_mapping (l : list LineageMapping) (m : LineageMapping) (now : time)
    : list LineageMapping :=
  if existsb (same_key m) l
  then map (λ r, if same_key m r
                 then mkLineageMapping (lm_ID r) (lm_BalanceID r) (lm_Provider r)
                        (lm_ShadowBalanceID m) (lm_AggregateBalanceID m) (lm_IdentityID r)
                        (lm_CreatedAt r)
                 else r) l
  else l ++ [mkLineageMapping (next_mapping_id l) (lm_BalanceID m) (lm_Provider m)
               (lm_ShadowBalanceID m) (lm_AggregateBalanceID m) (lm_IdentityID m) now].

Section lineage.
Context `{Decimal, MapIter, Asynq}.

Abbreviation S := (prog sys).
Abbreviation L := (prog lsys).

Definition ins {A} (m : S A) : L A := λ y,
  let '(s, r) := m (l_sys y) in (mkL s (l_mappings y) (l_identities y), r).
(** Programs over the ledger, and reads of the database. *)
Definition inl {A} (m : M A) : L A := ins (inc m).
Definition lread {A} (f : db → result A) : L A := inl (read f).

Definition l_db (y : lsys) : db := w_db (q_core (s_world (l_sys y))).

(** *** database/lineage.go *)

Definition foreign_keys_ok (y : lsys) (m : LineageMapping) : bool :=
  bool_decide (is_Some (db_balances (l_db y) !! lm_BalanceID m))
  && bool_decide (is_Some (db_balances (l_db y) !! lm_ShadowBalanceID m))
  && bool_decide (is_Some (db_balances (l_db y) !! lm_AggregateBalanceID m))
  && bool_decide (is_Some (l_identities y !! lm_IdentityID m)).

Definition UpsertLineageMapping (E : lenv) (m : LineageMapping) : L unit := λ y,
  if foreign_keys_ok y m
  then (mkL (l_sys y) (upsert_mapping (l_mappings y) m (now (l_exec E))) (l_identities y), Ok tt)
  else (y, Err (EAPI "BAD_REQUEST" "Invalid balance or identity ID")).

Definition GetLineageMappings (y : lsys) (balanceID : string) : list LineageMapping :=
  order_asc lm_CreatedAt
    (List.filter (λ m, String.eqb (lm_BalanceID m) balanceID) (l_mappings y)).

Definition GetLineageMappingByProvider (y : lsys) (balanceID provider : string)
    : option LineageMapping :=
  List.find (λ m, String.eqb (lm_BalanceID m) balanceID && String.eqb (lm_Provider m) provider)
    (l_mappings y).

Definition DeleteLineageMapping (id : Z) : L unit := λ y,
  if existsb (λ m, lm_ID m =? id) (l_mappings y)
  then (mkL (l_sys y) (List.filter (λ m, negb (lm_ID m =? id)) (l_mappings y)) (l_identities y), Ok tt)
  else (y, Err (EAPI "NOT_FOUND" "Lineage mapping not found")).

Definition GetIdentityByID (id : string) : L Identity := λ y,
  (y, match l_identities y !! id with
      | Some i => Ok i
      | None => Err (EAPI "NOT_FOUND" ("Identity with ID '" +:+ id +:+ "' not found"))
      end).

Definition HasPendingCreditOutbox (d : db) (balanceID : string) : bool :=
  existsb (λ o, String.eqb (o_DestinationBalanceID o) balanceID
                && (String.eqb (o_LineageType o) "credit" || String.eqb (o_LineageType o) "both")
                && (String.eqb (o_Status o) "pending" || String.eqb (o_Status o) "processing"))
    (db_outbox d).

Definition GetOutboxByTransactionID (d : db) (id : string) : option LineageOutbox :=
  List.find (λ o, String.eqb (o_TransactionID o) id) (db_outbox d).

(** *** Locks *)

Definition lineage_key (id : string) : string := "lineage:" +:+ id.

Definition acquireLineageLocks (E : lenv) (balanceIDs : list string) : L Lock.MultiLocker :=
  v ← inl (fresh_id (l_exec E) "loc");
  let locker := Lock.NewMultiLocker (map lineage_key balanceIDs) v in
  inl (λ w,
    match Lock.Lock (now (l_exec E)) (lineage_faults E) locker (LockDuration (l_exec E)) (w_redis w) with
    | (None, s) => (w <| w_redis := s |>, Ok locker)
    | (Some e, s) => (w <| w_redis := s |>, Err (EWrap "failed to acquire lineage locks" e))
    end).

Definition with_lineage_release {A} (E : lenv) (locker : Lock.MultiLocker) (body : L A) : L A := λ y,
  let '(y, r) := body y in
  let '(y, _) := inl (releaseLock (l_exec E) locker) y in
  (y, r).

(** [_, err := l.QueueTransaction(ctx, txn)] on a transaction of its own. *)
Definition queue_own (E : lenv) (t : Transaction) : L unit :=
  ins (with_txn t (QueueTransaction 3 (l_senv E))).

(** Arithmetic on a nil [*big.Int] panics. *)
Definition deref (p : option Z) : L Z :=
  match p with Some z => mret z | None => raise (EPanic "nil pointer dereference") end.

(** A failure that is only logged. *)
Definition log_failure (m : L unit) : L unit := λ y,
  match m y with
  | (y, Err e) => (y, if is_panic e then Err e else Ok tt)
  | r => r
  end.

(** *** Lineage balances *)

Definition lineage_balances (E : lenv) (identityID provider currency : string)
    (no_identity no_shadow no_aggregate : string) : L (Balance * Balance) :=
  identity ← ctx_err no_identity (GetIdentityByID identityID);
  let identifier := getIdentityIdentifier identity in
  shadow ← ctx_err no_shadow
    (inl (getOrCreateBalanceByIndicator (l_exec E) (shadow_indicator provider identifier) currency));
  aggregate ← ctx_err no_aggregate
    (inl (getOrCreateBalanceByIndicator (l_exec E) (aggregate_indicator identifier) currency));
  mret (shadow, aggregate).

Definition getOrCreateLineageBalances (E : lenv) (identityID provider currency : string)
    : L (Balance * Balance) :=
  lineage_balances E identityID provider currency ("failed to get identity " +:+ identityID)
    "failed to get/create shadow balance" "failed to get/create aggregate balance".

Definition getOrCreateDestinationLineageBalances (E : lenv) (provider : string) (destination : Balance)
    : L (Balance * Balance) :=
  lineage_balances E (b_IdentityID destination) provider (b_Currency destination)
    "failed to get destination identity" "failed to create destination shadow balance"
    "failed to create destination aggregate balance".

(** *** Credit *)

(** The common part of the transactions lineage posts. *)
Definition shadow_posting (t : Transaction) (source destination currency reference description : string)
    (amount : option Z) (overdraft : bool) (m : metadata) : Transaction :=
  empty_transaction
    <| t_Source := source |> <| t_Destination := destination |> <| t_PreciseAmount := amount |>
    <| t_Currency := currency |> <| t_Precision := t_Precision t |> <| t_Reference := reference |>
    <| t_Description := description |> <| t_MetaData := m |> <| t_AllowOverdraft := overdraft |>
    <| t_SkipQueue := true |> <| t_Inflight := t_Inflight t |>.

Definition shadow_credit (t : Transaction) (amount : Z) (dest : Balance) (provider : string)
    (shadow aggregate : Balance) (identityID : string) : Transaction :=
  (shadow_posting t (b_BalanceID shadow) (b_BalanceID aggregate) (b_Currency dest)
    (t_Reference t +:+ "_shadow_" +:+ provider) ("Shadow credit from " +:+ provider)
    (Some amount) true
    (list_to_map [("_shadow_for", MStr (t_TransactionID t)); ("_provider", MStr provider);
                  ("_identity_id", MStr identityID); ("_lineage_type", MStr "credit");
                  ("_main_balance", MStr (b_BalanceID dest))]))
  <| t_Amount := t_Amount t |>.

Definition queueShadowCreditTransaction (E : lenv) (t : Transaction) (dest : Balance)
    (provider : string) (shadow aggregate : Balance) (identityID : string) : L unit :=
  amount ← deref (t_PreciseAmount t);
  ctx_err "failed to queue shadow credit transaction"
    (queue_own E (shadow_credit t amount dest provider shadow aggregate identityID)).

Definition upsertCreditLineageMapping (E : lenv) (dest : Balance) (provider : string)
    (shadow aggregate : Balance) (identityID : string) : L unit :=
  ctx_err "failed to upsert lineage mapping"
    (UpsertLineageMapping E (mkLineageMapping 0 (b_BalanceID dest) provider (b_BalanceID shadow)
                               (b_BalanceID aggregate) identityID 0)).

(** A failed upsert of the mapping is only logged. *)
Definition processLineageCredit (E : lenv) (t : Transaction) (dest : Balance) (provider : string)
    : L unit :=
  let identityID := b_IdentityID dest in
  if String.eqb identityID "" then
    raise (ENew ("destination balance " +:+ b_BalanceID dest
                 +:+ " has no identity_id for lineage tracking"))
  else
    '(shadow, aggregate) ← getOrCreateLineageBalances E identityID provider (t_Currency t);
    locker ← acquireLineageLocks E [b_BalanceID shadow; b_BalanceID aggregate];
    with_lineage_release E locker (
      _ ← queueShadowCreditTransaction E t dest provider shadow aggregate identityID;
      log_failure (upsertCreditLineageMapping E dest provider shadow aggregate identityID)).

(** *** Debit *)

(** What earlier attempts have released for the transaction. *)
Fixpoint prior_releases (reference : string) (mappings : list LineageMapping) : L Z :=
  match mappings with
  | [] => mret 0
  | m :: mappings =>
      let ref := releaseReference reference (lm_Provider m) in
      exists_ ← lread (λ d, Ok (TransactionExistsByRef d ref));
      here ← (if exists_ : bool then
                prior ← ctx_err ("failed to load prior release " +:+ ref)
                          (lread (λ d, GetTransactionByRef d ref));
                deref (t_PreciseAmount prior)
              else mret 0);
      rest ← prior_releases reference mappings;
      mret (here + rest)
  end.

Definition remainingDebitAmount (t : Transaction) (mappings : list LineageMapping) : L Z :=
  released ← prior_releases (t_Reference t) mappings;
  amount ← deref (t_PreciseAmount t);
  mret (amount - released).

Abbreviation dest_balances := (gmap string (Balance * Balance)).

Fixpoint prepareDestinationLineageBalances (E : lenv) (mappings : list LineageMapping)
    (destination : Balance) : L dest_balances :=
  match mappings with
  | [] => mret ∅
  | m :: mappings =>
      info ← ctx_err ("failed to prepare destination lineage for provider " +:+ lm_Provider m)
               (getOrCreateDestinationLineageBalances E (lm_Provider m) destination);
      rest ← prepareDestinationLineageBalances E mappings destination;
      mret (match rest !! lm_Provider m with
            | Some _ => rest                     (* a later mapping overwrites *)
            | None => <[lm_Provider m := info]> rest
            end)
  end.

Definition getSourceAggregateBalance (E : lenv) (source : Balance) : L Balance :=
  identity ← ctx_err "failed to get source identity" (GetIdentityByID (b_IdentityID source));
  ctx_err "failed to get source aggregate balance"
    (inl (getOrCreateBalanceByIndicator (l_exec E)
            (aggregate_indicator (getIdentityIdentifier identity)) (b_Currency source))).

Definition release_txn (t : Transaction) (a : Allocation) (m : LineageMapping)
    (source aggregate : Balance) : Transaction :=
  shadow_posting t (b_BalanceID aggregate) (al_BalanceID a) (b_Currency source)
    (releaseReference (t_Reference t) (lm_Provider m)) ("Release " +:+ lm_Provider m +:+ " funds")
    (Some (al_Amount a)) false
    (list_to_map [("_shadow_for", MStr (t_TransactionID t)); ("_provider", MStr (lm_Provider m));
                  ("_lineage_type", MStr "release"); ("_main_balance", MStr (b_BalanceID source));
                  ("_allocation", MStr (b_AllocationStrategy source))]).

Definition queueReleaseTransaction (E : lenv) (t : Transaction) (a : Allocation)
    (m : LineageMapping) (source aggregate : Balance) : L unit :=
  queue_own E (release_txn t a m source aggregate).

Definition receive_txn (t : Transaction) (a : Allocation) (m : LineageMapping)
    (source destination shadow aggregate : Balance) : Transaction :=
  shadow_posting t (b_BalanceID shadow) (b_BalanceID aggregate) (b_Currency destination)
    (receiveReference (t_Reference t) (lm_Provider m)) ("Receive " +:+ lm_Provider m +:+ " funds")
    (Some (al_Amount a)) true
    (list_to_map [("_shadow_for", MStr (t_TransactionID t)); ("_provider", MStr (lm_Provider m));
                  ("_lineage_type", MStr "receive"); ("_main_balance", MStr (b_BalanceID destination));
                  ("_from_balance", MStr (b_BalanceID source))]).

Definition queueReceiveTransaction (E : lenv) (t : Transaction) (a : Allocation)
    (m : LineageMapping) (source destination shadow aggregate : Balance) : L unit :=
  queue_own E (receive_txn t a m source destination shadow aggregate).

Definition tracks_for_identity (b : Balance) : bool :=
  b_TrackFundLineage b && negb (String.eqb (b_IdentityID b) "").

Definition processDestinationLineage (E : lenv) (t : Transaction) (a : Allocation)
    (m : LineageMapping) (source : Balance) (destination : option Balance)
    (prepared : option dest_balances) : L unit :=
  match destination, prepared with
  | Some dest, Some infos =>
      if negb (tracks_for_identity dest) then mret tt
      else
        match infos !! lm_Provider m with
        | None => mret tt
        | Some (shadow, aggregate) =>
            _ ← ctx_err "failed to queue receive transaction"
                  (queueReceiveTransaction E t a m source dest shadow aggregate);
            ctx_err "failed to upsert destination lineage mapping"
              (UpsertLineageMapping E
                 (mkLineageMapping 0 (b_BalanceID dest) (lm_Provider m) (b_BalanceID shadow)
                    (b_BalanceID aggregate) (b_IdentityID dest) 0))
        end
  | _, _ => mret tt
  end.

Fixpoint processAllocations (E : lenv) (t : Transaction) (allocations : list Allocation)
    (mappings : list LineageMapping) (source : Balance) (destination : option Balance)
    (aggregate : Balance) (prepared : option dest_balances) : L unit :=
  match allocations with
  | [] => mret tt
  | a :: allocations =>
      _ ← (if al_Amount a =? 0 then mret tt
           else
             match findMappingByShadowID mappings (al_BalanceID a) with
             | None => mret tt
             | Some m =>
                 exists_ ← lread (λ d, Ok (TransactionExistsByRef d
                                             (releaseReference (t_Reference t) (lm_Provider m))));
                 if exists_ : bool then mret tt
                 else
                   _ ← ctx_err "failed to queue release transaction"
                         (queueReleaseTransaction E t a m source aggregate);
                   ctx_err "failed to process destination lineage"
                     (processDestinationLineage E t a m source destination prepared)
             end);
      processAllocations E t allocations mappings source destination aggregate prepared
  end.

(** A failed update is only logged. *)
Definition updateFundAllocationMetadata (t : Transaction) (allocations : list Allocation)
    (mappings : list LineageMapping) : L unit :=
  match buildFundAllocationList allocations mappings with
  | [] => mret tt
  | l =>
      log_failure (inl (write (λ d,
        d ← UpdateTransactionMetadata d (t_TransactionID t) {["BLNK_FUND_ALLOCATION" := MList l]};
        mret (d, tt))))
  end.

(** The destination's balances when it tracks lineage; a failure is logged. *)
Definition prepare_destination (E : lenv) (mappings : list LineageMapping)
    (destination : option Balance) : L (option dest_balances) :=
  match destination with
  | Some dest =>
      if tracks_for_identity dest then λ y,
        match prepareDestinationLineageBalances E mappings dest y with
        | (y, Ok infos) => (y, Ok (Some infos))
        | (y, Err e) => (y, if is_panic e then Err e else Ok None)
        end
      else mret None
  | None => mret None
  end.

Definition prepared_keys (prepared : option dest_balances) : list string :=
  match prepared with
  | Some infos => flat_map (λ kv, [b_BalanceID kv.2.1; b_BalanceID kv.2.2]) (map_to_list infos)
  | None => []
  end.

(** The part of a debit that runs under the locks. *)
Definition debit_locked (E : lenv) (t : Transaction) (mappings : list LineageMapping)
    (source : Balance) (destination : option Balance) (prepared : option dest_balances) : L unit :=
  sources ← lread (λ d, Ok (getLineageSources d mappings));
  remaining ← remainingDebitAmount t mappings;
  if remaining <=? 0 then mret tt
  else
    let allocations := calculateAllocation sources remaining (b_AllocationStrategy source) in
    aggregate ← getSourceAggregateBalance E source;
    _ ← processAllocations E t allocations mappings source destination aggregate prepared;
    updateFundAllocationMetadata t allocations mappings.

Definition processLineageDebit (E : lenv) (t : Transaction) (source : Balance)
    (destination : option Balance) : L unit := λ y,
  match GetLineageMappings y (b_BalanceID source) with
  | [] =>
      if HasPendingCreditOutbox (l_db y) (b_BalanceID source)
      then (y, Err (ENew ("pending credit outbox entries exist for balance " +:+ b_BalanceID source
                          +:+ ", retry later")))
      else (y, Ok tt)
  | (m :: _) as mappings =>
      (prepared ← prepare_destination E mappings destination;
       locker ← acquireLineageLocks E
         (map lm_ShadowBalanceID mappings ++ [lm_AggregateBalanceID m] ++ prepared_keys prepared);
       with_lineage_release E locker (debit_locked E t mappings source destination prepared)) y
  end.

(** *** Processing a transaction *)

(** A provider the source does not hold is ignored. *)
Definition validateLineageProvider (y : lsys) (provider : string) (source : option Balance) : string :=
  if String.eqb provider "" then ""
  else
    match source with
    | Some s =>
        if b_TrackFundLineage s then
          match GetLineageMappingByProvider y (b_BalanceID s) provider with
          | Some _ => provider
          | None => ""
          end
        else provider
    | None => provider
    end.

(** The credit runs first: the debit allocates from what it creates. *)
Definition processLineage (E : lenv) (t : Transaction) (source destination : option Balance)
    : L unit := λ y,
  let provider := validateLineageProvider y (getLineageProvider t) source in
  (_ ← match destination with
       | Some dest =>
           if negb (String.eqb provider "") && b_TrackFundLineage dest
           then ctx_err "lineage credit processing failed" (processLineageCredit E t dest provider)
           else mret tt
       | None => mret tt
       end;
   match source with
   | Some s =>
       if b_TrackFundLineage s
       then ctx_err "lineage debit processing failed" (processLineageDebit E t s destination)
       else mret tt
   | None => mret tt
   end) y.

(** *** The outbox (lineage_outbox.go, lineage_worker.go) *)

Definition commitShadowTransactions (E : lenv) (parentID : string) : L unit :=
  ins (inq (all_shadows "commit"
    (λ s, CommitInflightTransaction (s_ienv (l_senv E)) (t_TransactionID s) (ival (t_PreciseAmount s)))
    parentID)).
Definition voidShadowTransactions (E : lenv) (parentID : string) : L unit :=
  ins (inq (all_shadows "void"
    (λ s, VoidInflightTransaction (s_ienv (l_senv E)) (t_TransactionID s)) parentID)).

(** [json.Unmarshal] of the payload of shadow work. *)
Definition shadow_parent (payload : metadata) : result string :=
  match payload !! "parent_transaction_id" with
  | Some (MStr "") | Some MNil | None =>
      Err (ENew "parent_transaction_id missing in shadow work payload")
  | Some (MStr id) => Ok id
  | Some _ => Err (EWrap "failed to unmarshal shadow work payload"
                     (ENew "json: cannot unmarshal value into Go struct field of type string"))
  end.

(** A balance that cannot be read is logged and taken as absent. *)
Definition outbox_balance (d : db) (id : string) : option Balance :=
  if String.eqb id "" then None
  else match GetBalanceByIDLite d id with Ok b => Some b | Err _ => None end.

Definition ProcessLineageFromOutbox (E : lenv) (o : LineageOutbox) : L unit :=
  if String.eqb (o_LineageType o) LineageTypeShadowCommit then
    parent ← lift (shadow_parent (o_Payload o));
    ctx_err "failed to commit shadow transactions" (commitShadowTransactions E parent)
  else if String.eqb (o_LineageType o) LineageTypeShadowVoid then
    parent ← lift (shadow_parent (o_Payload o));
    ctx_err "failed to void shadow transactions" (voidShadowTransactions E parent)
  else
    t ← ctx_err "failed to get transaction" (lread (λ d, GetTransaction d (o_TransactionID o)));
    let t := t <| t_Inflight := o_Inflight o |> in
    source ← lread (λ d, Ok (outbox_balance d (o_SourceBalanceID o)));
    destination ← lread (λ d, Ok (outbox_balance d (o_DestinationBalanceID o)));
    processLineage E t source destination.

Definition on_outbox (f : list LineageOutbox → list LineageOutbox) : L unit :=
  inl (λ w, (w <| w_db := (w_db w) <| db_outbox := f (db_outbox (w_db w)) |> |>, Ok tt)).

Definition claimable (now : time) (o : LineageOutbox) : bool :=
  (String.eqb (o_Status o) "pending" || String.eqb (o_Status o) "processing")
  && match o_LockedUntil o with None => true | Some u => u <? now end
  && (o_Attempts o <? o_MaxAttempts o).

Definition claim_one (until : time) (o : LineageOutbox) : LineageOutbox :=
  o <| o_Status := "processing" |> <| o_LockedUntil := Some until |>.

(** The oldest claimable entries, and the table in which they are locked. *)
Definition claimed (now : time) (size : nat) (l : list LineageOutbox) : list LineageOutbox :=
  take size (order_asc o_CreatedAt (List.filter (claimable now) l)).

Definition ClaimPendingOutboxEntries (E : lenv) : L (list LineageOutbox) := λ y,
  let nw := now (l_exec E) in
  let mine := claimed nw (batchSize E) (db_outbox (l_db y)) in
  let ids := map o_ID mine in
  let claim := claim_one (nw + lockDuration E) in
  (_ ← on_outbox (map (λ o, if bool_decide (o_ID o ∈ ids) then claim o else o));
   mret (map claim mine)) y.

Definition at_id (id : Z) (f : LineageOutbox → LineageOutbox) (l : list LineageOutbox)
    : list LineageOutbox :=
  map (λ o, if o_ID o =? id then f o else o) l.

Definition completed_entry (o : LineageOutbox) : LineageOutbox :=
  o <| o_Status := "completed" |> <| o_LockedUntil := None |>.
Definition failed_entry (msg : string) (o : LineageOutbox) : LineageOutbox :=
  o <| o_Status := (if o_MaxAttempts o <=? o_Attempts o + 1 then "failed" else "pending") |>
    <| o_Attempts := o_Attempts o + 1 |> <| o_LastError := msg |> <| o_LockedUntil := None |>.

Definition mark (E : lenv) (id : Z) (f : LineageOutbox → LineageOutbox) : L unit :=
  match mark_fault E id with
  | Some e => raise e
  | None => on_outbox (at_id id f)
  end.
Definition MarkOutboxCompleted (E : lenv) (id : Z) : L unit := mark E id completed_entry.
Definition MarkOutboxFailed (E : lenv) (id : Z) (msg : string) : L unit :=
  mark E id (failed_entry msg).

(** A panic ends the worker with the entry still claimed. *)
Definition process_one (process : LineageOutbox → L unit) (E : lenv) (o : LineageOutbox) : L unit := λ y,
  match process o y with
  | (y, Ok _) => log_failure (MarkOutboxCompleted E (o_ID o)) y
  | (y, Err e) =>
      if is_panic e then (y, Err e)
      else log_failure (MarkOutboxFailed E (o_ID o) (error_text e)) y
  end.

Fixpoint process_entries (process : LineageOutbox → L unit) (E : lenv) (entries : list LineageOutbox)
    : L unit :=
  match entries with
  | [] => mret tt
  | o :: entries => _ ← process_one process E o; process_entries process E entries
  end.

(** [processBatch] of the outbox worker. *)
Definition processBatch (E : lenv) : L unit :=
  entries ← ClaimPendingOutboxEntries E;
  process_entries (ProcessLineageFromOutbox E) E entries.

(** *** Queries (lineage_queries.go) *)

Record ProviderBreakdown := mkBreakdown {
  pb_Provider : string;
  pb_Amount : Z;
  pb_Available : Z;
  pb_Spent : Z;
  pb_BalanceID : string;
}.

Record BalanceLineage := mkBalanceLineage {
  bl_BalanceID : string;
  bl_TotalWithLineage : Z;
  bl_AggregateBalanceID : string;
  bl_Providers : list ProviderBreakdown;
}.

Definition calculateProviderBreakdown (d : db) (m : LineageMapping) : result ProviderBreakdown :=
  shadow ← GetBalanceByIDLite d (lm_ShadowBalanceID m);
  let debit := ival (b_DebitBalance shadow) in
  let credit := ival (b_CreditBalance shadow) in
  Ok (mkBreakdown (lm_Provider m) debit (debit - credit) credit (lm_ShadowBalanceID m)).

(** Providers whose shadow balance cannot be read are left out. *)
Fixpoint populateLineageProviders (d : db) (bl : BalanceLineage) (mappings : list LineageMapping)
    : BalanceLineage :=
  match mappings with
  | [] => bl
  | m :: mappings =>
      populateLineageProviders d
        (match calculateProviderBreakdown d m with
         | Err _ => bl
         | Ok p => mkBalanceLineage (bl_BalanceID bl) (bl_TotalWithLineage bl + pb_Available p)
                     (if String.eqb (bl_AggregateBalanceID bl) "" then lm_AggregateBalanceID m
                      else bl_AggregateBalanceID bl)
                     (bl_Providers bl ++ [p])
         end) mappings
  end.

Definition GetBalanceLineage (y : lsys) (balanceID : string) : result BalanceLineage :=
  b ← wrap_err "failed to get balance" (GetBalanceByID (l_db y) balanceID false);
  if negb (b_TrackFundLineage b)
  then Err (ENew ("balance " +:+ balanceID +:+ " does not have fund lineage tracking enabled"))
  else Ok (populateLineageProviders (l_db y) (mkBalanceLineage balanceID 0 "" [])
             (GetLineageMappings y balanceID)).

Definition extractFundAllocation (m : metadata) : list (list (string * metaval)) :=
  match m !! "BLNK_FUND_ALLOCATION" with
  | Some (MList l) => flat_map (λ v, match v with MObj o => [o] | _ => [] end) l
  | _ => []
  end.

Definition GetTransactionLineage (y : lsys) (id : string)
    : result (list (list (string * metaval)) * list Transaction) :=
  t ← wrap_err "failed to get transaction" (GetTransaction (l_db y) id);
  Ok (extractFundAllocation (t_MetaData t), GetTransactionsByShadowFor (l_db y) id).

End lineage.

(** ** Allocation is bounded, and complete but for rounding *)

Section allocation.

Definition drawn_from (s : LineageSource) (a : Allocation) : Prop :=
  al_BalanceID a = ls_BalanceID s ∧ 0 < al_Amount a <= ls_Balance s.

(** Every allocation has a source of its own, taken in order. *)
Definition drawn (sources : list LineageSource) (al : list Allocation) : Prop :=
  ∃ taken, sublist taken sources ∧ Forall2 drawn_from taken al.

Definition whole (s : LineageSource) : Allocation :=
  mkAllocation (ls_BalanceID s) (ls_Balance s).

Definition funded (sources : list LineageSource) : Prop := Forall (λ s, 0 < ls_Balance s) sources.

Lemma drawn_nil sources : drawn sources [].
Proof. exists []. split; [apply sublist_nil_l|constructor]. Qed.

Lemma drawn_skip s sources al : drawn sources al → drawn (s :: sources) al.
Proof. intros (t & Ht & Hf). exists t. split; [by apply sublist_cons|done]. Qed.

Lemma drawn_take s sources a al :
  drawn_from s a → drawn sources al → drawn (s :: sources) (a :: al).
Proof. intros Hs (t & Ht & Hf). exists (s :: t). split; [by apply sublist_skip|by constructor]. Qed.

Lemma sumZ_cons {A} (f : A → Z) x l : sumZ f (x :: l) = f x + sumZ f l.
Proof. done. Qed.

Lemma funded_sum sources : funded sources → 0 <= sumZ ls_Balance sources.
Proof. induction 1; cbn [sumZ]; lia. Qed.

(** The sequential strategies empty the sources one after the other. *)
Lemma take_in_turn_spec sources r :
  funded sources → 0 <= r →
  let al := take_in_turn sources r in
  sumZ al_Amount al = Z.min r (sumZ ls_Balance sources) ∧ drawn sources al
  ∧ ∃ k last, al = map whole (take k sources) ++ last ∧ (length last <= 1)%nat.
Proof.
  intros Hf. revert r. induction Hf as [|s sources Hs Hf IH]; intros r Hr al; subst al.
  { cbn. split; [lia|]. split; [apply drawn_nil|]. exists 0%nat, []. split; [done|cbn; lia]. }
  pose proof (funded_sum sources Hf) as Ht. cbn [take_in_turn]. rewrite (sumZ_cons ls_Balance).
  destruct (Z.leb_spec r 0); [|destruct (Z.leb_spec r (ls_Balance s))].
  - cbn. split; [lia|]. split; [apply drawn_nil|]. exists 0%nat, []. split; [done|cbn; lia].
  - rewrite (proj2 (Z.leb_gt _ _)) by lia.
    replace (take_in_turn sources (r - r)) with (@nil Allocation)
      by (rewrite Z.sub_diag; by destruct sources).
    cbn [sumZ al_Amount]. split; [lia|]. split; [apply drawn_take; [done|apply drawn_nil]|].
    exists 0%nat, [mkAllocation (ls_BalanceID s) r]. split; [done|cbn; lia].
  - rewrite (proj2 (Z.leb_gt _ _)) by lia.
    destruct (IH (r - ls_Balance s)) as (Es & Hd & k & last & Ek & Hl); [lia|].
    rewrite (sumZ_cons al_Amount), Es. cbn [al_Amount]. split; [lia|].
    split; [by apply drawn_take|]. exists (Datatypes.S k), last. by rewrite Ek.
Qed.

(** The share of a source that is not the last. *)
Definition floor_share (amount total : Z) (s : LineageSource) : Z :=
  amount * ls_Balance s / total.

Lemma floor_share_bounds e total s :
  0 < ls_Balance s → 0 < total → 0 <= e <= total → 0 <= floor_share e total s <= ls_Balance s.
Proof.
  intros Hb Ht He. unfold floor_share. split; [apply Z.div_pos; nia|].
  apply Z.div_le_upper_bound; nia.
Qed.

Lemma floor_shares_sum e total sources :
  funded sources → 0 < total →
  total * sumZ (floor_share e total) sources
  >= e * sumZ ls_Balance sources - Z.of_nat (length sources) * (total - 1).
Proof.
  intros Hf Ht. induction Hf as [|s sources Hs Hf IH]; [cbn; lia|].
  rewrite !sumZ_cons. cbn [length]. unfold floor_share at 1.
  pose proof (Z.div_mod (e * ls_Balance s) total). pose proof (Z.mod_pos_bound (e * ls_Balance s) total).
  nia.
Qed.

Lemma floor_shares_nonneg e total sources :
  funded sources → 0 < total → 0 <= e <= total → 0 <= sumZ (floor_share e total) sources.
Proof.
  intros Hf Ht He. induction Hf as [|s sources Hs Hf IH]; cbn [sumZ]; [lia|].
  pose proof (floor_share_bounds e total s Hs Ht He). lia.
Qed.

Lemma floor_shares_le e total sources :
  0 < total → total * sumZ (floor_share e total) sources <= e * sumZ ls_Balance sources.
Proof.
  intros Ht. induction sources as [|s sources IH]; cbn [sumZ]; [lia|]. unfold floor_share at 1.
  pose proof (Z.mul_div_le (e * ls_Balance s) total Ht). nia.
Qed.

Lemma share_out_spec e total sources r :
  funded sources → 0 < total → 0 <= e <= total → sumZ (floor_share e total) sources <= r →
  let al := share_out e total sources r in
  drawn sources al ∧ sumZ al_Amount al <= r
  ∧ sumZ (floor_share e total) sources <= sumZ al_Amount al.
Proof.
  intros Hf Ht He. revert r. induction Hf as [|s sources Hs Hf IH]; intros r Hr al; subst al.
  { split; [apply drawn_nil|]. cbn in *. lia. }
  pose proof (floor_share_bounds e total s Hs Ht He) as Hb.
  pose proof (floor_shares_nonneg e total sources Hf Ht He) as Hn.
  rewrite sumZ_cons in Hr. cbn [share_out]. set (c := if ls_Balance s <? _ then _ else _).
  assert (Hc : floor_share e total s <= c <= ls_Balance s
               ∧ sumZ (floor_share e total) sources <= r - c).
  { subst c. destruct sources as [|s2 sources].
    - cbn [sumZ] in *. destruct (Z.ltb_spec (ls_Balance s) r); lia.
    - replace (big_div (e * ls_Balance s) total) with (floor_share e total s)
        by (unfold big_div, floor_share; rewrite Z.sgn_pos, Z.abs_eq by lia; lia).
      destruct (Z.ltb_spec (ls_Balance s) (floor_share e total s)); lia. }
  clearbody c. rewrite sumZ_cons. destruct (Z.leb_spec c 0) as [Hz|Hz].
  - destruct (IH r) as (Hd & Hle & Hge); [lia|]. split; [by apply drawn_skip|]. lia.
  - destruct (IH (r - c)) as (Hd & Hle & Hge); [lia|]. rewrite (sumZ_cons al_Amount). cbn [al_Amount].
    split; [apply drawn_take; [split; cbn; [done|lia]|done]|]. lia.
Qed.

Lemma proportional_spec sources amount :
  funded sources → 0 < amount →
  let al := proportionalAllocation sources amount in
  let due := Z.min amount (sumZ ls_Balance sources) in
  drawn sources al ∧ due - Z.max 0 (Z.of_nat (length sources) - 1) <= sumZ al_Amount al <= due.
Proof.
  intros Hf Ha al due. subst al. unfold proportionalAllocation.
  rewrite (proj2 (Z.leb_gt _ _)) by lia. pose proof (funded_sum sources Hf) as Hs.
  destruct (Z.eqb_spec (sumZ ls_Balance sources) 0) as [E|E].
  - split; [apply drawn_nil|]. subst due. rewrite E. change (sumZ al_Amount []) with 0. lia.
  - cbv zeta. set (total := sumZ ls_Balance sources) in *.
    replace (if total <? amount then total else amount) with due
      by (subst due; destruct (Z.ltb_spec total amount); lia).
    assert (He : 0 <= due <= total) by lia.
    pose proof (floor_shares_le due total sources ltac:(lia)) as Hle.
    pose proof (floor_shares_sum due total sources Hf ltac:(lia)) as Hge.
    fold total in Hle, Hge.
    destruct (share_out_spec due total sources due Hf ltac:(lia) He ltac:(nia)) as (Hd & H1 & H2).
    split; [done|]. split; [nia|lia].
Qed.

Lemma funded_perm sources sources' : sources ≡ₚ sources' → funded sources → funded sources'.
Proof. intros E Hf. unfold funded. by rewrite <- E. Qed.

Lemma in_order_perm strategy sources : in_order strategy sources ≡ₚ sources.
Proof.
  unfold in_order. destruct (String.eqb _ _); [apply order_desc_perm|].
  destruct (String.eqb _ _); [done|apply order_asc_perm].
Qed.

Lemma allocation_spec sources amount strategy :
  funded sources → 0 < amount →
  let al := calculateAllocation sources amount strategy in
  let order := in_order strategy sources in
  let due := Z.min amount (sumZ ls_Balance sources) in
  order ≡ₚ sources ∧ drawn order al
  ∧ if String.eqb strategy AllocationProp
    then due - Z.max 0 (Z.of_nat (length sources) - 1) <= sumZ al_Amount al <= due
    else sumZ al_Amount al = due
         ∧ ∃ k last, al = map whole (take k order) ++ last ∧ (length last <= 1)%nat.
Proof.
  intros Hf Ha al order due. split; [apply in_order_perm|].
  pose proof (in_order_perm strategy sources) as Hp. pose proof (funded_sum sources Hf) as Hs.
  assert (Ea : al = if String.eqb strategy AllocationProp then proportionalAllocation sources amount
                    else sequentialAllocation order amount).
  { subst al order. destruct sources; [|done]. unfold in_order.
    destruct (String.eqb strategy AllocationLIFO), (String.eqb strategy AllocationProp);
      unfold proportionalAllocation, sequentialAllocation; by destruct (amount <=? 0). }
  clearbody al. subst al due.
  destruct (String.eqb strategy AllocationProp) eqn:Ep.
  - assert (order = sources) as ->.
    { subst order. unfold in_order. apply String.eqb_eq in Ep as ->. done. }
    destruct (proportional_spec sources amount Hf Ha) as [Hd Hb]. split; [done|].
    lia.
  - fold order in Hp |- *. unfold sequentialAllocation. rewrite (proj2 (Z.leb_gt _ _)) by lia.
    destruct (take_in_turn_spec order amount) as (E1 & Hd & Hk);
      [exact (funded_perm _ _ (Permutation_sym Hp) Hf)|lia|]. split; [done|]. split; [|done].
    rewrite E1. by rewrite (sumZ_perm _ _ _ Hp).
Qed.

(** C15. An allocation never overdraws and is complete.  From sources that each
    hold something, every allocation is positive, drawn from a source of its
    own and at most what that source holds, the sources taken in the order of
    the strategy (oldest first, newest first, or as given).  FIFO and LIFO
    allocate exactly the amount, or all there is, by emptying one source after
    the other; the proportional strategy never exceeds that and misses at most
    one minor unit less than there are sources. *)
Theorem calculateAllocation_correct sources amount strategy :
  funded sources → 0 < amount →
  let al := calculateAllocation sources amount strategy in
  let order := in_order strategy sources in
  let due := Z.min amount (sumZ ls_Balance sources) in
  order ≡ₚ sources ∧ drawn order al
  ∧ if String.eqb strategy AllocationProp
    then due - Z.max 0 (Z.of_nat (length sources) - 1) <= sumZ al_Amount al <= due
    else sumZ al_Amount al = due
         ∧ ∃ k last, al = map whole (take k order) ++ last ∧ (length last <= 1)%nat.
Proof. apply allocation_spec. Qed.

Definition ex_sources : list LineageSource :=
  [mkSource "s2" 50 20; mkSource "s1" 50 10; mkSource "s3" 1 30].

Lemma calculateAllocation_correct_witness :
  funded ex_sources ∧ 0 < 60
  ∧ sumZ al_Amount (calculateAllocation ex_sources 60 "FIFO") = 60
  ∧ calculateAllocation ex_sources 60 "FIFO" = [mkAllocation "s1" 50; mkAllocation "s2" 10].
Proof.
  assert (Hf : funded ex_sources) by (repeat constructor).
  destruct (calculateAllocation_correct ex_sources 60 "FIFO" Hf ltac:(lia)) as (_ & _ & Hsum & _).
  split; [exact Hf|]. split; [lia|]. split; [exact Hsum|]. vm_compute. reflexivity.
Defined.

(** The last of the proportional shares is capped at what its source holds, and
    what it cannot take is not given to another: 99 of 100 although 101 are
    there. *)
Lemma proportional_misses_a_unit :
  sumZ al_Amount (calculateAllocation ex_sources 100 AllocationProp) = 99
  ∧ sumZ ls_Balance ex_sources = 101.
Proof. by vm_compute. Qed.

End allocation.

(** ** Processing an entry only appends *)

Section appending.
Context `{Decimal, MapIter, Asynq}.
Abbreviation L := (prog lsys).

#[export] Instance lsys_tables : HasTables lsys := λ y, tables_of (l_sys y).

Lemma appends_ins {A} (m : prog sys A) : appends m → appends (ins m).
Proof.
  intros Hm y. specialize (Hm (l_sys y)). unfold ins. by destruct (m (l_sys y)) as [s r].
Qed.

Lemma appends_inl {A} (m : M A) : appends m → appends (inl m).
Proof. intros Hm. by apply appends_ins, appends_inc. Qed.

Lemma appends_lread {A} (f : db → result A) : appends (lread f).
Proof. apply appends_inl, appends_read. Qed.

Lemma appends_log_failure (m : L unit) : appends m → appends (log_failure m).
Proof.
  intros Hm y. specialize (Hm y). unfold log_failure.
  destruct (m y) as [y1 [u|e]]; [done|]. exact Hm.
Qed.

Lemma appends_queue_own E t : appends (queue_own E t).
Proof. apply appends_ins, appends_with_txn, appends_QueueTransaction. Qed.

Lemma appends_upsert E m : appends (UpsertLineageMapping E m).
Proof. apply appends_same. intros y. unfold UpsertLineageMapping. by destruct (foreign_keys_ok y m). Qed.

Lemma appends_deref p : appends (deref p : L Z).
Proof. destruct p; [apply appends_ret|apply appends_raise]. Qed.

Lemma appends_identity id : appends (GetIdentityByID id).
Proof. by apply appends_same. Qed.

Lemma appends_getOrCreate E ind cur : appends (inl (getOrCreateBalanceByIndicator E ind cur)).
Proof. apply appends_inl, appends_quiet, quiet_getOrCreate. Qed.

Lemma appends_acquire E ids : appends (acquireLineageLocks E ids).
Proof.
  apply appends_bind; [apply appends_inl, appends_fresh|]. intros v. apply appends_inl, appends_same.
  intros w. by destruct (Lock.Lock _ _ _ _ _) as [[e|] s].
Qed.

Lemma release_tables E locker y : tables_of (inl (releaseLock E locker) y).1 = tables_of y.
Proof.
  unfold inl, ins, inc, inq, core.
  pose proof (releaseLock_db E locker (q_core (s_world (l_sys y)))) as Hr.
  destruct (releaseLock E locker (q_core (s_world (l_sys y)))) as [w u]. cbn [fst] in *.
  change (logs_of_db (w_db w) = logs_of_db (w_db (q_core (s_world (l_sys y))))). by rewrite Hr.
Qed.

Lemma appends_lineage_release {A} E locker (body : L A) :
  appends body → appends (with_lineage_release E locker body).
Proof.
  intros Hb y. specialize (Hb y). unfold with_lineage_release.
  destruct (body y) as [y1 r]. pose proof (release_tables (l_exec E) locker y1) as Hr.
  destruct (inl (releaseLock (l_exec E) locker) y1) as [y2 u]. cbn [fst] in *. by rewrite Hr.
Qed.

#[local] Hint Resolve appends_ins appends_inl appends_lread appends_log_failure appends_queue_own
  appends_upsert appends_deref appends_identity appends_getOrCreate appends_acquire
  appends_lineage_release : appends.

Lemma appends_lineage_balances E id p c e1 e2 e3 : appends (lineage_balances E id p c e1 e2 e3).
Proof. unfold lineage_balances. auto 10 with appends. Qed.
#[local] Hint Resolve appends_lineage_balances : appends.

Lemma appends_credit E t dest provider : appends (processLineageCredit E t dest provider).
Proof.
  unfold processLineageCredit. cbv zeta. destruct (String.eqb _ _); [apply appends_raise|].
  apply appends_bind; [apply appends_lineage_balances|]. intros [shadow aggregate].
  apply appends_bind; [auto with appends|]. intros locker. apply appends_lineage_release.
  unfold queueShadowCreditTransaction, upsertCreditLineageMapping. auto 10 with appends.
Qed.

Lemma appends_prior ref mappings : appends (prior_releases ref mappings).
Proof.
  induction mappings as [|m mappings IH]; [apply appends_ret|]. cbn [prior_releases]. cbv zeta.
  apply appends_bind; [auto with appends|]. intros [|]; auto 10 with appends.
Qed.

Lemma appends_remaining t mappings : appends (remainingDebitAmount t mappings).
Proof. pose proof (appends_prior (t_Reference t) mappings). unfold remainingDebitAmount. auto with appends. Qed.

Lemma appends_prepare_all E mappings dest : appends (prepareDestinationLineageBalances E mappings dest).
Proof.
  induction mappings as [|m mappings IH]; [apply appends_ret|].
  cbn [prepareDestinationLineageBalances]. unfold getOrCreateDestinationLineageBalances. auto 10 with appends.
Qed.

Lemma appends_prepare_destination E mappings dest : appends (prepare_destination E mappings dest).
Proof.
  unfold prepare_destination. destruct dest as [b|]; [|apply appends_ret].
  destruct (tracks_for_identity b); [|apply appends_ret]. intros y.
  pose proof (appends_prepare_all E mappings b y) as Hp.
  by destruct (prepareDestinationLineageBalances E mappings b y) as [y1 [i|e]].
Qed.

Lemma appends_destination E t a m s d p : appends (processDestinationLineage E t a m s d p).
Proof.
  unfold processDestinationLineage. destruct d as [dest|]; [|apply appends_ret].
  destruct p as [infos|]; [|apply appends_ret]. destruct (negb _); [apply appends_ret|].
  destruct (infos !! lm_Provider m) as [[shadow aggregate]|]; [|apply appends_ret].
  unfold queueReceiveTransaction. auto 10 with appends.
Qed.
#[local] Hint Resolve appends_destination appends_remaining appends_prepare_destination : appends.

Lemma appends_allocations E t al mappings s d agg p :
  appends (processAllocations E t al mappings s d agg p).
Proof.
  induction al as [|a al IH]; [apply appends_ret|]. cbn [processAllocations].
  apply appends_bind; [|auto]. destruct (al_Amount a =? 0); [apply appends_ret|].
  destruct (findMappingByShadowID _ _) as [m|]; [|apply appends_ret].
  apply appends_bind; [auto with appends|]. intros [|]; [apply appends_ret|].
  unfold queueReleaseTransaction. auto 10 with appends.
Qed.
#[local] Hint Resolve appends_allocations : appends.

Lemma appends_write_metadata id m :
  appends (write (λ d, d ← UpdateTransactionMetadata d id m; mret (d, tt))).
Proof.
  apply appends_same. intros w. unfold write, UpdateTransactionMetadata.
  destruct (forallb _ _); [|done]. unfold tables_of, world_tables, logs_of_db. cbn.
  by rewrite bare_merge.
Qed.
#[local] Hint Resolve appends_write_metadata : appends.

Lemma appends_fund_metadata t al mappings : appends (updateFundAllocationMetadata t al mappings).
Proof.
  unfold updateFundAllocationMetadata. destruct (buildFundAllocationList al mappings); auto with appends.
Qed.
#[local] Hint Resolve appends_fund_metadata : appends.

Lemma appends_debit E t s d : appends (processLineageDebit E t s d).
Proof.
  intros y. unfold processLineageDebit. destruct (GetLineageMappings _ _) as [|m mappings].
  { by destruct (HasPendingCreditOutbox _ _). }
  revert y. match goal with |- ∀ y, grows _ (tables_of (?m y).1) => change (appends m) end.
  apply appends_bind; [auto with appends|]. intros prepared.
  apply appends_bind; [auto with appends|]. intros locker. apply appends_lineage_release.
  unfold debit_locked, getSourceAggregateBalance. apply appends_bind; [auto with appends|]. intros sources.
  apply appends_bind; [auto with appends|]. intros remaining.
  destruct (remaining <=? 0); [apply appends_ret|]. cbv zeta. auto 10 with appends.
Qed.

Lemma appends_processLineage E t s d : appends (processLineage E t s d).
Proof.
  intros y. unfold processLineage. cbv zeta. set (p := validateLineageProvider _ _ _). clearbody p.
  revert y. match goal with |- ∀ y, grows _ (tables_of (?m y).1) => change (appends m) end.
  apply appends_bind.
  - destruct d as [dest|]; [|apply appends_ret]. destruct (_ && _); [|apply appends_ret].
    apply appends_err, appends_credit.
  - intros _. destruct s as [b|]; [|apply appends_ret]. destruct (b_TrackFundLineage b); [|apply appends_ret].
    apply appends_err, appends_debit.
Qed.

Lemma appends_shadows verb (act : Transaction → prog qworld Transaction) parentID :
  (∀ s, appends (act s)) → appends (ins (inq (all_shadows verb act parentID))).
Proof. intros Ha. by apply appends_ins, appends_inq, (closed_all_shadows _ appends_closed). Qed.

Lemma appends_entry E o : appends (ProcessLineageFromOutbox E o).
Proof.
  unfold ProcessLineageFromOutbox. destruct (String.eqb _ LineageTypeShadowCommit);
    [|destruct (String.eqb _ LineageTypeShadowVoid)].
  - apply appends_bind; [apply appends_lift|]. intros parent. apply appends_err, appends_shadows.
    intros s. apply (closed_commit _ appends_closed).
  - apply appends_bind; [apply appends_lift|]. intros parent. apply appends_err, appends_shadows.
    intros s. apply (closed_void _ appends_closed).
  - apply appends_bind; [auto with appends|]. intros t. cbv zeta.
    apply appends_bind; [auto with appends|]. intros s.
    apply appends_bind; [auto with appends|]. intros d. apply appends_processLineage.
Qed.
End appending.

(** ** The life of an outbox entry

    One worker, and any service calls before, between and after the entries of
    a batch.  A crash or a panic of the worker forgets what it had claimed. *)

Section outbox.
Context `{Decimal, MapIter, Asynq}.

Record ostate := mkO { os_lsys : lsys; os_batch : list LineageOutbox }.
Definition outbox (s : ostate) : list LineageOutbox := db_outbox (l_db (os_lsys s)).

Definition on_sys (f : sys → sys) (y : lsys) : lsys :=
  mkL (f (l_sys y)) (l_mappings y) (l_identities y).

Inductive ostep : relation ostate :=
| step_service E c s :
    ostep s (mkO (on_sys (run_call E c) (os_lsys s)) (os_batch s))
| step_claim E y y' entries :
    ClaimPendingOutboxEntries E y = (y', Ok entries) → ostep (mkO y []) (mkO y' entries)
| step_process E o entries y y' u :
    process_one (ProcessLineageFromOutbox E) E o y = (y', Ok u) →
    ostep (mkO y (o :: entries)) (mkO y' entries)
| step_panic E o entries y y' e :
    process_one (ProcessLineageFromOutbox E) E o y = (y', Err e) →
    ostep (mkO y (o :: entries)) (mkO y' [])
| step_crash s : ostep s (mkO (os_lsys s) []).

Definition settled (o : LineageOutbox) : Prop := o_Status o = "completed" ∨ o_Status o = "failed".

Definition entry_ok (o : LineageOutbox) : Prop :=
  0 <= o_Attempts o
  ∧ ((o_Status o = "pending" ∨ o_Status o = "processing")
       ∧ (o_Attempts o = 0 ∨ o_Attempts o < o_MaxAttempts o)
     ∨ o_Status o = "completed" ∧ o_Attempts o < o_MaxAttempts o
     ∨ o_Status o = "failed" ∧ o_Attempts o = o_MaxAttempts o).

(** The same work, no fewer attempts; what is settled stays as it is. *)
Definition entry_evolves (o o' : LineageOutbox) : Prop :=
  o_ID o' = o_ID o ∧ o_TransactionID o' = o_TransactionID o ∧ o_LineageType o' = o_LineageType o
  ∧ o_Payload o' = o_Payload o ∧ o_MaxAttempts o' = o_MaxAttempts o
  ∧ o_CreatedAt o' = o_CreatedAt o ∧ o_Attempts o <= o_Attempts o' ∧ (settled o → o' = o).

#[export] Instance entry_evolves_preorder : PreOrder entry_evolves.
Proof.
  split; [by intros o|]. intros o1 o2 o3 (A1 & A2 & A3 & A4 & A5 & A6 & A7 & A8)
    (B1 & B2 & B3 & B4 & B5 & B6 & B7 & B8).
  split_and!; try congruence; [lia|]. intros Hs. specialize (A8 Hs). rewrite A8 in *. by apply B8.
Qed.

Lemma evolves_list_refl l : Forall2 entry_evolves l l.
Proof. by induction l; constructor. Qed.

Definition outbox_evolves (l l' : list LineageOutbox) : Prop :=
  ∃ old new, l' = old ++ new ∧ Forall2 entry_evolves l old.

#[export] Instance outbox_evolves_preorder : PreOrder outbox_evolves.
Proof.
  split.
  - intros l. exists l, []. rewrite app_nil_r. split; [done|apply evolves_list_refl].
  - intros l1 l2 l3 (o1 & n1 & -> & F1) (o2 & n2 & -> & F2).
    apply Forall2_app_inv_l in F2 as (o3 & n3 & F3 & F4 & ->).
    exists o3, (n3 ++ n2). rewrite app_assoc. split; [done|]. by etrans.
Qed.

(** A claimed entry is still being processed in the table. *)
Definition in_hand (l : list LineageOutbox) (o : LineageOutbox) : Prop :=
  ∃ r, r ∈ l ∧ o_ID r = o_ID o ∧ o_Status r = "processing" ∧ o_Attempts r < o_MaxAttempts r.

Definition outbox_inv (s : ostate) : Prop :=
  NoDup (map o_ID (outbox s)) ∧ Forall entry_ok (outbox s)
  ∧ NoDup (map o_ID (os_batch s)) ∧ Forall (in_hand (outbox s)) (os_batch s).

Lemma new_entry_ok o : new_entry o → entry_ok o.
Proof. intros (E1 & E2 & _). unfold entry_ok. rewrite E1, E2. split; [lia|]. left. split; [by left|by left]. Qed.

Lemma grows_inv l l' batch :
  outbox_grows l l' → NoDup (map o_ID l) → Forall entry_ok l → Forall (in_hand l) batch →
  NoDup (map o_ID l') ∧ Forall entry_ok l' ∧ Forall (in_hand l') batch ∧ outbox_evolves l l'.
Proof.
  intros [(new & -> & Hn) Hnd] Hd Hok Hh. split; [auto|]. split.
  - apply Forall_app. split; [done|]. by eapply Forall_impl; [|apply new_entry_ok].
  - split.
    + eapply Forall_impl; [exact Hh|]. intros o (r & Hr & E). exists r. split; [|done].
      apply elem_of_app. by left.
    + exists l, new. split; [done|]. apply evolves_list_refl.
Qed.

(** Rewriting entries one by one. *)
Lemma rewrite_entries g l :
  (∀ o, o_ID (g o) = o_ID o) →
  (∀ o, o ∈ l → entry_evolves o (g o) ∧ (entry_ok o → entry_ok (g o))) →
  NoDup (map o_ID l) → Forall entry_ok l →
  NoDup (map o_ID (map g l)) ∧ Forall entry_ok (map g l) ∧ outbox_evolves l (map g l).
Proof.
  intros Hid Hg Hnd Hok. split; [|split].
  - rewrite map_map. by rewrite (map_ext _ o_ID) by done.
  - apply Forall_map. rewrite Forall_forall in Hok |- *. intros o Ho. by apply Hg, Hok.
  - exists (map g l), []. rewrite app_nil_r. split; [done|]. clear -Hg.
    induction l as [|x l IH]; cbn [map]; constructor.
    + apply Hg. by left.
    + apply IH. intros o Ho. apply Hg. by right.
Qed.

Lemma on_outbox_run f (y : lsys) :
  ∃ y', on_outbox f y = (y', Ok tt) ∧ db_outbox (l_db y') = f (db_outbox (l_db y))
        ∧ (tables_of y').1 = (tables_of y).1.
Proof. by eexists. Qed.

Lemma claimable_facts nw o :
  claimable nw o = true →
  (o_Status o = "pending" ∨ o_Status o = "processing") ∧ o_Attempts o < o_MaxAttempts o.
Proof.
  unfold claimable. intros [[Hs _]%andb_true_iff Ha]%andb_true_iff. zbool. split; [|done].
  by apply orb_true_iff in Hs as [->%String.eqb_eq | ->%String.eqb_eq]; [left|right].
Qed.

Lemma claimed_facts nw n l o : o ∈ claimed nw n l → o ∈ l ∧ claimable nw o = true.
Proof.
  unfold claimed. intros Ho%(subseteq_take n). rewrite order_asc_perm in Ho.
  apply list_elem_of_In, filter_In in Ho as [Ho Hc]. split; [by apply list_elem_of_In|done].
Qed.

Lemma claimed_NoDup nw n l : NoDup (map o_ID l) → NoDup (map o_ID (claimed nw n l)).
Proof.
  intros Hnd. unfold claimed. rewrite <- firstn_map. eapply sublist_NoDup; [|apply sublist_take].
  rewrite (Permutation_map o_ID (order_asc_perm o_CreatedAt _)). by apply NoDup_map_filter.
Qed.

Lemma not_settled o : o_Status o = "pending" ∨ o_Status o = "processing" → ¬ settled o.
Proof. by intros [E|E] [F|F]; rewrite E in F. Qed.

Lemma claim_one_facts until o :
  (o_Status o = "pending" ∨ o_Status o = "processing") → o_Attempts o < o_MaxAttempts o →
  entry_evolves o (claim_one until o) ∧ (entry_ok o → entry_ok (claim_one until o)).
Proof.
  intros Hs Ha. split.
  - unfold entry_evolves. split_and!; try (by destruct o). intros Hx. by destruct (not_settled o Hs).
  - intros (H0' & _). destruct o; cbn in *. unfold entry_ok; cbn. split; [done|]. left. split; [by right|by right].
Qed.

Lemma completed_facts o :
  o_Status o = "processing" → o_Attempts o < o_MaxAttempts o →
  entry_evolves o (completed_entry o) ∧ (entry_ok o → entry_ok (completed_entry o)).
Proof.
  intros Hs Ha. split.
  - unfold entry_evolves. split_and!; try (by destruct o). intros Hx. by destruct (not_settled o (or_intror Hs)).
  - intros (H0' & _). destruct o; cbn in *. unfold entry_ok; cbn. split; [done|]. right. by left.
Qed.

Lemma failed_facts msg o :
  o_Status o = "processing" → o_Attempts o < o_MaxAttempts o →
  entry_evolves o (failed_entry msg o) ∧ (entry_ok o → entry_ok (failed_entry msg o)).
Proof.
  intros Hs Ha. split.
  - unfold entry_evolves. split_and!; try (by destruct o); [destruct o; cbn in *; lia|].
    intros Hx. by destruct (not_settled o (or_intror Hs)).
  - intros (H0' & _). destruct o; cbn in *. unfold entry_ok; cbn. split; [lia|].
    destruct (Z.leb_spec o_MaxAttempts (o_Attempts + 1)).
    + right. right. split; [done|lia].
    + left. split; [by left|]. right. lia.
Qed.

(** Marking the entry in hand leaves the others in hand. *)
Lemma mark_inv E f (y y' : lsys) u x batch :
  log_failure (mark E (o_ID x) f) y = (y', u) →
  (∀ o, o_ID (f o) = o_ID o) →
  (∀ o, o_Status o = "processing" → o_Attempts o < o_MaxAttempts o →
        entry_evolves o (f o) ∧ (entry_ok o → entry_ok (f o))) →
  let l := db_outbox (l_db y) in let l' := db_outbox (l_db y') in
  NoDup (map o_ID l) → Forall entry_ok l → in_hand l x → Forall (in_hand l) batch →
  o_ID x ∉ map o_ID batch →
  NoDup (map o_ID l') ∧ Forall entry_ok l' ∧ Forall (in_hand l') batch ∧ outbox_evolves l l'.
Proof.
  intros Em Hid Hf l l' Hnd Hok (r & Hr & Er & Sr & Ar) Hb Hx. unfold mark, log_failure in Em.
  destruct (mark_fault E (o_ID x)) as [e|].
  { assert (y' = y) as -> by (by destruct (is_panic e); injection Em as <- _). done. }
  destruct (on_outbox_run (at_id (o_ID x) f) y) as (y1 & Ey & El & _). rewrite Ey in Em.
  injection Em as <- _. subst l'. rewrite El. fold l. unfold at_id.
  set (g := λ o : LineageOutbox, if o_ID o =? o_ID x then f o else o).
  destruct (rewrite_entries g l) as (H1' & H2 & H3); [|  |done|done|].
  - intros o. subst g. cbv beta. by destruct (_ =? _).
  - intros o Ho. subst g. cbv beta. destruct (Z.eqb_spec (o_ID o) (o_ID x)) as [Eo|]; [|by split].
    assert (o = r) as -> by (by eapply (NoDup_map_eq o_ID); [..|etrans]). by apply Hf.
  - split; [done|]. split; [done|]. split; [|done]. rewrite Forall_forall in Hb |- *.
    intros o Ho. destruct (Hb o Ho) as (r2 & Hr2 & E2 & S2). exists (g r2).
    split; [by apply list_elem_of_fmap_2|]. subst g. cbv beta.
    rewrite (proj2 (Z.eqb_neq _ _)); [done|]. rewrite E2. intros E3. apply Hx. rewrite <- E3.
    by apply list_elem_of_fmap_2.
Qed.

(** What processing an entry does, whatever becomes of it. *)
Lemma process_one_inv E o batch (y y' : lsys) r :
  process_one (ProcessLineageFromOutbox E) E o y = (y', r) →
  let l := db_outbox (l_db y) in let l' := db_outbox (l_db y') in
  NoDup (map o_ID l) → Forall entry_ok l → Forall (in_hand l) (o :: batch) →
  NoDup (map o_ID (o :: batch)) →
  NoDup (map o_ID l') ∧ Forall entry_ok l' ∧ Forall (in_hand l') batch ∧ outbox_evolves l l'.
Proof.
  intros Ep l l' Hnd Hok Hh Hb. unfold process_one in Ep.
  pose proof (appends_entry E o y) as [_ Hg]. cbn [tables_of lsys_tables] in Hg.
  destruct (ProcessLineageFromOutbox E o y) as [y1 q]. cbn [fst] in Hg.
  change (outbox_grows l (db_outbox (l_db y1))) in Hg.
  destruct (grows_inv _ _ _ Hg Hnd Hok Hh) as (N1 & O1 & B1 & E1).
  apply Forall_cons in B1 as [Bo B1]. cbn [map] in Hb. apply NoDup_cons in Hb as [Hx _].
  assert (Hm : ∀ f u, log_failure (mark E (o_ID o) f) y1 = (y', u) →
    (∀ o, o_ID (f o) = o_ID o) →
    (∀ o, o_Status o = "processing" → o_Attempts o < o_MaxAttempts o →
          entry_evolves o (f o) ∧ (entry_ok o → entry_ok (f o))) →
    NoDup (map o_ID l') ∧ Forall entry_ok l' ∧ Forall (in_hand l') batch ∧ outbox_evolves l l').
  { intros f u Em Hid Hf.
    destruct (mark_inv E f y1 y' u o batch Em Hid Hf N1 O1 Bo B1 Hx) as (N2 & O2 & B2 & E2).
    split_and!; [done|done|done|by etrans]. }
  destruct q as [u|e].
  - apply (Hm completed_entry r Ep); [by intros []|apply completed_facts].
  - destruct (is_panic e); [injection Ep as <- _; by split_and!|].
    apply (Hm (failed_entry (error_text e)) r Ep); [by intros []|apply failed_facts].
Qed.

Lemma claim_inv E (y y' : lsys) entries :
  ClaimPendingOutboxEntries E y = (y', Ok entries) →
  let l := db_outbox (l_db y) in let l' := db_outbox (l_db y') in
  NoDup (map o_ID l) → Forall entry_ok l →
  NoDup (map o_ID l') ∧ Forall entry_ok l' ∧ NoDup (map o_ID entries)
  ∧ Forall (in_hand l') entries ∧ outbox_evolves l l'.
Proof.
  unfold ClaimPendingOutboxEntries. cbv zeta. set (l := db_outbox (l_db y)).
  set (mine := claimed _ _ l). set (until := _ + lockDuration E). intros Ec Hnd Hok.
  set (g := λ o, if bool_decide (o_ID o ∈ map o_ID mine) then claim_one until o else o) in Ec.
  destruct (on_outbox_run (map g) y) as (y1 & Ey & El & _).
  unfold mbind, prog_bind in Ec. rewrite Ey in Ec. injection Ec as <- <-. rewrite El. fold l.
  assert (Hg : ∀ o, o ∈ l → o_ID o ∈ map o_ID mine → claimable (now (l_exec E)) o = true).
  { intros o Ho (m & Em & Hm)%list_elem_of_fmap. apply claimed_facts in Hm as [Hm Hc].
    by rewrite (NoDup_map_eq o_ID l o m). }
  assert (Hid : ∀ o, o_ID (claim_one until o) = o_ID o) by (by intros []).
  destruct (rewrite_entries g l) as (H1' & H2 & H3); [| |done|done|].
  - intros o. subst g. cbv beta. by destruct (bool_decide _).
  - intros o Ho. subst g. cbv beta. case_bool_decide as Hc; [|by split].
    destruct (claimable_facts _ _ (Hg o Ho Hc)). by apply claim_one_facts.
  - split; [done|]. split; [done|]. split.
    { rewrite map_map. rewrite (map_ext _ o_ID) by done. by apply claimed_NoDup. }
    split; [|done]. apply Forall_map, Forall_forall. intros o Ho.
    destruct (claimed_facts _ _ _ _ Ho) as [Hl Hc]. destruct (claimable_facts _ _ Hc) as [_ Ha].
    exists (g o). split; [by apply list_elem_of_fmap_2|]. subst g. cbv beta.
    rewrite bool_decide_true by (by apply list_elem_of_fmap_2). by destruct o.
Qed.

Lemma ostep_inv s s' : ostep s s' → outbox_inv s → outbox_inv s' ∧ outbox_evolves (outbox s) (outbox s').
Proof.
  intros Hs (Hnd & Hok & Hb & Hh). destruct Hs as [E c s|E y y' entries Ec|E o entries y y' u Ep|E o entries y y' e Ep|s].
  - destruct (run_call_grows E c (l_sys (os_lsys s))) as [_ Hg].
    change (outbox_grows (outbox s) (outbox (mkO (on_sys (run_call E c) (os_lsys s)) (os_batch s)))) in Hg.
    destruct (grows_inv _ _ _ Hg Hnd Hok Hh) as (N1 & O1 & B1 & E1). by split_and!.
  - destruct (claim_inv E y y' entries Ec Hnd Hok) as (N1 & O1 & B1 & I1 & E1). by split_and!.
  - destruct (process_one_inv E o entries y y' _ Ep Hnd Hok Hh Hb) as (N1 & O1 & B1 & E1).
    cbn [map os_batch] in Hb. apply NoDup_cons in Hb as [_ Hb]. by split_and!.
  - destruct (process_one_inv E o entries y y' _ Ep Hnd Hok Hh Hb) as (N1 & O1 & B1 & E1).
    split; [|done]. split_and!; [done|done|constructor|constructor].
  - split; [|by reflexivity]. split_and!; [done|done|constructor|constructor].
Qed.

(** [processBatch] is a run of these steps. *)
Lemma process_entries_steps E entries (y y' : lsys) r :
  process_entries (ProcessLineageFromOutbox E) E entries y = (y', r) →
  rtc ostep (mkO y entries) (mkO y' []).
Proof.
  revert y. induction entries as [|o entries IH]; intros y; cbn [process_entries].
  - intros [= <- _]. done.
  - unfold mbind, prog_bind.
    destruct (process_one (ProcessLineageFromOutbox E) E o y) as [y1 [u|e]] eqn:Ep.
    + intros Er. eapply rtc_l; [by eapply step_process|by apply IH].
    + intros [= <- _]. apply rtc_once. by eapply step_panic.
Qed.

Lemma processBatch_steps E (y y' : lsys) r :
  processBatch E y = (y', r) → rtc ostep (mkO y []) (mkO y' []).
Proof.
  unfold processBatch, mbind at 1, prog_bind at 1.
  destruct (ClaimPendingOutboxEntries E y) as [y1 [entries|e]] eqn:Ec.
  - intros Er. eapply rtc_l; [by eapply step_claim|by eapply process_entries_steps].
  - discriminate.
Qed.

Lemma batch_steps E (y : lsys) : rtc ostep (mkO y []) (mkO (processBatch E y).1 []).
Proof. apply (processBatch_steps E y _ (processBatch E y).2). by destruct (processBatch E y). Qed.

Lemma mark_rows E id f (y : lsys) : (tables_of (log_failure (mark E id f) y).1).1 = (tables_of y).1.
Proof.
  unfold log_failure, mark. destruct (mark_fault E id) as [e|]; [by destruct (is_panic e)|].
  destruct (on_outbox_run (at_id id f) y) as (y1 & Ey & _ & Er). rewrite Ey. exact Er.
Qed.

Lemma process_one_rows E o (y : lsys) :
  rows_grow (tables_of y).1 (tables_of (process_one (ProcessLineageFromOutbox E) E o y).1).1.
Proof.
  unfold process_one. pose proof (appends_entry E o y) as [Hg _].
  destruct (ProcessLineageFromOutbox E o y) as [y1 [u|e]]; cbn [fst] in Hg; [|destruct (is_panic e)].
  - unfold MarkOutboxCompleted. by rewrite mark_rows.
  - done.
  - unfold MarkOutboxFailed. by rewrite mark_rows.
Qed.

Lemma ostep_rows_grow s s' :
  ostep s s' → rows_grow (tables_of (os_lsys s)).1 (tables_of (os_lsys s')).1.
Proof.
  destruct 1 as [E c s|E y y' entries Ec|E o entries y y' u Ep|E o entries y y' e Ep|s].
  - apply run_call_grows.
  - revert Ec. unfold ClaimPendingOutboxEntries. cbv zeta.
    match goal with |- context [on_outbox ?f] => destruct (on_outbox_run f y) as (y1 & Ey & _ & Er) end.
    unfold mbind, prog_bind. rewrite Ey. intros [= <- _]. cbn [os_lsys]. by rewrite Er.
  - pose proof (process_one_rows E o y) as Hg. by rewrite Ep in Hg.
  - pose proof (process_one_rows E o y) as Hg. by rewrite Ep in Hg.
  - done.
Qed.


(** The claim of a batch is first in, first out. *)
Lemma claimed_oldest nw n l o o' :
  o ∈ claimed nw n l → o' ∈ l → claimable nw o' = true → o' ∉ claimed nw n l →
  o_CreatedAt o <= o_CreatedAt o'.
Proof.
  unfold claimed. set (s := order_asc o_CreatedAt (List.filter (claimable nw) l)). intros Ho Hl Hc Hn.
  assert (Hs : o' ∈ s).
  { unfold s. rewrite order_asc_perm. apply list_elem_of_In, filter_In. split; [by apply list_elem_of_In|done]. }
  rewrite <- (take_drop n s) in Hs. apply elem_of_app in Hs as [?|Hs]; [done|].
  pose proof (order_asc_sorted o_CreatedAt (List.filter (claimable nw) l)) as Hsort. fold s in Hsort.
  rewrite <- (take_drop n s) in Hsort. clear -Ho Hs Hsort.
  induction (take n s) as [|x t IH]; [by apply elem_of_nil in Ho|].
  cbn [app] in Hsort. apply StronglySorted_inv in Hsort as [Hsort Hx].
  apply elem_of_cons in Ho as [->|Ho]; [|auto]. rewrite Forall_forall in Hx.
  apply Hx, elem_of_app. by right.
Qed.

(** A worker whose lease on an entry ran out marks it all the same: its failure
    reopens what another worker completed. *)
Lemma stale_worker_reopens msg o :
  o_Status (completed_entry o) = "completed" ∧ o_Attempts o + 1 < o_MaxAttempts o →
  o_Status (failed_entry msg (completed_entry o)) = "pending".
Proof. intros [_ Ha]. destruct o; cbn in *. by rewrite (proj2 (Z.leb_gt _ _)) by lia. Qed.

End outbox.

(** ** What a debit releases *)

Section debit.
Context `{Decimal, MapIter, Asynq}.
Abbreviation L := (prog lsys).

Definition rows_of (y : lsys) : list Transaction := (tables_of y).1.

(** The amount of the row with a reference. *)
Definition amount_by_ref (l : list Transaction) (ref : string) : Z :=
  match List.find (λ r, String.eqb (t_Reference r) ref) l with
  | Some r => ival (t_PreciseAmount r)
  | None => 0
  end.

(** What the releases of a transaction add up to. *)
Definition released (l : list Transaction) (reference : string) (ms : list LineageMapping) : Z :=
  sumZ (λ m, amount_by_ref l (releaseReference reference (lm_Provider m))) ms.

Lemma find_app {A} (f : A → bool) l l' :
  List.find f (l ++ l') = match List.find f l with Some x => Some x | None => List.find f l' end.
Proof. induction l as [|x l IH]; [done|]. cbn. by destruct (f x). Qed.

Lemma find_ref_None l ref :
  (∀ x, x ∈ l → t_Reference x ≠ ref) → List.find (λ r, String.eqb (t_Reference r) ref) l = None.
Proof.
  induction l as [|x l IH]; intros Hx; [done|]. cbn.
  rewrite (proj2 (String.eqb_neq _ _)) by (apply Hx; by left). apply IH. intros; apply Hx; by right.
Qed.

Lemma amount_snoc l row ref :
  amount_by_ref (l ++ [row]) ref =
  amount_by_ref l ref
  + (if existsb (λ r, String.eqb (t_Reference r) ref) l then 0
     else if String.eqb (t_Reference row) ref then ival (t_PreciseAmount row) else 0).
Proof.
  unfold amount_by_ref. rewrite find_app. destruct (existsb _ l) eqn:Ex.
  - apply existsb_exists in Ex as (x & Hx & Er).
    destruct (List.find _ l) as [r|] eqn:Ef; [lia|].
    by pose proof (List.find_none _ _ Ef x Hx) as Hn; cbv beta in Hn; rewrite Er in Hn.
  - rewrite existsb_false in Ex. rewrite find_ref_None.
    + cbn. destruct (String.eqb (t_Reference row) ref); lia.
    + intros x Hx E. specialize (Ex x Hx). rewrite E in Ex. by rewrite String.eqb_refl in Ex.
Qed.

Lemma release_ref_inj ref p q : releaseReference ref p = releaseReference ref q → p = q.
Proof. unfold releaseReference. intros E%string_app_inj_l. by apply string_app_inj_l in E. Qed.

Lemma release_receive ref p q : releaseReference ref p ≠ receiveReference ref q.
Proof. unfold releaseReference, receiveReference. intros E%string_app_inj_l. discriminate E. Qed.

(** A row under another reference. *)
Lemma released_other l row ref ms :
  (∀ m, t_Reference row ≠ releaseReference ref (lm_Provider m)) →
  released (l ++ [row]) ref ms = released l ref ms.
Proof.
  intros Hne. apply sumZ_ext. intros m _. rewrite amount_snoc, (proj2 (String.eqb_neq _ _)) by apply Hne.
  destruct (existsb _ _); lia.
Qed.

(** A new release counts once. *)
Lemma released_new l row ref ms m p :
  NoDup (map lm_Provider ms) → m ∈ ms → t_Reference row = releaseReference ref (lm_Provider m) →
  t_PreciseAmount row = Some p → (∀ x, x ∈ l → t_Reference x ≠ t_Reference row) →
  released (l ++ [row]) ref ms = released l ref ms + p.
Proof.
  intros Hnd Hm Hr Hp Hf. unfold released.
  assert (Hother : ∀ l', (∀ m', m' ∈ l' → lm_Provider m' ≠ lm_Provider m) →
    sumZ (λ m0, amount_by_ref (l ++ [row]) (releaseReference ref (lm_Provider m0))) l'
    = sumZ (λ m0, amount_by_ref l (releaseReference ref (lm_Provider m0))) l').
  { intros l' Hl. apply sumZ_ext. intros m' Hm'. rewrite amount_snoc, (proj2 (String.eqb_neq _ _)).
    - destruct (existsb _ _); lia.
    - rewrite Hr. intros E%release_ref_inj. by apply (Hl m' Hm'). }
  induction ms as [|m0 ms IH]; [by apply elem_of_nil in Hm|]. cbn [map] in Hnd.
  apply NoDup_cons in Hnd as [Hn0 Hnd]. cbn [sumZ]. apply elem_of_cons in Hm as [->|Hm].
  - rewrite Hother.
    + rewrite amount_snoc, Hr, String.eqb_refl, Hp. destruct (existsb _ l) eqn:Ex; [|cbn; lia].
      apply existsb_exists in Ex as (x & Hx & E%String.eqb_eq).
      destruct (Hf x); [by apply list_elem_of_In|by rewrite E].
    + intros m' Hm' E. apply Hn0. rewrite <- E. by apply list_elem_of_fmap_2.
  - rewrite (IH Hnd Hm). rewrite amount_snoc, (proj2 (String.eqb_neq (t_Reference row) _)).
    + destruct (existsb _ _); lia.
    + rewrite Hr. intros E%release_ref_inj. apply Hn0. rewrite <- E. by apply list_elem_of_fmap_2.
Qed.


Lemma adds_bare t p ok l l' :
  adds_own_row t p ok l l' → adds_own_row t p ok (map bare l) (map bare l').
Proof.
  intros [[-> ->]|(row & -> & Er & Ep & Hf)]; [by left|]. right. exists (bare row). rewrite map_app.
  split; [done|]. split; [by rewrite <- Er; destruct row|]. split; [by rewrite <- Ep; destruct row|].
  intros x (r & -> & Hr)%list_elem_of_fmap. specialize (Hf r Hr). by destruct r.
Qed.

Lemma queue_own_rows E t p (y : lsys) :
  t_SkipQueue t = true → t_Sources t = [] → t_Destinations t = [] →
  t_PreciseAmount t = Some p → 0 < p →
  adds_own_row t p (is_ok (queue_own E t y).2) (rows_of y) (rows_of (queue_own E t y).1).
Proof.
  intros Hk Hs Hd Hp Hpos. unfold queue_own, ins, with_txn. rewrite QueueTransaction_eq.
  pose proof (queue_sync_rows (bulk_failure (refund_with (QueueTransaction 2 (l_senv E)) (l_senv E)) (l_senv E))
    (l_senv E) (l_sys y) t p Hk Hs Hd Hp Hpos) as Hr.
  destruct (queue_transaction _ _ _) as [[s t1] r]. by apply adds_bare in Hr.
Qed.

(** Programs that add no row. *)
Definition rowless {A} (m : L A) : Prop := ∀ y, rows_of (m y).1 = rows_of y.

Lemma rowless_bind {A B} (m : L A) (f : A → L B) : rowless m → (∀ a, rowless (f a)) → rowless (m ≫= f).
Proof.
  intros Hm Hf y. specialize (Hm y). unfold mbind, prog_bind.
  destruct (m y) as [y1 [a|e]]; cbn [fst] in Hm; [|done]. by rewrite Hf.
Qed.

Lemma rows_then {A B} (m : L A) (f : A → L B) y :
  (∀ a, rowless (f a)) → rows_of ((m ≫= f) y).1 = rows_of (m y).1.
Proof.
  intros Hf. unfold mbind, prog_bind. destruct (m y) as [y1 [a|e]]; [apply Hf|done].
Qed.

Lemma rowless_err {A} f (m : L A) : rowless m → rowless (map_err f m).
Proof. intros Hm y. rewrite map_err_state. apply Hm. Qed.

Lemma rowless_ret {A} (a : A) : rowless (mret a : L A).
Proof. done. Qed.

Lemma rowless_raise {A} e : rowless (raise e : L A).
Proof. done. Qed.

Lemma rowless_inl {A} (m : M A) : quiet m → rowless (inl m).
Proof.
  intros Hm y. unfold inl, ins, inc, inq, core. pose proof (Hm (q_core (s_world (l_sys y)))) as (Hr & _).
  destruct (m _) as [w r]. cbn [fst] in *.
  change (map bare (db_transactions (w_db w)) = map bare (db_transactions (l_db y))). by rewrite Hr.
Qed.

Lemma rowless_log (m : L unit) : rowless m → rowless (log_failure m).
Proof.
  intros Hm y. specialize (Hm y). unfold log_failure. destruct (m y) as [y1 [u|e]]; [done|]. exact Hm.
Qed.

Lemma rowless_read {A} (f : db → result A) : rowless (lread f).
Proof. apply rowless_inl, quiet_read. Qed.

Lemma rowless_deref p : rowless (deref p : L Z).
Proof. by destruct p. Qed.

Lemma rowless_upsert E m : rowless (UpsertLineageMapping E m).
Proof. intros y. unfold UpsertLineageMapping. by destruct (foreign_keys_ok y m). Qed.

Lemma rowless_acquire E ids : rowless (acquireLineageLocks E ids).
Proof.
  apply rowless_bind; [apply rowless_inl, quiet_fresh|]. intros v. apply rowless_inl.
  intros w. destruct (Lock.Lock _ _ _ _ _) as [[e|] s]; reflexivity.
Qed.

Create HintDb rowless.
#[local] Hint Resolve rowless_ret rowless_raise rowless_err rowless_read rowless_deref rowless_upsert
  rowless_acquire rowless_log : rowless.
#[local] Hint Extern 2 (rowless (_ ≫= _)) => (apply rowless_bind; [|intros ?]) : rowless.
#[local] Hint Extern 1 (rowless (ctx_err _ _)) => (apply rowless_err) : rowless.

Lemma rowless_indicator E ind cur : rowless (inl (getOrCreateBalanceByIndicator E ind cur)).
Proof. apply rowless_inl, quiet_getOrCreate. Qed.

Lemma rowless_identity id : rowless (GetIdentityByID id).
Proof. done. Qed.
#[local] Hint Resolve rowless_indicator rowless_identity : rowless.

Lemma rowless_prepare_all E ms dest : rowless (prepareDestinationLineageBalances E ms dest).
Proof.
  induction ms as [|m ms IH]; [done|]. cbn [prepareDestinationLineageBalances].
  unfold getOrCreateDestinationLineageBalances, lineage_balances. auto 15 with rowless.
Qed.

Lemma rowless_prepare E ms dest : rowless (prepare_destination E ms dest).
Proof.
  intros y. unfold prepare_destination. destruct dest as [b|]; [|done].
  destruct (tracks_for_identity b); [|done]. pose proof (rowless_prepare_all E ms b y) as Hp.
  by destruct (prepareDestinationLineageBalances E ms b y) as [y1 [i|e]].
Qed.

Lemma rowless_prior ref ms : rowless (prior_releases ref ms).
Proof.
  induction ms as [|m ms IH]; [done|]. cbn [prior_releases]. cbv zeta.
  apply rowless_bind; [auto with rowless|]. intros [|]; auto 10 with rowless.
Qed.

Lemma rowless_metadata t al ms : rowless (updateFundAllocationMetadata t al ms).
Proof.
  unfold updateFundAllocationMetadata. destruct (buildFundAllocationList al ms); [done|].
  apply rowless_log. intros y. unfold inl, ins, inc, inq, core, write, UpdateTransactionMetadata.
  destruct (forallb _ _); [|done].
  change (map bare (map (merge_metadata (t_TransactionID t)
    {["BLNK_FUND_ALLOCATION" := MList (m :: l)]}) (db_transactions (l_db y)))
    = map bare (db_transactions (l_db y))). apply bare_merge.
Qed.

Lemma rowless_release E locker y : rows_of (inl (releaseLock E locker) y).1 = rows_of y.
Proof. unfold rows_of. by rewrite release_tables. Qed.

(** Earlier releases are counted in full. *)
Lemma prior_releases_value ref ms y y' z :
  prior_releases ref ms y = (y', Ok z) → z = released (rows_of y) ref ms ∧ rows_of y' = rows_of y.
Proof.
  revert y y' z. induction ms as [|m ms IH]; intros y y' z; cbn [prior_releases]; cbv zeta.
  { intros [= <- <-]. done. }
  set (rf := releaseReference ref (lm_Provider m)). intros E.
  apply prog_bind_Ok in E as (y1 & ex & E1 & E). injection E1 as <- <-.
  apply prog_bind_Ok in E as (y2 & here & E2 & E).
  apply prog_bind_Ok in E as (y3 & rest & E3 & E). injection E as <- <-.
  set (yr := {| l_sys := _; l_mappings := _; l_identities := _ |}) in E2.
  assert (Hr : rows_of yr = rows_of y) by done.
  assert (Hh : here = amount_by_ref (rows_of y) rf ∧ rows_of y2 = rows_of y).
  { revert E2. unfold amount_by_ref. change (rows_of y) with (map bare (db_transactions (l_db y))).
    assert (Hfind : List.find (λ r, String.eqb (t_Reference r) rf) (map bare (db_transactions (l_db y)))
      = bare <$> List.find (λ r, String.eqb (t_Reference r) rf) (db_transactions (l_db y))).
    { induction (db_transactions (l_db y)) as [|r l IHl]; [done|]. cbn [map List.find].
      replace (t_Reference (bare r)) with (t_Reference r) by (by destruct r).
      destruct (String.eqb (t_Reference r) rf); [done|exact IHl]. }
    rewrite Hfind. clear Hfind. unfold TransactionExistsByRef.
    destruct (existsb _ _) eqn:Ex.
    - intros E2. apply prog_bind_Ok in E2 as (y4 & prior & E4 & E2). unfold ctx_err in E4.
      apply map_err_Ok in E4. unfold lread, inl, ins, inc, inq, core, read in E4.
      unfold GetTransactionByRef in E4. change (db_transactions (w_db (q_core (s_world (l_sys yr)))))
        with (db_transactions (l_db y)) in E4.
      destruct (List.find _ (db_transactions (l_db y))) as [r|]; [|discriminate E4].
      injection E4 as <- <-. unfold deref in E2. cbn [fmap option_fmap option_map].
      replace (t_PreciseAmount _) with (t_PreciseAmount r) in E2 by (by destruct r).
      replace (t_PreciseAmount (bare r)) with (t_PreciseAmount r) by (by destruct r).
      destruct (t_PreciseAmount r) as [p|]; [|discriminate E2]. injection E2 as <- <-. done.
    - intros [= <- <-]. split; [|done]. destruct (List.find _ (db_transactions (l_db y))) as [r|] eqn:Ef; [|done].
      apply List.find_some in Ef as [Hin Heq]. rewrite existsb_false in Ex.
      specialize (Ex r). cbv beta in Ex. rewrite Heq in Ex. discriminate Ex. by apply list_elem_of_In. }
  destruct Hh as [-> Hy2]. apply IH in E3 as [-> Hy3]. rewrite Hy3, Hy2. split; [|done].
  unfold released. cbn [sumZ]. done.
Qed.

Lemma source_of_funded balances m s : s ∈ source_of balances m → 0 < ls_Balance s.
Proof.
  unfold source_of. destruct (balances !! _) as [b|]; [|by intros ?%elem_of_nil].
  destruct (b_DebitBalance b) as [debit|]; [|by intros ?%elem_of_nil].
  destruct (b_CreditBalance b) as [credit|]; [|by intros ?%elem_of_nil].
  destruct (_ && _) eqn:Eb; [|by intros ?%elem_of_nil]. zbool.
  intros ->%list_elem_of_singleton. done.
Qed.

Lemma lineage_sources_funded d ms : funded (getLineageSources d ms).
Proof.
  unfold funded, getLineageSources, lineage_sources. apply Forall_forall. intros s Hs.
  apply list_elem_of_In, in_flat_map in Hs as (m & _ & Hs). eapply source_of_funded. by apply list_elem_of_In.
Qed.

Lemma find_mapping ms id m : findMappingByShadowID ms id = Some m → m ∈ ms ∧ lm_ShadowBalanceID m = id.
Proof.
  intros [Hin E]%List.find_some. split; [by apply list_elem_of_In|by apply String.eqb_eq].
Qed.

(** The rows a release adds, and what they are worth. *)
Lemma release_step E t a m ms source aggregate (y : lsys) :
  NoDup (map lm_Provider ms) → m ∈ ms → 0 < al_Amount a →
  let res := queueReleaseTransaction E t a m source aggregate y in
  released (rows_of y) (t_Reference t) ms <= released (rows_of res.1) (t_Reference t) ms
    <= released (rows_of y) (t_Reference t) ms + al_Amount a
  ∧ (is_ok res.2 = true →
     released (rows_of res.1) (t_Reference t) ms
     = released (rows_of y) (t_Reference t) ms + al_Amount a
     ∧ ∃ row, rows_of res.1 = rows_of y ++ [row]
              ∧ t_Reference row = releaseReference (t_Reference t) (lm_Provider m)).
Proof.
  intros Hnd Hm Ha res. subst res. unfold queueReleaseTransaction.
  pose proof (queue_own_rows E (release_txn t a m source aggregate) (al_Amount a) y
    eq_refl eq_refl eq_refl eq_refl Ha) as Hr.
  destruct (queue_own E (release_txn t a m source aggregate) y) as [y1 r]. cbn [fst snd] in *.
  destruct Hr as [[-> ->]|(row & -> & Er & Ep & Hf)]; [split; [lia|done]|].
  change (t_Reference (release_txn t a m source aggregate))
    with (releaseReference (t_Reference t) (lm_Provider m)) in *.
  rewrite <- Er in Hf.
  rewrite (released_new _ row _ ms m (al_Amount a) Hnd Hm Er Ep Hf). split; [lia|].
  intros _. split; [done|]. by exists row.
Qed.

(** Rows of the destination are not releases. *)
Lemma destination_step E t a m source destination prepared ms (y : lsys) :
  0 < al_Amount a →
  let y' := (processDestinationLineage E t a m source destination prepared y).1 in
  released (rows_of y') (t_Reference t) ms = released (rows_of y) (t_Reference t) ms
  ∧ ∃ new, rows_of y' = rows_of y ++ new
      ∧ ∀ row p, row ∈ new → t_Reference row ≠ releaseReference (t_Reference t) p.
Proof.
  intros Ha y'. subst y'. unfold processDestinationLineage.
  assert (Hid : ∀ y1 : lsys, rows_of y1 = rows_of y →
    released (rows_of y1) (t_Reference t) ms = released (rows_of y) (t_Reference t) ms
    ∧ ∃ new, rows_of y1 = rows_of y ++ new
      ∧ ∀ row p, row ∈ new → t_Reference row ≠ releaseReference (t_Reference t) p).
  { intros y1 ->. split; [done|]. exists []. rewrite app_nil_r. split; [done|]. by intros ? ? ?%elem_of_nil. }
  destruct destination as [dest|]; [|by apply Hid]. destruct prepared as [infos|]; [|by apply Hid].
  destruct (negb _); [by apply Hid|].
  destruct (infos !! lm_Provider m) as [[shadow aggregate]|]; [|by apply Hid].
  rewrite rows_then by (intros _; apply rowless_err, rowless_upsert).
  unfold ctx_err. rewrite map_err_state. unfold queueReceiveTransaction.
  destruct (queue_own_rows E (receive_txn t a m source dest shadow aggregate) (al_Amount a) y
    eq_refl eq_refl eq_refl eq_refl Ha) as [[Hr _]|(row & Hr & Er & _)]; [by apply Hid|].
  assert (Hne : ∀ p, t_Reference row ≠ releaseReference (t_Reference t) p).
  { intros p E0. rewrite Er in E0. symmetry in E0. exact (release_receive _ _ _ E0). }
  rewrite Hr, released_other by (intros m'; apply Hne). split; [done|]. exists [row]. split; [done|].
  intros r2 p ->%list_elem_of_singleton. apply Hne.
Qed.


(** One allocation of the loop. *)
Definition allocate_one (E : lenv) (t : Transaction) (a : Allocation) (ms : list LineageMapping)
    (source : Balance) (destination : option Balance) (aggregate : Balance)
    (prepared : option (gmap string (Balance * Balance))) : L unit :=
  if al_Amount a =? 0 then mret tt
  else
    match findMappingByShadowID ms (al_BalanceID a) with
    | None => mret tt
    | Some m =>
        exists_ ← lread (λ d, Ok (TransactionExistsByRef d (releaseReference (t_Reference t) (lm_Provider m))));
        if exists_ : bool then mret tt
        else
          _ ← ctx_err "failed to queue release transaction"
                (queueReleaseTransaction E t a m source aggregate);
          ctx_err "failed to process destination lineage"
            (processDestinationLineage E t a m source destination prepared)
    end.

Lemma processAllocations_cons E t a al ms s d agg p :
  processAllocations E t (a :: al) ms s d agg p
  = (_ ← allocate_one E t a ms s d agg p; processAllocations E t al ms s d agg p).
Proof. done. Qed.

Lemma exists_in_rows (y : lsys) ref :
  TransactionExistsByRef (l_db y) ref = existsb (λ r, String.eqb (t_Reference r) ref) (rows_of y).
Proof.
  unfold TransactionExistsByRef. change (rows_of y) with (map bare (db_transactions (l_db y))).
  induction (db_transactions (l_db y)) as [|r l IH]; [done|]. cbn. rewrite IH. by destruct r.
Qed.

Definition no_ref (l : list Transaction) (ref : string) : Prop := ∀ x, x ∈ l → t_Reference x ≠ ref.

Lemma no_ref_exists (y : lsys) ref : no_ref (rows_of y) ref ↔ TransactionExistsByRef (l_db y) ref = false.
Proof.
  rewrite exists_in_rows, existsb_false. unfold no_ref.
  split; intros Hn x Hx; [by apply String.eqb_neq, Hn|apply String.eqb_neq; by apply Hn].
Qed.

Lemma lread_bind {A B} (f : db → result A) (g : A → L B) y :
  (lread f ≫= g) y = match f (l_db y) with Ok a => g a y | Err e => (y, Err e) end.
Proof. destruct y as [[[? ?] ?] ? ?]. reflexivity. Qed.

(** It is worth at most its amount; when it succeeds on a provider that has no
    release yet, exactly that, and releases of other providers stay absent. *)
Lemma allocate_one_step E t a ms source destination aggregate prepared (y : lsys) :
  NoDup (map lm_Provider ms) → 0 < al_Amount a →
  let res := allocate_one E t a ms source destination aggregate prepared y in
  let ref := t_Reference t in
  released (rows_of y) ref ms <= released (rows_of res.1) ref ms
    <= released (rows_of y) ref ms + al_Amount a
  ∧ ∀ m, findMappingByShadowID ms (al_BalanceID a) = Some m → is_ok res.2 = true →
      no_ref (rows_of y) (releaseReference ref (lm_Provider m)) →
      released (rows_of res.1) ref ms = released (rows_of y) ref ms + al_Amount a
      ∧ ∀ p, p ≠ lm_Provider m → no_ref (rows_of y) (releaseReference ref p) →
             no_ref (rows_of res.1) (releaseReference ref p).
Proof.
  intros Hnd Ha res ref. subst res. unfold allocate_one. rewrite (proj2 (Z.eqb_neq _ _)) by lia.
  destruct (findMappingByShadowID ms (al_BalanceID a)) as [m|] eqn:Em; [|split; [cbn; lia|done]].
  apply find_mapping in Em as [Hm _].
  rewrite lread_bind.
  destruct (TransactionExistsByRef (l_db y) (releaseReference ref (lm_Provider m))) eqn:Ex.
  { fold ref. rewrite Ex. split; [cbn; lia|]. intros m1 [= <-] _ Hno. apply no_ref_exists in Hno. congruence. }
  destruct (release_step E t a m ms source aggregate y Hnd Hm Ha) as [Hb Hok].
  fold ref. rewrite Ex. unfold mbind, prog_bind, ctx_err, map_err. fold ref in Hb, Hok.
  destruct (queueReleaseTransaction E t a m source aggregate y) as [y1 [u|e]]; cbn [fst snd is_ok] in *;
    [|split; [exact Hb|done]].
  destruct (Hok eq_refl) as (Eq & row & Er & Rr).
  destruct (destination_step E t a m source destination prepared ms y1 Ha) as (Ed & new & En & Hnew).
  fold ref in Ed, Hnew.
  destruct (processDestinationLineage E t a m source destination prepared y1) as [y2 [u2|e2]];
    cbn [fst snd is_ok] in *; rewrite Ed.
  - split; [lia|]. intros m1 [= <-] _ _. split; [done|]. intros p Hp Hno x Hx.
    rewrite En, Er in Hx. apply elem_of_app in Hx as [[Hx|Hx]%elem_of_app|Hx]; [by apply Hno| |by apply Hnew].
    apply list_elem_of_singleton in Hx as ->. rewrite Rr. intros E0%release_ref_inj. congruence.
  - split; [lia|done].
Qed.

Lemma allocations_bound E t al ms source destination aggregate prepared (y : lsys) :
  NoDup (map lm_Provider ms) → Forall (λ a, 0 < al_Amount a) al →
  let y' := (processAllocations E t al ms source destination aggregate prepared y).1 in
  released (rows_of y) (t_Reference t) ms <= released (rows_of y') (t_Reference t) ms
    <= released (rows_of y) (t_Reference t) ms + sumZ al_Amount al.
Proof.
  intros Hnd Hal. revert y. induction Hal as [|a al Ha Hal IH]; intros y; [cbn; lia|].
  rewrite processAllocations_cons, (sumZ_cons al_Amount). unfold mbind, prog_bind.
  destruct (allocate_one_step E t a ms source destination aggregate prepared y Hnd Ha) as [Hb _].
  assert (Hs : 0 <= sumZ al_Amount al) by (clear -Hal; induction Hal; cbn [sumZ]; lia).
  destruct (allocate_one E t a ms source destination aggregate prepared y) as [y1 [u|e]];
    cbn [fst] in *; [specialize (IH y1)|]; lia.
Qed.

Lemma allocations_complete E t al ms source destination aggregate prepared (y y' : lsys) u :
  NoDup (map lm_Provider ms) → Forall (λ a, 0 < al_Amount a) al → NoDup (map al_BalanceID al) →
  Forall (λ a, ∃ m, findMappingByShadowID ms (al_BalanceID a) = Some m
                    ∧ no_ref (rows_of y) (releaseReference (t_Reference t) (lm_Provider m))) al →
  processAllocations E t al ms source destination aggregate prepared y = (y', Ok u) →
  released (rows_of y') (t_Reference t) ms = released (rows_of y) (t_Reference t) ms + sumZ al_Amount al.
Proof.
  intros Hnd Hal. revert y. induction Hal as [|a al Ha Hal IH]; intros y Hid Hfr.
  { intros [= <- _]. cbn. lia. }
  rewrite processAllocations_cons, (sumZ_cons al_Amount). unfold mbind, prog_bind.
  apply Forall_cons in Hfr as [(m & Em & Hno) Hfr]. cbn [map] in Hid. apply NoDup_cons in Hid as [Hx Hid].
  destruct (allocate_one_step E t a ms source destination aggregate prepared y Hnd Ha) as [_ Hok].
  destruct (allocate_one E t a ms source destination aggregate prepared y) as [y1 [u1|e]]; [|done].
  cbn [fst snd] in Hok. destruct (Hok m Em eq_refl Hno) as [Er Hkeep].
  intros Ep. rewrite (IH y1 Hid); [lia| |exact Ep].
  rewrite Forall_forall in Hfr |- *. intros a2 Ha2. destruct (Hfr a2 Ha2) as (m2 & Em2 & Hno2).
  exists m2. split; [done|]. apply Hkeep; [|done]. intros Epr.
  apply find_mapping in Em as [Hm Hs], Em2 as [Hm2 Hs2].
  rewrite (NoDup_map_eq lm_Provider ms m2 m) in Hs2 by done. apply Hx. rewrite <- Hs, Hs2.
  by apply list_elem_of_fmap_2.
Qed.


Lemma drawn_positive sources al : drawn sources al → Forall (λ a, 0 < al_Amount a) al.
Proof. intros (taken & _ & Hf). induction Hf as [|s a ? ? [_ Ha] Hf IH]; constructor; [lia|done]. Qed.

Lemma drawn_ids sources al :
  drawn sources al → sublist (map al_BalanceID al) (map ls_BalanceID sources).
Proof.
  intros (taken & Hs & Hf).
  assert (map al_BalanceID al = map ls_BalanceID taken) as ->.
  { induction Hf as [|s a ? ? [Ei _] Hf IH]; [done|]. cbn. by rewrite Ei, (IH (transitivity (sublist_cons _ _ _ (reflexivity _)) Hs)). }
  by apply (fmap_sublist ls_BalanceID).
Qed.

Lemma sources_ids balances ms :
  sublist (map ls_BalanceID (lineage_sources balances ms)) (map lm_ShadowBalanceID ms).
Proof.
  unfold lineage_sources. induction ms as [|m ms IH]; [constructor|]. cbn [flat_map map].
  rewrite map_app. apply (sublist_app _ [lm_ShadowBalanceID m] _ _); [|exact IH].
  unfold source_of. destruct (balances !! _) as [b|]; [|constructor; constructor].
  destruct (b_DebitBalance b); [|constructor; constructor].
  destruct (b_CreditBalance b); [|constructor; constructor].
  destruct (_ && _); [done|constructor; constructor].
Qed.

Lemma find_shadow ms id :
  id ∈ map lm_ShadowBalanceID ms → ∃ m, findMappingByShadowID ms id = Some m ∧ m ∈ ms.
Proof.
  intros (m & -> & Hm)%list_elem_of_fmap.
  destruct (findMappingByShadowID ms (lm_ShadowBalanceID m)) as [m'|] eqn:Ef.
  - exists m'. split; [done|]. by apply find_mapping in Ef as [? _].
  - unfold findMappingByShadowID in Ef. pose proof (List.find_none _ _ Ef m) as Hn. cbv beta in Hn.
    rewrite String.eqb_refl in Hn. discriminate Hn. by apply list_elem_of_In.
Qed.

(** The allocation of a debit from the shadows of its mappings. *)
Lemma debit_allocation d ms amount strategy :
  0 < amount →
  let al := calculateAllocation (getLineageSources d ms) amount strategy in
  Forall (λ a, 0 < al_Amount a) al ∧ sumZ al_Amount al <= amount
  ∧ (String.eqb strategy AllocationProp = false →
     sumZ al_Amount al = Z.min amount (sumZ ls_Balance (getLineageSources d ms)))
  ∧ (NoDup (map lm_ShadowBalanceID ms) → NoDup (map al_BalanceID al))
  ∧ ∀ a, a ∈ al → al_BalanceID a ∈ map lm_ShadowBalanceID ms.
Proof.
  intros Ha al. pose proof (lineage_sources_funded d ms) as Hf.
  set (sources := getLineageSources d ms) in *.
  destruct (allocation_spec sources amount strategy Hf Ha) as (Hp & Hd & Hs). fold al in Hd, Hs.
  assert (Hids : ∀ x, x ∈ map al_BalanceID al → x ∈ map ls_BalanceID sources).
  { intros x Hx. rewrite <- (Permutation_map ls_BalanceID Hp). eapply sublist_subseteq; [by apply drawn_ids|done]. }
  split; [by eapply drawn_positive|]. split; [destruct (String.eqb _ _); lia|].
  split; [intros E; rewrite E in Hs; apply Hs|]. split.
  - intros Hnd. eapply sublist_NoDup; [|by apply drawn_ids].
    rewrite (Permutation_map ls_BalanceID Hp). eapply sublist_NoDup; [exact Hnd|apply sources_ids].
  - intros a Hin. eapply sublist_subseteq; [apply sources_ids|]. by apply Hids, list_elem_of_fmap_2.
Qed.

Lemma debit_bounds E t ms source destination prepared (y : lsys) amount :
  t_PreciseAmount t = Some amount → NoDup (map lm_Provider ms) →
  let ref := t_Reference t in
  let '(y', r) := debit_locked E t ms source destination prepared y in
  released (rows_of y) ref ms <= released (rows_of y') ref ms
    <= Z.max amount (released (rows_of y) ref ms)
  ∧ (is_ok r = true → 0 < amount → String.eqb (b_AllocationStrategy source) AllocationProp = false →
     NoDup (map lm_ShadowBalanceID ms) →
     Forall (λ m, no_ref (rows_of y) (releaseReference ref (lm_Provider m))) ms →
     released (rows_of y') ref ms
     = Z.min amount (sumZ ls_Balance (getLineageSources (l_db y) ms))).
Proof.
  intros Ha Hnd ref. destruct (debit_locked E t ms source destination prepared y) as [y' r] eqn:Ed.
  unfold debit_locked in Ed. rewrite lread_bind in Ed. unfold remainingDebitAmount in Ed.
  unfold mbind at 1, prog_bind at 1 in Ed. unfold mbind at 1, prog_bind at 1 in Ed.
  destruct (prior_releases (t_Reference t) ms y) as [y1 [z|e]] eqn:Ep.
  2:{ pose proof (rowless_prior (t_Reference t) ms y) as Hr. rewrite Ep in Hr. cbn [fst] in Hr.
      injection Ed as <- <-. rewrite Hr. split; [lia|done]. }
  apply prior_releases_value in Ep as [-> Hr1]. rewrite Ha in Ed. cbn [deref] in Ed.
  unfold mbind at 1, prog_bind at 1, mret, prog_ret in Ed. cbv beta iota in Ed. fold ref in Ed |- *.
  set (before := released (rows_of y) ref ms) in *.
  destruct (Z.leb_spec (amount - before) 0) as [Hle|Hgt].
  { injection Ed as <- <-. rewrite Hr1. split; [fold before; lia|]. intros _ Hpos _ _ Hno.
    assert (before = 0); [|lia]. subst before. unfold released. apply sumZ_zero. intros m Hm.
    unfold amount_by_ref. rewrite find_ref_None; [done|]. rewrite Forall_forall in Hno. by apply Hno. }
  cbv zeta in Ed. set (al := calculateAllocation _ _ _) in Ed.
  destruct (debit_allocation (l_db y) ms (amount - before) (b_AllocationStrategy source) ltac:(lia))
    as (Hal & Hsum & Hexact & Hids & Hin). fold al in Hal, Hsum, Hexact, Hids, Hin.
  unfold mbind at 1, prog_bind at 1 in Ed.
  assert (Hagg : rowless (getSourceAggregateBalance E source)).
  { unfold getSourceAggregateBalance. auto with rowless. }
  specialize (Hagg y1). destruct (getSourceAggregateBalance E source y1) as [y2 [agg|e]]; cbn [fst] in Hagg.
  2:{ injection Ed as <- <-. rewrite Hagg, Hr1. fold before. split; [lia|done]. }
  unfold mbind at 1, prog_bind at 1 in Ed.
  pose proof (allocations_bound E t al ms source destination agg prepared y2 Hnd Hal) as Hb.
  fold ref in Hb. rewrite Hagg, Hr1 in Hb. fold before in Hb.
  destruct (processAllocations E t al ms source destination agg prepared y2) as [y3 [u|e]] eqn:EA;
    cbn [fst] in Hb.
  2:{ injection Ed as <- <-. split; [lia|done]. }
  pose proof (rowless_metadata t al ms y3) as Hm. rewrite Ed in Hm. cbn [fst] in Hm. rewrite Hm.
  split; [lia|]. intros _ Hpos Hstr Hsh Hno.
  assert (Hz : before = 0).
  { subst before. unfold released. apply sumZ_zero. intros m Hm'.
    unfold amount_by_ref. rewrite find_ref_None; [done|]. rewrite Forall_forall in Hno. by apply Hno. }
  assert (Hc : released (rows_of y3) ref ms = released (rows_of y2) ref ms + sumZ al_Amount al).
  { apply (allocations_complete E t al ms source destination agg prepared y2 y3 u Hnd Hal (Hids Hsh)); [|done].
    apply Forall_forall. intros a Hin'. destruct (find_shadow ms _ (Hin a Hin')) as (m & Em & Hm').
    exists m. split; [done|]. fold ref. rewrite Hagg, Hr1. rewrite Forall_forall in Hno. by apply Hno. }
  rewrite Hc, Hagg, Hr1. fold before. rewrite (Hexact Hstr), Hz, Z.sub_0_r. lia.
Qed.

(** The whole debit, locks included. *)
Lemma processLineageDebit_bounded E t source destination (y : lsys) amount :
  t_PreciseAmount t = Some amount →
  let ms := GetLineageMappings y (b_BalanceID source) in
  NoDup (map lm_Provider ms) →
  released (rows_of (processLineageDebit E t source destination y).1) (t_Reference t) ms
  <= Z.max amount (released (rows_of y) (t_Reference t) ms).
Proof.
  intros Ha ms Hnd. unfold processLineageDebit. fold ms. destruct ms as [|m ms'] eqn:Em.
  { destruct (HasPendingCreditOutbox _ _); cbn; lia. }
  rewrite <- Em in *. clear Em. unfold mbind at 1, prog_bind at 1.
  pose proof (rowless_prepare E ms destination y) as H1'.
  destruct (prepare_destination E ms destination y) as [y1 [prepared|e]]; cbn [fst] in *;
    [|rewrite H1'; lia].
  unfold mbind, prog_bind.
  match goal with |- context [acquireLineageLocks E ?ks y1] =>
    pose proof (rowless_acquire E ks y1) as H2; destruct (acquireLineageLocks E ks y1) as [y2 [l|e]] end;
    cbn [fst] in *; [|rewrite H2, H1'; lia].
  unfold with_lineage_release.
  pose proof (debit_bounds E t ms source destination prepared y2 amount Ha Hnd) as Hd.
  destruct (debit_locked E t ms source destination prepared y2) as [y3 r]. destruct Hd as [Hd _].
  pose proof (rowless_release (l_exec E) l y3) as H3.
  destruct (inl (releaseLock (l_exec E) l) y3) as [y4 u]. cbn [fst] in *.
  rewrite H3. rewrite H2, H1' in Hd. lia.
Qed.

(** C13. A debit releases what it should and no more.  However often the outbox
    retries it, and whatever fails on the way, the releases recorded for a
    transaction never shrink and never add up to more than its amount.  When a
    first attempt with a sequential strategy succeeds, they add up to exactly
    the amount, or to all that the providers' shadow balances held. *)
Theorem debit_releases E t ms source destination prepared (y : lsys) amount :
  t_PreciseAmount t = Some amount → NoDup (map lm_Provider ms) →
  let ref := t_Reference t in
  let '(y', r) := debit_locked E t ms source destination prepared y in
  released (rows_of y) ref ms <= released (rows_of y') ref ms
    <= Z.max amount (released (rows_of y) ref ms)
  ∧ (is_ok r = true → 0 < amount → String.eqb (b_AllocationStrategy source) AllocationProp = false →
     NoDup (map lm_ShadowBalanceID ms) →
     Forall (λ m, no_ref (rows_of y) (releaseReference ref (lm_Provider m))) ms →
     released (rows_of y') ref ms
     = Z.min amount (sumZ ls_Balance (getLineageSources (l_db y) ms))).
Proof. apply debit_bounds. Qed.

(** A shadow credit is posted once, so an entry whose credit was recorded cannot
    be processed again: its retry fails before it reaches the debit. *)
Lemma credit_not_retriable E t dest provider (y : lsys) p :
  t_PreciseAmount t = Some p → 0 < p →
  ¬ no_ref (rows_of y) (t_Reference t +:+ "_shadow_" +:+ provider) →
  is_ok (processLineageCredit E t dest provider y).2 = false.
Proof.
  intros Hp Hpos Hex. unfold processLineageCredit. cbv zeta. destruct (String.eqb _ _); [done|].
  unfold mbind at 1, prog_bind at 1. unfold getOrCreateLineageBalances.
  match goal with |- context [lineage_balances ?a ?b ?c ?d ?e ?f ?g y] =>
    assert (Hr : rowless (lineage_balances a b c d e f g)) by (unfold lineage_balances; auto 10 with rowless);
    specialize (Hr y); destruct (lineage_balances a b c d e f g y) as [y1 [[shadow aggregate]|e1]] end;
    cbn [fst] in Hr; [|done].
  unfold mbind at 1, prog_bind at 1.
  match goal with |- context [acquireLineageLocks E ?ks y1] => pose proof (rowless_acquire E ks y1) as Hr2;
    destruct (acquireLineageLocks E ks y1) as [y2 [l|e2]] end; cbn [fst] in Hr2; [|done].
  unfold with_lineage_release, queueShadowCreditTransaction. rewrite Hp. cbn [deref].
  unfold mbind at 1, prog_bind at 1. unfold mbind at 1, prog_bind at 1, mret, prog_ret.
  unfold ctx_err, map_err.
  destruct (queue_own_rows E (shadow_credit t p dest provider shadow aggregate (b_IdentityID dest)) p y2
    eq_refl eq_refl eq_refl eq_refl Hpos) as [[_ Hok]|(row & _ & _ & _ & Hf)].
  - destruct (queue_own E _ y2) as [y3 [u|e3]]; [discriminate Hok|].
    by destruct (inl _ y3) as [y4 u4].
  - destruct Hex. rewrite <- Hr, <- Hr2. exact Hf.
Qed.

(** Without a mapping the debit finds nothing to release and says so to nobody;
    a failed upsert of the mapping is therefore not harmless. *)
Lemma unmapped_debit_is_skipped E t source destination (y : lsys) :
  GetLineageMappings y (b_BalanceID source) = [] →
  HasPendingCreditOutbox (l_db y) (b_BalanceID source) = false →
  processLineageDebit E t source destination y = (y, Ok tt).
Proof. intros Em Eh. unfold processLineageDebit. by rewrite Em, Eh. Qed.

End debit.


(** ** Concrete runs *)

Definition ex_tracked (id identity strategy : string) : Balance :=
  empty_balance <| b_BalanceID := id |> <| b_Currency := "USD" |> <| b_LedgerID := GeneralLedgerID |>
    <| b_TrackFundLineage := true |> <| b_IdentityID := identity |> <| b_AllocationStrategy := strategy |>
    <| b_Balance := Some 0 |> <| b_CreditBalance := Some 0 |> <| b_DebitBalance := Some 0 |>
    <| b_InflightBalance := Some 0 |> <| b_InflightCreditBalance := Some 0 |>
    <| b_InflightDebitBalance := Some 0 |>.

Definition ex_tracking (strategy : string) : lsys :=
  mkL (mkSys (mkQ (mkWorld (mkDB (<["bln_a" := ex_tracked "bln_a" "idt_ann" strategy]>
                                    (<["bln_b" := ex_tracked "bln_b" "idt_bob" "FIFO"]> ∅)) [] []) ∅ 0)
             no_tasks) [])
    [] (<["idt_ann" := mkIdentity "idt_ann" "Ann" "Lee" ""]>
         (<["idt_bob" := mkIdentity "idt_bob" "Bob" "Ray" ""]> ∅)).

(** [refuse] is a reference the pre-hook turns down. *)
Definition ex_lenv (nw : time) (refuse : string) : lenv :=
  mkLEnv (mkSEnv (mkQEnv (mkEnv false 1800 0 nw (λ m n, m +:+ "_" +:+ Z_to_string (Z.of_nat n))
    (λ t, if String.eqb (t_Reference t) refuse then Some (ENew "not now") else None)
    (Lock.mkEnvironment (λ _, 0) (λ _, false) (λ _, Lock.no_faults) (λ _ s, s)) None (λ _ _, None))
    false 0 false None (λ _, None)) TaskQueue.ex_config 100 100 1 (λ _, true))
    100 30 Lock.no_faults (λ _, None).

Definition ex_move (ref source destination provider : string) (amount : Z) : Transaction :=
  empty_transaction <| t_Reference := ref |> <| t_Source := source |> <| t_Destination := destination |>
    <| t_Currency := "USD" |> <| t_PreciseAmount := Some amount |> <| t_Precision := Float64.of_Z 100 |>
    <| t_AllowOverdraft := true |> <| t_SkipQueue := true |>
    <| t_MetaData := {["BLNK_LINEAGE_PROVIDER" := MStr provider]} |>.

Definition ex_post (nw : time) (t : Transaction) (y : lsys) : lsys := (queue_own (ex_lenv nw "-") t y).1.
Definition ex_batch (nw : time) (refuse : string) (y : lsys) : lsys :=
  (processBatch (ex_lenv nw refuse) y).1.

(** 300 from acme and 200 from beta arrive at Ann, who then pays 400 to Bob. *)
Definition ex_credited (strategy : string) (first second : Z) : lsys :=
  ex_batch 30 "-" (ex_post 20 (ex_move "dep2" "@world" "bln_a" "beta" second)
                (ex_post 10 (ex_move "dep1" "@world" "bln_a" "acme" first) (ex_tracking strategy))).
Definition ex_paid : lsys :=
  ex_post 40 (ex_move "pay" "bln_a" "bln_b" "" 400) (ex_credited "FIFO" 300 200).

(** What is recorded under a reference, and how the entries ended. *)
Definition ex_amounts (y : lsys) (refs : list string) : list Z :=
  map (amount_by_ref (rows_of y)) refs.
Definition ex_entries (y : lsys) : list (string * Z) :=
  map (λ o, (o_Status o, o_Attempts o)) (db_outbox (l_db y)).

Definition ex_done : lsys := ex_batch 50 "-" ex_paid.


(** The receive of a provider that failed once is never posted: the retry finds
    the release and passes over the provider, and the entry is completed. *)
Lemma interrupted_receive_lost :
  ex_amounts (ex_batch 60 "-" (ex_batch 50 "pay_receive_acme" ex_paid))
    ["pay_release_acme"; "pay_receive_acme"; "pay_release_beta"; "pay_receive_beta"]
  = [300; 0; 100; 100]
  ∧ ex_entries (ex_batch 60 "-" (ex_batch 50 "pay_receive_acme" ex_paid))
    = [("completed", 0); ("completed", 0); ("completed", 1)].
Proof. vm_compute. by split. Qed.

(** A proportional debit that failed half-way is shared out anew on the retry,
    part of it to the provider already served, where it is dropped: 84 of 100
    are released although the shadows hold enough. *)
Definition ex_shared : lsys :=
  ex_batch 60 "-" (ex_batch 50 "pay_release_beta"
    (ex_post 40 (ex_move "pay" "bln_a" "bln_b" "" 100) (ex_credited AllocationProp 100 100))).

Lemma interrupted_proportional_debit :
  ex_amounts ex_shared ["pay_release_acme"; "pay_release_beta"] = [50; 34]
  ∧ ex_entries ex_shared = [("completed", 0); ("completed", 0); ("completed", 1)].
Proof. vm_compute. by split. Qed.

(** An entry with both parts whose debit failed once ends as failed: its retries
    stop at the credit, and nothing is ever released. *)
Definition ex_both : lsys :=
  foldl (λ y nw, ex_batch nw "-" y)
    (ex_batch 50 "pay_release_acme"
      (ex_post 40 (ex_move "pay" "bln_a" "bln_b" "acme" 100) (ex_credited "FIFO" 300 200)))
    [60; 70; 80; 90].

Lemma interrupted_both_entry :
  ex_amounts ex_both ["pay_shadow_acme"; "pay_release_acme"; "pay_release_beta"] = [100; 0; 0]
  ∧ ex_entries ex_both = [("completed", 0); ("completed", 0); ("failed", 5)].
Proof. vm_compute. by split. Qed.

(** Ids are a prefix and a UUID, so their first eight characters hold four
    digits of it: two people of one name can share the balances that are to
    tell whose money it is. *)
Lemma identity_identifier_collides :
  getIdentityIdentifier (mkIdentity "idt_1a2b3c4d" "Ann" "Lee" "")
  = getIdentityIdentifier (mkIdentity "idt_1a2b9f8e" "Ann" "Lee" "").
Proof. by vm_compute. Qed.

#[local] Instance entry_ok_dec o : Decision (entry_ok o).
Proof. unfold entry_ok. apply _. Defined.


Definition ex_payment_row : Transaction :=
  match GetTransactionByRef (l_db ex_paid) "pay" with Ok t => t | Err _ => empty_transaction end.
Definition ex_payer : Balance :=
  match GetBalanceByIDLite (l_db ex_paid) "bln_a" with Ok b => b | Err _ => empty_balance end.

Lemma debit_releases_witness :
  let ms := GetLineageMappings ex_paid "bln_a" in
  let '(y', r) := debit_locked (ex_lenv 50 "-") ex_payment_row ms ex_payer None None ex_paid in
  is_ok r = true ∧ released (rows_of ex_paid) "pay" ms = 0
  ∧ released (rows_of ex_paid) "pay" ms <= released (rows_of y') "pay" ms <= 400.
Proof.
  assert (Ha : t_PreciseAmount ex_payment_row = Some 400) by (vm_compute; reflexivity).
  assert (Hnd : NoDup (map lm_Provider (GetLineageMappings ex_paid "bln_a"))).
  { match goal with |- ?P => refine (bool_decide_eq_true_1 P _) end. vm_compute. reflexivity. }
  pose proof (debit_releases (ex_lenv 50 "-") ex_payment_row (GetLineageMappings ex_paid "bln_a") ex_payer
    None None ex_paid 400 Ha Hnd) as Hd.
  assert (Hr : t_Reference ex_payment_row = "pay") by (vm_compute; reflexivity). rewrite Hr in Hd.
  assert (Hz : released (rows_of ex_paid) "pay" (GetLineageMappings ex_paid "bln_a") = 0) by (vm_compute; reflexivity).
  assert (Hok : is_ok (debit_locked (ex_lenv 50 "-") ex_payment_row (GetLineageMappings ex_paid "bln_a")
    ex_payer None None ex_paid).2 = true) by (vm_compute; reflexivity).
  cbv zeta in Hd |- *.
  destruct (debit_locked (ex_lenv 50 "-") ex_payment_row (GetLineageMappings ex_paid "bln_a")
    ex_payer None None ex_paid) as [y' r]. split; [exact Hok|]. split; [exact Hz|].
  destruct Hd as [Hd _]. rewrite Hz in Hd |- *. exact Hd.
Defined.
End Lineage.
