(* ===== verification/Matching.v ===== *)
(** Matching rules of a reconciliation (the pure half of reconciliation.go,
    model/reconciliation_model.go)

    When an external transaction and an internal one, or a group of them,
    satisfy a rule; which rules are accepted; the bounds within which the
    database is searched for candidates.  The edit distance of two strings
    comes from a library and is an interface. *)
From S2P Require Import Prelude Float64 Decimal Types Time.

Module Matching.

(** ** Data *)

Record MatchingCriteria := mkCriteria {
  mc_Field : string;
  mc_Operator : string;
  mc_Value : string;
  mc_Pattern : string;
  mc_AllowableDrift : float64;
}.

Record MatchingRule := mkRule {
  mr_RuleID : string;
  mr_CreatedAt : time;
  mr_UpdatedAt : time;
  mr_Name : string;
  mr_Description : string;
  mr_Criteria : list MatchingCriteria;
}.
#[export] Instance MatchingRule_eta : Eta MatchingRule := λ r,
  mkRule (mr_RuleID r) (mr_CreatedAt r) (mr_UpdatedAt r) (mr_Name r) (mr_Description r)
    (mr_Criteria r).

#[export] Instance MatchingCriteria_eq_dec : EqDecision MatchingCriteria.
Proof. solve_decision. Defined.
#[export] Instance MatchingRule_eq_dec : EqDecision MatchingRule.
Proof. solve_decision. Defined.

(** [ToInternalTransaction] *)
Definition ToInternalTransaction (e : ExternalTransaction) : Transaction :=
  empty_transaction <| t_TransactionID := e_ID e |>
    <| t_Amount := e_Amount e |>
    <| t_Reference := e_Reference e |>
    <| t_Currency := e_Currency e |>
    <| t_CreatedAt := e_Date e |>
    <| t_Description := e_Description e |>.

(** The edit distance of the Levenshtein package, substitutions at cost one. *)
Class Levenshtein := { DistanceForStrings : string → string → nat }.

(** ** Validation of rules *)

Definition validateOperator (operator : string) : result unit :=
  fail_if (negb (existsb (String.eqb operator) ["equals"; "greater_than"; "less_than"; "contains"]))
    (ENew "invalid operator").

Definition validateField (field : string) : result unit :=
  fail_if (negb (existsb (String.eqb field) ["amount"; "date"; "description"; "reference"; "currency"]))
    (ENew "invalid field").

Definition validateDrift (c : MatchingCriteria) : result unit :=
  if String.eqb (mc_Operator c) "equals" then
    if String.eqb (mc_Field c) "amount" then
      fail_if (Float64.ltb (mc_AllowableDrift c) Float64.zero
               || Float64.gtb (mc_AllowableDrift c) (Float64.of_Z 1))
        (ENew "drift for amount must be between 0 and 1 (fraction, e.g. 0.01 = 1%)")
    else if String.eqb (mc_Field c) "date" then
      fail_if (Float64.ltb (mc_AllowableDrift c) Float64.zero)
        (ENew "drift for date must be non-negative (seconds)")
    else Ok tt
  else Ok tt.

Definition validateCriteria (c : MatchingCriteria) : result unit :=
  _ ← fail_if (String.eqb (mc_Field c) "" || String.eqb (mc_Operator c) "")
        (ENew "field and operator are required for each criteria");
  _ ← validateOperator (mc_Operator c);
  _ ← validateField (mc_Field c);
  validateDrift c.

Definition validateRuleBasics (r : MatchingRule) : result unit :=
  _ ← fail_if (String.eqb (mr_Name r) "") (ENew "rule name is required");
  fail_if (bool_decide (mr_Criteria r = [])) (ENew "at least one matching criteria is required").

Fixpoint validate_all (l : list MatchingCriteria) : result unit :=
  match l with
  | [] => Ok tt
  | c :: l => _ ← validateCriteria c; validate_all l
  end.

Definition validateRule (r : MatchingRule) : result unit :=
  _ ← validateRuleBasics r; validate_all (mr_Criteria r).

(** ** Comparison of fields *)

(** [strings.EqualFold] on the letters of ASCII. *)
Definition EqualFold (a b : string) : bool := String.eqb (to_lower a) (to_lower b).

Section matching.
Context `{Levenshtein}.

Definition partialMatch (str1 str2 : string) (allowableDrift : float64) : bool :=
  let str1 := to_lower str1 in
  let str2 := to_lower str2 in
  if contains str1 str2 || contains str2 str1 then true
  else
    let distance := DistanceForStrings str1 str2 in
    let maxLength := Float64.of_Z (Z.of_nat (Nat.max (String.length str1) (String.length str2))) in
    let maxAllowedDistance :=
      Float64.to_int (Float64.mul maxLength (Float64.div allowableDrift (Float64.of_Z 100))) in
    Z.of_nat distance <=? maxAllowedDistance.

Definition matchesString (externalValue internalValue : string) (c : MatchingCriteria) : bool :=
  if String.eqb (mc_Operator c) "equals" then
    existsb (EqualFold externalValue) (split " | " internalValue)
  else if String.eqb (mc_Operator c) "contains" then
    existsb (λ part, partialMatch externalValue part (mc_AllowableDrift c)) (split " | " internalValue)
  else false.

Definition matchesCurrency (externalValue internalValue : string) (c : MatchingCriteria) : bool :=
  if String.eqb internalValue "MIXED" then true
  else matchesString externalValue internalValue c.

Definition matchesGroupAmount (externalAmount groupAmount : float64) (c : MatchingCriteria) : bool :=
  if String.eqb (mc_Operator c) "equals" then
    let allowableDrift := Float64.mul (Float64.abs groupAmount) (mc_AllowableDrift c) in
    Float64.leb (Float64.abs (Float64.sub externalAmount groupAmount)) allowableDrift
  else if String.eqb (mc_Operator c) "greater_than" then Float64.gtb externalAmount groupAmount
  else if String.eqb (mc_Operator c) "less_than" then Float64.ltb externalAmount groupAmount
  else false.

(** [Time.Sub] saturates at the range of a duration. *)
Definition time_sub (t u : time) : Z := Z.max (- 2 ^ 63) (Z.min (2 ^ 63 - 1) (t - u)).
(** [Duration.Seconds] *)
Definition seconds (d : Z) : float64 :=
  Float64.add (Float64.of_Z (Z.quot d 1000000000))
    (Float64.div (Float64.of_Z (Z.rem d 1000000000)) (Float64.of_Z 1000000000)).

Definition matchesGroupDate (externalDate groupEarliestDate : time) (c : MatchingCriteria) : bool :=
  let op := String.eqb (mc_Operator c) in
  if op "equals" then
    Float64.leb (Float64.abs (seconds (time_sub externalDate groupEarliestDate)))
      (mc_AllowableDrift c)
  else if op "after" || op "greater_than" then time_after externalDate groupEarliestDate
  else if op "before" || op "less_than" then time_before externalDate groupEarliestDate
  else false.

Definition criterion_met (externalTxn groupTxn : Transaction) (c : MatchingCriteria) : bool :=
  let field := String.eqb (mc_Field c) in
  if field "amount" then matchesGroupAmount (t_Amount externalTxn) (t_Amount groupTxn) c
  else if field "date" then matchesGroupDate (t_CreatedAt externalTxn) (t_CreatedAt groupTxn) c
  else if field "description" then
    matchesString (t_Description externalTxn) (t_Description groupTxn) c
  else if field "reference" then matchesString (t_Reference externalTxn) (t_Reference groupTxn) c
  else if field "currency" then matchesCurrency (t_Currency externalTxn) (t_Currency groupTxn) c
  else false.

Definition matchesRules (externalTxn groupTxn : Transaction) (rules : list MatchingRule) : bool :=
  existsb (λ rule, forallb (criterion_met externalTxn groupTxn) (mr_Criteria rule)) rules.

(** ** Groups *)

Definition dominantCurrency (currencies : gset string) : string :=
  match elements currencies with
  | [currency] => currency
  | _ => "MIXED"
  end.

(** The virtual transaction that stands for a group. *)
Definition group_txn (group : list Transaction) : Transaction :=
  let earliest := match group with
                  | [] => 0
                  | t :: group => foldl (λ d t, if time_before (t_CreatedAt t) d then t_CreatedAt t else d)
                                    (t_CreatedAt t) group
                  end in
  empty_transaction
    <| t_Amount := foldl (λ a t, Float64.add a (t_Amount t)) Float64.zero group |>
    <| t_CreatedAt := earliest |>
    <| t_Description := join " | " (map t_Description group) |>
    <| t_Reference := join " | " (map t_Reference group) |>
    <| t_Currency := dominantCurrency (list_to_set (map t_Currency group)) |>.

Definition matchesGroup (externalTxn : Transaction) (group : list Transaction)
    (rules : list MatchingRule) : bool :=
  matchesRules externalTxn (group_txn group) rules.

End matching.

(** ** The bounds of the search *)

Record bounds := mkBounds {
  q_amounts : option (float64 * float64);   (* minAmount, maxAmount *)
  q_dates : option (time * time);           (* minDate, maxDate *)
  q_currency : string;
}.
#[export] Instance bounds_eta : Eta bounds := λ b,
  mkBounds (q_amounts b) (q_dates b) (q_currency b).

(** One criterion widens the bounds found so far. *)
Definition widen (externalTxn : Transaction) (b : bounds) (c : MatchingCriteria) : bounds :=
  if String.eqb (mc_Field c) "amount" && String.eqb (mc_Operator c) "equals" then
    let amt := t_Amount externalTxn in
    let delta := Float64.mul (Float64.abs amt) (mc_AllowableDrift c) in
    let low := Float64.sub amt delta in
    let high := Float64.add amt delta in
    b <| q_amounts := Some (match q_amounts b with
                            | None => (low, high)
                            | Some (lo, hi) => (if Float64.ltb low lo then low else lo,
                                                if Float64.gtb high hi then high else hi)
                            end) |>
  else if String.eqb (mc_Field c) "date" && String.eqb (mc_Operator c) "equals" then
    let drift := wrap_int64 (Float64.to_int (mc_AllowableDrift c) * 1000000000) in
    let low := t_CreatedAt externalTxn - drift in
    let high := t_CreatedAt externalTxn + drift in
    b <| q_dates := Some (match q_dates b with
                          | None => (low, high)
                          | Some (lo, hi) => (if time_before low lo then low else lo,
                                              if time_after high hi then high else hi)
                          end) |>
  else b.

Definition calculateMatchingBounds (externalTxn : Transaction) (rules : list MatchingRule) : bounds :=
  foldl (widen externalTxn) (mkBounds None None (t_Currency externalTxn))
    (flat_map mr_Criteria rules).

(** The [WHERE] clause of [GetTransactionsByCriteria]. *)
Definition within (b : bounds) (r : Transaction) : bool :=
  match q_amounts b with
  | Some (lo, hi) => Float64.leb lo (t_Amount r) && Float64.leb (t_Amount r) hi
  | None => true
  end
  && (String.eqb (q_currency b) "" || String.eqb (t_Currency r) (q_currency b))
  && match q_dates b with
     | Some (lo, hi) => (lo <=? t_CreatedAt r) && (t_CreatedAt r <=? hi)
     | None => true
     end.

(** ** Lemmas *)

(** A separator has a bar in second place. *)
Lemma not_separator c d s : d ≠ "|"%char → String.prefix " | " (String c (String d s)) = false.
Proof.
  intros Hd. cbn [String.prefix]. destruct (ascii_dec " " c); [|done].
  by destruct (ascii_dec "|" d) as [<-|].
Qed.
Lemma not_separator_1 c : String.prefix " | " (String c "") = false.
Proof. cbn [String.prefix]. by destruct (ascii_dec " " c). Qed.

Lemma free_of_head c d s : free_of c (String d s) = true → d ≠ c ∧ free_of c s = true.
Proof. cbn [free_of]. intros [Hd%negb_true_iff Hs]%andb_prop. by apply Ascii.eqb_neq in Hd. Qed.

Lemma split_at_last s : free_of "|" s = true → split_at " | " 0 s = (s, []).
Proof.
  induction s as [|c s IH]; [done|]. intros [_ Hs]%free_of_head. cbn [split_at].
  rewrite IH by done. destruct s as [|d s]; [by rewrite not_separator_1|].
  apply free_of_head in Hs as [Hd _]. by rewrite not_separator.
Qed.

Lemma split_at_next s r : free_of "|" s = true →
  split_at " | " 0 (s +:+ " | " +:+ r)
  = (s, let '(part, parts) := split_at " | " 0 r in part :: parts).
Proof.
  induction s as [|c s IH]; intros Hf.
  - rewrite string_app_nil_l, !string_app_cons, string_app_nil_l. cbn.
    by destruct r, (split_at " | " 0 _).
  - apply free_of_head in Hf as [_ Hs]. rewrite string_app_cons. cbn [split_at].
    rewrite IH by done. destruct s as [|d s].
    + rewrite string_app_nil_l, (string_app_cons " "%char), not_separator; done.
    + apply free_of_head in Hs as [Hd _]. by rewrite string_app_cons, not_separator.
Qed.

(** The parts a group joins are the parts the matcher splits. *)
Lemma split_join l : l ≠ [] → Forall (λ s, free_of "|" s = true) l →
  split " | " (join " | " l) = l.
Proof.
  intros Hne Hf. unfold split.
  enough (∃ p ps, split_at " | " 0 (join " | " l) = (p, ps) ∧ p :: ps = l) as (p & ps & -> & E)
    by done.
  induction Hf as [|s l Hs Hl IH]; [done|]. destruct l as [|s' l].
  - exists s, []. split; [by apply split_at_last|done].
  - destruct IH as (p & ps & E & El); [done|]. exists s, (s' :: l). split; [|done].
    change (join " | " (s :: s' :: l)) with (s +:+ " | " +:+ join " | " (s' :: l)).
    rewrite split_at_next, E by done. by rewrite El.
Qed.

(** A group matches a reference exactly when one of its members carries it. *)
Lemma group_reference_equals `{Levenshtein} ext group c :
  mc_Field c = "reference" → mc_Operator c = "equals" → group ≠ [] →
  Forall (λ t, free_of "|" (t_Reference t) = true) group →
  criterion_met ext (group_txn group) c
  = existsb (λ t, EqualFold (t_Reference ext) (t_Reference t)) group.
Proof.
  intros Hf Ho Hne Hfree. unfold criterion_met. rewrite Hf. cbn [String.eqb Ascii.eqb Bool.eqb].
  unfold matchesString. rewrite Ho. cbn [String.eqb Ascii.eqb Bool.eqb].
  change (t_Reference (group_txn group)) with (join " | " (map t_Reference group)).
  rewrite split_join; [|by destruct group|by apply Forall_map].
  induction group as [|t group IH]; [done|]. cbn. destruct (EqualFold _ _); [done|].
  inversion Hfree; subst. destruct group as [|t' group]; [done|by apply IH].
Qed.

(** ** Valid rules *)

(** What a rule must satisfy to be stored. *)
Definition drift_ok (c : MatchingCriteria) : Prop :=
  mc_Operator c = "equals" →
  (mc_Field c = "amount" → Float64.ltb (mc_AllowableDrift c) Float64.zero = false
                           ∧ Float64.gtb (mc_AllowableDrift c) (Float64.of_Z 1) = false)
  ∧ (mc_Field c = "date" → Float64.ltb (mc_AllowableDrift c) Float64.zero = false).

Definition criteria_ok (c : MatchingCriteria) : Prop :=
  mc_Field c ∈ ["amount"; "date"; "description"; "reference"; "currency"]
  ∧ mc_Operator c ∈ ["equals"; "greater_than"; "less_than"; "contains"]
  ∧ drift_ok c.

Definition rule_ok (r : MatchingRule) : Prop :=
  mr_Name r ≠ "" ∧ mr_Criteria r ≠ [] ∧ Forall criteria_ok (mr_Criteria r).

Lemma existsb_eqb_elem s l : existsb (String.eqb s) l = true ↔ s ∈ l.
Proof.
  rewrite existsb_exists, list_elem_of_In. split.
  - by intros (x & Hx & ->%String.eqb_eq).
  - intros Hs. exists s. by rewrite String.eqb_refl.
Qed.

Lemma negb_existsb_eqb s l : negb (existsb (String.eqb s) l) = false ↔ s ∈ l.
Proof. by rewrite negb_false_iff, existsb_eqb_elem. Qed.

Lemma validateDrift_Ok c : is_ok (validateDrift c) = true ↔ drift_ok c.
Proof.
  unfold validateDrift, drift_ok, fail_if.
  destruct (String.eqb_spec (mc_Operator c) "equals"); [|naive_solver].
  destruct (String.eqb_spec (mc_Field c) "amount") as [->|]; [|destruct
    (String.eqb_spec (mc_Field c) "date") as [->|]; [|naive_solver]].
  - destruct (_ || _) eqn:E; cbn [is_ok].
    + apply orb_true_iff in E. split; [done|]. intros Hd.
      destruct (proj1 (Hd e) eq_refl), E; congruence.
    + apply orb_false_iff in E as [??]. split; [|done]. intros _ _. by split.
  - destruct (Float64.ltb _ _) eqn:E; cbn [is_ok].
    + split; [done|]. intros Hd. by specialize (proj2 (Hd e) eq_refl).
    + split; [|done]. intros _ _. by split.
Qed.

Lemma validateCriteria_Ok c : is_ok (validateCriteria c) = true ↔ criteria_ok c.
Proof.
  unfold criteria_ok. rewrite <- validateDrift_Ok, <- !negb_existsb_eqb.
  unfold validateCriteria, validateOperator, validateField, fail_if.
  destruct (String.eqb_spec (mc_Field c) "") as [->|]; [by cbn; intuition|].
  destruct (String.eqb_spec (mc_Operator c) "") as [->|]; [by cbn; intuition|]. cbn [orb].
  destruct (existsb _ ["equals"; _; _; _]), (existsb _ ["amount"; _; _; _; _]); cbn;
    intuition discriminate.
Qed.

(** Exactly the rules described by [rule_ok] are accepted. *)
Lemma validateRule_Ok r : is_ok (validateRule r) = true ↔ rule_ok r.
Proof.
  unfold rule_ok, validateRule, validateRuleBasics, fail_if.
  destruct (String.eqb_spec (mr_Name r) ""); [by cbn; intuition|]. cbn.
  destruct (bool_decide (mr_Criteria r = [])) eqn:E; cbn.
  { apply bool_decide_eq_true in E. by intuition. }
  apply bool_decide_eq_false in E.
  enough (∀ l, is_ok (validate_all l) = true ↔ Forall criteria_ok l) as -> by intuition.
  clear. intros l. induction l as [|c l IH]; [done|]. rewrite Forall_cons, <- IH, <- validateCriteria_Ok.
  cbn. destruct (validateCriteria c) as [[]|]; cbn; intuition discriminate.
Qed.
End Matching.
