(* ===== verification/Reconciliation.v ===== *)
(** Reconciliation of external statements with the ledger (reconciliation.go,
    database/reconciliation.go, database/transaction_grouping.go,
    database/transaction_criteria.go)

    An upload of external transactions is compared with the ledger's rows under
    matching rules; matches and unmatched transactions are written to tables of
    their own, in one of three strategies.  The run is a goroutine that starts
    worker goroutines; both are steps here.  A worker handles one transaction
    at a time, and its statements on the tables are atomic.  Reads of tables
    and of the cache do not fail; writes fail as [e_fault] says.  The clock
    stands still during a step. *)
From Stdlib Require QArith.
From S2P Require Import Prelude Float64 Decimal Types Time Datastore Inflight Workers Matching.

Module Reconciliation.

Import Datastore Inflight Workers Matching.

(** ** Data (model/reconciliation_model.go) *)

Record Match := mkMatch {
  mt_ExternalTransactionID : string;
  mt_InternalTransactionID : string;
  mt_ReconciliationID : string;
  mt_Amount : float64;
  mt_Date : time;
}.
#[export] Instance Match_eta : Eta Match := λ m,
  mkMatch (mt_ExternalTransactionID m) (mt_InternalTransactionID m) (mt_ReconciliationID m)
    (mt_Amount m) (mt_Date m).

Record Reconciliation := mkReconciliation {
  rc_ReconciliationID : string;
  rc_UploadID : string;
  rc_Status : string;
  rc_MatchedTransactions : Z;
  rc_UnmatchedTransactions : Z;
  rc_IsDryRun : bool;
  rc_StartedAt : time;
  rc_CompletedAt : option time;
}.
#[export] Instance Reconciliation_eta : Eta Reconciliation := λ r,
  mkReconciliation (rc_ReconciliationID r) (rc_UploadID r) (rc_Status r) (rc_MatchedTransactions r)
    (rc_UnmatchedTransactions r) (rc_IsDryRun r) (rc_StartedAt r) (rc_CompletedAt r).

Record ReconciliationProgress := mkProgress {
  rp_LastProcessedExternalTxnID : string;
  rp_ProcessedCount : Z;
}.

Definition StatusStarted : string := "started".
Definition StatusInProgress : string := "in_progress".
Definition StatusCompleted : string := "completed".
Definition StatusFailed : string := "failed".

(** Goroutines that were started. *)
Inductive rjob :=
| JReconcile (r : Reconciliation) (strategy groupCriteria : string) (ruleIDs : list string)
| JMetadata (reconciliationID : string) (matches : list Match).

(** A row of [blnk.unmatched], and one of [blnk.external_transactions] with its
    upload.  The amount of a row of [blnk.matches] is NUMERIC(12, 2). *)
Record unmatched_row := mkUnmatched {
  um_ExternalTransactionID : string; um_ReconciliationID : string; um_Date : time }.
Record external_row := mkExternal { x_txn : ExternalTransaction; x_UploadID : string }.
Record match_row := mkMatchRow {
  mw_ExternalTransactionID : string; mw_InternalTransactionID : string;
  mw_ReconciliationID : string; mw_Cents : Z; mw_Date : time }.

(** The tables, the cache and the goroutines.  A cached value carries the time
    at which it expires. *)
Record rworld := mkRWorld {
  r_db : db;
  r_external : list external_row;
  r_recons : list Reconciliation;
  r_matches : list match_row;
  r_unmatched : list unmatched_row;
  r_progress : gmap string ReconciliationProgress;
  r_rules : list MatchingRule;
  r_pages : gmap string (time * list ExternalTransaction);
  r_internal_pages : gmap string (time * list Transaction);
  r_groups : gmap string (time * gmap string (list Transaction));
  r_ids : nat;
  r_jobs : list rjob;
}.
#[export] Instance rworld_eta : Eta rworld := λ w,
  mkRWorld (r_db w) (r_external w) (r_recons w) (r_matches w) (r_unmatched w) (r_progress w)
    (r_rules w) (r_pages w) (r_internal_pages w) (r_groups w) (r_ids w) (r_jobs w).

Abbreviation R := (prog rworld).

(** The statements that can fail. *)
Inductive rop :=
| WReconciliation (id : string) | WStatus (id status : string) | WExternal (id : string)
| WMatches (l : list Match) | WUnmatched (l : list string) | WProgress (count : Z)
| WRule (id : string).

Record renv := mkREnv {
  e_now : time;
  e_new_id : string → nat → string;   (* GenerateUUIDWithSuffix *)
  e_BatchSize : nat;
  e_MaxWorkers : nat;
  e_MaxQueueSize : nat;
  e_ProgressInterval : Z;
  e_fault : rop → option error;
  e_fetch_first : nat → bool;         (* the fetcher of a batch run moves before a worker *)
  e_claimed_first : nat → bool;       (* the matchers of a page end before it is looked at again *)
}.

(** Text forms that PostgreSQL gives the values of two column types. *)
Class PostgresText := { numeric_text : float64 → string; timestamp_text : time → string }.

Definition write_op (E : renv) (op : rop) (msg : string) (f : rworld → rworld) : R unit := λ w,
  match e_fault E op with
  | Some _ => (w, Err (EAPI "INTERNAL_SERVER_ERROR" msg))
  | None => (f w, Ok tt)
  end.

Definition new_id (E : renv) (suffix : string) : R string := λ w,
  (w <| r_ids := S (r_ids w) |>, Ok (e_new_id E suffix (r_ids w))).

Definition start (j : rjob) : R unit := λ w, (w <| r_jobs := r_jobs w ++ [j] |>, Ok tt).

(** ** The tables (database/reconciliation.go) *)

(** The INSERT has no column for [is_dry_run]; a row reads back as false. *)
Definition RecordReconciliation (E : renv) (r : Reconciliation) : R unit :=
  write_op E (WReconciliation (rc_ReconciliationID r)) "Failed to record reconciliation" (λ w,
    w <| r_recons := r_recons w ++ [r <| rc_IsDryRun := false |>] |>).

Definition GetReconciliation (w : rworld) (id : string) : result Reconciliation :=
  match List.find (λ r, String.eqb (rc_ReconciliationID r) id) (r_recons w) with
  | Some r => Ok r
  | None => Err (EAPI "NOT_FOUND" ("Reconciliation with ID '" +:+ id +:+ "' not found"))
  end.

Definition UpdateReconciliationStatus (E : renv) (id status : string) (matched unmatched : Z)
    : R unit := λ w,
  match e_fault E (WStatus id status) with
  | Some _ => (w, Err (EAPI "INTERNAL_SERVER_ERROR" "Failed to update reconciliation status"))
  | None =>
      if existsb (λ r, String.eqb (rc_ReconciliationID r) id) (r_recons w) then
        (w <| r_recons := map (λ r,
           if String.eqb (rc_ReconciliationID r) id then
             r <| rc_Status := status |> <| rc_MatchedTransactions := matched |>
               <| rc_UnmatchedTransactions := unmatched |>
               <| rc_CompletedAt := if String.eqb status "completed" then Some (e_now E) else None |>
           else r) (r_recons w) |>, Ok tt)
      else (w, Err (EAPI "NOT_FOUND" ("Reconciliation with ID '" +:+ id +:+ "' not found")))
  end.

Definition GetReconciliationsByUploadID (w : rworld) (uploadID : string) : list Reconciliation :=
  order_desc rc_StartedAt (List.filter (λ r, String.eqb (rc_UploadID r) uploadID) (r_recons w)).

(** NUMERIC(12, 2): rounded to cents, half away from zero; ten digits before
    the point. *)
Definition cents (x : float64) : Z :=
  let q := Float64.shortest_Q x in
  let n := 100 * QArith_base.Qnum q in
  let d := Zpos (QArith_base.Qden q) in
  Z.sgn n * ((2 * Z.abs n + d) / (2 * d)).
Definition fits_amount (x : float64) : bool :=
  Float64.is_finite x && (Z.abs (cents x) <? 10 ^ 12).

Definition match_row_of (reconciliationID : string) (m : Match) : match_row :=
  mkMatchRow (mt_ExternalTransactionID m) (mt_InternalTransactionID m) reconciliationID
    (cents (mt_Amount m)) (mt_Date m).

(** One database transaction. *)
Definition RecordMatches (E : renv) (reconciliationID : string) (matches : list Match) : R unit := λ w,
  if forallb (λ m, fits_amount (mt_Amount m)) matches then
    write_op E (WMatches matches) "Failed to record match" (λ w,
      w <| r_matches := r_matches w ++ map (match_row_of reconciliationID) matches |>) w
  else (w, Err (EAPI "INTERNAL_SERVER_ERROR" "Failed to record match")).

Definition RecordUnmatched (E : renv) (reconciliationID : string) (ids : list string) : R unit :=
  write_op E (WUnmatched ids) "Failed to record unmatched match" (λ w,
    w <| r_unmatched := r_unmatched w ++ map (λ id, mkUnmatched id reconciliationID (e_now E)) ids |>).

(** The id is the primary key. *)
Definition RecordExternalTransaction (E : renv) (t : ExternalTransaction) (uploadID : string)
    : R unit := λ w,
  if existsb (λ x, String.eqb (e_ID (x_txn x)) (e_ID t)) (r_external w) then
    (w, Err (EAPI "INTERNAL_SERVER_ERROR" "Failed to record external transaction"))
  else write_op E (WExternal (e_ID t)) "Failed to record external transaction" (λ w,
    w <| r_external := r_external w ++ [mkExternal t uploadID] |>) w.

Definition RecordMatchingRule (E : renv) (r : MatchingRule) : R unit :=
  write_op E (WRule (mr_RuleID r)) "Failed to record matching rule" (λ w,
    w <| r_rules := r_rules w ++ [r] |>).

Definition find_rule (w : rworld) (id : string) : result MatchingRule :=
  match List.find (λ r, String.eqb (mr_RuleID r) id) (r_rules w) with
  | Some r => Ok r
  | None => Err (EAPI "NOT_FOUND" ("Matching rule with ID '" +:+ id +:+ "' not found"))
  end.

(** The UPDATE writes the name, the description and the criteria. *)
Definition update_rule (E : renv) (r : MatchingRule) : R unit := λ w,
  match e_fault E (WRule (mr_RuleID r)) with
  | Some _ => (w, Err (EAPI "INTERNAL_SERVER_ERROR" "Failed to update matching rule"))
  | None =>
      if existsb (λ x, String.eqb (mr_RuleID x) (mr_RuleID r)) (r_rules w) then
        (w <| r_rules := map (λ x,
           if String.eqb (mr_RuleID x) (mr_RuleID r) then
             x <| mr_Name := mr_Name r |> <| mr_Description := mr_Description r |>
               <| mr_Criteria := mr_Criteria r |>
           else x) (r_rules w) |>, Ok tt)
      else (w, Err (EAPI "NOT_FOUND" ("Matching rule with ID '" +:+ mr_RuleID r +:+ "' not found")))
  end.

Definition delete_rule (E : renv) (id : string) : R unit := λ w,
  match e_fault E (WRule id) with
  | Some _ => (w, Err (EAPI "INTERNAL_SERVER_ERROR" "Failed to delete matching rule"))
  | None =>
      if existsb (λ x, String.eqb (mr_RuleID x) id) (r_rules w) then
        (w <| r_rules := List.filter (λ x, negb (String.eqb (mr_RuleID x) id)) (r_rules w) |>, Ok tt)
      else (w, Err (EAPI "NOT_FOUND" ("Matching rule with ID '" +:+ id +:+ "' not found")))
  end.

Definition SaveReconciliationProgress (E : renv) (id : string) (p : ReconciliationProgress) : R unit :=
  write_op E (WProgress (rp_ProcessedCount p)) "Failed to save reconciliation progress" (λ w,
    w <| r_progress := <[id := p]> (r_progress w) |>).

Definition LoadReconciliationProgress (w : rworld) (id : string) : ReconciliationProgress :=
  match r_progress w !! id with Some p => p | None => mkProgress "" 0 end.

(** *** Cached pages *)

Definition five_minutes : Z := 5 * Time.minute.

Definition cached {V} (now : time) (m : gmap string (time * V)) (key : string) : option V :=
  match m !! key with
  | Some (expires, v) => if now <? expires then Some v else None
  | None => None
  end.

(** [fmt.Sprintf("...%d:%d", batchSize, offset)] *)
Definition page_key (prefix : string) (batchSize offset : nat) : string :=
  prefix +:+ Z_to_string (Z.of_nat batchSize) +:+ ":" +:+ Z_to_string (Z.of_nat offset).

Definition external_query (w : rworld) (uploadID : string) (batchSize offset : nat)
    : list ExternalTransaction :=
  limit_offset batchSize offset
    (order_desc e_Date (map x_txn (List.filter (λ x, String.eqb (x_UploadID x) uploadID) (r_external w)))).

Definition GetExternalTransactionsPaginated (E : renv) (uploadID : string) (batchSize offset : nat)
    : R (list ExternalTransaction) := λ w,
  let key := page_key "transactions:external:paginated:" batchSize offset in
  match cached (e_now E) (r_pages w) key with
  | Some ((_ :: _) as l) => (w, Ok l)
  | _ =>
      match external_query w uploadID batchSize offset with
      | [] => (w, Ok [])
      | l => (w <| r_pages := <[key := (e_now E + five_minutes, l)]> (r_pages w) |>, Ok l)
      end
  end.

(** database/transaction_grouping.go *)
Definition GetTransactionsPaginated (E : renv) (batchSize offset : nat) : R (list Transaction) := λ w,
  let key := page_key "transactions:paginated:" batchSize offset in
  match cached (e_now E) (r_internal_pages w) key with
  | Some ((_ :: _) as l) => (w, Ok l)
  | _ =>
      match map scan_transaction_sched
              (limit_offset batchSize offset (order_asc t_CreatedAt (db_transactions (r_db w)))) with
      | [] => (w, Ok [])
      | l => (w <| r_internal_pages := <[key := (e_now E + Time.hour, l)]> (r_internal_pages w) |>, Ok l)
      end
  end.

(** database/transaction_criteria.go *)
Definition GetTransactionsByCriteria (d : db) (b : bounds) (limit offset : nat) : list Transaction :=
  limit_offset limit offset
    (map scan_transaction_sched (order_asc t_CreatedAt (List.filter (within b) (db_transactions d)))).

Definition group_add (groups : gmap string (list Transaction)) (kt : string * Transaction)
    : gmap string (list Transaction) :=
  <[kt.1 := default [] (groups !! kt.1) ++ [kt.2]]> groups.

Definition key_text_le {A} (a b : string * A) : Prop := String.le a.1 b.1.
#[export] Instance key_text_le_dec {A} : RelDecision (@key_text_le A) :=
  λ a b, decide (String.le a.1 b.1).

(** A page of rows sorted by the text of the grouping column, as groups. *)
Definition grouped_page {A} (key : A → string) (txn : A → Transaction) (rows : list A)
    (batchSize offset : nat) : gmap string (list Transaction) :=
  let keyed := List.filter (λ kr, negb (String.eqb kr.1 "")) (map (λ r, (key r, r)) rows) in
  foldl group_add ∅ (map (λ kr, (kr.1, txn kr.2))
    (limit_offset batchSize offset (merge_sort key_text_le keyed))).

Section grouping.
Context `{PostgresText}.

Definition groupedTransactionsQuery (groupCriteria : string) : option (Transaction → string) :=
  let column := String.eqb groupCriteria in
  if column "transaction_id" then Some t_TransactionID
  else if column "parent_transaction" then Some t_ParentTransaction
  else if column "source" then Some t_Source
  else if column "reference" then Some t_Reference
  else if column "currency" then Some t_Currency
  else if column "destination" then Some t_Destination
  else if column "status" then Some t_Status
  else if column "created_at" then Some (λ t, timestamp_text (t_CreatedAt t))
  else None.

Definition groupedExternalTransactionsQuery (groupCriteria : string)
    : option (ExternalTransaction → string) :=
  let column := String.eqb groupCriteria in
  if column "id" then Some e_ID
  else if column "amount" then Some (λ e, numeric_text (e_Amount e))
  else if column "reference" then Some e_Reference
  else if column "currency" then Some e_Currency
  else if column "description" then Some e_Description
  else if column "date" then Some (λ e, timestamp_text (e_Date e))
  else if column "source" then Some e_Source
  else None.

(** The cached page of groups, or the one the query gives. *)
Definition groups_through_cache (E : renv) (key : string) (query : rworld → gmap string (list Transaction))
    : R (gmap string (list Transaction)) := λ w,
  let fresh :=
    let groups := query w in
    if decide (groups = ∅) then (w, Ok groups)
    else (w <| r_groups := <[key := (e_now E + five_minutes, groups)]> (r_groups w) |>, Ok groups) in
  match cached (e_now E) (r_groups w) key with
  | Some groups => if decide (groups = ∅) then fresh else (w, Ok groups)
  | None => fresh
  end.

Definition GroupTransactions (E : renv) (groupCriteria : string) (batchSize offset : nat)
    : R (gmap string (list Transaction)) :=
  match groupedTransactionsQuery groupCriteria with
  | None => raise (EAPI "BAD_REQUEST" ("Invalid group criteria: " +:+ groupCriteria))
  | Some key =>
      groups_through_cache E (page_key ("transactions:grouped:" +:+ groupCriteria +:+ ":") batchSize offset)
        (λ w, grouped_page key scan_transaction_sched (db_transactions (r_db w)) batchSize offset)
  end.

Definition FetchAndGroupExternalTransactions (E : renv) (uploadID groupCriteria : string)
    (batchSize offset : nat) : R (gmap string (list Transaction)) :=
  match groupedExternalTransactionsQuery groupCriteria with
  | None => raise (EAPI "BAD_REQUEST" ("Invalid group criteria: " +:+ groupCriteria))
  | Some key =>
      groups_through_cache E
        (page_key ("external_transactions:grouped:" +:+ uploadID +:+ ":" +:+ groupCriteria +:+ ":")
           batchSize offset)
        (λ w, grouped_page key ToInternalTransaction
                (map x_txn (List.filter (λ x, String.eqb (x_UploadID x) uploadID) (r_external w)))
                batchSize offset)
  end.

End grouping.

(** ** Matching rules *)

(** What the service returns when a method ends. *)
Definition CreateMatchingRule (E : renv) (rule : MatchingRule) : R MatchingRule :=
  id ← new_id E "rule";
  let rule := rule <| mr_RuleID := id |> <| mr_CreatedAt := e_now E |> <| mr_UpdatedAt := e_now E |> in
  _ ← lift (validateRule rule);
  _ ← RecordMatchingRule E rule;
  mret rule.

Definition GetMatchingRule (id : string) : R MatchingRule := λ w, (w, find_rule w id).

Definition UpdateMatchingRule (E : renv) (rule : MatchingRule) : R MatchingRule :=
  existingRule ← GetMatchingRule (mr_RuleID rule);
  let rule := rule <| mr_CreatedAt := mr_CreatedAt existingRule |> <| mr_UpdatedAt := e_now E |> in
  _ ← lift (validateRule rule);
  _ ← update_rule E rule;
  mret rule.

Definition DeleteMatchingRule (E : renv) (id : string) : R unit := delete_rule E id.
Definition ListMatchingRules (w : rworld) : list MatchingRule := r_rules w.

Fixpoint getMatchingRules (ids : list string) : R (list MatchingRule) :=
  match ids with
  | [] => mret []
  | id :: ids => rule ← GetMatchingRule id; rules ← getMatchingRules ids; mret (rule :: rules)
  end.

(** ** Batches (transaction_batch_processing.go)

    [workers] goroutines take jobs from a channel that one fetcher fills page
    by page.  A worker may return before the channel is closed; one that fails
    reports its error and returns.  The run ends when no worker is left. *)
Section pool.
Context {St : Type} (sched : nat → bool) (capacity : nat)
  (page : nat → prog St (list Transaction)) (act : Transaction → prog St bool).

Fixpoint pool (fuel n offset : nat) (fetching : bool) (jobs : list Transaction) (workers : nat)
    (errs : list error) : prog St (list error) :=
  match fuel with
  | O => raise (EPanic "batch steps")
  | S fuel =>
      match workers with
      | O => mret errs
      | S left_over =>
          if fetching && Nat.leb (length jobs) capacity && (bool_decide (jobs = []) || sched n) then
            txns ← page offset;
            match txns with
            | [] => pool fuel (S n) offset false jobs workers errs
            | _ => pool fuel (S n) (offset + length txns) true (jobs ++ txns) workers errs
            end
          else
            match jobs with
            | [] => mret errs
            | t :: jobs => λ y,
                match act t y with
                | (y, Ok true) => pool fuel (S n) offset fetching jobs workers errs y
                | (y, Ok false) => pool fuel (S n) offset fetching jobs left_over errs y
                | (y, Err e) =>
                    if is_panic e then (y, Err e)
                    else pool fuel (S n) offset fetching jobs left_over (errs ++ [e]) y
                end
            end
      end
  end.

Definition run_pool (total workers : nat) : prog St unit :=
  errs ← pool (2 * total + 3) 0 0 true [] workers [];
  match errs with
  | [] => mret tt
  | _ => raise (ENew ("error occurred during processing: [" +:+ join " " (map error_text errs) +:+ "]"))
  end.

End pool.

(** ** One to one *)

Section engine.
Context `{Levenshtein} `{PostgresText}.

Definition one_match (externalTxn internalTxn : Transaction) : Match :=
  mkMatch (t_TransactionID externalTxn) (t_TransactionID internalTxn) "" (t_Amount externalTxn)
    (t_CreatedAt externalTxn).

(** The goroutine of a worker returns after its first match.  The channel of
    matches is the state. *)
Definition find_worker (externalTxn : Transaction) (rules : list MatchingRule)
    (internalTxn : Transaction) : prog (list Match) bool := λ found,
  if matchesRules externalTxn internalTxn rules
  then (found ++ [one_match externalTxn internalTxn], Ok false)
  else (found, Ok true).

(** The matches sent, and the ids sent as unmatched. *)
Definition findMatchingInternalTransaction (E : renv) (d : db) (externalTxn : Transaction)
    (rules : list MatchingRule) : list Match * list string :=
  let b := calculateMatchingBounds externalTxn rules in
  match run_pool (e_fetch_first E) (e_MaxQueueSize E)
          (λ offset, mret (GetTransactionsByCriteria d b (e_BatchSize E) offset))
          (find_worker externalTxn rules) (length (db_transactions d)) (e_MaxWorkers E) [] with
  | (found, Ok _) => (found, match found with [] => [t_TransactionID externalTxn] | _ => [] end)
  | (found, Err _) => (found, [t_TransactionID externalTxn])
  end.

(** The goroutines in the order of the transactions. *)
Definition oneToOneReconciliation (E : renv) (d : db) (externalTxns : list Transaction)
    (rules : list MatchingRule) : list Match * list string :=
  let outcomes := map (λ t, findMatchingInternalTransaction E d t rules) externalTxns in
  (flat_map fst outcomes, flat_map snd outcomes).

(** ** Groups *)

Definition buildGroupMap (groups : gmap string (list Transaction)) : gset string := dom groups.

Definition group_matches (singleTxn : Transaction) (group : list Transaction)
    (isExternalGrouped : bool) : list Match :=
  map (λ groupedTxn,
    let '(externalID, internalID) :=
      if isExternalGrouped then (t_TransactionID groupedTxn, t_TransactionID singleTxn)
      else (t_TransactionID singleTxn, t_TransactionID groupedTxn) in
    mkMatch externalID internalID "" (t_Amount groupedTxn) (t_CreatedAt groupedTxn)) group.

(** The group to claim: the first of the snapshot that matches.  The order in
    which Go ranges over the map is the order of [elements]. *)
Definition first_match (singleTxn : Transaction) (groups : gmap string (list Transaction))
    (rules : list MatchingRule) (keys : list string) : option string :=
  List.find (λ k, matchesGroup singleTxn (default [] (groups !! k)) rules) keys.

Definition matchSingleTransaction (singleTxn : Transaction) (groups : gmap string (list Transaction))
    (groupMap : gset string) (rules : list MatchingRule) (isExternalGrouped : bool)
    : gset string * option (list Match) :=
  match first_match singleTxn groups rules (elements groupMap) with
  | Some k => (groupMap ∖ {[k]},
               Some (group_matches singleTxn (default [] (groups !! k)) isExternalGrouped))
  | None => (groupMap, None)
  end.

(** The goroutines in the order of the transactions; [claims_step] below lets
    them interleave. *)
Fixpoint processGroupedTransactions (singleTxns : list Transaction)
    (groups : gmap string (list Transaction)) (groupMap : gset string) (rules : list MatchingRule)
    (isExternalGrouped : bool) : gset string * list Match * list string :=
  match singleTxns with
  | [] => (groupMap, [], [])
  | t :: singleTxns =>
      let '(groupMap, matched) := matchSingleTransaction t groups groupMap rules isExternalGrouped in
      let '(groupMap, ms, us) :=
        processGroupedTransactions singleTxns groups groupMap rules isExternalGrouped in
      match matched with
      | Some found => (groupMap, found ++ ms, us)
      | None => (groupMap, ms, t_TransactionID t :: us)
      end
  end.

(** The loop of [oneToMany] and [manyToOne].  Whether the matchers of a page
    have ended when the loop looks at its map is [e_claimed_first]. *)
Fixpoint group_loop (fuel n : nat) (E : renv) (fetch : nat → R (gmap string (list Transaction)))
    (singleTxns : list Transaction) (rules : list MatchingRule) (isExternalGrouped : bool)
    (offset : nat) (processedAny : bool) (ms : list Match) (us : list string)
    : R (list Match * list string) :=
  let left_over := if processedAny then us else us ++ map t_TransactionID singleTxns in
  match fuel with
  | O => raise (EPanic "group pages")
  | S fuel => λ w,
      match fetch offset w with
      | (w, Err _) => (w, Ok (ms, left_over))
      | (w, Ok groups) =>
          if decide (groups = ∅) then (w, Ok (ms, left_over))
          else
            let '(groupMap, ms', us') :=
              processGroupedTransactions singleTxns groups (buildGroupMap groups) rules isExternalGrouped in
            if bool_decide (groupMap = ∅) && e_claimed_first E n then (w, Ok (ms ++ ms', us ++ us'))
            else group_loop fuel (S n) E fetch singleTxns rules isExternalGrouped
                   (offset + e_BatchSize E) true (ms ++ ms') (us ++ us') w
      end
  end.

Definition group_fuel (w : rworld) : nat :=
  (length (db_transactions (r_db w)) + length (r_external w) + size (r_groups w) + 2)%nat.

Definition oneToManyReconciliation (E : renv) (externalTxns : list Transaction) (groupCriteria : string)
    (rules : list MatchingRule) (isExternalGrouped : bool) : R (list Match * list string) := λ w,
  group_loop (group_fuel w) 0 E (GroupTransactions E groupCriteria (e_BatchSize E)) externalTxns rules
    isExternalGrouped 0 false [] [] w.

Definition manyToOneReconciliation (E : renv) (internalTxns : list Transaction)
    (uploadID groupCriteria : string) (rules : list MatchingRule) (isExternalGrouped : bool)
    : R (list Match * list string) := λ w,
  group_loop (group_fuel w) 0 E
    (FetchAndGroupExternalTransactions E uploadID groupCriteria (e_BatchSize E)) internalTxns rules
    isExternalGrouped 0 false [] [] w.

Definition reconciler : Type := list Transaction → R (list Match * list string).

Definition createReconciler (E : renv) (strategy uploadID groupCriteria : string)
    (rules : list MatchingRule) : reconciler := λ txns w,
  if String.eqb strategy "one_to_one" then (w, Ok (oneToOneReconciliation E (r_db w) txns rules))
  else if String.eqb strategy "one_to_many" then
    oneToManyReconciliation E txns groupCriteria rules false w
  else if String.eqb strategy "many_to_one" then
    manyToOneReconciliation E txns uploadID groupCriteria rules true w
  else (w, Ok ([], [])).

(** ** The run *)

(** [transactionProcessor]: its counters, beside the tables. *)
Record transactionProcessor := mkProcessor {
  tp_matches : Z; tp_unmatched : Z; tp_progress : ReconciliationProgress }.

Abbreviation P := (prog (rworld * transactionProcessor)).

Definition inr_ {A} (m : R A) : P A := λ s, let '(w, r) := m s.1 in ((w, s.2), r).
Definition count (f : transactionProcessor → transactionProcessor) : P unit := λ s, ((s.1, f s.2), Ok tt).

Definition when (b : bool) (m : P unit) : P unit := if b then m else mret tt.

(** A remainder by zero panics; a failed save is only logged. *)
Definition save_progress (E : renv) (id : string) : P unit := λ s,
  let p := tp_progress s.2 in
  if e_ProgressInterval E =? 0 then (s, Err (EPanic "integer divide by zero"))
  else if Z.rem (rp_ProcessedCount p) (e_ProgressInterval E) =? 0 then
    (((SaveReconciliationProgress E id p s.1).1, s.2), Ok tt)
  else (s, Ok tt).

Definition record_outcome (E : renv) (recon : Reconciliation) (batchMatches : list Match)
    (batchUnmatched : list string) : P unit :=
  when (negb (rc_IsDryRun recon)) (
    _ ← when (negb (bool_decide (batchMatches = []))) (
      _ ← inr_ (RecordMatches E (rc_ReconciliationID recon) batchMatches);
      inr_ (start (JMetadata (rc_ReconciliationID recon) batchMatches)));
    when (negb (bool_decide (batchUnmatched = [])))
      (inr_ (RecordUnmatched E (rc_ReconciliationID recon) batchUnmatched))).

Definition process (E : renv) (recon : Reconciliation) (reconcile : reconciler) (txn : Transaction)
    : P unit :=
  outcome ← inr_ (reconcile [txn]);
  let '(batchMatches, batchUnmatched) := outcome in
  _ ← count (λ tp, mkProcessor (tp_matches tp + Z.of_nat (length batchMatches))
                     (tp_unmatched tp + Z.of_nat (length batchUnmatched)) (tp_progress tp));
  _ ← record_outcome E recon batchMatches batchUnmatched;
  _ ← count (λ tp, mkProcessor (tp_matches tp) (tp_unmatched tp)
                     (mkProgress (t_TransactionID txn) (rp_ProcessedCount (tp_progress tp) + 1)));
  save_progress E (rc_ReconciliationID recon).

Definition getExternalTransactionsPaginated (E : renv) (uploadID : string) (offset : nat)
    : R (list Transaction) :=
  l ← GetExternalTransactionsPaginated E uploadID (e_BatchSize E) offset;
  mret (map ToInternalTransaction l).
Definition getInternalTransactionsPaginated (E : renv) (offset : nat) : R (list Transaction) :=
  GetTransactionsPaginated E (e_BatchSize E) offset.

(** The rows that the pages can hold. *)
Definition page_rows {V} (m : gmap string (time * list V)) : nat :=
  Z.to_nat (sum_map (λ v, Z.of_nat (length v.2)) m).
Definition rows_to_read (w : rworld) : nat :=
  (length (db_transactions (r_db w)) + length (r_external w) + page_rows (r_pages w)
   + page_rows (r_internal_pages w))%nat.

Definition processTransactions (E : renv) (recon : Reconciliation) (strategy : string)
    (reconcile : reconciler) : P unit := λ s,
  let page := if String.eqb strategy "many_to_one" then getInternalTransactionsPaginated E
              else getExternalTransactionsPaginated E (rc_UploadID recon) in
  run_pool (e_fetch_first E) (e_MaxQueueSize E) (λ offset, inr_ (page offset))
    (λ t, _ ← process E recon reconcile t; mret true)
    (rows_to_read s.1) (e_MaxWorkers E) s.

Definition finalizeReconciliation (E : renv) (recon : Reconciliation) (matchCount unmatchedCount : Z)
    : R unit :=
  UpdateReconciliationStatus E (rc_ReconciliationID recon) StatusCompleted matchCount unmatchedCount.

(** The part of [processReconciliation] that follows the rules. *)
Definition reconcile_with (E : renv) (recon : Reconciliation) (strategy groupCriteria : string)
    (rules : list MatchingRule) : R unit := λ w,
  let progress := LoadReconciliationProgress w (rc_ReconciliationID recon) in
  let reconcile := createReconciler E strategy (rc_UploadID recon) groupCriteria rules in
  match processTransactions E recon strategy reconcile (w, mkProcessor 0 0 progress) with
  | ((w, tp), Ok _) => finalizeReconciliation E recon (tp_matches tp) (tp_unmatched tp) w
  | ((w, _), Err e) => (w, Err (if is_panic e then e else EWrap "failed to process transactions" e))
  end.

Definition processReconciliation (E : renv) (recon : Reconciliation) (strategy groupCriteria : string)
    (ruleIDs : list string) : R unit :=
  _ ← ctx_err "failed to update reconciliation status"
        (UpdateReconciliationStatus E (rc_ReconciliationID recon) StatusInProgress 0 0);
  rules ← ctx_err "failed to get matching rules" (getMatchingRules ruleIDs);
  reconcile_with E recon strategy groupCriteria rules.

(** ** Requests and goroutines *)

Definition StartReconciliation (E : renv) (uploadID strategy groupCriteria : string)
    (ruleIDs : list string) (isDryRun : bool) : R string :=
  id ← new_id E "recon";
  let recon := mkReconciliation id uploadID StatusStarted 0 0 isDryRun (e_now E) None in
  _ ← RecordReconciliation E recon;
  _ ← start (JReconcile recon strategy groupCriteria ruleIDs);
  mret id.

Fixpoint store_all (E : renv) (uploadID : string) (txns : list ExternalTransaction) : R unit :=
  match txns with
  | [] => mret tt
  | t :: txns => _ ← RecordExternalTransaction E t uploadID; store_all E uploadID txns
  end.

(** A transaction that cannot be stored fails the reconciliation. *)
Definition store_instant (E : renv) (recon : Reconciliation) (txns : list ExternalTransaction) : R unit := λ w,
  match store_all E (rc_UploadID recon) txns w with
  | (w, Ok _) => (w, Ok tt)
  | (w, Err e) =>
      match UpdateReconciliationStatus E (rc_ReconciliationID recon) StatusFailed 0 0 w with
      | (w, Ok _) => (w, Err (EWrap "failed to store external transaction" e))
      | (w, Err e') => (w, Err (EWrap "failed to store external transaction" e'))
      end
  end.

Definition StartInstantReconciliation (E : renv) (externalTransactions : list ExternalTransaction)
    (strategy groupCriteria : string) (ruleIDs : list string) (isDryRun : bool) : R string :=
  id ← new_id E "recon";
  tempID ← new_id E "instant";
  let recon := mkReconciliation id tempID StatusStarted 0 0 isDryRun (e_now E) None in
  _ ← RecordReconciliation E recon;
  _ ← store_instant E recon externalTransactions;
  _ ← start (JReconcile recon strategy groupCriteria ruleIDs);
  mret id.

(** [updateMatchedTransactionsMetadata]: a failed update is logged. *)
Definition match_metadata (E : renv) (reconciliationID : string) (m : Match) : metadata :=
  <["reconciled" := MBool true]>
  (<["reconciliation_id" := MStr reconciliationID]>
  (<["reconciled_at" := MStr (format_rfc3339 (e_now E))]>
  (<["external_txn_id" := MStr (mt_ExternalTransactionID m)]>
  {["reconciliation_amount" := MNum (mt_Amount m)]}))).

Fixpoint updateMatchedTransactionsMetadata (E : renv) (reconciliationID : string)
    (matches : list Match) (w : rworld) : rworld :=
  match matches with
  | [] => w
  | m :: matches =>
      let w := match UpdateTransactionMetadata (r_db w) (mt_InternalTransactionID m)
                       (match_metadata E reconciliationID m) with
               | Ok d => w <| r_db := d |>
               | Err _ => w
               end in
      updateMatchedTransactionsMetadata E reconciliationID matches w
  end.

(** A run that failed is marked so; a panic ends the server. *)
Definition run_rjob (E : renv) (j : rjob) : R unit := λ w,
  match j with
  | JReconcile recon strategy groupCriteria ruleIDs =>
      match processReconciliation E recon strategy groupCriteria ruleIDs w with
      | (w, Ok _) => (w, Ok tt)
      | (w, Err e) =>
          if is_panic e then (w, Err e)
          else ((UpdateReconciliationStatus E (rc_ReconciliationID recon) StatusFailed 0 0 w).1, Ok tt)
      end
  | JMetadata id matches => (updateMatchedTransactionsMetadata E id matches w, Ok tt)
  end.

End engine.

(** ** Batches end *)

Section pool_lemmas.
Context {St : Type} (sched : nat → bool) (capacity : nat)
  (page : nat → prog St (list Transaction)) (act : Transaction → prog St bool).
Context (L : list Transaction) (size : nat) (I : list Transaction → nat → list error → St → Prop).
Context (Hsize : (0 < size)%nat).
Context (Hpage : ∀ d w es off y, I d w es y →
  ∃ y', page off y = (y', Ok (limit_offset size off L)) ∧ I d w es y').
Context (Hact : ∀ d t rest w es y, d ++ t :: rest = L → I d (S w) es y →
  ∃ y' r, act t y = (y', r) ∧
    match r with
    | Ok true => I (d ++ [t]) (S w) es y'
    | Ok false => I (d ++ [t]) w es y'
    | Err e => is_panic e = false ∧ I (d ++ [t]) w (es ++ [e]) y'
    end).

(** What the fetcher and the workers have left to do. *)
Definition pool_work (offset : nat) (fetching : bool) (jobs : list Transaction) : nat :=
  (2 * (length L - offset) + length jobs + (if fetching then 2 else 1))%nat.

Lemma limit_offset_nil off : limit_offset size off L = [] → (length L <= off)%nat.
Proof.
  unfold limit_offset. intros E. apply (f_equal length) in E. rewrite length_take, length_drop in E.
  cbn in E. lia.
Qed.

Lemma limit_offset_next off :
  take off L ++ limit_offset size off L = take (off + length (limit_offset size off L)) L.
Proof.
  unfold limit_offset. rewrite take_take_drop, length_take, length_drop.
  destruct (decide (off + size <= length L)%nat); [by rewrite Nat.min_l by lia|].
  by rewrite !take_ge by lia.
Qed.

(** Every row is handled in order until no row or no worker is left. *)
Lemma pool_ends fuel n offset fetching jobs w es d y :
  (pool_work offset fetching jobs <= fuel)%nat →
  d ++ jobs = take offset L → (fetching = false → take offset L = L) →
  I d w es y →
  ∃ y' d' rest w' es', pool sched capacity page act fuel n offset fetching jobs w es y = (y', Ok es')
    ∧ d' ++ rest = L ∧ I d' w' es' y' ∧ (w' = 0%nat ∨ rest = []).
Proof.
  unfold pool_work. revert n offset fetching jobs w es d y.
  induction fuel as [|fuel IH]; intros n offset fetching jobs w es d y Hf Hd Hdone HI.
  { destruct fetching; lia. }
  cbn [pool]. destruct w as [|w].
  { exists y, d, (jobs ++ drop offset L), 0%nat, es. rewrite app_assoc, Hd, take_drop. auto. }
  destruct (fetching && _ && _) eqn:Hb.
  - apply andb_prop in Hb as [[-> _]%andb_prop _].
    destruct (Hpage d (S w) es offset y HI) as (y1 & Hp & HI1).
    unfold mbind, prog_bind. rewrite Hp. destruct (limit_offset size offset L) as [|t txns] eqn:El.
    + apply limit_offset_nil in El. apply (IH _ _ false _ _ _ d); [lia|done| |done].
      intros _. by apply take_ge.
    + pose proof (limit_offset_next offset) as Hn. rewrite El in Hn.
      assert (length (t :: txns) <= length L - offset)%nat as Hl.
      { rewrite <- El. unfold limit_offset. rewrite length_take, length_drop. lia. }
      cbn [length] in Hl. apply (IH _ _ true _ _ _ d); [| |done|done].
      * rewrite length_app. cbn [length]. lia.
      * by rewrite app_assoc, Hd.
  - destruct jobs as [|t jobs].
    + destruct fetching.
      * exfalso. revert Hb. cbn. by destruct capacity.
      * exists y, d, [], (S w), es. rewrite app_nil_r in Hd |- *.
        rewrite (Hdone eq_refl) in Hd. subst d. auto.
    + assert (d ++ t :: (jobs ++ drop offset L) = L) as Hsplit.
      { rewrite app_comm_cons, app_assoc, Hd. apply take_drop. }
      destruct (Hact d t _ w es y Hsplit HI) as (y1 & r & Ha & Hr). rewrite Ha.
      assert ((d ++ [t]) ++ jobs = take offset L) as Hd' by (by rewrite <- app_assoc).
      cbn [length] in Hf. destruct r as [[]|e].
      * apply (IH _ _ _ _ _ _ (d ++ [t])); [lia|done..].
      * apply (IH _ _ _ _ _ _ (d ++ [t])); [lia|done..].
      * destruct Hr as [-> Hr]. apply (IH _ _ _ _ _ _ (d ++ [t])); [lia|done..].
Qed.

Lemma pool_run total w y :
  (length L <= total)%nat → I [] w [] y →
  ∃ y' d rest w' es, pool sched capacity page act (2 * total + 3) 0 0 true [] w [] y = (y', Ok es)
    ∧ d ++ rest = L ∧ I d w' es y' ∧ (w' = 0%nat ∨ rest = []).
Proof.
  intros Hl HI. apply (pool_ends _ _ _ _ _ _ _ []); [unfold pool_work; cbn; lia|done|done|done].
Qed.

Lemma run_pool_eq total w y y' es :
  pool sched capacity page act (2 * total + 3) 0 0 true [] w [] y = (y', Ok es) →
  run_pool sched capacity page act total w y
  = (y', match es with
         | [] => Ok tt
         | _ => Err (ENew ("error occurred during processing: ["
                           +:+ join " " (map error_text es) +:+ "]"))
         end).
Proof. unfold run_pool, mbind, prog_bind. intros ->. by destruct es. Qed.

End pool_lemmas.
(** ** What one external transaction is matched with *)

Section one_to_one.
Context `{Levenshtein}.

(** The rows the search offers, oldest first. *)
Definition candidates (d : db) (rules : list MatchingRule) (externalTxn : Transaction) : list Transaction :=
  map scan_transaction_sched (order_asc t_CreatedAt
    (List.filter (within (calculateMatchingBounds externalTxn rules)) (db_transactions d))).

(** The specification: at most one match per worker, the oldest first. *)
Definition matches_of (E : renv) (d : db) (rules : list MatchingRule) (externalTxn : Transaction)
    : list Match :=
  map (one_match externalTxn) (take (e_MaxWorkers E)
    (List.filter (λ i, matchesRules externalTxn i rules) (candidates d rules externalTxn))).

Definition unmatched_of (E : renv) (d : db) (rules : list MatchingRule) (externalTxn : Transaction)
    : list string :=
  match matches_of E d rules externalTxn with [] => [t_TransactionID externalTxn] | _ => [] end.

Lemma candidates_length d rules t : (length (candidates d rules t) <= length (db_transactions d))%nat.
Proof.
  unfold candidates. rewrite length_map, order_asc_perm. apply List.filter_length_le.
Qed.

Lemma find_matches E d t rules :
  (0 < e_BatchSize E)%nat →
  findMatchingInternalTransaction E d t rules = (matches_of E d rules t, unmatched_of E d rules t).
Proof.
  intros Hb. unfold findMatchingInternalTransaction, unmatched_of.
  set (p := λ i, matchesRules t i rules). set (L := candidates d rules t).
  destruct (pool_run (e_fetch_first E) (e_MaxQueueSize E)
    (λ offset, mret (GetTransactionsByCriteria d (calculateMatchingBounds t rules) (e_BatchSize E) offset))
    (find_worker t rules) L (e_BatchSize E)
    (λ done_ w es found, es = [] ∧ found = map (one_match t) (List.filter p done_)
       ∧ (w + length (List.filter p done_) = e_MaxWorkers E)%nat))
    with (total := length (db_transactions d)) (w := e_MaxWorkers E) (y := [] : list Match)
    as (found & seen & rest & w & es & Hrun & HL & (-> & -> & Hw) & Hend).
  - done.
  - intros seen w es off y HI. exists y. split; [|done]. unfold GetTransactionsByCriteria, L, candidates.
    unfold mret, prog_ret, limit_offset. by rewrite skipn_map, firstn_map.
  - intros seen i rest w es y _ (-> & -> & Hw). unfold find_worker.
    rewrite List.filter_app, length_app. cbn [List.filter length].
    change (matchesRules t i rules) with (p i). destruct (p i); cbn [length];
      (do 2 eexists; split; [reflexivity|]; cbn; split_and!; [done| |lia]).
    + by rewrite map_app.
    + by rewrite app_nil_r.
  - apply candidates_length.
  - cbn. split_and!; [done..|lia].
  - rewrite (run_pool_eq _ _ _ _ _ _ _ _ _ Hrun). cbn.
    replace (matches_of E d rules t) with (map (one_match t) (List.filter p seen)); [done|].
    unfold matches_of. fold L p. rewrite <- HL. rewrite List.filter_app. f_equal.
    destruct Hend as [->| ->].
    + by rewrite take_app_length' by lia.
    + cbn. rewrite app_nil_r, take_ge by lia. done.
Qed.

End one_to_one.
(** ** What a run leaves in the tables *)

(** Only the results and the started goroutines have grown. *)
Definition grew (w w' : rworld) (ms : list match_row) (us : list unmatched_row) (js : list rjob) : Prop :=
  r_db w' = r_db w ∧ r_external w' = r_external w ∧ r_recons w' = r_recons w ∧ r_rules w' = r_rules w
  ∧ r_matches w' = r_matches w ++ ms ∧ r_unmatched w' = r_unmatched w ++ us
  ∧ r_jobs w' = r_jobs w ++ js.

Lemma grew_refl w : grew w w [] [] [].
Proof. unfold grew. by rewrite !app_nil_r. Qed.

Lemma grew_trans w1 w2 w3 ms us js ms' us' js' :
  grew w1 w2 ms us js → grew w2 w3 ms' us' js' → grew w1 w3 (ms ++ ms') (us ++ us') (js ++ js').
Proof.
  unfold grew. intros (? & ? & ? & ? & Hm & Hu & Hj) (? & ? & ? & ? & Hm' & Hu' & Hj').
  rewrite Hm', Hu', Hj', Hm, Hu, Hj, <- !app_assoc. split_and!; congruence.
Qed.

Section outcome.
Context (E : renv) (recon : Reconciliation).

Definition has_fault (op : rop) : bool := bool_decide (is_Some (e_fault E op)).

(** The outcome of one transaction cannot be written. *)
Definition refused (o : list Match * list string) : bool :=
  negb (rc_IsDryRun recon) &&
  match o with
  | ([], us) => negb (bool_decide (us = [])) && has_fault (WUnmatched us)
  | (ms, _) => negb (forallb (λ m, fits_amount (mt_Amount m)) ms) || has_fault (WMatches ms)
  end.

(** The rows and the goroutine an outcome leaves. *)
Definition silent (o : list Match * list string) : bool := rc_IsDryRun recon || refused o.
Definition match_rows (o : list Match * list string) : list match_row :=
  if silent o then [] else map (match_row_of (rc_ReconciliationID recon)) o.1.
Definition unmatched_rows (o : list Match * list string) : list unmatched_row :=
  if silent o then []
  else map (λ id, mkUnmatched id (rc_ReconciliationID recon) (e_now E)) o.2.
Definition metadata_jobs (o : list Match * list string) : list rjob :=
  if silent o then []
  else match o.1 with [] => [] | ms => [JMetadata (rc_ReconciliationID recon) ms] end.

Lemma write_op_cases op msg f w :
  write_op E op msg f w
  = if has_fault op then (w, Err (EAPI "INTERNAL_SERVER_ERROR" msg)) else (f w, Ok tt).
Proof. unfold write_op, has_fault. destruct (e_fault E op); by cbn. Qed.

Lemma save_progress_ok id s :
  e_ProgressInterval E ≠ 0 →
  ∃ w, save_progress E id s = ((w, s.2), Ok tt) ∧ grew s.1 w [] [] [] ∧ r_pages w = r_pages s.1.
Proof.
  intros Hi. unfold save_progress. rewrite (proj2 (Z.eqb_neq _ _) Hi).
  destruct (_ =? 0).
  - unfold SaveReconciliationProgress. rewrite write_op_cases.
    eexists. split; [done|]. destruct (has_fault _); cbn; (split; [|done]); [apply grew_refl|].
    unfold grew. cbn. by rewrite !app_nil_r.
  - exists s.1. destruct s. split; [done|]. split; [apply grew_refl|done].
Qed.

Lemma record_outcome_effect o w tp : o.1 = [] ∨ o.2 = [] →
  ∃ w' r, record_outcome E recon o.1 o.2 (w, tp) = ((w', tp), r)
    ∧ grew w w' (match_rows o) (unmatched_rows o) (metadata_jobs o) ∧ r_pages w' = r_pages w
    ∧ match r with Ok _ => refused o = false | Err e => refused o = true ∧ is_panic e = false end.
Proof.
  destruct o as [ms us]. cbn [fst snd]. intros Hex.
  unfold match_rows, unmatched_rows, metadata_jobs, silent, refused, record_outcome. cbn [fst snd].
  destruct (rc_IsDryRun recon); cbn [negb andb orb].
  { do 2 eexists. split; [done|]. split; [apply grew_refl|done]. }
  destruct ms as [|m ms].
  - destruct us as [|u us].
    + do 2 eexists. split; [done|]. split; [apply grew_refl|done].
    + rewrite (bool_decide_eq_false_2 (u :: us = [])) by done. unfold mbind, prog_bind, mret, prog_ret, inr_, RecordUnmatched.
      cbn. rewrite write_op_cases. destruct (has_fault (WUnmatched _)); do 2 eexists.
      * split; [done|]. split; [apply grew_refl|done].
      * split; [done|]. unfold grew. cbn. by rewrite !app_nil_r.
  - destruct Hex as [|Hus]; [done|]. cbn in Hus. subst us.
    rewrite (bool_decide_eq_false_2 (m :: ms = [])) by done.
    unfold mbind, prog_bind, mret, prog_ret, inr_, RecordMatches. cbn. destruct (fits_amount _ && forallb _ ms); cbn [negb orb].
    + rewrite write_op_cases. destruct (has_fault (WMatches _)); cbn; do 2 eexists.
      * split; [done|]. split; [apply grew_refl|done].
      * split; [done|]. unfold grew. cbn. by rewrite !app_nil_r.
    + do 2 eexists. split; [done|]. split; [apply grew_refl|done].
Qed.

Lemma process_effect reconcile t o w tp :
  e_ProgressInterval E ≠ 0 → reconcile [t] w = (w, Ok o) → o.1 = [] ∨ o.2 = [] →
  ∃ w' tp' r, process E recon reconcile t (w, tp) = ((w', tp'), r)
    ∧ grew w w' (match_rows o) (unmatched_rows o) (metadata_jobs o) ∧ r_pages w' = r_pages w
    ∧ tp_matches tp' = tp_matches tp + Z.of_nat (length o.1)
    ∧ tp_unmatched tp' = tp_unmatched tp + Z.of_nat (length o.2)
    ∧ match r with Ok _ => refused o = false | Err e => refused o = true ∧ is_panic e = false end.
Proof.
  intros Hi Ho Hex. unfold process, mbind, prog_bind, inr_ at 1. cbn [fst snd]. rewrite Ho.
  destruct o as [ms us] eqn:Eo. cbn [count fst snd].
  edestruct (record_outcome_effect o w) as (w1 & r & Hr & Hg & Hp & Hc); [by rewrite Eo|].
  rewrite Eo in Hr. cbn [fst snd] in Hr. rewrite Hr. subst o.
  destruct r as [u|e]; [|by do 3 eexists].
  cbn [count fst snd tp_matches tp_unmatched tp_progress].
  edestruct (save_progress_ok (rc_ReconciliationID recon)) as (w2 & Hs & Hg2 & Hp2); [done|].
  do 3 eexists. split; [exact Hs|]. cbn [fst snd tp_matches tp_unmatched] in *.
  split_and!; [|congruence|done..].
  rewrite <- (app_nil_r (match_rows _)), <- (app_nil_r (unmatched_rows _)), <- (app_nil_r (metadata_jobs _)).
  by eapply grew_trans.
Qed.

End outcome.
(** ** The pages of an upload *)

Lemma page_key_inj p b : Inj (=) (=) (page_key p b).
Proof.
  intros n m. unfold page_key. intros E%string_app_inj_l%string_app_inj_l%string_app_inj_l.
  apply (inj Z_to_string) in E. lia.
Qed.

Abbreviation external_page_key := (page_key "transactions:external:paginated:").

(** Every page in the cache is a page of this upload. *)
Definition pages_fresh (E : renv) (uploadID : string) (w : rworld) : Prop :=
  ∀ offset l, cached (e_now E) (r_pages w) (external_page_key (e_BatchSize E) offset) = Some l →
    l = external_query w uploadID (e_BatchSize E) offset.

(** The external transactions of an upload, newest first. *)
Definition externals (w : rworld) (uploadID : string) : list Transaction :=
  map ToInternalTransaction (order_desc e_Date
    (map x_txn (List.filter (λ x, String.eqb (x_UploadID x) uploadID) (r_external w)))).

Lemma externals_length w uploadID : (length (externals w uploadID) <= length (r_external w))%nat.
Proof. unfold externals. rewrite length_map, order_desc_perm, length_map. apply List.filter_length_le. Qed.

Lemma cached_insert {V} now (m : gmap string (time * V)) k k' u v :
  now < u →
  cached now (<[k := (u, v)]> m) k' = if decide (k = k') then Some v else cached now m k'.
Proof.
  intros Hu. unfold cached. destruct (decide (k = k')) as [->|Hk].
  - rewrite lookup_insert_eq. by rewrite (proj2 (Z.ltb_lt _ _) Hu).
  - by rewrite lookup_insert_ne.
Qed.

Lemma page_of_upload E uploadID w offset :
  pages_fresh E uploadID w →
  ∃ w', getExternalTransactionsPaginated E uploadID offset w
        = (w', Ok (limit_offset (e_BatchSize E) offset (externals w uploadID)))
    ∧ grew w w' [] [] [] ∧ pages_fresh E uploadID w'.
Proof.
  intros Hf. unfold getExternalTransactionsPaginated, GetExternalTransactionsPaginated, mbind, prog_bind,
    mret, prog_ret.
  assert (limit_offset (e_BatchSize E) offset (externals w uploadID)
    = map ToInternalTransaction (external_query w uploadID (e_BatchSize E) offset)) as ->.
  { unfold limit_offset, externals, external_query. by rewrite skipn_map, firstn_map. }
  set (key := external_page_key (e_BatchSize E) offset).
  destruct (cached _ _ key) as [[|x l]|] eqn:Ec.
  2: { apply Hf in Ec. exists w. rewrite <- Ec. split; [done|]. split; [apply grew_refl|done]. }
  all: destruct (external_query w uploadID (e_BatchSize E) offset) as [|x l] eqn:Eq;
    [exists w; split; [done|]; split; [apply grew_refl|done]|].
  all: eexists; split; [done|]; split; [unfold grew; cbn; by rewrite !app_nil_r|].
  all: intros offset' l'; cbn; assert (0 < five_minutes) by done; rewrite cached_insert by lia.
  all: destruct (decide _) as [Hk|_]; [|apply Hf].
  all: apply page_key_inj in Hk as <-; intros [= <-]; symmetry; exact Eq.
Qed.
(** ** The one-to-one run *)

Lemma grew_externals w w' ms us js uploadID : grew w w' ms us js → externals w' uploadID = externals w uploadID.
Proof. intros (_ & He & _). unfold externals. by rewrite He. Qed.

Section one_to_one_run.
Context `{Levenshtein} `{PostgresText}.
Context (E : renv) (recon : Reconciliation) (groupCriteria : string) (rules : list MatchingRule).
Context (Hbatch : (0 < e_BatchSize E)%nat) (Hworkers : (0 < e_MaxWorkers E)%nat)
  (Hinterval : e_ProgressInterval E ≠ 0).

Let reconcile := createReconciler E "one_to_one" (rc_UploadID recon) groupCriteria rules.

(** The specified outcome of an external transaction. *)
Definition outcome (d : db) (t : Transaction) : list Match * list string :=
  (matches_of E d rules t, unmatched_of E d rules t).

Lemma outcome_exclusive d t : (outcome d t).1 = [] ∨ (outcome d t).2 = [].
Proof. unfold outcome, unmatched_of. cbn. destruct (matches_of _ _ _ _); auto. Qed.

Lemma reconcile_outcome t w : reconcile [t] w = (w, Ok (outcome (r_db w) t)).
Proof.
  unfold reconcile, createReconciler, oneToOneReconciliation. cbn -[findMatchingInternalTransaction].
  rewrite find_matches by done. cbn. by rewrite !app_nil_r.
Qed.

(** What has been done when the transactions [seen] have been taken. *)
Definition progressed (w0 : rworld) (tp0 : transactionProcessor) (seen : list Transaction)
    (w : rworld) (tp : transactionProcessor) : Prop :=
  let o := outcome (r_db w0) in
  grew w0 w (flat_map (λ t, match_rows E recon (o t)) seen)
    (flat_map (λ t, unmatched_rows E recon (o t)) seen) (flat_map (λ t, metadata_jobs E recon (o t)) seen)
  ∧ tp_matches tp = tp_matches tp0 + sumZ (λ t, Z.of_nat (length (o t).1)) seen
  ∧ tp_unmatched tp = tp_unmatched tp0 + sumZ (λ t, Z.of_nat (length (o t).2)) seen.

Definition refusals (d : db) (seen : list Transaction) : list Transaction :=
  List.filter (λ t, refused E recon (outcome d t)) seen.

Lemma process_progressed w0 tp0 seen t w tp :
  progressed w0 tp0 seen w tp →
  ∃ w' tp' r, process E recon reconcile t (w, tp) = ((w', tp'), r)
    ∧ progressed w0 tp0 (seen ++ [t]) w' tp' ∧ r_pages w' = r_pages w
    ∧ match r with
      | Ok _ => refusals (r_db w0) (seen ++ [t]) = refusals (r_db w0) seen
      | Err e => length (refusals (r_db w0) (seen ++ [t])) = S (length (refusals (r_db w0) seen))
                 ∧ is_panic e = false
      end.
Proof.
  intros (Hg & Hm & Hu). assert (r_db w = r_db w0) as Hd by apply Hg.
  destruct (process_effect E recon reconcile t (outcome (r_db w) t) w tp)
    as (w' & tp' & r & Hp & Hg' & Hpg & Hm' & Hu' & Hr);
    [done|apply reconcile_outcome|apply outcome_exclusive|].
  rewrite Hd in *. exists w', tp', r. split; [exact Hp|]. split; [|split; [done|]].
  - unfold progressed. rewrite !flat_map_app, !sumZ_app. cbn [flat_map sumZ]. rewrite !app_nil_r.
    split; [by eapply grew_trans|]. rewrite Hm', Hu', Hm, Hu. lia.
  - unfold refusals. rewrite List.filter_app. cbn [List.filter].
    destruct r as [u|e]; [by rewrite Hr, app_nil_r|]. destruct Hr as [-> He].
    rewrite length_app. cbn [length]. split; [lia|done].
Qed.

Lemma one_to_one_transactions w0 tp0 :
  pages_fresh E (rc_UploadID recon) w0 →
  ∃ w tp seen rest r,
    processTransactions E recon "one_to_one" reconcile (w0, tp0) = ((w, tp), r)
    ∧ seen ++ rest = externals w0 (rc_UploadID recon) ∧ progressed w0 tp0 seen w tp
    ∧ match r with
      | Ok _ => rest = [] ∧ refusals (r_db w0) seen = []
      | Err e => refusals (r_db w0) seen ≠ [] ∧ is_panic e = false
      end.
Proof.
  intros Hf. unfold processTransactions. cbv zeta beta. cbn [String.eqb Ascii.eqb Bool.eqb fst].
  destruct (pool_run (e_fetch_first E) (e_MaxQueueSize E)
    (λ offset, inr_ (getExternalTransactionsPaginated E (rc_UploadID recon) offset))
    (λ t, _ ← process E recon reconcile t; mret true)
    (externals w0 (rc_UploadID recon)) (e_BatchSize E)
    (λ seen k es s, progressed w0 tp0 seen s.1 s.2 ∧ pages_fresh E (rc_UploadID recon) s.1
       ∧ (k + length es = e_MaxWorkers E)%nat ∧ length es = length (refusals (r_db w0) seen)))
    with (total := rows_to_read w0) (w := e_MaxWorkers E) (y := (w0, tp0))
    as ([w tp] & seen & rest & k & es & Hrun & HL & (Hp & _ & Hk & Hes) & Hend).
  - done.
  - intros seen k es offset [w tp] (Hp & Hfw & Hrest). cbn [fst snd] in *.
    destruct (page_of_upload E (rc_UploadID recon) w offset Hfw) as (w' & Hpage & Hg & Hfw').
    exists (w', tp). unfold inr_. cbn [fst snd]. rewrite Hpage.
    destruct Hp as (Hg0 & Hm & Hu). rewrite (grew_externals _ _ _ _ _ _ Hg0). split; [done|].
    split; [|done]. split; [|done].
    rewrite <- (app_nil_r (flat_map (λ t, match_rows E recon _) seen)),
      <- (app_nil_r (flat_map (λ t, unmatched_rows E recon _) seen)),
      <- (app_nil_r (flat_map (λ t, metadata_jobs E recon _) seen)). by eapply grew_trans.
  - intros seen t rest k es [w tp] _ (Hp & Hfw & Hk & Hes). cbn [fst snd] in *.
    destruct (process_progressed w0 tp0 seen t w tp Hp) as (w' & tp' & r & Hpr & Hp' & Hpg & Hr).
    unfold mbind, prog_bind, mret, prog_ret. rewrite Hpr.
    assert (pages_fresh E (rc_UploadID recon) w') as Hfw'.
    { intros offset l. rewrite Hpg. intros ->%Hfw. unfold external_query.
      by rewrite (proj1 (proj2 (proj1 Hp'))), (proj1 (proj2 (proj1 Hp))). }
    destruct r as [u|e]; do 2 eexists; (split; [done|]); cbn [fst snd].
    + split_and!; [done..|by rewrite Hr].
    + destruct Hr as [Hr He]. rewrite length_app. cbn [length]. split_and!; [done..|lia|lia].
  - rewrite externals_length. unfold rows_to_read. lia.
  - cbn [fst snd]. split_and!; [|done|cbn; lia|done].
    unfold progressed. cbn. split; [apply grew_refl|lia].
  - rewrite (run_pool_eq _ _ _ _ _ _ _ _ _ Hrun). cbn [fst snd] in *.
    destruct es as [|e es].
    + do 5 eexists. split; [done|]. split; [exact HL|]. split; [done|]. cbn in Hk, Hes.
      split; [destruct Hend; [lia|done]|]. by destruct (refusals _ seen).
    + do 5 eexists. split; [done|]. split; [exact HL|]. split; [done|].
      split; [by intros Hn; rewrite Hn in Hes|done].
Qed.

End one_to_one_run.
(** ** The whole run *)

Lemma update_status_cases E id status m u w :
  ∃ r, UpdateReconciliationStatus E id status m u w
       = (if is_ok r then w <| r_recons := map (λ x,
            if String.eqb (rc_ReconciliationID x) id then
              x <| rc_Status := status |> <| rc_MatchedTransactions := m |>
                <| rc_UnmatchedTransactions := u |>
                <| rc_CompletedAt := if String.eqb status "completed" then Some (e_now E) else None |>
            else x) (r_recons w) |> else w, r)
    ∧ (∀ e, r = Err e → is_panic e = false)
    ∧ (e_fault E (WStatus id status) = None → id ∈ map rc_ReconciliationID (r_recons w) → r = Ok tt).
Proof.
  unfold UpdateReconciliationStatus.
  destruct (e_fault E (WStatus id status)) as [f|].
  { eexists (Err _). split; [reflexivity|]. split; [by intros ? [= <-]|done]. }
  destruct (existsb _ (r_recons w)) eqn:Ex.
  - exists (Ok tt). by split.
  - eexists (Err _). split; [reflexivity|]. split; [by intros ? [= <-]|].
    intros _ (x & -> & Hx)%list_elem_of_fmap. exfalso. eapply eq_true_false_abs; [|exact Ex].
    apply existsb_exists. exists x. split; [by apply list_elem_of_In|apply String.eqb_refl].
Qed.

Lemma getMatchingRules_rules ids w w' r :
  getMatchingRules ids w = (w, r) → r_rules w' = r_rules w → getMatchingRules ids w' = (w', r).
Proof.
  revert r. induction ids as [|id ids IH]; intros r; cbn; [by intros [= <-]|].
  unfold mbind, prog_bind, GetMatchingRule, find_rule. intros Hg Hr. rewrite Hr.
  destruct (List.find _ (r_rules w)); [|by injection Hg as <-].
  destruct (getMatchingRules ids w) as [w1 [rules|e]] eqn:E; injection Hg as -> <-;
    by rewrite (IH _ eq_refl Hr).
Qed.

(** Everything but the status of reconciliations, the progress and the caches. *)
Definition results (w w' : rworld) (ms : list match_row) (us : list unmatched_row) (js : list rjob) : Prop :=
  r_db w' = r_db w ∧ r_external w' = r_external w ∧ r_rules w' = r_rules w
  ∧ r_matches w' = r_matches w ++ ms ∧ r_unmatched w' = r_unmatched w ++ us
  ∧ r_jobs w' = r_jobs w ++ js.

(** The reconciliation is completed with these counts. *)
Definition completed (id : string) (m u : Z) (w : rworld) : Prop :=
  ∀ x, x ∈ r_recons w → rc_ReconciliationID x = id →
    rc_Status x = StatusCompleted ∧ rc_MatchedTransactions x = m ∧ rc_UnmatchedTransactions x = u
    ∧ is_Some (rc_CompletedAt x).

Section whole_run.
Context `{Levenshtein} `{PostgresText}.
Context (E : renv) (recon : Reconciliation) (groupCriteria : string) (rules : list MatchingRule).

Lemma one_to_one_results ids w w' r :
  (0 < e_BatchSize E)%nat → (0 < e_MaxWorkers E)%nat → e_ProgressInterval E ≠ 0 →
  pages_fresh E (rc_UploadID recon) w → getMatchingRules ids w = (w, Ok rules) →
  processReconciliation E recon "one_to_one" groupCriteria ids w = (w', r) →
  let o := outcome E rules (r_db w) in
  ∃ seen rest, seen ++ rest = externals w (rc_UploadID recon)
    ∧ results w w' (flat_map (λ t, match_rows E recon (o t)) seen)
        (flat_map (λ t, unmatched_rows E recon (o t)) seen)
        (flat_map (λ t, metadata_jobs E recon (o t)) seen)
    ∧ (r = Ok tt → rest = [] ∧ refusals E recon rules (r_db w) seen = []
         ∧ completed (rc_ReconciliationID recon)
             (sumZ (λ t, Z.of_nat (length (o t).1)) seen) (sumZ (λ t, Z.of_nat (length (o t).2)) seen) w')
    ∧ (∀ e, r = Err e → is_panic e = false)
    ∧ ((∀ status, e_fault E (WStatus (rc_ReconciliationID recon) status) = None) →
       rc_ReconciliationID recon ∈ map rc_ReconciliationID (r_recons w) →
       refusals E recon rules (r_db w) seen = [] → r = Ok tt).
Proof.
  intros Hb Hw Hi Hf Hrules Hrun. cbv zeta.
  unfold processReconciliation, mbind, prog_bind, ctx_err, map_err in Hrun.
  destruct (update_status_cases E (rc_ReconciliationID recon) StatusInProgress 0 0 w) as (r1 & Hs & Hp1 & Hok1).
  rewrite Hs in Hrun. destruct r1 as [[]|e]; cbn [is_ok] in *.
  2: { injection Hrun as <- <-. exists [], (externals w (rc_UploadID recon)). split; [done|].
       split; [unfold results; cbn; by rewrite !app_nil_r|]. split; [done|].
       split; [by intros ? [= <-]|]. intros Hx Hrow _.
       discriminate (Hok1 (Hx _) Hrow). }
  set (w1 := w <| r_recons := _ |>) in Hrun.
  rewrite (getMatchingRules_rules ids w w1 _ Hrules) in Hrun by done.
  unfold reconcile_with in Hrun.
  destruct (one_to_one_transactions E recon groupCriteria rules Hb Hw Hi w1
    (mkProcessor 0 0 (LoadReconciliationProgress w1 (rc_ReconciliationID recon))))
    as (w2 & tp & seen & rest & r2 & Ht & HL & (Hg & Hm & Hu) & Hr2); [exact Hf|].
  rewrite Ht in Hrun. exists seen, rest. split; [exact HL|].
  assert (results w w2 (flat_map (λ t, match_rows E recon (outcome E rules (r_db w) t)) seen)
    (flat_map (λ t, unmatched_rows E recon (outcome E rules (r_db w) t)) seen)
    (flat_map (λ t, metadata_jobs E recon (outcome E rules (r_db w) t)) seen)) as Hres.
  { destruct Hg as (?&?&?&?&?&?&?). done. }
  assert (map rc_ReconciliationID (r_recons w2) = map rc_ReconciliationID (r_recons w)) as Hids.
  { destruct Hg as (_&_&->&_). unfold w1. cbn. rewrite map_map. apply map_ext. intros x.
    by destruct (String.eqb (rc_ReconciliationID x) _). }
  cbn in Hm, Hu. destruct r2 as [[]|e].
  - destruct Hr2 as [-> Hno]. unfold finalizeReconciliation in Hrun.
    destruct (update_status_cases E (rc_ReconciliationID recon) StatusCompleted (tp_matches tp)
      (tp_unmatched tp) w2) as (r3 & Hs3 & Hp3 & Hok3).
    rewrite Hs3 in Hrun. injection Hrun as <- <-. split_and!.
    + destruct r3; cbn [is_ok]; exact Hres.
    + intros ->. cbn [is_ok]. split; [done|]. split; [exact Hno|].
      intros x. cbn. intros (x0 & -> & _)%list_elem_of_fmap.
      destruct (String.eqb_spec (rc_ReconciliationID x0) (rc_ReconciliationID recon)); [|done].
      intros _. cbn. rewrite Hm, Hu. by eauto.
    + exact Hp3.
    + intros Hx Hrow _. apply Hok3; [done|]. by rewrite Hids.
  - destruct Hr2 as [Hno He]. rewrite He in Hrun. injection Hrun as <- <-.
    split_and!; [done|done|by intros ? [= <-]|]. intros _ _ Hn. by destruct Hno.
Qed.

End whole_run.
(** ** Examples *)

Definition ex_renv : renv := {|
  e_now := 1000 * Time.day; e_new_id := λ suffix n, suffix +:+ "_" +:+ Z_to_string (Z.of_nat n);
  e_BatchSize := 2; e_MaxWorkers := 3; e_MaxQueueSize := 10; e_ProgressInterval := 100;
  e_fault := λ _, None; e_fetch_first := λ _, false; e_claimed_first := λ _, true |}.

Definition ex_lev : Levenshtein := {| DistanceForStrings := λ a b, if String.eqb a b then O else 100%nat |}.
Definition ex_pg : PostgresText := {|
  numeric_text := Float64.format_shortest; timestamp_text := Time.format_rfc3339nano |}.

Definition ex_ext (id : string) (amount : Z) (reference : string) (day : Z) : ExternalTransaction :=
  mkExternalTransaction id (Float64.of_Z amount) reference "USD" "statement" (day * Time.day) "bank".
Definition ex_row (id : string) (amount : Z) (reference : string) (day : Z) : Transaction :=
  empty_transaction <| t_TransactionID := id |> <| t_Amount := Float64.of_Z amount |>
    <| t_Reference := reference |> <| t_Currency := "USD" |> <| t_Status := StatusApplied |>
    <| t_CreatedAt := day * Time.day |>.

Definition ex_crit (field operator : string) (drift : float64) : MatchingCriteria :=
  mkCriteria field operator "" "" drift.
Definition ex_rule (id : string) (criteria : list MatchingCriteria) : MatchingRule :=
  mkRule id 0 0 ("rule " +:+ id) "" criteria.
Definition by_reference : MatchingRule := ex_rule "r1" [ex_crit "reference" "equals" Float64.zero].
Definition tenth : float64 := Float64.of_ratio 1 10.
Definition by_amount : MatchingRule := ex_rule "r2" [ex_crit "amount" "equals" tenth].

Definition ex_recon (uploadID : string) (dry : bool) : Reconciliation :=
  mkReconciliation "rec" uploadID StatusStarted 0 0 dry 0 None.

Definition ex_rworld (rows : list Transaction) (exts : list (string * ExternalTransaction))
    (rules : list MatchingRule) : rworld :=
  mkRWorld (mkDB ∅ rows []) (map (λ x, mkExternal x.2 x.1) exts) [ex_recon "up" false] [] [] ∅ rules
    ∅ ∅ ∅ 0 [].

Definition ex_statement : rworld :=
  ex_rworld [ex_row "t1" 100 "inv1" 1; ex_row "t2" 100 "inv2" 2; ex_row "t3" 70 "inv2" 3]
    [("up", ex_ext "x1" 100 "INV1" 1); ("up", ex_ext "x2" 55 "inv2" 2); ("up", ex_ext "x3" 9 "none" 4);
     ("other", ex_ext "y1" 70 "inv2" 5)]
    [by_reference].

Definition ex_run (E : renv) (strategy groupCriteria uploadID : string) (w : rworld) : rworld * result unit :=
  processReconciliation (H := ex_lev) (H0 := ex_pg) E (ex_recon uploadID false) strategy groupCriteria
    (map mr_RuleID (r_rules w)) w.
Definition ex_found (w : rworld) : list (string * string) * list string :=
  (map (λ m, (mw_ExternalTransactionID m, mw_InternalTransactionID m)) (r_matches w),
   map um_ExternalTransactionID (r_unmatched w)).

(** Newest first: [x3] has no row, [x2] has two, [x1] one. *)
Example statement_reconciled :
  let '(w, r) := ex_run ex_renv "one_to_one" "" "up" ex_statement in
  r = Ok tt ∧ ex_found w = ([("x2", "t2"); ("x2", "t3"); ("x1", "t1")], ["x3"])
  ∧ map (λ x, (rc_Status x, rc_MatchedTransactions x, rc_UnmatchedTransactions x)) (r_recons w)
    = [("completed", 3, 1)].
Proof. by vm_compute. Qed.

(** *** The cache key of a page does not name the upload *)

(** Within five minutes a second upload is reconciled with the first one's
    transactions. *)
Lemma page_of_another_upload :
  let w := (ex_run ex_renv "one_to_one" "" "up" ex_statement).1 in
  let '(w', r) := ex_run ex_renv "one_to_one" "" "other" w in
  r = Ok tt ∧ map e_ID (external_query w' "other" 10 0) = ["y1"]
  ∧ ex_found w' = ([("x2", "t2"); ("x2", "t3"); ("x1", "t1"); ("x2", "t2"); ("x2", "t3"); ("x1", "t1")],
                   ["x3"; "x3"]).
Proof. by vm_compute. Qed.

(** *** The search bounds lose matches *)

(** The rule allows a tenth of the internal amount, the bounds a tenth of the
    external one. *)
Lemma drift_of_different_amounts :
  let ext := ToInternalTransaction (ex_ext "x" 90 "" 1) in
  let row := ex_row "t" 100 "" 1 in
  matchesRules (H := ex_lev) ext row [by_amount] = true
  ∧ within (calculateMatchingBounds ext [by_amount]) row = false.
Proof. by vm_compute. Qed.

(** The bounds of one rule narrow the search for another. *)
Lemma second_rule_narrows_the_search :
  let ext := ToInternalTransaction (ex_ext "x" 90 "inv" 1) in
  let row := ex_row "t" 200 "inv" 1 in
  matchesRules (H := ex_lev) ext row [by_reference; by_amount] = true
  ∧ within (calculateMatchingBounds ext [by_reference]) row = true
  ∧ within (calculateMatchingBounds ext [by_reference; by_amount]) row = false.
Proof. by vm_compute. Qed.

(** *** Groups *)

(** A transaction matched with a group of the first page is reported as
    unmatched by the second page. *)
Definition ex_two_pages : rworld :=
  ex_rworld [ex_row "t1" 100 "inv1" 1; ex_row "t2" 100 "inv2" 2; ex_row "t3" 70 "inv3" 3]
    [("up", ex_ext "x1" 100 "inv1" 1)] [by_reference].
Lemma matched_and_unmatched :
  ex_found (ex_run ex_renv "one_to_many" "reference" "up" ex_two_pages).1 = ([("x1", "t1")], ["x1"]).
Proof. by vm_compute. Qed.

(** A group that does not fit on a page is compared in pieces. *)
Definition exact_amount : MatchingRule := ex_rule "r3" [ex_crit "amount" "equals" Float64.zero].
Definition ex_big_group : rworld :=
  ex_rworld [ex_row "t1" 50 "inv1" 1; ex_row "t2" 30 "inv1" 2; ex_row "t3" 20 "inv1" 3]
    [("up", ex_ext "x1" 100 "inv1" 1)] [exact_amount].
Definition with_batch (n : nat) (E : renv) : renv :=
  mkREnv (e_now E) (e_new_id E) n (e_MaxWorkers E) (e_MaxQueueSize E) (e_ProgressInterval E)
    (e_fault E) (e_fetch_first E) (e_claimed_first E).
Lemma group_split_across_pages :
  ex_found (ex_run (with_batch 3 ex_renv) "one_to_many" "reference" "up" ex_big_group).1
    = ([("x1", "t3"); ("x1", "t1"); ("x1", "t2")], [])
  ∧ ex_found (ex_run (with_batch 2 ex_renv) "one_to_many" "reference" "up" ex_big_group).1
    = ([], ["x1"; "x1"]).
Proof. by vm_compute. Qed.

(** The map of claimed groups is made anew for each transaction of a run, so
    two of them match the same group. *)
Definition ex_same_group : rworld :=
  ex_rworld [ex_row "t1" 60 "inv1" 1; ex_row "t2" 40 "inv1" 2]
    [("up", ex_ext "x1" 100 "inv1" 1); ("up", ex_ext "x2" 100 "inv1" 2)] [exact_amount].
Lemma group_matched_twice :
  ex_found (ex_run ex_renv "one_to_many" "reference" "up" ex_same_group).1
    = ([("x2", "t1"); ("x2", "t2"); ("x1", "t1"); ("x1", "t2")], []).
Proof. by vm_compute. Qed.

(** *** Tables *)

(** External amounts are unbounded, those of matches have ten digits: one large
    payment fails the whole run. *)
Definition ex_large : rworld :=
  ex_rworld [ex_row "t1" 10000000000 "inv1" 1] [("up", ex_ext "x1" 10000000000 "inv1" 1)] [by_reference].
Lemma large_match_fails_the_run :
  is_ok (ex_run ex_renv "one_to_one" "" "up" ex_large).2 = false.
Proof. by vm_compute. Qed.

(** The update time that the service returns is not stored. *)
Lemma updated_at_not_stored :
  let w := ex_rworld [] [] [by_reference] in
  match UpdateMatchingRule ex_renv (by_reference <| mr_Name := "renamed" |>) w with
  | (w', Ok rule) => mr_UpdatedAt rule = e_now ex_renv
      ∧ map (λ r, (mr_Name r, mr_UpdatedAt r)) (r_rules w') = [("renamed", 0)]
  | (_, Err _) => False
  end.
Proof. by vm_compute. Qed.

(** A dry run reads back as a run that recorded its results. *)
Lemma dry_run_not_stored :
  match StartReconciliation ex_renv "up" "one_to_one" "" [] true ex_statement with
  | (w, Ok id) => match GetReconciliation w id with Ok r => rc_IsDryRun r = false | Err _ => False end
  | (_, Err _) => False
  end.
Proof. by vm_compute. Qed.

(** ** The one-to-one run against its specification *)

Lemma refusals_nil `{Levenshtein} E recon rules d l :
  (∀ op, e_fault E op = None) → Forall (λ t, fits_amount (t_Amount t) = true) l →
  refusals E recon rules d l = [].
Proof.
  intros Hf Hl. unfold refusals. apply list_filter_none. intros t Ht. rewrite Forall_forall in Hl.
  specialize (Hl t Ht). unfold refused, outcome, has_fault. rewrite !Hf. apply andb_false_intro2.
  rewrite (bool_decide_eq_false_2 (is_Some None)) by apply is_Some_None. unfold matches_of.
  destruct (map (one_match t) _) as [|m ms] eqn:Em; [apply andb_false_r|].
  rewrite orb_false_r, negb_false_iff, <- Em. apply forallb_forall.
  intros x (i & <- & _)%in_map_iff. exact Hl.
Qed.

Lemma flat_map_silent {A B} (s : A → bool) (b : bool) (f : A → list B) l :
  (∀ x, x ∈ l → s x = b) →
  flat_map (λ x, if s x then [] else f x) l = if b then [] else flat_map f l.
Proof.
  induction l as [|x l IH]; intros Hs; [by destruct b|]. cbn. rewrite Hs by left.
  rewrite IH by (intros y Hy; apply Hs; by right). by destruct b.
Qed.




End Reconciliation.
