(* ===== verification/ReconciliationSafety.v ===== *)
(** Safety of reconciliations: the claims of groups by concurrent workers, and
    the table of matching rules

    [claims_step] interleaves the goroutines of [processGroupedTransactions] at
    the granularity of their lock; [rstep] is every change the service makes to
    the stores of [Reconciliation]. *)
From S2P Require Import Prelude Float64 Decimal Types Time Datastore Inflight Workers Matching Reconciliation.

Module ReconciliationSafety.

Import Datastore Inflight Workers Matching Reconciliation.

(** ** Claims of groups

    The goroutines of [processGroupedTransactions] at the granularity of the
    lock on the map of groups: a worker takes a snapshot of the keys, compares
    its transaction with one group after the other, and claims a group that
    matches unless another worker has. *)

Inductive claimer :=
| CStart
| CScan (keys : list string)
| CMatched (k : string)
| CUnmatched.

Section claims.
Context `{Levenshtein} (groups : gmap string (list Transaction)) (rules : list MatchingRule).

Definition fits (t : Transaction) (k : string) : bool :=
  matchesGroup t (default [] (groups !! k)) rules.

(** One step of the worker for [t] with the shared map. *)
Inductive claim_step (t : Transaction) : gset string → claimer → gset string → claimer → Prop :=
| step_snapshot groupMap keys : keys ≡ₚ elements groupMap →
    claim_step t groupMap CStart groupMap (CScan keys)
| step_differs groupMap k keys : fits t k = false →
    claim_step t groupMap (CScan (k :: keys)) groupMap (CScan keys)
| step_lost groupMap k keys : fits t k = true → k ∉ groupMap →
    claim_step t groupMap (CScan (k :: keys)) groupMap (CScan keys)
| step_claim groupMap k keys : fits t k = true → k ∈ groupMap →
    claim_step t groupMap (CScan (k :: keys)) (groupMap ∖ {[k]}) (CMatched k)
| step_end groupMap : claim_step t groupMap (CScan []) groupMap CUnmatched.

Definition claims : Type := gset string * list (Transaction * claimer).

Inductive claims_step : relation claims :=
| one_claimer groupMap groupMap' l1 l2 t c c' : claim_step t groupMap c groupMap' c' →
    claims_step (groupMap, l1 ++ (t, c) :: l2) (groupMap', l1 ++ (t, c') :: l2).

Definition claim_of (tc : Transaction * claimer) : list string :=
  match tc.2 with CMatched k => [k] | _ => [] end.
Definition claimed_keys (l : list (Transaction * claimer)) : list string := flat_map claim_of l.

(** What a worker knows: a claimed group matches; a group it no longer looks
    at does not match or has been claimed. *)
Definition claimer_ok (groupMap : gset string) (tc : Transaction * claimer) : Prop :=
  let passed keys := ∀ k, k ∈ groupMap → k ∉ keys → fits tc.1 k = false in
  match tc.2 with
  | CStart => True
  | CScan keys => passed keys
  | CMatched k => fits tc.1 k = true
  | CUnmatched => passed []
  end.

Definition claims_ok (s : claims) : Prop :=
  NoDup (claimed_keys s.2) ∧ list_to_set (claimed_keys s.2) ## s.1
  ∧ list_to_set (claimed_keys s.2) ∪ s.1 = dom groups ∧ Forall (claimer_ok s.1) s.2.

Definition claimers (txns : list Transaction) : claims :=
  (buildGroupMap groups, map (λ t, (t, CStart)) txns).

Lemma claims_ok_start txns : claims_ok (claimers txns).
Proof.
  assert (claimed_keys (map (λ t, (t, CStart)) txns) = []) as Hk.
  { by induction txns. }
  unfold claims_ok, claimers. cbn [fst snd]. rewrite Hk. split_and!.
  - constructor.
  - set_solver.
  - set_solver.
  - apply Forall_map. by apply Forall_forall.
Qed.

Lemma claimer_ok_mono s s' tc : s' ⊆ s → claimer_ok s tc → claimer_ok s' tc.
Proof. unfold claimer_ok. destruct tc.2; set_solver. Qed.

Lemma claim_step_ok t s c s' c' :
  claim_step t s c s' c' → claimer_ok s (t, c) →
  claimer_ok s' (t, c') ∧ s' ⊆ s
  ∧ (claim_of (t, c') = claim_of (t, c) ∧ s' = s
     ∨ ∃ k, claim_of (t, c) = [] ∧ claim_of (t, c') = [k] ∧ k ∈ s ∧ s' = s ∖ {[k]}).
Proof.
  unfold claimer_ok, claim_of. intros Hs Hc. inversion Hs as [? keys Hp|? k keys Hf|? k keys Hf Hk|? k keys Hf Hk|]; subst; cbn in *.
  - split; [|by auto]. intros k Hk Hn. destruct Hn. rewrite Hp. by apply elem_of_elements.
  - split; [|by auto]. intros k' Hk' Hn. destruct (decide (k' = k)) as [->|]; [done|].
    apply Hc; [done|]. by rewrite not_elem_of_cons.
  - split; [|by auto]. intros k' Hk' Hn. destruct (decide (k' = k)) as [->|]; [done|].
    apply Hc; [done|]. by rewrite not_elem_of_cons.
  - split; [done|]. split; [set_solver|]. right. by exists k.
  - split; [|by auto]. exact Hc.
Qed.

Lemma claimed_keys_app l1 l2 : claimed_keys (l1 ++ l2) = claimed_keys l1 ++ claimed_keys l2.
Proof. apply flat_map_app. Qed.

Lemma claims_step_ok s s' : claims_step s s' → claims_ok s → claims_ok s'.
Proof.
  intros Hs. inversion Hs as [gm gm' l1 l2 t c c' Hc]; subst. unfold claims_ok. cbn [fst snd].
  intros (Hnd & Hdis & Hall & Hok). apply Forall_app in Hok as [Hok1 [Hokt Hok2]%Forall_cons].
  destruct (claim_step_ok _ _ _ _ _ Hc Hokt) as (Hokt' & Hsub & Hcl).
  assert (Forall (claimer_ok gm') (l1 ++ (t, c') :: l2)) as Hok'.
  { apply Forall_app. split; [|constructor; [done|]];
      (eapply Forall_impl; [eassumption|]); intros x; by apply claimer_ok_mono. }
  revert Hnd Hdis Hall. rewrite !claimed_keys_app. unfold claimed_keys at 2 4 6 8 10 12. cbn [flat_map].
  fold (claimed_keys l2).
  destruct Hcl as [[-> ->]|(k & -> & -> & Hk & ->)]; [by auto|].
  cbn [app]. rewrite !list_to_set_app_L, list_to_set_cons. intros Hnd Hdis Hall.
  split_and!; [|set_solver| |done].
  - rewrite <- Permutation_middle. constructor; [|done]. rewrite elem_of_app. set_solver.
  - rewrite <- Hall. apply set_eq. intros x.
    rewrite !elem_of_union, elem_of_difference, !elem_of_singleton.
    destruct (decide (x = k)) as [->|]; tauto.
Qed.

(** Every step brings its worker closer to its end. *)
Definition claimer_work (c : claimer) : nat :=
  match c with
  | CStart => size groups + 2
  | CScan keys => length keys + 1
  | _ => 0
  end%nat.
Definition claims_work (l : list (Transaction * claimer)) : nat :=
  foldr (λ tc n, (claimer_work tc.2 + n)%nat) 0%nat l.

Lemma claims_work_app l1 l2 : claims_work (l1 ++ l2) = (claims_work l1 + claims_work l2)%nat.
Proof. induction l1 as [|x l1 IH]; cbn; [done|]. fold (claims_work (l1 ++ l2)). rewrite IH. unfold claims_work. lia. Qed.

Lemma claims_step_work s s' : claims_step s s' → claims_ok s → (claims_work s'.2 < claims_work s.2)%nat.
Proof.
  intros Hs. inversion Hs as [gm gm' l1 l2 t c c' Hc]; subst. cbn [fst snd].
  intros (_ & _ & Hall & _). cbn [fst snd] in Hall. rewrite !claims_work_app. cbn [claims_work foldr snd].
  enough (claimer_work c' < claimer_work c)%nat by lia.
  inversion Hc as [? keys Hp| | | |]; subst; cbn [claimer_work length]; try lia.
  apply Permutation_length in Hp. rewrite Hp, <- (size_dom (D := gset string)).
  assert (size gm' <= size (dom groups))%nat as Hs' by (apply subseteq_size; set_solver).
  change (length (elements gm')) with (size gm'). lia.
Qed.

Lemma claims_steps_ok s s' n :
  nsteps claims_step n s s' → claims_ok s →
  claims_ok s' ∧ map fst s'.2 = map fst s.2 ∧ (n + claims_work s'.2 <= claims_work s.2)%nat.
Proof.
  induction 1 as [s|n s s1 s2 Hs _ IH]; intros Hok; [split_and!; [done|done|lia]|].
  destruct (IH (claims_step_ok _ _ Hs Hok)) as (Hok2 & Hm & Hw).
  pose proof (claims_step_work _ _ Hs Hok). split; [done|]. split; [|lia]. rewrite Hm.
  inversion Hs; subst. cbn. by rewrite !map_app.
Qed.

Lemma claimer_moves t gm c : claimer_work c ≠ 0%nat → ∃ gm' c', claim_step t gm c gm' c'.
Proof.
  destruct c as [|[|k keys]|k|]; cbn; intros Hw; [|..|done|done].
  - do 2 eexists. by apply step_snapshot.
  - do 2 eexists. apply step_end.
  - destruct (fits t k) eqn:Hf; [|by do 2 eexists; apply step_differs].
    destruct (decide (k ∈ gm)); do 2 eexists; [by apply step_claim|by apply step_lost].
Qed.

Lemma claims_move s : claims_work s.2 ≠ 0%nat → ∃ s', claims_step s s'.
Proof.
  destruct s as [gm l]. cbn. intros Hw.
  enough (∃ l1 t c l2, l = l1 ++ (t, c) :: l2 ∧ claimer_work c ≠ 0%nat) as (l1 & t & c & l2 & -> & Hc).
  { destruct (claimer_moves t gm c Hc) as (gm' & c' & Hs). eexists. by constructor. }
  induction l as [|[t c] l IH]; [done|]. cbn in Hw.
  destruct (decide (claimer_work c = 0%nat)) as [E|E]; [|by exists [], t, c, l].
  destruct IH as (l1 & t' & c' & l2 & -> & Hc); [unfold claims_work; lia|]. by exists ((t, c) :: l1), t', c', l2.
Qed.

(** *** The goroutines one after the other are a run *)

Lemma scan_steps gm l1 l2 t keys :
  (∀ k, k ∈ keys → k ∈ gm) →
  let '(gm', c) := match first_match t groups rules keys with
                   | Some k => (gm ∖ {[k]}, CMatched k) | None => (gm, CUnmatched) end in
  rtc claims_step (gm, l1 ++ (t, CScan keys) :: l2) (gm', l1 ++ (t, c) :: l2).
Proof.
  induction keys as [|k keys IH]; intros Hk; cbn.
  { apply rtc_once. constructor. apply step_end. }
  fold (fits t k). destruct (fits t k) eqn:Hf.
  { apply rtc_once. constructor. apply step_claim; [done|]. apply Hk. by left. }
  assert (∀ k', k' ∈ keys → k' ∈ gm) as Hk' by (intros; apply Hk; by right).
  specialize (IH Hk'). unfold first_match in IH. unfold fits in Hf.
  destruct (List.find _ keys); (eapply rtc_l; [|exact IH]); constructor; by apply step_differs.
Qed.

Lemma processGrouped_steps ext txns gm l1 :
  let '(gm', _, us) := processGroupedTransactions txns groups gm rules ext in
  ∃ l2, rtc claims_step (gm, l1 ++ map (λ t, (t, CStart)) txns) (gm', l1 ++ l2)
    ∧ claims_work l2 = 0%nat
    ∧ us = map (λ tc, t_TransactionID tc.1) (List.filter (λ tc, match tc.2 with CUnmatched => true | _ => false end) l2).
Proof.
  revert gm l1. induction txns as [|t txns IH]; intros gm l1; cbn.
  { exists []. split_and!; [by rewrite !app_nil_r|done|done]. }
  unfold matchSingleTransaction.
  pose proof (scan_steps gm l1 (map (λ t, (t, CStart)) txns) t (elements gm)) as Hscan.
  specialize (Hscan (λ k, proj1 (elem_of_elements _ _))).
  destruct (first_match t groups rules (elements gm)) as [k|].
  - specialize (IH (gm ∖ {[k]}) (l1 ++ [(t, CMatched k)])).
    destruct (processGroupedTransactions _ _ _ _ _) as [[gm' ms] us]. destruct IH as (l2 & Hr & Hw & ->).
    exists ((t, CMatched k) :: l2). split_and!; [|done|done].
    eapply rtc_l; [constructor; by apply step_snapshot|]. etrans; [exact Hscan|].
    by rewrite <- !app_assoc in Hr.
  - specialize (IH gm (l1 ++ [(t, CUnmatched)])).
    destruct (processGroupedTransactions _ _ _ _ _) as [[gm' ms] us]. destruct IH as (l2 & Hr & Hw & ->).
    exists ((t, CUnmatched) :: l2). split_and!; [|done|done].
    eapply rtc_l; [constructor; by apply step_snapshot|]. etrans; [exact Hscan|].
    by rewrite <- !app_assoc in Hr.
Qed.

End claims.


(** ** The table of rules *)

(** [m] leaves [f] of the state as it was. *)
Definition leaves {S B A} (f : S → B) (m : prog S A) : Prop := ∀ s, f (m s).1 = f s.

Section leaves.
Context {S B : Type} (f : S → B).

Lemma leaves_ret {A} (a : A) : leaves f (mret a).
Proof. done. Qed.
Lemma leaves_raise {A} e : leaves f (raise e : prog S A).
Proof. done. Qed.
Lemma leaves_bind {A C} (m : prog S A) (k : A → prog S C) :
  leaves f m → (∀ a, leaves f (k a)) → leaves f (m ≫= k).
Proof.
  intros Hm Hk s. unfold mbind, prog_bind. specialize (Hm s). destruct (m s) as [s1 [a|e]]; [|done].
  by rewrite (Hk a s1).
Qed.
Lemma leaves_err {A} g (m : prog S A) : leaves f m → leaves f (map_err g m).
Proof. intros Hm s. rewrite map_err_state. apply Hm. Qed.

End leaves.

Section rules_kept.
Context `{Levenshtein} `{PostgresText} (E : renv).
Abbreviation kept := (leaves r_rules).
Abbreviation keptP := (leaves (λ s : rworld * transactionProcessor, r_rules s.1)).

Lemma kept_write op msg f : (∀ w, r_rules (f w) = r_rules w) → kept (write_op E op msg f).
Proof. intros Hf w. unfold write_op. destruct (e_fault E op); [done|apply Hf]. Qed.
Lemma kept_status id status m u : kept (UpdateReconciliationStatus E id status m u).
Proof. intros w. unfold UpdateReconciliationStatus. repeat case_goal; done. Qed.
Lemma kept_external t u : kept (RecordExternalTransaction E t u).
Proof. intros w. unfold RecordExternalTransaction. case_goal; [done|]. by apply kept_write. Qed.
Lemma kept_matches id l : kept (RecordMatches E id l).
Proof. intros w. unfold RecordMatches. case_goal; [by apply kept_write|done]. Qed.
Lemma kept_new_id s : kept (new_id E s).
Proof. done. Qed.
Lemma kept_start j : kept (start j).
Proof. done. Qed.
Lemma kept_rules ids : kept (getMatchingRules ids).
Proof.
  induction ids as [|id ids IH]; cbn; [done|]. apply leaves_bind; [done|intros rule].
  by apply leaves_bind.
Qed.

Lemma kept_pool {St} (f : St → list MatchingRule) sched cap page act fuel n off fetching jobs w es :
  (∀ o, leaves f (page o)) → (∀ t, leaves f (act t)) →
  leaves f (pool sched cap page act fuel n off fetching jobs w es).
Proof.
  intros Hp Ha. revert n off fetching jobs w es.
  induction fuel as [|fuel IH]; intros n off fetching jobs w es; cbn [pool]; [apply leaves_raise|].
  destruct w as [|w]; [apply leaves_ret|]. destruct (_ && _ && _).
  - apply leaves_bind; [apply Hp|]. intros [|]; apply IH.
  - destruct jobs as [|t jobs]; [apply leaves_ret|]. intros s. specialize (Ha t s).
    destruct (act t s) as [s1 [[]|e]]; [by rewrite IH..|]. destruct (is_panic e); [done|by rewrite IH].
Qed.

Lemma kept_groups key q : kept (groups_through_cache E key q).
Proof. intros w. unfold groups_through_cache. repeat case_goal; done. Qed.

Lemma kept_group_loop fuel n fetch txns rules ext off any ms us :
  (∀ o, kept (fetch o)) → kept (group_loop fuel n E fetch txns rules ext off any ms us).
Proof.
  intros Hf. revert n off any ms us. induction fuel as [|fuel IH]; intros n off any ms us; [apply leaves_raise|].
  intros w. cbn [group_loop]. specialize (Hf off w). destruct (fetch off w) as [w1 [groups|e]]; [|done].
  destruct (decide _); [done|]. destruct (processGroupedTransactions _ _ _ _ _) as [[gm ms'] us'].
  destruct (_ && _); [done|]. by rewrite IH.
Qed.

Lemma kept_reconciler strategy uploadID crit rules txns :
  kept (createReconciler E strategy uploadID crit rules txns).
Proof.
  intros w. unfold createReconciler, oneToManyReconciliation, manyToOneReconciliation.
  case_goal; [done|]. repeat case_goal; try done; apply kept_group_loop; intros o.
  - unfold GroupTransactions. case_goal; [apply kept_groups|done].
  - unfold FetchAndGroupExternalTransactions. case_goal; [apply kept_groups|done].
Qed.

Lemma keptP_in {A} (m : R A) : kept m → keptP (inr_ m).
Proof. intros Hm [w tp]. unfold inr_. cbn. specialize (Hm w). by destruct (m w). Qed.

Lemma keptP_process recon rc t : (∀ l, kept (rc l)) → keptP (process E recon rc t).
Proof.
  intros Hr. unfold process. apply leaves_bind; [by apply keptP_in|]. intros [ms us].
  apply leaves_bind; [done|]. intros _. apply leaves_bind; [|intros _; apply leaves_bind; [done|intros _]].
  - unfold record_outcome, when. destruct (negb _); [|done].
    apply leaves_bind; [|intros _]; (destruct (negb _); [|done]).
    + apply leaves_bind; [|done]. apply keptP_in, kept_matches.
    + apply keptP_in. by apply kept_write.
  - intros [w tp]. unfold save_progress. repeat case_goal; try done. cbn [fst].
    by apply kept_write.
Qed.

Lemma kept_transactions recon strategy rc :
  (∀ l, kept (rc l)) → keptP (processTransactions E recon strategy rc).
Proof.
  intros Hr s. unfold processTransactions, run_pool. apply (leaves_bind (λ s, r_rules s.1)).
  - apply kept_pool.
    + intros o. apply keptP_in. destruct (String.eqb _ _).
      * intros w. unfold getInternalTransactionsPaginated, GetTransactionsPaginated. repeat case_goal; done.
      * unfold getExternalTransactionsPaginated. apply leaves_bind; [|done].
        intros w. unfold GetExternalTransactionsPaginated. repeat case_goal; done.
    + intros t. apply leaves_bind; [by apply keptP_process|done].
  - intros []; done.
Qed.

Lemma kept_run recon strategy crit ids : kept (processReconciliation E recon strategy crit ids).
Proof.
  unfold processReconciliation. apply leaves_bind; [apply leaves_err, kept_status|intros _].
  apply leaves_bind; [apply leaves_err, kept_rules|intros rules]. intros w. unfold reconcile_with.
  pose proof (kept_transactions recon strategy _
    (kept_reconciler strategy (rc_UploadID recon) crit rules)
    (w, mkProcessor 0 0 (LoadReconciliationProgress w (rc_ReconciliationID recon)))) as Ht.
  destruct (processTransactions _ _ _ _ _) as [[w1 tp] [u|e]]; cbn in Ht; [|done].
  unfold finalizeReconciliation. by rewrite (kept_status _ _ _ _ w1).
Qed.

Lemma kept_metadata id l w : r_rules (updateMatchedTransactionsMetadata E id l w) = r_rules w.
Proof.
  revert w. induction l as [|m l IH]; intros w; cbn; [done|]. rewrite IH.
  by destruct (UpdateTransactionMetadata _ _ _).
Qed.

Lemma kept_job j : kept (run_rjob E j).
Proof.
  intros w. destruct j as [recon strategy crit ids|id l]; cbn; [|apply kept_metadata].
  pose proof (kept_run recon strategy crit ids w) as Hr.
  destruct (processReconciliation _ _ _ _ _ _) as [w1 [u|e]]; [done|].
  destruct (is_panic e); [done|]. cbn. by rewrite (kept_status _ _ _ _ w1).
Qed.

Lemma kept_store uploadID l : kept (store_all E uploadID l).
Proof. induction l; cbn; [done|]. apply leaves_bind; [apply kept_external|done]. Qed.

End rules_kept.

(** Service calls, goroutines, other services' changes to the ledger, and the
    passing of time, which empties the cache. *)
Inductive rstep `{Levenshtein} `{PostgresText} : relation rworld :=
| rs_create E rule w : rstep w (CreateMatchingRule E rule w).1
| rs_update E rule w : rstep w (UpdateMatchingRule E rule w).1
| rs_delete E id w : rstep w (DeleteMatchingRule E id w).1
| rs_start E uploadID strategy crit ids dry w :
    rstep w (StartReconciliation E uploadID strategy crit ids dry w).1
| rs_instant E txns strategy crit ids dry w :
    rstep w (StartInstantReconciliation E txns strategy crit ids dry w).1
| rs_upload E t uploadID w : rstep w (RecordExternalTransaction E t uploadID w).1
| rs_job E w js1 j js2 : r_jobs w = js1 ++ j :: js2 →
    rstep w (run_rjob E j (w <| r_jobs := js1 ++ js2 |>)).1
| rs_ledger d w : rstep w (w <| r_db := d |>)
| rs_expire p ip g w : rstep w (w <| r_pages := p |> <| r_internal_pages := ip |> <| r_groups := g |>).

Definition rules_ok (w : rworld) : Prop := Forall rule_ok (r_rules w).

Lemma rstep_rules_ok `{Levenshtein} `{PostgresText} w w' : rstep w w' → rules_ok w → rules_ok w'.
Proof.
  unfold rules_ok. intros Hs Hok.
  destruct Hs as [E rule w|E rule w|E id w|E uploadID strategy crit ids dry w
                 |E txns strategy crit ids dry w|E t uploadID w|E w js1 j js2 Hj|d w|p ip g w].
  - unfold CreateMatchingRule, mbind, prog_bind, new_id, lift.
    destruct (validateRule _) as [u|e] eqn:Hv; [|exact Hok].
    unfold RecordMatchingRule, write_op. destruct (e_fault E _); [exact Hok|]. cbn.
    apply Forall_app. split; [exact Hok|]. constructor; [|constructor].
    apply validateRule_Ok. cbn in Hv |- *. by rewrite Hv.
  - unfold UpdateMatchingRule, mbind, prog_bind, GetMatchingRule, lift.
    destruct (find_rule w _) as [old|e]; [|exact Hok].
    destruct (validateRule _) as [u|e] eqn:Hv; [|exact Hok].
    assert (is_ok (validateRule (rule <| mr_CreatedAt := mr_CreatedAt old |> <| mr_UpdatedAt := e_now E |>)) = true)
      as Hr%validateRule_Ok by by rewrite Hv.
    unfold update_rule. destruct (e_fault E _); [exact Hok|]. destruct (existsb _ _); [|exact Hok].
    cbn. apply Forall_map. eapply Forall_impl; [exact Hok|]. intros x Hx.
    destruct (String.eqb _ _); [exact Hr|exact Hx].
  - unfold DeleteMatchingRule, delete_rule. destruct (e_fault E _); [exact Hok|].
    destruct (existsb _ _); [|exact Hok]. cbn. rewrite Forall_forall in Hok |- *.
    intros x [Hx _]%elem_of_list_filter. by apply Hok.
  - assert (leaves r_rules (StartReconciliation E uploadID strategy crit ids dry)) as ->; [|exact Hok].
    apply leaves_bind; [done|intros id]. apply leaves_bind; [by apply kept_write|done].
  - assert (leaves r_rules (StartInstantReconciliation E txns strategy crit ids dry)) as ->; [|exact Hok].
    apply leaves_bind; [done|intros id]. apply leaves_bind; [done|intros tempID].
    apply leaves_bind; [by apply kept_write|intros _]. apply leaves_bind; [|done].
    intros w1. unfold store_instant. cbn [rc_UploadID rc_ReconciliationID].
    pose proof (kept_store E tempID txns w1) as Hst.
    destruct (store_all E tempID txns w1) as [w2 [u|e]]; [exact Hst|].
    rewrite <- Hst. pose proof (kept_status E id StatusFailed 0 0 w2) as Hfin.
    by destruct (UpdateReconciliationStatus E id StatusFailed 0 0 w2) as [w3 [u|e']].
  - by rewrite (kept_external E t uploadID w).
  - by rewrite (kept_job E j (w <| r_jobs := js1 ++ js2 |>)).
  - exact Hok.
  - exact Hok.
Qed.

(** C19. Stored matching rules are well formed.  In every state that service
    calls, reconciliation runs and the rest of the ledger can reach, each stored
    rule has a name and at least one criterion; every criterion names a known
    field and a known operator; the drift of an [equals] criterion on an amount
    is a fraction between 0 and 1 and on a date not negative.  Conversely a
    rule of this form is accepted and stored under the id it is given, unless
    the write fails, and any other is refused without a change to the table. *)
Theorem rules_well_formed `{Levenshtein} `{PostgresText} :
  (∀ w w', rules_ok w → rtc rstep w w' → rules_ok w')
  ∧ (∀ E rule w, let stored := rule <| mr_RuleID := e_new_id E "rule" (r_ids w) |>
                                 <| mr_CreatedAt := e_now E |> <| mr_UpdatedAt := e_now E |> in
     (rule_ok rule → e_fault E (WRule (mr_RuleID stored)) = None →
        (CreateMatchingRule E rule w).2 = Ok stored
        ∧ r_rules (CreateMatchingRule E rule w).1 = r_rules w ++ [stored])
     ∧ (¬ rule_ok rule → is_ok (CreateMatchingRule E rule w).2 = false
        ∧ r_rules (CreateMatchingRule E rule w).1 = r_rules w)).
Proof.
  split; [intros w w' Hok; induction 1 as [|w w1 w2 Hs _ IH]; [done|]; by eapply IH, rstep_rules_ok|].
  intros E rule w stored. assert (rule_ok rule ↔ rule_ok stored) as -> by done.
  rewrite <- validateRule_Ok. unfold CreateMatchingRule, mbind, prog_bind, new_id, lift.
  change (rule <| mr_RuleID := _ |> <| mr_CreatedAt := _ |> <| mr_UpdatedAt := _ |>) with stored.
  destruct (validateRule stored) as [u|e]; cbn; (split; [|intros Hn]); try done.
  intros _ Hf. unfold RecordMatchingRule, write_op.
  by destruct (e_fault E _) eqn:Hf'; [cbn in Hf, Hf'; congruence|].
Qed.

End ReconciliationSafety.
