(* ===== verification/Brokerage.v ===== *)
(** * The brokerage service (brokerage.go, database/brokerage.go)

    Booking buys and sells as pairs of inflight transactions on positions,
    settling future buckets when they mature, the settlement journal that makes
    the side effects of a settlement recoverable, mutation plans under
    distributed locks, free balances and hold recomputation.  The ledger is
    reached through [Execution.RecordTransaction] and
    [Inflight.CommitInflightTransaction]. *)

From S2P Require Import Prelude Float64 Decimal Types Time Balances Datastore Positions Trading.
From S2P Require Import Lock Execution TaskQueue Inflight.

Module Brokerage.

Import Datastore Execution Positions Trading.

(** ** Tables *)

Record BalanceLot := mkLot {
  lot_LotID : string;
  lot_BalanceID : string;
  lot_Instrument : string;
  lot_Quantity : option Z;
  lot_Precision : Z;
  lot_Price : string;
  lot_Currency : string;
  lot_Reference : string;
  lot_PurchasedAt : time;
}.

Record MarketHoliday := mkHoliday {
  hd_Venue : string;
  hd_HolidayDate : time;
  hd_Description : string;
}.

Record InstrumentSettings := mkSettings {
  is_Instrument : string;
  is_Venue : string;
  is_TradesOnTheWay : bool;
  is_SettleOffset : Z;
  is_MinOrderQuantity : string;
  is_MaxOrderQuantity : string;
}.

Record SettlementJournalEntry := mkJournal {
  j_SecurityTxnID : string;
  j_TradeRef : string;
  j_SpotBalanceID : string;
  j_Instrument : string;
  j_Side : string;
  j_WABefore : string;
  j_QtyBefore : string;
  j_Price : string;
  j_Quantity : string;
  j_Precision : Z;
  j_Currency : string;
  j_WAAfter : string;
  j_LotID : string;
  j_Status : string;
  j_CreatedAt : time;
}.
#[export] Instance SettlementJournalEntry_eta : Eta SettlementJournalEntry := λ j,
  mkJournal (j_SecurityTxnID j) (j_TradeRef j) (j_SpotBalanceID j) (j_Instrument j) (j_Side j)
    (j_WABefore j) (j_QtyBefore j) (j_Price j) (j_Quantity j) (j_Precision j) (j_Currency j)
    (j_WAAfter j) (j_LotID j) (j_Status j) (j_CreatedAt j).

Definition SettlementPending : string := "pending".
Definition SettlementApplied : string := "applied".

(** What the brokerage keeps beside balances and transactions. *)
Record tables := mkTables {
  tb_holidays : list MarketHoliday;
  tb_settings : gmap string InstrumentSettings;
  tb_lots : list BalanceLot;
  tb_journal : list SettlementJournalEntry;
}.
#[export] Instance tables_eta : Eta tables := λ t,
  mkTables (tb_holidays t) (tb_settings t) (tb_lots t) (tb_journal t).

(** *** Holidays and instruments *)

Definition CreateHoliday (h : MarketHoliday) (tb : tables) : result tables :=
  if String.eqb (hd_Venue h) "" then Err (EAPI "BAD_REQUEST" "Holiday venue is required")
  else if existsb (λ x, String.eqb (hd_Venue x) (hd_Venue h)
                        && (hd_HolidayDate x / Time.day =? hd_HolidayDate h / Time.day))
            (tb_holidays tb)
  then Err (EAPI "CONFLICT" ("Holiday already exists for venue '" +:+ hd_Venue h +:+ "' on "
                             +:+ Time.format_date (hd_HolidayDate h)))
  else Ok (tb <| tb_holidays := tb_holidays tb ++ [h] |>).

Definition GetHolidays (tb : tables) (venue : string) (from to : time) : list MarketHoliday :=
  order_asc hd_HolidayDate
    (List.filter (λ h, String.eqb (hd_Venue h) venue
       && (from / Time.day <=? hd_HolidayDate h / Time.day)
       && (hd_HolidayDate h / Time.day <=? to / Time.day)) (tb_holidays tb)).

Definition UpsertInstrumentSettings (s : InstrumentSettings) (tb : tables) : result tables :=
  if String.eqb (is_Instrument s) "" then Err (EAPI "BAD_REQUEST" "Instrument is required")
  else if is_SettleOffset s <? 0 then Err (EAPI "BAD_REQUEST" "settle_offset must be >= 0")
  else Ok (tb <| tb_settings := <[is_Instrument s := s]> (tb_settings tb) |>).

Definition GetInstrumentSettings (tb : tables) (instrument : string) : result InstrumentSettings :=
  match tb_settings tb !! instrument with
  | Some s => Ok s
  | None => Err (EAPI "NOT_FOUND" ("No settings configured for instrument '" +:+ instrument +:+ "'"))
  end.

(** *** Lots *)

Definition lot_conflicts (l : BalanceLot) (x : BalanceLot) : bool :=
  String.eqb (lot_BalanceID x) (lot_BalanceID l) && String.eqb (lot_Reference x) (lot_Reference l)
  && negb (String.eqb (lot_Reference l) "").

Definition CreateLot (fk : string → bool) (id : string) (now : time) (l : BalanceLot)
    (tb : tables) : result tables :=
  if ival (lot_Quantity l) <=? 0 then Err (EAPI "BAD_REQUEST" "Lot quantity must be positive")
  else
    let l := mkLot id (lot_BalanceID l) (lot_Instrument l) (lot_Quantity l)
               (if lot_Precision l <? 1 then 1 else lot_Precision l) (lot_Price l)
               (lot_Currency l) (lot_Reference l)
               (if is_zero_time (lot_PurchasedAt l) then now else lot_PurchasedAt l) in
    if negb (fk (lot_BalanceID l)) then Err (EAPI "BAD_REQUEST" "Invalid balance ID")
    else if existsb (lot_conflicts l) (tb_lots tb)
    then Err (EAPI "INTERNAL_SERVER_ERROR" "Failed to create lot")
    else Ok (tb <| tb_lots := tb_lots tb ++ [l] |>).

Definition GetLots (tb : tables) (balanceID : string) : list BalanceLot :=
  order_asc lot_PurchasedAt
    (List.filter (λ l, String.eqb (lot_BalanceID l) balanceID) (tb_lots tb)).

(** INSERT ... ON CONFLICT (balance_id, reference) DO UPDATE ... RETURNING
    lot_id: the lot already recorded under the reference wins. *)
Definition upsert_lot (l : BalanceLot) (lots : list BalanceLot) : list BalanceLot * string :=
  match List.find (lot_conflicts l) lots with
  | Some x => (lots, lot_LotID x)
  | None => (lots ++ [l], lot_LotID l)
  end.

(** *** The settlement journal *)

Definition GetSettlementJournal (tb : tables) (securityTxnID : string)
    : result SettlementJournalEntry :=
  match List.find (λ j, String.eqb (j_SecurityTxnID j) securityTxnID) (tb_journal tb) with
  | Some j => Ok j
  | None => Err (EAPI "NOT_FOUND" ("No settlement journal for '" +:+ securityTxnID +:+ "'"))
  end.

Section decimal.
Context `{Decimal}.

(** A text cast to NUMERIC; [NULLIF(x, '')] passes the empty text as NULL. *)
Definition numeric (s : string) : bool :=
  String.eqb s "" || bool_decide (is_Some (dec_of_string s)).

(** The row INSERT writes. *)
Definition pending_row (e : SettlementJournalEntry) (now : time) : SettlementJournalEntry :=
  e <| j_WAAfter := "" |> <| j_LotID := "" |> <| j_Status := SettlementPending |>
    <| j_CreatedAt := now |>.

(** The row and whether it is new. *)
Definition BeginSettlementJournal (e : SettlementJournalEntry) (now : time) (tb : tables)
    : result (tables * (SettlementJournalEntry * bool)) :=
  if forallb numeric [j_WABefore e; j_QtyBefore e; j_Price e; j_Quantity e] then
    match GetSettlementJournal tb (j_SecurityTxnID e) with
    | Ok existing => Ok (tb, (existing, false))
    | Err _ =>
        let row := pending_row e now in
        Ok (tb <| tb_journal := tb_journal tb ++ [row] |>, (row, true))
    end
  else Err (EAPI "INTERNAL_SERVER_ERROR" "Failed to begin settlement journal").

Definition complete_row (securityTxnID waAfter lotID : string) (j : SettlementJournalEntry)
    : SettlementJournalEntry :=
  if String.eqb (j_SecurityTxnID j) securityTxnID
  then j <| j_Status := SettlementApplied |> <| j_WAAfter := waAfter |> <| j_LotID := lotID |>
  else j.

(** One database transaction over the lot, the price and the journal row.
    [id] is the lot id generated. *)
Definition CompleteSettlementJournal (securityTxnID waAfter : string) (l : BalanceLot)
    (id : string) (now : time) (s : db * tables) : result ((db * tables) * string) :=
  let '(d, tb) := s in
  let '(lots, lotID) :=
    if 0 <? ival (lot_Quantity l) then
      upsert_lot (mkLot id (lot_BalanceID l) (lot_Instrument l) (lot_Quantity l)
                    (if lot_Precision l <? 1 then 1 else lot_Precision l) (lot_Price l)
                    (lot_Currency l) (lot_Reference l)
                    (if is_zero_time (lot_PurchasedAt l) then now else lot_PurchasedAt l))
        (tb_lots tb)
    else (tb_lots tb, "") in
  if numeric waAfter then
    let d := if String.eqb waAfter "" then d
             else match UpdateWAPrice d (lot_BalanceID l) waAfter with Ok d => d | Err _ => d end in
    Ok ((d, tb <| tb_lots := lots |>
               <| tb_journal := map (complete_row securityTxnID waAfter lotID) (tb_journal tb) |>),
        lotID)
  else Err (EAPI "INTERNAL_SERVER_ERROR" "Failed to update wa price").

Definition ListPendingSettlementJournals (tb : tables) (limit : nat)
    : list SettlementJournalEntry :=
  take limit (order_asc j_CreatedAt
    (List.filter (λ j, String.eqb (j_Status j) SettlementPending) (tb_journal tb))).
End decimal.

(** ** The service's world *)

Section world.
Context `{Decimal, TaskQueue.Asynq}.

Record benv := mkBEnv {
  be_inflight : Inflight.ienv;
  be_fk : PositionKey → bool;                  (* the key's ledger and identity exist *)
  be_begin_fault : string → option error;      (* the database refuses a journal statement *)
  be_complete_fault : string → option error;
}.
Definition be_exec (E : benv) : env := Inflight.i_exec (be_inflight E).

Record bworld := mkB { bq : Inflight.qworld; btb : tables }.

Abbreviation B := (prog bworld).

Definition inflight {A} (m : prog Inflight.qworld A) : B A := λ w,
  let '(q, r) := m (bq w) in (mkB q (btb w), r).
Definition ledger {A} (m : M A) : B A := inflight (Inflight.core m).
Definition now_of (E : benv) : time := now (be_exec E).

Definition bdb (w : bworld) : db := w_db (Inflight.q_core (bq w)).

(** A read of the database and the tables. *)
Definition bread {A} (f : db → tables → result A) : B A := λ w, (w, f (bdb w) (btb w)).

(** A write in one database transaction. *)
Definition bwrite {A} (f : db * tables → result ((db * tables) * A)) : B A := λ w,
  match f (bdb w, btb w) with
  | Ok ((d, tb), a) =>
      let q := bq w in
      (mkB (Inflight.mkQ ((Inflight.q_core q) <| w_db := d |>) (Inflight.q_tasks q)) tb, Ok a)
  | Err e => (w, Err e)
  end.

(** ** Positions *)

Definition GetOrCreatePosition (E : benv) (k : PositionKey) : B Balance :=
  id ← ledger (fresh_id (be_exec E) "bln");
  bwrite (λ '(d, tb), '(d, b) ← FindOrCreatePosition (be_fk E) k id (now_of E) d;
                      mret ((d, tb), b)).

(** ** Settle dates and trading modes *)

Definition settleDateHorizonDays : Z := 366.

Definition marketHolidaySet (venue : string) (from : time) (tb : tables) : gset string :=
  if String.eqb venue "" then ∅
  else list_to_set (map (λ h, Time.format_date (hd_HolidayDate h))
         (GetHolidays tb venue from (Time.add_days from settleDateHorizonDays))).

Definition settle_date_on (venue : string) (tradeDate : time) (settleOffset : Z) : B time :=
  bread (λ _ tb, ComputeSettleDate tradeDate settleOffset (marketHolidaySet venue tradeDate tb)).

Record tradeParams := mkParams { onTheWay : bool; settleOffset : Z; venue : string }.

Definition is_not_found (e : error) : bool :=
  match api_code e with Some c => String.eqb c "NOT_FOUND" | None => false end.

Definition resolveTradeParams (tb : tables) (instrument : string) (requestedOffset : Z)
    (requestedVenue : string) : result tradeParams :=
  match GetInstrumentSettings tb instrument with
  | Err e => if is_not_found e then Ok (mkParams false requestedOffset requestedVenue) else Err e
  | Ok s =>
      Ok (mkParams (is_TradesOnTheWay s)
            (if is_TradesOnTheWay s then is_SettleOffset s else 0)
            (if String.eqb (is_Venue s) "" then requestedVenue else is_Venue s))
  end.

Definition resolveSettlement (params : tradeParams) (tradeDate explicit : time)
    : B (time * option Z) :=
  if is_zero_time explicit then
    d ← settle_date_on (venue params) tradeDate (settleOffset params);
    mret (d, Some (settleOffset params))
  else mret (midnight explicit, None).

(** ** Availability *)

Record TradablePosition := mkTradable {
  tp_Settled : Z;
  tp_Blocked : Z;
  tp_Incoming : Z;
  tp_Outgoing : Z;
  tp_Tradable : Z;
  tp_OnTheWay : bool;
  tp_AsOfSettle : string;
}.

Definition GetTradablePosition (d : db) (tb : tables)
    (ledgerID identityID accountRef instrument currency : string) (asOf : time)
    : result TradablePosition :=
  onTheWay ← match GetInstrumentSettings tb instrument with
             | Ok s => Ok (is_TradesOnTheWay s)
             | Err e => if is_not_found e then Ok false else Err e
             end;
  '(settled, blocked) ←
     match GetPosition d (mkKey ledgerID identityID accountRef instrument currency None None) with
     | Ok spot => let spot := Balances.InitializeBalanceFields spot in
                  Ok (ival (b_Balance spot), ival (b_InflightDebitBalance spot))
     | Err e => if is_not_found e then Ok (0, 0) else Err e
     end;
  let '(incoming, outgoing) :=
    SumFutureHolds d ledgerID identityID accountRef instrument currency asOf in
  Ok (mkTradable settled blocked (if onTheWay : bool then incoming else 0) outgoing
        (ComputeTradable (Some settled) (Some blocked) (Some incoming) (Some outgoing) onTheWay)
        onTheWay (Time.format_date asOf)).

Record FreeBalanceResult := mkFree {
  fb_AvailableAmount : Z;
  fb_Currency : string;
}.

Definition GetFreeBalance (d : db) (balanceID : string) (cap : option Z) : result FreeBalanceResult :=
  b ← GetBalanceByID d balanceID true;
  let b := Balances.InitializeBalanceFields b in
  let sum1 := ival (b_Balance b) - ival (b_InflightDebitBalance b) in
  Ok (mkFree (FreeBalance cap (Some sum1) (b_QueuedDebitBalance b)) (b_Currency b)).

(** ** Mutation plans *)

Definition wait_locker (E : env) (m : Lock.MultiLocker) : M unit := λ w,
  match Lock.WaitLock (lock_env E) (Z.to_nat (LockWaitTimeout E)) (now E) m
          (LockDuration E) (LockWaitTimeout E) (w_redis w) with
  | Lock.Waited None _ s => (w <| w_redis := s |>, Ok tt)
  | Lock.Waited (Some e) _ s => (w <| w_redis := s |>, Err e)
  | Lock.OutOfFuel => (w, Err (EPanic "unreachable"))
  end.

(** [ApplyBalanceDeltas] with an id at hand for every delta. *)
Definition apply_deltas (E : env) (fk : PositionKey → bool) (deltas : list BalanceDelta) : M unit :=
  λ w,
    match ApplyBalanceDeltas fk (λ i, gen E "bln" (w_next w + i)) (now E) deltas (w_db w) with
    | Ok d => (w <| w_db := d |> <| w_next := (w_next w + length deltas)%nat |>, Ok tt)
    | Err e => (w <| w_next := (w_next w + length deltas)%nat |>, Err e)
    end.

Definition ApplyMutationPlan {MI : MapIter} (E : benv) (plan : MutationPlan) : M unit :=
  _ ← lift (validate_plan plan);
  match Normalized plan with
  | [] => mret tt
  | normalized =>
      v ← fresh_id (be_exec E) "loc";
      let locker := Lock.NewMultiLocker (LockKeys plan) v in
      _ ← ctx_err "failed to acquire mutation locks" (wait_locker (be_exec E) locker);
      with_release (be_exec E) locker (apply_deltas (be_exec E) (be_fk E) normalized)
  end.

(** ** Hold recomputation

    The goroutines each run one database transaction; [ids] lists the balances
    in the order those commit. *)

Record HoldsRecalcResult := mkRecalc { Recalculated : list string; RecalcErrors : list (string * string) }.

Fixpoint recalculate (ids : list string) (d : db) (r : HoldsRecalcResult) : db * HoldsRecalcResult :=
  match ids with
  | [] => (d, r)
  | id :: ids =>
      match RecomputeHolds d id with
      | Ok (d', _) => recalculate ids d' (mkRecalc (Recalculated r ++ [id]) (RecalcErrors r))
      | Err e => recalculate ids d (mkRecalc (Recalculated r) (RecalcErrors r ++ [(id, error_text e)]))
      end
  end.

Definition RecalculateHolds (ids : list string) : M HoldsRecalcResult :=
  match ids with
  | [] => raise (ENew "at least one balance id is required")
  | _ => λ w, let '(d, r) := recalculate ids (w_db w) (mkRecalc [] []) in (w <| w_db := d |>, Ok r)
  end.

(** ** Bookings

    [TradeBooking] and [SellBooking] have the same fields and checks; [side]
    is the word their errors start with. *)

Record Booking := mkBooking {
  bk_LedgerID : string;
  bk_IdentityID : string;
  bk_AccountRef : string;
  bk_Instrument : string;
  bk_Venue : string;
  bk_Currency : string;
  bk_Quantity : string;
  bk_QuantityPrecision : Z;
  bk_Price : string;
  bk_MoneyPrecision : Z;
  bk_SettleOffset : Z;
  bk_TradeDate : time;
  bk_SettleDate : time;
  bk_SettlementBalanceID : string;
  bk_MarketBalanceID : string;
  bk_Reference : string;
}.

Definition validate_booking (side : string) (t : Booking) : result unit :=
  let bad msg := ENew (side +:+ ": " +:+ msg) in
  let empty s := String.eqb s "" in
  _ ← fail_if (empty (bk_LedgerID t) || empty (bk_AccountRef t) || empty (bk_Currency t))
        (bad "ledger_id, account_ref and currency are required");
  _ ← fail_if (empty (bk_Instrument t)) (bad "instrument is required");
  _ ← fail_if (bk_QuantityPrecision t <? 1) (bad "quantity_precision must be >= 1");
  _ ← fail_if (bk_MoneyPrecision t <? 1) (bad "money_precision must be >= 1");
  _ ← wrap_err side (PreciseQuantity (bk_Quantity t) (bk_QuantityPrecision t));
  _ ← match dec_of_string (bk_Price t) with
      | Some _ => Ok tt
      | None => Err (bad ("invalid price " +:+ quoted (bk_Price t)))
      end;
  _ ← fail_if (bk_SettleOffset t <? 0) (bad "settle_offset must be >= 0");
  _ ← fail_if (empty (bk_SettlementBalanceID t) || empty (bk_MarketBalanceID t))
        (bad "settlement_balance_id and market_balance_id are required");
  fail_if (empty (bk_Reference t)) (bad "reference is required").

Definition TradeSideBuy : string := "buy".
Definition TradeSideSell : string := "sell".

Definition sharedMeta (side : string) (t : Booking) (params : tradeParams) (settleDate : time)
    (leg : string) : metadata :=
  list_to_map
    [("trade_ref", MStr (bk_Reference t)); ("trade_leg", MStr leg); ("trade_side", MStr side);
     ("instrument", MStr (bk_Instrument t)); ("venue", MStr (venue params));
     ("quantity", MStr (bk_Quantity t)); ("price", MStr (bk_Price t));
     ("settle_date", MStr (Time.format_date settleDate))].

Definition money_key (t : Booking) : PositionKey :=
  mkKey (bk_LedgerID t) (bk_IdentityID t) (bk_AccountRef t) "" (bk_Currency t) None None.
Definition bucket_key (t : Booking) (settleDate : time) (settleCode : option Z) : PositionKey :=
  mkKey (bk_LedgerID t) (bk_IdentityID t) (bk_AccountRef t) (bk_Instrument t) (bk_Currency t)
    (Some settleDate) settleCode.

(** An inflight leg of a trade, recorded without the queue. *)
Definition trade_leg (id source destination : string) (amount precision : Z) (currency reference
    description : string) (allowOverdraft : bool) (meta : metadata) : Transaction :=
  empty_transaction <| t_TransactionID := id |> <| t_Source := source |>
    <| t_Destination := destination |> <| t_PreciseAmount := Some amount |>
    <| t_Precision := Float64.of_Z precision |> <| t_Currency := currency |>
    <| t_Reference := reference |> <| t_Description := description |>
    <| t_Inflight := true |> <| t_SkipQueue := true |>
    <| t_AllowOverdraft := allowOverdraft |> <| t_MetaData := meta |>.

Definition money_description (side : string) (t : Booking) : string :=
  "Trade " +:+ bk_Reference t +:+ " money leg: " +:+ side +:+ " " +:+ bk_Quantity t +:+ " "
  +:+ bk_Instrument t +:+ " @ " +:+ bk_Price t.
Definition security_description (t : Booking) (params : tradeParams) : string :=
  "Trade " +:+ bk_Reference t +:+ " security leg: deliver " +:+ bk_Quantity t +:+ " "
  +:+ bk_Instrument t +:+ " (T+" +:+ Z_to_string (settleOffset params) +:+ ")".

(** The security leg; when it cannot be booked the money hold is voided, and
    an error of that is only logged. *)
Definition book_security (E : benv) (msg moneyID : string) (leg : Transaction) : B Transaction :=
  λ w,
    match ledger (RecordTransaction (be_exec E) leg) w with
    | (w, Ok t) => (w, Ok t)
    | (w, Err e) =>
        let '(w, _) := inflight (Inflight.VoidInflightTransaction (be_inflight E) moneyID) w in
        (w, Err (EWrap msg e))
    end.

Record BookingResult := mkBooked {
  bkr_MoneyTxnID : string;
  bkr_SecurityTxnID : string;
  bkr_MoneyBalanceID : string;
  bkr_PositionBalanceID : string;
  bkr_SettleDate : time;
}.

Definition trade_date (E : benv) (t : Booking) : time :=
  if is_zero_time (bk_TradeDate t) then now_of E else bk_TradeDate t.

(** Both legs of a booking once the positions and amounts are known. *)
Definition book_legs (E : benv) (side moneyMsg securityMsg : string) (t : Booking)
    (params : tradeParams) (settleDate : time) (moneyBalance bucket : Balance)
    (money qty : Z) : B BookingResult :=
  let buy := String.eqb side TradeSideBuy in
  moneyID ← ledger (fresh_id (be_exec E) "txn");
  let moneyLeg := trade_leg moneyID
    (if buy then b_BalanceID moneyBalance else bk_SettlementBalanceID t)
    (if buy then bk_SettlementBalanceID t else b_BalanceID moneyBalance)
    money (bk_MoneyPrecision t) (bk_Currency t) (bk_Reference t +:+ "_money")
    (money_description side t) (negb buy) (sharedMeta side t params settleDate "money") in
  recordedMoney ← ctx_err moneyMsg (ledger (RecordTransaction (be_exec E) moneyLeg));
  secID ← ledger (fresh_id (be_exec E) "txn");
  let meta := <["money_leg_id" := MStr (t_TransactionID recordedMoney)]>
                (sharedMeta side t params settleDate "security") in
  let secLeg := trade_leg secID
    (if buy then bk_MarketBalanceID t else b_BalanceID bucket)
    (if buy then b_BalanceID bucket else bk_MarketBalanceID t)
    qty (bk_QuantityPrecision t) (bk_Currency t) (bk_Reference t +:+ "_sec")
    (security_description t params) true meta in
  recordedSecurity ← book_security E securityMsg (t_TransactionID recordedMoney) secLeg;
  mret (mkBooked (t_TransactionID recordedMoney) (t_TransactionID recordedSecurity)
          (b_BalanceID moneyBalance) (b_BalanceID bucket) settleDate).

Definition bad_request {A} (r : result A) : result A :=
  match r with Ok a => Ok a | Err e => Err (EAPI "BAD_REQUEST" (error_text e)) end.

Definition BookTrade (E : benv) (t : Booking) : B BookingResult :=
  _ ← lift (validate_booking "trade booking" t);
  let tradeDate := trade_date E t in
  params ← bread (λ _ tb, resolveTradeParams tb (bk_Instrument t) (bk_SettleOffset t) (bk_Venue t));
  '(settleDate, settleCode) ← resolveSettlement params tradeDate (bk_SettleDate t);
  moneyBalance ← GetOrCreatePosition E (money_key t);
  bucket ← GetOrCreatePosition E (bucket_key t settleDate settleCode);
  qty ← lift (bad_request (PreciseQuantity (bk_Quantity t) (bk_QuantityPrecision t)));
  money ← lift (PreciseMoney (bk_Quantity t) (bk_Price t) (bk_MoneyPrecision t));
  book_legs E TradeSideBuy "failed to book money leg" "failed to book security leg" t params
    settleDate moneyBalance bucket money qty.

Definition insufficient (t : Booking) (p : TradablePosition) : error :=
  EAPI "BAD_REQUEST" ("insufficient tradable quantity for " +:+ bk_Instrument t +:+ ": requested "
    +:+ bk_Quantity t +:+ ", available " +:+ Z_to_string (tp_Tradable p)
    +:+ " (settled " +:+ Z_to_string (tp_Settled p) +:+ ", blocked " +:+ Z_to_string (tp_Blocked p)
    +:+ ", incoming " +:+ Z_to_string (tp_Incoming p) +:+ ", outgoing "
    +:+ Z_to_string (tp_Outgoing p) +:+ ", on_the_way "
    +:+ (if tp_OnTheWay p then "true" else "false") +:+ ")").

Definition SellTrade (E : benv) (t : Booking) : B (BookingResult * TradablePosition) :=
  _ ← lift (validate_booking "sell booking" t);
  let tradeDate := trade_date E t in
  params ← bread (λ _ tb, resolveTradeParams tb (bk_Instrument t) (bk_SettleOffset t) (bk_Venue t));
  '(settleDate, settleCode) ← resolveSettlement params tradeDate (bk_SettleDate t);
  tradable ← bread (λ d tb, GetTradablePosition d tb (bk_LedgerID t) (bk_IdentityID t)
                              (bk_AccountRef t) (bk_Instrument t) (bk_Currency t) settleDate);
  qty ← lift (bad_request (PreciseQuantity (bk_Quantity t) (bk_QuantityPrecision t)));
  if tp_Tradable tradable <? qty then raise (insufficient t tradable)
  else
    moneyBalance ← GetOrCreatePosition E (money_key t);
    bucket ← GetOrCreatePosition E (bucket_key t settleDate settleCode);
    money ← lift (PreciseMoney (bk_Quantity t) (bk_Price t) (bk_MoneyPrecision t));
    r ← book_legs E TradeSideSell "failed to book sell money leg" "failed to book sell security leg"
          t params settleDate moneyBalance bucket money qty;
    mret (r, tradable).

(** ** Settlement *)

(** [metaString] *)
Definition metaString (meta : metadata) (key : string) : string :=
  match meta_string meta key with Some v => v | None => "" end.

Record TradeSettlementResult := mkSettled {
  ts_TradeRef : string;
  ts_MoneyTxnID : string;
  ts_SecurityTxnID : string;
  ts_SpotBalanceID : string;
  ts_FutureBalanceID : string;
  ts_WAPrice : string;
  ts_LotID : string;
}.
#[export] Instance TradeSettlementResult_eta : Eta TradeSettlementResult := λ r,
  mkSettled (ts_TradeRef r) (ts_MoneyTxnID r) (ts_SecurityTxnID r) (ts_SpotBalanceID r)
    (ts_FutureBalanceID r) (ts_WAPrice r) (ts_LotID r).

Definition computeWAAfter (waBefore : string) (qtyBefore tradeQty : Z) (precision : float64)
    (price : decimal) : result string :=
  let qtyPrecision := dec_of_float precision in
  let currentQty := dec_div (dec_of_Z qtyBefore) qtyPrecision in
  let trade := dec_div (dec_of_Z tradeQty) qtyPrecision in
  wa ← RecalculateWAPrice waBefore currentQty trade (dec_mul trade price);
  Ok (dec_string_fixed 2 wa).

Definition leg_ref (t : Transaction) : string := metaString (t_MetaData t) "trade_ref".
Definition leg_price (t : Transaction) : string := metaString (t_MetaData t) "price".
Definition is_sell (t : Transaction) : bool :=
  String.eqb (metaString (t_MetaData t) "trade_side") TradeSideSell.
Definition is_security (t : Transaction) : bool :=
  String.eqb (metaString (t_MetaData t) "trade_leg") "security".

Definition hasSideEffects (t : Transaction) : bool :=
  negb (is_sell t) && Float64.geb (t_Precision t) (Float64.of_Z 1) && negb (String.eqb (leg_price t) "").

(** The journal row of phase 1. *)
Definition journal_of (t : Transaction) (spot future : Balance) (addedPrecise : Z)
    : SettlementJournalEntry :=
  mkJournal (t_TransactionID t) (leg_ref t) (b_BalanceID spot) (b_Instrument future) TradeSideBuy
    (b_WAPrice spot) (Z_to_string (ival (b_Balance spot) + addedPrecise)) (leg_price t)
    (Z_to_string (ival (t_PreciseAmount t))) (Float64.to_int (t_Precision t)) (t_Currency t)
    "" "" "" 0.

(** The lot of phase 2. *)
Definition leg_lot (t : Transaction) (spot future : Balance) (price : decimal) : BalanceLot :=
  mkLot "" (b_BalanceID spot) (b_Instrument future) (Some (ival (t_PreciseAmount t)))
    (Float64.to_int (t_Precision t)) (dec_string price) (t_Currency t) (leg_ref t) 0.

Definition complete (E : benv) (securityTxnID waAfter : string) (l : BalanceLot) : B string :=
  _ ← lift (match be_complete_fault E securityTxnID with Some e => Err e | None => Ok tt end);
  id ← ledger (fresh_id (be_exec E) "lot");
  bwrite (CompleteSettlementJournal securityTxnID waAfter l id (now_of E)).

Definition begin_journal (E : benv) (e : SettlementJournalEntry) : B unit :=
  _ ← lift (match be_begin_fault E (j_SecurityTxnID e) with Some e => Err e | None => Ok tt end);
  _ ← bwrite (λ '(d, tb), '(tb, r) ← BeginSettlementJournal e (now_of E) tb; mret ((d, tb), r));
  mret tt.

(** Commits the money and the security hold. *)
Definition commit_holds (E : benv) (t : Transaction) : B string :=
  let moneyLegID := metaString (t_MetaData t) "money_leg_id" in
  _ ← (if String.eqb moneyLegID "" then mret tt
       else _ ← ctx_err ("failed to commit money leg " +:+ moneyLegID)
                  (inflight (Inflight.CommitInflightTransaction (be_inflight E) moneyLegID 0));
            mret tt);
  _ ← ctx_err ("failed to commit security leg " +:+ t_TransactionID t)
        (inflight (Inflight.CommitInflightTransaction (be_inflight E) (t_TransactionID t) 0));
  mret moneyLegID.

(** Phase 2: the price, the lot and the journal row, with the spot balance's
    price refreshed in memory. *)
Definition settle_side_effects (E : benv) (t : Transaction) (spot future : Balance)
    (addedPrecise : Z) (r : TradeSettlementResult) : B (TradeSettlementResult * Z * Balance) :=
  match dec_of_string (leg_price t) with
  | None => mret (r, 0, spot)
  | Some price =>
      waAfter ← lift (wrap_err "failed to recalculate wa price"
                  (computeWAAfter (b_WAPrice spot) (ival (b_Balance spot) + addedPrecise)
                     (ival (t_PreciseAmount t)) (t_Precision t) price));
      lotID ← complete E (t_TransactionID t) waAfter (leg_lot t spot future price);
      mret (r <| ts_WAPrice := waAfter |> <| ts_LotID := lotID |>, ival (t_PreciseAmount t),
            spot <| b_WAPrice := waAfter |>)
  end.

Definition settleSecurityLeg (E : benv) (t : Transaction) (spot future : Balance)
    (addedPrecise : Z) : B (TradeSettlementResult * Z * Balance) :=
  let r := mkSettled (leg_ref t) "" (t_TransactionID t) (b_BalanceID spot) (b_BalanceID future) "" "" in
  _ ← (if hasSideEffects t then begin_journal E (journal_of t spot future addedPrecise) else mret tt);
  moneyLegID ← commit_holds E t;
  let r := r <| ts_MoneyTxnID := moneyLegID |> in
  if hasSideEffects t then settle_side_effects E t spot future addedPrecise r
  else mret (r, 0, spot).

(** Buys add what they bought to the quantity the next blend starts from. *)
Fixpoint settle_legs (E : benv) (counts : bool) (legs : list Transaction) (spot future : Balance)
    (addedPrecise : Z) : B (list TradeSettlementResult * Z * Balance) :=
  match legs with
  | [] => mret ([], addedPrecise, spot)
  | t :: legs =>
      '(r, qty, spot) ← settleSecurityLeg E t spot future addedPrecise;
      '(rs, added, spot) ← settle_legs E counts legs spot future
                             (if counts then addedPrecise + qty else addedPrecise);
      mret (r :: rs, added, spot)
  end.

Definition roll_transaction (id source destination reference : string) (amount : Z)
    (currency : string) : Transaction :=
  empty_transaction <| t_TransactionID := id |> <| t_Source := source |>
    <| t_Destination := destination |> <| t_PreciseAmount := Some amount |>
    <| t_Precision := Float64.of_Z 1 |> <| t_Currency := currency |>
    <| t_Reference := reference |> <| t_Description := "Settlement net roll T+N <-> spot" |>
    <| t_SkipQueue := true |> <| t_AllowOverdraft := true |>
    <| t_MetaData := {["trade_leg" := MStr "roll"]} |>.

Definition netRollToSpot (E : benv) (futureBalanceID spotBalanceID : string) : B unit :=
  future ← bread (λ d _, GetPositionByID d futureBalanceID);
  let net := ival (b_Balance (Balances.InitializeBalanceFields future)) in
  if net =? 0 then mret tt
  else
    id ← ledger (fresh_id (be_exec E) "txn");
    reference ← ledger (fresh_id (be_exec E) "roll");
    let t := if net <? 0
             then roll_transaction id spotBalanceID futureBalanceID reference (- net) (b_Currency future)
             else roll_transaction id futureBalanceID spotBalanceID reference net (b_Currency future) in
    _ ← ledger (RecordTransaction (be_exec E) t);
    mret tt.

Definition settleFutureBalance (E : benv) (futureBalanceID : string)
    : B (list TradeSettlementResult) :=
  future ← bread (λ d _, GetPositionByID d futureBalanceID);
  if String.eqb (b_AccountRef future) "" || String.eqb (b_Instrument future) "" then
    raise (ENew ("balance " +:+ futureBalanceID +:+ " is not a brokerage security position"))
  else
    spot ← GetOrCreatePosition E (mkKey (b_LedgerID future) (b_IdentityID future)
             (b_AccountRef future) (b_Instrument future) (b_Currency future) None None);
    legs ← bread (λ d _, Ok (GetPendingInflightByBalance d futureBalanceID));
    let security := List.filter is_security legs in
    let sells := List.filter is_sell security in
    let buys := List.filter (λ t, negb (is_sell t)) security in
    '(r1, added, spot) ← settle_legs E true buys spot future 0;
    '(r2, _, _) ← settle_legs E false sells spot future added;
    _ ← netRollToSpot E futureBalanceID (b_BalanceID spot);
    mret (r1 ++ r2).

Definition SettleTrade (E : benv) (securityTxnID : string) : B TradeSettlementResult :=
  t ← bread (λ d _, GetTransaction d securityTxnID);
  if negb (is_security t) then
    raise (ENew ("transaction " +:+ securityTxnID +:+ " is not a trade security leg"))
  else
    let futureBalanceID := if is_sell t then t_Source t else t_Destination t in
    settled ← settleFutureBalance E futureBalanceID;
    match List.find (λ r, String.eqb (ts_SecurityTxnID r) securityTxnID) settled with
    | Some r => mret r
    | None => mret (mkSettled (leg_ref t) "" securityTxnID "" futureBalanceID "" "")
    end.

(** ** Recovery *)

Definition defaultSettlementBatch : Z := 100.

(** One pending journal row; [Ok false] is a row that is skipped. *)
Definition reconcile_entry (E : benv) (e : SettlementJournalEntry) : B bool := λ w,
  match dec_of_string (j_Price e), Z_of_string (j_Quantity e) with
  | Some price, Some tradeQty =>
      let qtyBefore := match Z_of_string (j_QtyBefore e) with Some z => z | None => 0 end in
      match computeWAAfter (j_WABefore e) qtyBefore tradeQty (Float64.of_Z (j_Precision e)) price with
      | Err _ => (w, Ok false)
      | Ok waAfter =>
          match complete E (j_SecurityTxnID e) waAfter
                  (mkLot "" (j_SpotBalanceID e) (j_Instrument e) (Some tradeQty) (j_Precision e)
                     (dec_string price) (j_Currency e) (j_TradeRef e) 0) w with
          | (w, Ok _) => (w, Ok true)
          | (w, Err _) => (w, Ok false)
          end
      end
  | _, _ => (w, Ok false)
  end.

Fixpoint reconcile_all (E : benv) (l : list SettlementJournalEntry) : B Z :=
  match l with
  | [] => mret 0
  | e :: l =>
      ok ← reconcile_entry E e;
      n ← reconcile_all E l;
      mret (if (ok : bool) then n + 1 else n)
  end.

Definition ReconcileSettlement (E : benv) (limit : Z) : B Z :=
  let limit := if limit <=? 0 then defaultSettlementBatch else limit in
  pending ← bread (λ _ tb, Ok (ListPendingSettlementJournals tb (Z.to_nat limit)));
  reconcile_all E pending.

Record SettlementRunResult := mkRun {
  sr_Settled : list TradeSettlementResult;
  sr_Errors : list (string * string);
  sr_Examined : Z;
}.

Fixpoint settle_matured (E : benv) (positions : list Balance) : B SettlementRunResult := λ w,
  match positions with
  | [] => (w, Ok (mkRun [] [] 0))
  | p :: positions =>
      let '(w, r) := settleFutureBalance E (b_BalanceID p) w in
      match settle_matured E positions w with
      | (w, Err e) => (w, Err e)
      | (w, Ok run) =>
          (w, Ok (match r with
                  | Ok settled => mkRun (settled ++ sr_Settled run) (sr_Errors run) (sr_Examined run + 1)
                  | Err e => mkRun (sr_Settled run) ((b_BalanceID p, error_text e) :: sr_Errors run)
                               (sr_Examined run + 1)
                  end))
      end
  end.

Definition RunSettlement (E : benv) (asOf : time) (limit : Z) : B SettlementRunResult :=
  let limit := if limit <=? 0 then defaultSettlementBatch else limit in
  _ ← ReconcileSettlement E limit;
  matured ← bread (λ d _, Ok (GetMaturedPositions d asOf (Z.to_nat limit)));
  settle_matured E matured.

(** ** Selling *)

Lemma bread_state {A} (f : db → tables → result A) w : bread f w = (w, f (bdb w) (btb w)).
Proof. done. Qed.

(** A sell never exceeds what is tradable by its own settle date: a
    request above it is refused and nothing is written; a request within it is
    the only kind that is booked, and the reported position is the one the
    check used, with tradable = settled - blocked - outgoing, plus incoming for
    an instrument traded on the way, and never negative. *)
Theorem SellTrade_guard E t w params settleDate code p qty :
  validate_booking "sell booking" t = Ok tt →
  resolveTradeParams (btb w) (bk_Instrument t) (bk_SettleOffset t) (bk_Venue t) = Ok params →
  resolveSettlement params (trade_date E t) (bk_SettleDate t) w = (w, Ok (settleDate, code)) →
  GetTradablePosition (bdb w) (btb w) (bk_LedgerID t) (bk_IdentityID t) (bk_AccountRef t)
    (bk_Instrument t) (bk_Currency t) settleDate = Ok p →
  PreciseQuantity (bk_Quantity t) (bk_QuantityPrecision t) = Ok qty →
  tp_Tradable p = Z.max 0 (tp_Settled p - tp_Blocked p - tp_Outgoing p + tp_Incoming p)
  ∧ (tp_Tradable p < qty → SellTrade E t w = (w, Err (insufficient t p)))
  ∧ (∀ w' r p', SellTrade E t w = (w', Ok (r, p')) → p' = p ∧ qty <= tp_Tradable p).
Proof.
  intros Hv Hparams Hsettle Hp Hq.
  assert (Harith : tp_Tradable p = Z.max 0 (tp_Settled p - tp_Blocked p - tp_Outgoing p + tp_Incoming p)).
  { unfold GetTradablePosition in Hp. apply bind_Ok in Hp as (ow & _ & Hp).
    apply bind_Ok in Hp as ([s b] & _ & Hp).
    destruct (SumFutureHolds _ _ _ _ _ _ _) as [i o]. injection Hp as <-.
    cbn [tp_Tradable tp_Settled tp_Blocked tp_Outgoing tp_Incoming]. rewrite ComputeTradable_spec.
    destruct ow; lia. }
  assert (Hrun : SellTrade E t w
    = (if tp_Tradable p <? qty then raise (insufficient t p)
       else
         moneyBalance ← GetOrCreatePosition E (money_key t);
         bucket ← GetOrCreatePosition E (bucket_key t settleDate code);
         money ← lift (PreciseMoney (bk_Quantity t) (bk_Price t) (bk_MoneyPrecision t));
         r ← book_legs E TradeSideSell "failed to book sell money leg"
               "failed to book sell security leg" t params settleDate moneyBalance bucket money qty;
         mret (r, p)) w).
  { unfold SellTrade, mbind, prog_bind, lift. rewrite Hv, bread_state, Hparams, Hsettle, bread_state, Hp.
    unfold bad_request. by rewrite Hq. }
  split; [done|]. split; intros H'.
  - rewrite Hrun, (proj2 (Z.ltb_lt _ _) H'). done.
  - intros r p'. rewrite Hrun. destruct (Z.ltb_spec (tp_Tradable p) qty); [done|].
    intros E'. apply prog_bind_Ok in E' as (w1 & mb & _ & E'). apply prog_bind_Ok in E' as (w2 & bu & _ & E').
    apply prog_bind_Ok in E' as (w3 & mo & _ & E'). apply prog_bind_Ok in E' as (w4 & br & _ & E').
    injection E' as _ _ ->. split; [done|lia].
Qed.

(** ** Recovery *)

(** Recovery finishes a settlement as the run itself would have: from any
    later state, completing the journal row that phase 1 wrote has the effect
    of phase 2 - the same price, lot and journal row, or the same failure. *)
Theorem ReconcileSettlement_equiv E t spot future added r price tb tb' e now w :
  dec_of_string (leg_price t) = Some price →
  Float64.of_Z (Float64.to_int (t_Precision t)) = t_Precision t →
  BeginSettlementJournal (journal_of t spot future added) now tb = Ok (tb', (e, true)) →
  (reconcile_entry E e w).1 = (settle_side_effects E t spot future added r w).1
  ∧ ((reconcile_entry E e w).2 = Ok true
     ↔ is_ok (settle_side_effects E t spot future added r w).2 = true).
Proof.
  intros Hprice Hprec Hbegin. unfold BeginSettlementJournal in Hbegin.
  destruct (forallb _ _); [|done]. destruct (GetSettlementJournal _ _); [done|].
  injection Hbegin as _ <-. unfold reconcile_entry, settle_side_effects.
  cbn [pending_row journal_of set j_Price j_Quantity j_QtyBefore j_WABefore j_Precision j_SecurityTxnID
       j_SpotBalanceID j_Instrument j_Currency j_TradeRef].
  rewrite Hprice, !Z_of_to_string, Hprec.
  destruct (computeWAAfter _ _ _ _ _) as [waAfter|x]; [|by split].
  unfold leg_lot, mbind, prog_bind, lift, wrap_err.
  by destruct (complete E (t_TransactionID t) waAfter _ w) as [w1 [lotID|x]].
Qed.

(** ** What the service may do to the brokerage tables *)

Definition lot_key (l : BalanceLot) : string * string := (lot_BalanceID l, lot_Reference l).
Definition named_lots (tb : tables) : list BalanceLot :=
  List.filter (λ l, negb (String.eqb (lot_Reference l) "")) (tb_lots tb).

(** One journal row per security leg, one lot per balance and reference, and
    the lot a journal row names is recorded. *)
Record tables_ok (tb : tables) : Prop := {
  ok_journal : NoDup (map j_SecurityTxnID (tb_journal tb));
  ok_lots : NoDup (map lot_key (named_lots tb));
  ok_refs : ∀ j, j ∈ tb_journal tb → j_LotID j ≠ "" →
    ∃ l, l ∈ tb_lots tb ∧ lot_LotID l = j_LotID j;
}.

Definition applied (tb : tables) (id : string) : Prop :=
  ∃ j, j ∈ tb_journal tb ∧ j_SecurityTxnID j = id ∧ j_Status j = SettlementApplied.

(** Lots and journal rows are never deleted or reordered, and an applied row
    stays applied. *)
Record tables_grow (tb tb' : tables) : Prop := {
  grow_lots : tb_lots tb `prefix_of` tb_lots tb';
  grow_journal : map j_SecurityTxnID (tb_journal tb) `prefix_of` map j_SecurityTxnID (tb_journal tb');
  grow_applied : ∀ id, applied tb id → applied tb' id;
}.

#[local] Instance tables_grow_preorder : PreOrder tables_grow.
Proof.
  split.
  - intros tb. by split.
  - intros a b c [H1 H2 H3] [H4 H5 H6]. split; [by etrans|by etrans|auto].
Qed.

Definition advances (tb tb' : tables) : Prop := tables_ok tb → tables_ok tb' ∧ tables_grow tb tb'.

Lemma advances_refl tb : advances tb tb.
Proof. by intros H'. Qed.

Lemma advances_trans a b c : advances a b → advances b c → advances a c.
Proof.
  intros H1 H2 Ha. destruct (H1 Ha) as [Hb Hab]. destruct (H2 Hb) as [Hc Hbc].
  split; [done|by etrans].
Qed.

Lemma same_tables tb tb' :
  tb_lots tb' = tb_lots tb → tb_journal tb' = tb_journal tb → advances tb tb'.
Proof.
  intros E1 E2 [Hj Hl Hr]. split; split; unfold named_lots, applied in *; rewrite ?E1, ?E2; done.
Qed.

Lemma Begin_advances e now tb tb' r :
  BeginSettlementJournal e now tb = Ok (tb', r) → advances tb tb'.
Proof.
  unfold BeginSettlementJournal. destruct (forallb _ _); [|done].
  destruct (GetSettlementJournal tb _) as [x|x] eqn:E; [intros [= <- <-]; apply advances_refl|].
  intros [= <- <-]. set (row := pending_row e now).
  assert (Hrow : j_SecurityTxnID row = j_SecurityTxnID e) by done.
  intros [Hj Hl Hr]. unfold GetSettlementJournal in E. destruct (List.find _ _) eqn:Ef; [done|].
  split; split; cbn [tb_journal tb_lots set]; try done.
  - rewrite map_app. apply NoDup_app. split_and!; [done| |apply NoDup_singleton].
    intros y Hy Hin. apply list_elem_of_singleton in Hin as ->.
    apply list_elem_of_fmap in Hy as (j & Ej & Hin). apply list_elem_of_In in Hin.
    pose proof (find_none _ _ Ef j Hin) as Hne. apply String.eqb_neq in Hne. by rewrite Hrow in Ej.
  - intros j [Hin| ->%list_elem_of_singleton]%elem_of_app; [by apply Hr|done].
  - rewrite map_app. by eexists.
  - intros id (j & Hin & Hid). exists j. split; [|done]. apply elem_of_app. by left.
Qed.

Lemma upsert_lot_spec l lots lots' id :
  NoDup (map lot_key (List.filter (λ l, negb (String.eqb (lot_Reference l) "")) lots)) →
  upsert_lot l lots = (lots', id) →
  NoDup (map lot_key (List.filter (λ l, negb (String.eqb (lot_Reference l) "")) lots'))
  ∧ lots `prefix_of` lots' ∧ ∃ x, x ∈ lots' ∧ lot_LotID x = id.
Proof.
  intros Hnd. unfold upsert_lot. destruct (List.find _ lots) as [x|] eqn:Ef.
  { intros [= <- <-]. split_and!; [done..|]. exists x. split; [|done].
    apply list_elem_of_In. by eapply find_some. }
  intros [= <- <-]. split_and!; [|by eexists|exists l; split; [apply elem_of_app; right; by left|done]]. rewrite List.filter_app, map_app. cbn [List.filter].
  destruct (String.eqb_spec (lot_Reference l) "") as [E|Hne]; cbn [negb map]; [by rewrite app_nil_r|].
  apply NoDup_app. split_and!; [done| |apply NoDup_singleton].
  intros y Hy Hin. apply list_elem_of_singleton in Hin as ->.
  apply list_elem_of_fmap in Hy as (x & Ex & Hx). apply elem_of_list_filter in Hx as [Hx _].
  apply list_elem_of_In in Hx. pose proof (find_none _ _ Ef x Hx) as Hc. unfold lot_conflicts in Hc.
  injection Ex as E1 E2. rewrite <- E1, <- E2, !String.eqb_refl in Hc.
  apply String.eqb_neq in Hne. by rewrite Hne in Hc.
Qed.

Lemma Complete_advances id wa l lid now d tb d' tb' r :
  CompleteSettlementJournal id wa l lid now (d, tb) = Ok ((d', tb'), r) → advances tb tb'.
Proof.
  intros E [Hj Hl Hr]. unfold CompleteSettlementJournal in E.
  set (up := if 0 <? ival (lot_Quantity l) then _ else _) in E.
  destruct up as [lots lotID] eqn:Eup. destruct (numeric wa); [|done]. injection E as _ <- _.
  assert (Hlots : NoDup (map lot_key (List.filter (λ l, negb (String.eqb (lot_Reference l) "")) lots))
    ∧ tb_lots tb `prefix_of` lots ∧ (lotID ≠ "" → ∃ x, x ∈ lots ∧ lot_LotID x = lotID)).
  { subst up. destruct (0 <? _); [apply upsert_lot_spec in Eup; tauto|by injection Eup as <- <-]. }
  set (f := complete_row id wa lotID).
  assert (Hf : ∀ j, j_SecurityTxnID (f j) = j_SecurityTxnID j)
    by (intros j; unfold f, complete_row; by destruct (String.eqb _ _)).
  assert (Hmap : map j_SecurityTxnID (map f (tb_journal tb)) = map j_SecurityTxnID (tb_journal tb)).
  { rewrite map_map. by apply map_ext. }
  destruct Hlots as (Hnd & Hpre & Hlot).
  split; split; [by simpl; rewrite Hmap|done| |done|by simpl; rewrite Hmap|].
  { intros j' Hin. apply list_elem_of_fmap in Hin as (j & -> & Hin). subst f. simpl. unfold complete_row.
    destruct (String.eqb (j_SecurityTxnID j) id); [exact Hlot|]. intros Hne. destruct (Hr j Hin Hne) as (x & Hx & Ex).
    destruct Hpre as [k ->]. exists x. split; [apply elem_of_app; by left|done]. }
  intros i (j & Hin & Hid & Hst). exists (f j). rewrite Hf. split_and!; [|done|].
  - apply list_elem_of_fmap. by exists j.
  - unfold f, complete_row. by destruct (String.eqb _ _).
Qed.

(** Programs that only move the tables forward. *)
Definition keeps {A} (m : B A) : Prop := ∀ w, advances (btb w) (btb (m w).1).

Lemma keeps_bind {A C} (m : B A) (f : A → B C) : keeps m → (∀ a, keeps (f a)) → keeps (m ≫= f).
Proof.
  intros Hm Hf w. specialize (Hm w). unfold mbind, prog_bind.
  destruct (m w) as [w1 [a|e]]; [|done]. eapply advances_trans; [exact Hm|apply Hf].
Qed.
Lemma keeps_ret {A} (a : A) : keeps (mret a).
Proof. intros w. apply advances_refl. Qed.
Lemma keeps_raise {A} e : keeps (raise (A := A) e).
Proof. intros w. apply advances_refl. Qed.
Lemma keeps_lift {A} (r : result A) : keeps (lift r).
Proof. intros w. apply advances_refl. Qed.
Lemma keeps_err {A} f (m : B A) : keeps m → keeps (map_err f m).
Proof. intros Hm w. specialize (Hm w). unfold map_err. by destruct (m w) as [w1 [a|e]]. Qed.
Lemma keeps_inflight {A} (m : prog Inflight.qworld A) : keeps (inflight m).
Proof. intros w. unfold inflight. destruct (m (bq w)). apply advances_refl. Qed.
Lemma keeps_bread {A} (f : db → tables → result A) : keeps (bread f).
Proof. intros w. apply advances_refl. Qed.
Lemma keeps_bwrite {A} (f : db * tables → result ((db * tables) * A)) :
  (∀ d tb d' tb' a, f (d, tb) = Ok ((d', tb'), a) → advances tb tb') → keeps (bwrite f).
Proof.
  intros Hf w. unfold bwrite. destruct (f (bdb w, btb w)) as [[[d tb] a]|e] eqn:E; [|apply advances_refl].
  by eapply Hf.
Qed.
End world.

(** The operations are chained from programs the database below knows. *)
Create HintDb brokerage.
#[export] Hint Resolve keeps_ret keeps_raise keeps_lift keeps_inflight keeps_bread : brokerage.

Ltac keeps_step :=
  repeat first
    [ solve [auto 1 with brokerage nocore]
    | apply keeps_bind; [|intros ?]
    | apply keeps_err
    | match goal with |- keeps (match ?x with _ => _ end) => destruct x end
    | match goal with |- keeps (let '_ := ?x in _) => destruct x end ].

Section service.
Context `{Decimal, TaskQueue.Asynq}.

Lemma keeps_position E k : keeps (GetOrCreatePosition E k).
Proof.
  unfold GetOrCreatePosition, ledger. keeps_step. apply keeps_bwrite.
  intros d tb d' tb' b E'. apply bind_Ok in E' as ([d1 b1] & _ & E'). injection E' as _ -> _.
  apply advances_refl.
Qed.

Lemma keeps_complete E id wa l : keeps (complete E id wa l).
Proof.
  unfold complete, ledger. keeps_step. apply keeps_bwrite.
  intros d tb d' tb' r E'. by eapply Complete_advances.
Qed.

Lemma keeps_begin E e : keeps (begin_journal E e).
Proof.
  unfold begin_journal. keeps_step. apply keeps_bwrite.
  intros d tb d' tb' r E'. apply bind_Ok in E' as ([tb1 r1] & E1 & E'). injection E' as _ -> _.
  by eapply Begin_advances.
Qed.

Lemma keeps_resolveSettlement p td ex : keeps (resolveSettlement p td ex).
Proof. unfold resolveSettlement, settle_date_on. keeps_step. Qed.

Lemma keeps_book_legs E side m1 m2 t params sd mb bu money qty :
  keeps (book_legs E side m1 m2 t params sd mb bu money qty).
Proof.
  unfold book_legs, ledger. keeps_step. intros w. unfold book_security, ledger, inflight.
  destruct (Inflight.core _ _) as [q [x|e]]; [apply advances_refl|].
  cbn [bq btb]. destruct (Inflight.VoidInflightTransaction _ _ _). apply advances_refl.
Qed.
End service.

#[export] Hint Resolve keeps_position keeps_complete keeps_begin keeps_resolveSettlement
  keeps_book_legs : brokerage.

Section service.
Context `{Decimal, TaskQueue.Asynq}.

Lemma keeps_BookTrade E t : keeps (BookTrade E t).
Proof. unfold BookTrade. keeps_step. Qed.

Lemma keeps_SellTrade E t : keeps (SellTrade E t).
Proof. unfold SellTrade. keeps_step. Qed.

Lemma keeps_settleSecurityLeg E t spot future added : keeps (settleSecurityLeg E t spot future added).
Proof.
  unfold settleSecurityLeg, commit_holds, settle_side_effects. keeps_step.
Qed.

Lemma keeps_settle_legs E counts legs spot future added :
  keeps (settle_legs E counts legs spot future added).
Proof.
  revert spot added. induction legs as [|t legs IH]; intros spot added; simpl; [apply keeps_ret|].
  apply keeps_bind; [apply keeps_settleSecurityLeg|]. intros [[r qty] spot'].
  apply keeps_bind; [apply IH|]. intros [[rs a] sp]. apply keeps_ret.
Qed.

Lemma keeps_netRollToSpot E a b : keeps (netRollToSpot E a b).
Proof. unfold netRollToSpot, ledger. keeps_step. Qed.
End service.

#[export] Hint Resolve keeps_settleSecurityLeg keeps_settle_legs keeps_netRollToSpot : brokerage.

Section service.
Context `{Decimal, TaskQueue.Asynq}.

Lemma keeps_settleFutureBalance E id : keeps (settleFutureBalance E id).
Proof. unfold settleFutureBalance. keeps_step. Qed.
#[local] Hint Resolve keeps_settleFutureBalance : brokerage.

Lemma keeps_SettleTrade E id : keeps (SettleTrade E id).
Proof. unfold SettleTrade. keeps_step. Qed.

Lemma keeps_reconcile_all E l : keeps (reconcile_all E l).
Proof.
  induction l as [|e l IH]; simpl; [apply keeps_ret|].
  apply keeps_bind; [|intros ?; keeps_step; exact IH]. intros w. unfold reconcile_entry.
  destruct (dec_of_string _); [|apply advances_refl]. destruct (Z_of_string _); [|apply advances_refl].
  destruct (computeWAAfter _ _ _ _ _); [|apply advances_refl].
  match goal with |- context [complete E ?i ?wa ?l w] => pose proof (keeps_complete E i wa l w) as Hc;
    destruct (complete E i wa l w) as [w1 [x|x]] end; exact Hc.
Qed.
#[local] Hint Resolve keeps_reconcile_all : brokerage.

Lemma keeps_ReconcileSettlement E limit : keeps (ReconcileSettlement E limit).
Proof. unfold ReconcileSettlement. keeps_step. Qed.
#[local] Hint Resolve keeps_ReconcileSettlement : brokerage.

Lemma keeps_settle_matured E ps : keeps (settle_matured E ps).
Proof.
  induction ps as [|p ps IH]; intros w; simpl; [apply advances_refl|].
  pose proof (keeps_settleFutureBalance E (b_BalanceID p) w) as H1.
  destruct (settleFutureBalance E (b_BalanceID p) w) as [w1 r]. specialize (IH w1).
  destruct (settle_matured E ps w1) as [w2 [run|e]]; by eapply advances_trans.
Qed.
#[local] Hint Resolve keeps_settle_matured : brokerage.

Lemma keeps_RunSettlement E asOf limit : keeps (RunSettlement E asOf limit).
Proof. unfold RunSettlement. keeps_step. Qed.
#[local] Hint Resolve keeps_RunSettlement keeps_BookTrade keeps_SellTrade : brokerage.

(** *** Every operation of the service *)

Definition table_write (f : tables → result tables) : prog bworld unit :=
  bwrite (λ '(d, tb), tb ← f tb; mret ((d, tb), tt)).

Inductive bop :=
  | OpBook (t : Booking)
  | OpSell (t : Booking)
  | OpSettleTrade (securityTxnID : string)
  | OpRunSettlement (asOf : time) (limit : Z)
  | OpReconcile (limit : Z)
  | OpHoliday (h : MarketHoliday)
  | OpSettings (s : InstrumentSettings)
  | OpLot (fk : string → bool) (id : string) (l : BalanceLot)
  | OpPlan (MI : MapIter) (plan : MutationPlan)
  | OpRecalculate (ids : list string)
  | OpLedger (m : prog Inflight.qworld unit).

Definition run_bop (E : benv) (o : bop) : prog bworld unit :=
  match o with
  | OpBook t => _ ← BookTrade E t; mret tt
  | OpSell t => _ ← SellTrade E t; mret tt
  | OpSettleTrade id => _ ← SettleTrade E id; mret tt
  | OpRunSettlement asOf limit => _ ← RunSettlement E asOf limit; mret tt
  | OpReconcile limit => _ ← ReconcileSettlement E limit; mret tt
  | OpHoliday h => table_write (CreateHoliday h)
  | OpSettings st => table_write (UpsertInstrumentSettings st)
  | OpLot fk id l => table_write (CreateLot fk id (now_of E) l)
  | OpPlan MI plan => ledger (@ApplyMutationPlan MI E plan)
  | OpRecalculate ids => _ ← ledger (RecalculateHolds ids); mret tt
  | OpLedger m => inflight m
  end.

Fixpoint run_bops (ops : list (benv * bop)) (w : bworld) : bworld :=
  match ops with
  | [] => w
  | (E, o) :: ops => run_bops ops (run_bop E o w).1
  end.

Lemma keeps_table_write f :
  (∀ tb tb', f tb = Ok tb' → advances tb tb') → keeps (table_write f).
Proof.
  intros Hf. apply keeps_bwrite. intros d tb d' tb' a E'.
  apply bind_Ok in E' as (tb1 & E1 & E'). injection E' as _ <- _. by apply Hf.
Qed.

Lemma Holiday_advances h tb tb' : CreateHoliday h tb = Ok tb' → advances tb tb'.
Proof.
  unfold CreateHoliday. destruct (String.eqb _ _); [done|]. destruct (existsb _ _); [done|].
  intros [= <-]. by apply same_tables.
Qed.

Lemma Settings_advances st tb tb' : UpsertInstrumentSettings st tb = Ok tb' → advances tb tb'.
Proof.
  unfold UpsertInstrumentSettings. destruct (String.eqb _ _); [done|]. destruct (_ <? _); [done|].
  intros [= <-]. by apply same_tables.
Qed.

Lemma no_conflict_find l lots : existsb (lot_conflicts l) lots = false → List.find (lot_conflicts l) lots = None.
Proof.
  intros Hex. destruct (List.find _ _) as [x|] eqn:Ef; [|done]. apply find_some in Ef as [Hin Hc].
  assert (existsb (lot_conflicts l) lots = true) by (apply existsb_exists; by exists x). congruence.
Qed.

Lemma Lot_advances fk id now l tb tb' : CreateLot fk id now l tb = Ok tb' → advances tb tb'.
Proof.
  unfold CreateLot. destruct (_ <=? 0); [done|].
  match goal with |- context [negb (fk (lot_BalanceID ?x))] => set (row := x) end.
  destruct (negb _); [done|]. destruct (existsb _ _) eqn:Ec; [done|]. intros [= <-] [Hj Hl Hr].
  destruct (upsert_lot_spec row (tb_lots tb) (tb_lots tb ++ [row]) id Hl) as (Hnd & Hpre & _).
  { unfold upsert_lot. by rewrite (no_conflict_find _ _ Ec). }
  split; split; try done.
  intros j Hin Hne. destruct (Hr j Hin Hne) as (x & Hx & Ex). exists x. split; [|done].
  apply elem_of_app. by left.
Qed.

Lemma keeps_bop E o : keeps (run_bop E o).
Proof.
  destruct o; unfold run_bop, ledger; keeps_step; try apply keeps_SettleTrade.
  - apply keeps_table_write, Holiday_advances.
  - apply keeps_table_write, Settings_advances.
  - apply keeps_table_write. intros tb tb'. apply Lot_advances.
Qed.

(** C25. Whatever sequence of bookings, sells, settlements, recoveries, plans,
    lots and ledger operations runs, and whichever of them fail: there is at
    most one journal row per security leg and one lot per balance and trade
    reference, the lot a journal row names exists, lots and rows are never
    deleted, and a leg whose settlement was applied stays applied. *)
Theorem settlement_records_one_lot ops w :
  tables_ok (btb w) →
  tables_ok (btb (run_bops ops w)) ∧ tables_grow (btb w) (btb (run_bops ops w)).
Proof.
  change (advances (btb w) (btb (run_bops ops w))). revert w.
  induction ops as [|[E o] ops IH]; intros w; [apply advances_refl|].
  eapply advances_trans; [apply keeps_bop|apply IH].
Qed.
End service.

(** ** Witnesses and findings

    A client with 10000.00 in cash buys the instrument from the market. *)

Import TaskQueue.

Definition ex_benv : benv := mkBEnv Inflight.ex_ienv (λ _, true) (λ _, None) (λ _, None).
Definition ex_empty : bworld :=
  mkB (Inflight.mkQ (mkWorld empty_db ∅ 0) no_tasks) (mkTables [] ∅ [] []).

Definition ex_booking (qty price : string) (offset : Z) (ref : string) : Booking :=
  mkBooking "ldg" "idt" "acc" "ISIN" "" "USD" qty 1 price 100 offset (738900 * Time.day) 0
    "@settlement" "@market" ref.
Definition ex_asOf : time := 738910 * Time.day.

Definition ex_deposit : Transaction :=
  empty_transaction <| t_TransactionID := "txn_f" |> <| t_Reference := "ref_f" |>
    <| t_Source := "@world" |> <| t_Destination := "bln_0" |> <| t_Currency := "USD" |>
    <| t_PreciseAmount := Some 1000000 |> <| t_Precision := Float64.of_Z 100 |>
    <| t_AllowOverdraft := true |> <| t_Status := StatusQueued |>.

Definition ex_funded : bworld :=
  let w := (GetOrCreatePosition ex_benv (money_key (ex_booking "1" "1" 0 "r")) ex_empty).1 in
  (ledger (RecordTransaction (be_exec ex_benv) ex_deposit) w).1.

Definition ex_buy (qty price ref : string) (w : bworld) : bworld :=
  (BookTrade ex_benv (ex_booking qty price 1 ref) w).1.
Definition ex_settle (w : bworld) : bworld := (RunSettlement ex_benv ex_asOf 0 w).1.

Definition ex_holding : bworld := ex_settle (ex_buy "100" "10" "r1" ex_funded).
Definition ex_pending : bworld := ex_buy "50" "13" "r2" ex_holding.
Definition ex_wa (w : bworld) : list string := map j_WAAfter (tb_journal (btb w)).

Lemma SellTrade_guard_witness :
  (SellTrade ex_benv (ex_booking "101" "10" 0 "s") ex_holding).1 = ex_holding
  ∧ is_ok (SellTrade ex_benv (ex_booking "100" "10" 0 "s") ex_holding).2 = true.
Proof.
  split; [|vm_compute; reflexivity].
  destruct (SellTrade_guard ex_benv (ex_booking "101" "10" 0 "s") ex_holding (mkParams false 0 "")
    (738900 * Time.day) (Some 0) (mkTradable 100 0 0 0 100 false (Time.format_date (738900 * Time.day)))
    101) as (_ & Hrefused & _); [vm_compute; reflexivity..|].
  by rewrite Hrefused.
Defined.

Definition ex_run : list (benv * bop) :=
  [(ex_benv, OpBook (ex_booking "100" "10" 1 "r1")); (ex_benv, OpRunSettlement ex_asOf 0);
   (ex_benv, OpBook (ex_booking "50" "13" 1 "r2")); (ex_benv, OpRunSettlement ex_asOf 0);
   (ex_benv, OpSettleTrade "txn_8"); (ex_benv, OpReconcile 0)].

Lemma settlement_records_one_lot_witness :
  tables_ok (btb (run_bops ex_run ex_funded))
  ∧ length (tb_lots (btb (run_bops ex_run ex_funded))) = 2%nat
  ∧ map j_Status (tb_journal (btb (run_bops ex_run ex_funded))) = [SettlementApplied; SettlementApplied].
Proof.
  assert (E : btb ex_funded = mkTables [] ∅ [] []) by (vm_compute; reflexivity).
  assert (Hok : tables_ok (btb ex_funded)).
  { rewrite E. clear E. split; [apply NoDup_nil_2|apply NoDup_nil_2|]. intros j Hj. by apply elem_of_nil in Hj. }
  split; [|split; vm_compute; reflexivity].
  exact (proj1 (settlement_records_one_lot ex_run ex_funded Hok)).
Defined.

(** A settlement of the bucket that stops before the commits, or after the
    money leg's. *)
Definition ex_interrupted (money_committed : bool) : bworld :=
  fst ((future ← bread (λ d _, GetPositionByID d "bln_4");
        spot ← GetOrCreatePosition ex_benv (mkKey "ldg" "idt" "acc" "ISIN" "USD" None None);
        legs ← bread (λ d _, Ok (GetPendingInflightByBalance d "bln_4"));
        match legs with
        | [] => mret tt
        | t :: _ =>
            _ ← begin_journal ex_benv (journal_of t spot future 0);
            if money_committed then
              _ ← inflight (Inflight.CommitInflightTransaction Inflight.ex_ienv
                              (metaString (t_MetaData t) "money_leg_id") 0);
              mret tt
            else mret tt
        end) ex_pending).

(** A purchase of 50 at 13 on 100 held at 10.00. *)
Definition ex_leg : Transaction :=
  trade_leg "txn_s" "bln_m" "bln_b" 50 1 "USD" "r2_sec" "" true
    (list_to_map [("trade_ref", MStr "r2"); ("price", MStr "13")]).
Definition ex_spot : Balance := empty_balance <| b_BalanceID := "bln_11" |>
  <| b_Balance := Some 100 |> <| b_WAPrice := "10.00" |>.
Definition ex_future : Balance := empty_balance <| b_BalanceID := "bln_4" |>
  <| b_Instrument := "ISIN" |>.

Lemma ReconcileSettlement_equiv_witness :
  ∃ tb' e,
    BeginSettlementJournal (journal_of ex_leg ex_spot ex_future 0) 1000 (btb ex_holding)
      = Ok (tb', (e, true))
    ∧ (reconcile_entry ex_benv e ex_pending).2 = Ok true
    ∧ (reconcile_entry ex_benv e ex_pending).1
      = (settle_side_effects ex_benv ex_leg ex_spot ex_future 0 (mkSettled "" "" "" "" "" "" "")
           ex_pending).1.
Proof.
  assert (Hb : ∃ tb' e, BeginSettlementJournal (journal_of ex_leg ex_spot ex_future 0) 1000
                 (btb ex_holding) = Ok (tb', (e, true))).
  { unfold BeginSettlementJournal. eexists _, _. vm_compute. reflexivity. }
  destruct Hb as (tb' & e & Hb). exists tb', e. split; [done|].
  destruct (dec_of_string (leg_price ex_leg)) as [price|] eqn:Ep; [|by vm_compute in Ep].
  destruct (ReconcileSettlement_equiv ex_benv ex_leg ex_spot ex_future 0
    (mkSettled "" "" "" "" "" "" "") price (btb ex_holding) tb' e 1000 ex_pending Ep
    ltac:(vm_compute; reflexivity) Hb) as [Hw Hok].
  split; [|exact Hw]. apply Hok. vm_compute. reflexivity.
Defined.

(** Everything held is sold for T+5 and then again for T+0: the availability of
    a settle date does not see the sells that settle after it. *)
Lemma sold_twice_across_dates :
  let '(w1, r1) := SellTrade ex_benv (ex_booking "100" "13" 5 "s1") ex_holding in
  let '(_, r2) := SellTrade ex_benv (ex_booking "100" "13" 0 "s2") w1 in
  is_ok r1 = true ∧ is_ok r2 = true
  ∧ map (λ t, (t_PreciseAmount t, t_Status t))
      (List.filter (λ t, is_sell t && is_security t)
         (db_transactions (bdb (SellTrade ex_benv (ex_booking "100" "13" 0 "s2") w1).1)))
    = [(Some 100, StatusInflight); (Some 100, StatusInflight)].
Proof. vm_compute. split_and!; reflexivity. Qed.

(** A settlement that stopped before its commits is completed by recovery, and
    then blended a second time when the bucket settles. *)
Lemma price_blended_twice :
  ex_wa (ex_settle ex_pending) = ["10.00"; "11.00"]
  ∧ ex_wa (ex_settle (ex_interrupted false)) = ["10.00"; "11.67"].
Proof. vm_compute. by split. Qed.

(** A settlement that stopped between its commits never ends: the money leg is
    committed again by every retry, which fails, and the security stays held. *)
Lemma interrupted_settlement_stuck :
  let w1 := ex_settle (ex_interrupted true) in
  ex_wa w1 = ["10.00"; "11.00"]
  ∧ (RunSettlement ex_benv ex_asOf 0 w1).2
    = Ok (mkRun [] [("bln_4", "failed to commit money leg txn_26: "
                              +:+ "cannot commit. Transaction already committed")] 1)
  ∧ map t_TransactionID (GetPendingInflightByBalance (bdb (ex_settle w1)) "bln_4") = ["txn_28"].
Proof. vm_compute. split_and!; reflexivity. Qed.

(** The roll to spot is recorded without a status. *)
Lemma roll_has_no_status :
  map t_Status (List.filter (λ t, String.eqb (metaString (t_MetaData t) "trade_leg") "roll")
                  (db_transactions (bdb ex_holding))) = [""].
Proof. vm_compute. reflexivity. Qed.

End Brokerage.
