(* ===== verification/Orders.v ===== *)
(** The lifecycle of broker orders (order.go, model/order.go,
    database/order.go)

    An order is created as a draft, checked, approved and executed into a
    brokerage trade.  Every handler reads the order's row, decides on the copy
    it has read, which may book a trade, and writes the status and its outcome
    back.  The three parts are definitions of their own, so that handlers can
    be run at once ([CheckOrder] and the others) or interleaved ([ostep]). *)
From S2P Require Import Prelude Float64 Decimal Types Time Datastore Positions Trading.
From S2P Require Import Execution TaskQueue Inflight Brokerage.

Module Orders.

Import Datastore Execution Positions Trading Brokerage.

(** ** Data (model/order.go) *)

Definition OrderStatusDraft : string := "DRAFT".
Definition OrderStatusChecked : string := "CHECKED".
Definition OrderStatusApproved : string := "APPROVED".
Definition OrderStatusExecuted : string := "EXECUTED".
Definition OrderStatusRejected : string := "REJECTED".
Definition OrderStatusCancelled : string := "CANCELLED".
Definition AMLStatusPassed : string := "PASSED".
Definition AMLStatusBlocked : string := "BLOCKED".

Definition orderTransitions (from : string) : option (list string) :=
  if String.eqb from OrderStatusDraft
  then Some [OrderStatusChecked; OrderStatusRejected; OrderStatusCancelled]
  else if String.eqb from OrderStatusChecked
  then Some [OrderStatusApproved; OrderStatusRejected; OrderStatusCancelled]
  else if String.eqb from OrderStatusApproved
  then Some [OrderStatusExecuted; OrderStatusRejected; OrderStatusCancelled]
  else None.

Definition CanTransitionOrder (from to : string) : bool :=
  match orderTransitions from with
  | Some l => existsb (String.eqb to) l
  | None => false
  end.
Definition IsTerminalOrderStatus (status : string) : bool :=
  match orderTransitions status with Some _ => false | None => true end.

Record Order := mkOrder {
  or_OrderID : string;
  or_Reference : string;
  or_LedgerID : string;
  or_IdentityID : string;
  or_AccountRef : string;
  or_Instrument : string;
  or_Venue : string;
  or_Currency : string;
  or_Side : string;
  or_Quantity : string;
  or_QuantityPrecision : Z;
  or_Price : string;
  or_MoneyPrecision : Z;
  or_SettleOffset : Z;
  or_SettleDate : option time;
  or_Status : string;
  or_StatusMessage : string;
  or_RejectReason : string;
  or_AMLStatus : string;
  or_SettlementBalanceID : string;
  or_MarketBalanceID : string;
  or_TradeRef : string;
  or_SecurityTxnID : string;
  or_MoneyTxnID : string;
  or_CreatedAt : time;
  or_UpdatedAt : time;
}.
#[export] Instance Order_eta : Eta Order := λ o,
  mkOrder (or_OrderID o) (or_Reference o) (or_LedgerID o) (or_IdentityID o) (or_AccountRef o)
    (or_Instrument o) (or_Venue o) (or_Currency o) (or_Side o) (or_Quantity o)
    (or_QuantityPrecision o) (or_Price o) (or_MoneyPrecision o) (or_SettleOffset o)
    (or_SettleDate o) (or_Status o) (or_StatusMessage o) (or_RejectReason o) (or_AMLStatus o)
    (or_SettlementBalanceID o) (or_MarketBalanceID o) (or_TradeRef o) (or_SecurityTxnID o)
    (or_MoneyTxnID o) (or_CreatedAt o) (or_UpdatedAt o).

Record DictEntry := mkDict {
  de_Category : string; de_Code : string; de_Name : string; de_Sort : Z; de_Active : bool }.
Record StopListEntry := mkStop {
  sl_IdentityID : string; sl_Instrument : string; sl_Reason : string; sl_Active : bool }.
Record TradingTime := mkWindow {
  tt_Venue : string; tt_Weekday : Z; tt_OpenTime : string; tt_CloseTime : string }.

(** Clock texts compare as strings. *)
Definition IsOpenAt (w : TradingTime) (hhmm : string) : bool :=
  String.leb (tt_OpenTime w) hhmm && String.leb hhmm (tt_CloseTime w).

Record OrderCheckResult := mkCheck {
  oc_Passed : bool; oc_RejectReason : string; oc_Checks : list string }.

Section decimal.
Context `{Decimal}.

Definition Validate (o : Order) : result unit :=
  let empty s := String.eqb s "" in
  _ ← fail_if (empty (or_Reference o)) (ENew "order: reference is required");
  _ ← fail_if (empty (or_LedgerID o) || empty (or_AccountRef o) || empty (or_Currency o))
        (ENew "order: ledger_id, account_ref and currency are required");
  _ ← fail_if (empty (or_Instrument o)) (ENew "order: instrument is required");
  _ ← fail_if (negb (String.eqb (or_Side o) TradeSideBuy) && negb (String.eqb (or_Side o) TradeSideSell))
        (ENew "order: side must be buy or sell");
  _ ← fail_if ((or_QuantityPrecision o <? 1) || (or_MoneyPrecision o <? 1))
        (ENew "order: quantity_precision and money_precision must be >= 1");
  _ ← wrap_err "order" (PreciseQuantity (or_Quantity o) (or_QuantityPrecision o));
  _ ← wrap_err "order" (PreciseMoney (or_Quantity o) (or_Price o) (or_MoneyPrecision o));
  fail_if (empty (or_SettlementBalanceID o) || empty (or_MarketBalanceID o))
    (ENew "order: settlement_balance_id and market_balance_id are required").

End decimal.

(** ** The service's world *)

Section world.
Context `{Decimal, TaskQueue.Asynq}.

Record oworld := mkO {
  o_brokerage : bworld;
  o_orders : list Order;
  o_dict : gmap (string * string) DictEntry;
  o_stop : gmap (string * string) StopListEntry;
  o_times : gmap (string * Z) TradingTime;
}.
#[export] Instance oworld_eta : Eta oworld := λ w,
  mkO (o_brokerage w) (o_orders w) (o_dict w) (o_stop w) (o_times w).

Record oenv := mkOEnv {
  oe_brokerage : benv;
  oe_create_fault : option error;
  oe_update_fault : Order → option error;   (* the database refuses the UPDATE *)
}.
Definition oe_now (E : oenv) : time := now_of (oe_brokerage E).

Abbreviation O := (prog oworld).

Definition inb {A} (m : prog bworld A) : O A := λ w,
  let '(b, r) := m (o_brokerage w) in (w <| o_brokerage := b |>, r).
Definition oread {A} (f : oworld → result A) : O A := λ w, (w, f w).

(** ** The tables (database/order.go) *)

(** What the INSERT stores: the settle date is a DATE, and the columns it does
    not list are NULL. *)
Definition inserted (id : string) (now : time) (o : Order) : Order :=
  o <| or_OrderID := id |> <| or_CreatedAt := now |> <| or_UpdatedAt := now |>
    <| or_Status := if String.eqb (or_Status o) "" then OrderStatusDraft else or_Status o |>.
Definition stored_order (o : Order) : Order :=
  o <| or_SettleDate := option_map midnight (or_SettleDate o) |>
    <| or_StatusMessage := "" |> <| or_RejectReason := "" |> <| or_TradeRef := "" |>
    <| or_SecurityTxnID := "" |> <| or_MoneyTxnID := "" |>.

Definition store_order (E : oenv) (o : Order) : O Order := λ w,
  let conflict := EAPI "CONFLICT" ("Order with reference '" +:+ or_Reference o +:+ "' already exists") in
  match oe_create_fault E with
  | Some _ => (w, Err (EAPI "INTERNAL_SERVER_ERROR" "Failed to create order"))
  | None =>
      if existsb (λ x, String.eqb (or_Reference x) (or_Reference o)
                       || String.eqb (or_OrderID x) (or_OrderID o)) (o_orders w)
      then (w, Err conflict)
      else (w <| o_orders := o_orders w ++ [stored_order o] |>, Ok o)
  end.

Definition insert_order (E : oenv) (o : Order) : O Order :=
  id ← inb (ledger (fresh_id (be_exec (oe_brokerage E)) "ord"));
  store_order E (inserted id (oe_now E) o).

Definition find_order (w : oworld) (id : string) : result Order :=
  match List.find (λ o, String.eqb (or_OrderID o) id) (o_orders w) with
  | Some o => Ok o
  | None => Err (EAPI "NOT_FOUND" ("Order '" +:+ id +:+ "' not found"))
  end.

(** The columns of the UPDATE; the row is found by the id alone. *)
Definition written (now : time) (o row : Order) : Order :=
  row <| or_Status := or_Status o |> <| or_StatusMessage := or_StatusMessage o |>
      <| or_RejectReason := or_RejectReason o |> <| or_AMLStatus := or_AMLStatus o |>
      <| or_TradeRef := or_TradeRef o |> <| or_SecurityTxnID := or_SecurityTxnID o |>
      <| or_MoneyTxnID := or_MoneyTxnID o |> <| or_UpdatedAt := now |>.

Definition UpdateOrder (E : oenv) (o : Order) : O unit := λ w,
  match oe_update_fault E o with
  | Some _ => (w, Err (EAPI "INTERNAL_SERVER_ERROR" "Failed to update order"))
  | None =>
      if existsb (λ x, String.eqb (or_OrderID x) (or_OrderID o)) (o_orders w) then
        (w <| o_orders := map (λ x, if String.eqb (or_OrderID x) (or_OrderID o)
                                    then written (oe_now E) o x else x) (o_orders w) |>, Ok tt)
      else (w, Err (EAPI "NOT_FOUND" ("Order '" +:+ or_OrderID o +:+ "' not found")))
  end.

Definition ListOrdersByStatus (w : oworld) (status : string) (limit offset : nat) : list Order :=
  limit_offset limit offset
    (order_asc or_CreatedAt (List.filter (λ o, String.eqb (or_Status o) status) (o_orders w))).

Definition UpsertDict (e : DictEntry) : O DictEntry := λ w,
  if String.eqb (de_Category e) "" || String.eqb (de_Code e) ""
  then (w, Err (EAPI "BAD_REQUEST" "dict category and code are required"))
  else (w <| o_dict := <[(de_Category e, de_Code e) := e]> (o_dict w) |>, Ok e).

Definition AddStopList (e : StopListEntry) : O StopListEntry := λ w,
  if String.eqb (sl_IdentityID e) "" then (w, Err (EAPI "BAD_REQUEST" "identity_id is required"))
  else
    let e := mkStop (sl_IdentityID e) (sl_Instrument e) (sl_Reason e) true in
    (w <| o_stop := <[(sl_IdentityID e, sl_Instrument e) := e]> (o_stop w) |>, Ok e).

(** The entry for the instrument or the one for all instruments. *)
Definition IsStopListed (w : oworld) (identityID instrument : string) : bool :=
  let active k := match o_stop w !! k with Some e => sl_Active e | None => false end in
  active (identityID, instrument) || active (identityID, "").

Definition SetTradingTime (t : TradingTime) : O TradingTime := λ w,
  if String.eqb (tt_Venue t) "" || (tt_Weekday t <? 0) || (6 <? tt_Weekday t)
  then (w, Err (EAPI "BAD_REQUEST" "venue and weekday 0..6 are required"))
  else (w <| o_times := <[(tt_Venue t, tt_Weekday t) := t]> (o_times w) |>, Ok t).

Definition GetTradingTimes (w : oworld) (venue : string) : list TradingTime :=
  order_asc tt_Weekday
    (List.filter (λ t, String.eqb (tt_Venue t) venue) (map snd (map_to_list (o_times w)))).

(** ** Checks *)

Definition isVenueOpen (w : oworld) (venue : string) (at_ : time) : bool :=
  if String.eqb venue "" then true
  else
    match GetTradingTimes w venue with
    | [] => true
    | windows => existsb (λ t, (tt_Weekday t =? Time.weekday at_) && IsOpenAt t (Time.format_hhmm at_)) windows
    end.

(** A limit that is no number is ignored. *)
Definition below (limit : string) (precision qty : Z) : bool :=
  negb (String.eqb limit "")
  && match PreciseQuantity limit precision with Ok min => qty <? min | Err _ => false end.
Definition above (limit : string) (precision qty : Z) : bool :=
  negb (String.eqb limit "")
  && match PreciseQuantity limit precision with Ok max => max <? qty | Err _ => false end.

(** The reason of a refusal, if there is one. *)
Definition checkSizeLimits (w : oworld) (o : Order) : result (option string) :=
  match GetInstrumentSettings (btb (o_brokerage w)) (or_Instrument o) with
  | Err e => if is_not_found e then Ok None else Err e
  | Ok settings =>
      qty ← bad_request (PreciseQuantity (or_Quantity o) (or_QuantityPrecision o));
      if below (is_MinOrderQuantity settings) (or_QuantityPrecision o) qty
      then Ok (Some "below minimum order quantity")
      else if above (is_MaxOrderQuantity settings) (or_QuantityPrecision o) qty
      then Ok (Some "above maximum order quantity")
      else Ok None
  end.

Definition derefTime (t : option time) : time := match t with Some t => t | None => 0 end.

Definition orderSettleDate (E : oenv) (o : Order) : O time :=
  params ← inb (bread (λ _ tb, resolveTradeParams tb (or_Instrument o) (or_SettleOffset o) (or_Venue o)));
  '(settleDate, _) ← inb (resolveSettlement params (oe_now E) (derefTime (or_SettleDate o)));
  mret settleDate.

Definition order_money_key (o : Order) : PositionKey :=
  mkKey (or_LedgerID o) (or_IdentityID o) (or_AccountRef o) "" (or_Currency o) None None.

Definition checkFunds (E : oenv) (o : Order) : O (option string) :=
  settleDate ← orderSettleDate E o;
  if String.eqb (or_Side o) TradeSideSell then
    qty ← lift (bad_request (PreciseQuantity (or_Quantity o) (or_QuantityPrecision o)));
    tradable ← inb (bread (λ d tb, GetTradablePosition d tb (or_LedgerID o) (or_IdentityID o)
                 (or_AccountRef o) (or_Instrument o) (or_Currency o) settleDate));
    mret (if tp_Tradable tradable <? qty then Some "insufficient tradable position" else None)
  else
    money ← lift (bad_request (PreciseMoney (or_Quantity o) (or_Price o) (or_MoneyPrecision o)));
    moneyPos ← inb (GetOrCreatePosition (oe_brokerage E) (order_money_key o));
    free ← inb (bread (λ d _, GetFreeBalance d (b_BalanceID moneyPos) None));
    mret (if fb_AvailableAmount free <? money then Some "insufficient funds" else None).

Definition runOrderChecks (E : oenv) (o : Order) : O OrderCheckResult :=
  let fail reason checks := mret (mkCheck false reason checks) in
  blocked ← oread (λ w, Ok (negb (String.eqb (or_IdentityID o) "")
                            && IsStopListed w (or_IdentityID o) (or_Instrument o)));
  if blocked : bool then fail "stop list" ["stop_list"]
  else
    open ← oread (λ w, Ok (isVenueOpen w (or_Venue o) (oe_now E)));
    if negb open then fail "outside trading hours" ["stop_list"; "trading_time"]
    else
      size ← oread (λ w, checkSizeLimits w o);
      match size with
      | Some reason => fail reason ["stop_list"; "trading_time"; "size_limits"]
      | None =>
          funds ← checkFunds E o;
          match funds with
          | Some reason => fail reason ["stop_list"; "trading_time"; "size_limits"; "funds"]
          | None => mret (mkCheck true "" ["stop_list"; "trading_time"; "size_limits"; "funds"])
          end
      end.

(** ** Decisions: the copy of the order to write, from the copy read *)

Inductive oop := Check_ | Approve_ | Execute_ | Cancel_.

Definition cannot (o : Order) (verb : string) : error :=
  EAPI "BAD_REQUEST" ("order " +:+ or_OrderID o +:+ " cannot be " +:+ verb +:+ " from status "
                      +:+ or_Status o).

Definition check_order (E : oenv) (o : Order) : O Order :=
  if negb (String.eqb (or_Status o) OrderStatusDraft) then raise (cannot o "checked")
  else
    r ← runOrderChecks E o;
    if oc_Passed r then
      mret (o <| or_Status := OrderStatusChecked |> <| or_AMLStatus := AMLStatusPassed |>
              <| or_StatusMessage := "checks passed" |>)
    else
      mret (o <| or_Status := OrderStatusRejected |> <| or_RejectReason := oc_RejectReason r |>
              <| or_StatusMessage := "validation failed: " +:+ oc_RejectReason r |>
              <| or_AMLStatus := if String.eqb (oc_RejectReason r) "stop list" then AMLStatusBlocked
                                 else or_AMLStatus o |>).

Definition approve_order (o : Order) : O Order :=
  if negb (CanTransitionOrder (or_Status o) OrderStatusApproved) then raise (cannot o "approved")
  else mret (o <| or_Status := OrderStatusApproved |> <| or_StatusMessage := "approved" |>).

Definition cancel_order (o : Order) : O Order :=
  if negb (CanTransitionOrder (or_Status o) OrderStatusCancelled) then raise (cannot o "cancelled")
  else mret (o <| or_Status := OrderStatusCancelled |> <| or_StatusMessage := "cancelled" |>).

(** The booking of an order; it has no trade date. *)
Definition order_booking (o : Order) : Booking :=
  mkBooking (or_LedgerID o) (or_IdentityID o) (or_AccountRef o) (or_Instrument o) (or_Venue o)
    (or_Currency o) (or_Quantity o) (or_QuantityPrecision o) (or_Price o) (or_MoneyPrecision o)
    (or_SettleOffset o) 0 (derefTime (or_SettleDate o)) (or_SettlementBalanceID o)
    (or_MarketBalanceID o) (or_Reference o).

Definition book_order (E : oenv) (o : Order) : O BookingResult :=
  if String.eqb (or_Side o) TradeSideSell
  then r ← inb (SellTrade (oe_brokerage E) (order_booking o)); mret r.1
  else inb (BookTrade (oe_brokerage E) (order_booking o)).

Definition executed (o : Order) (r : BookingResult) : Order :=
  o <| or_Status := OrderStatusExecuted |> <| or_StatusMessage := "executed" |>
    <| or_TradeRef := or_Reference o |> <| or_SecurityTxnID := bkr_SecurityTxnID r |>
    <| or_MoneyTxnID := bkr_MoneyTxnID r |>.
(** [rejectOrderOnExecute] *)
Definition rejected_on_execute (o : Order) (cause : error) : Order :=
  o <| or_Status := OrderStatusRejected |> <| or_RejectReason := "execution failed" |>
    <| or_StatusMessage := error_text cause |>.

Definition execute_order (E : oenv) (o : Order) : O Order :=
  if negb (CanTransitionOrder (or_Status o) OrderStatusExecuted) then raise (cannot o "executed")
  else λ w,
    match book_order E o w with
    | (w, Ok r) => (w, Ok (executed o r))
    | (w, Err e) => if Inflight.is_panic e then (w, Err e) else (w, Ok (rejected_on_execute o e))
    end.

Definition decide_order (E : oenv) (op : oop) (o : Order) : O Order :=
  match op with
  | Check_ => check_order E o
  | Approve_ => approve_order o
  | Execute_ => execute_order E o
  | Cancel_ => cancel_order o
  end.

(** ** Handlers *)

Definition GetOrder (id : string) : O Order := oread (λ w, find_order w id).

Definition save (E : oenv) (o : Order) : O Order := _ ← UpdateOrder E o; mret o.

Definition handle (E : oenv) (op : oop) (id : string) : O Order :=
  o ← GetOrder id; o ← decide_order E op o; save E o.

Definition CheckOrder (E : oenv) (id : string) : O Order := handle E Check_ id.
Definition ApproveOrder (E : oenv) (id : string) : O Order := handle E Approve_ id.
Definition ExecuteOrder (E : oenv) (id : string) : O Order := handle E Execute_ id.
Definition CancelOrder (E : oenv) (id : string) : O Order := handle E Cancel_ id.

Definition CreateOrder (E : oenv) (o : Order) : O Order :=
  _ ← lift (bad_request (Validate o));
  insert_order E (o <| or_Status := OrderStatusDraft |>).

Definition SubmitOrder (E : oenv) (o : Order) : O Order :=
  created ← CreateOrder E o;
  checked ← CheckOrder E (or_OrderID created);
  if String.eqb (or_Status checked) OrderStatusRejected then mret checked
  else
    approved ← ApproveOrder E (or_OrderID checked);
    ExecuteOrder E (or_OrderID approved).

(** ** Interleaved requests *)

(** A request that has read its order, or that is about to write it. *)
Inductive request :=
| RRead (op : oop) (o : Order)
| RWrite (o : Order).

Record ostate := mkOState { os_world : oworld; os_requests : list request }.

(** Requests of any clients, one part at a time; each part under its own time
    and faults.  A request may be abandoned at any point: its process dies. *)
Inductive ostep : relation ostate :=
| os_create E o w rs : ostep (mkOState w rs) (mkOState (CreateOrder E o w).1 rs)
| os_read op id w rs o : find_order w id = Ok o →
    ostep (mkOState w rs) (mkOState w (rs ++ [RRead op o]))
| os_decide E op o w rs1 rs2 w' o' : decide_order E op o w = (w', Ok o') →
    ostep (mkOState w (rs1 ++ RRead op o :: rs2)) (mkOState w' (rs1 ++ RWrite o' :: rs2))
| os_refuse E op o w rs1 rs2 w' e : decide_order E op o w = (w', Err e) →
    ostep (mkOState w (rs1 ++ RRead op o :: rs2)) (mkOState w' (rs1 ++ rs2))
| os_write E o w rs1 rs2 :
    ostep (mkOState w (rs1 ++ RWrite o :: rs2)) (mkOState (UpdateOrder E o w).1 (rs1 ++ rs2))
| os_die w rs1 r rs2 : ostep (mkOState w (rs1 ++ r :: rs2)) (mkOState w (rs1 ++ rs2))
| os_dict e w rs : ostep (mkOState w rs) (mkOState (UpsertDict e w).1 rs)
| os_stop e w rs : ostep (mkOState w rs) (mkOState (AddStopList e w).1 rs)
| os_time t w rs : ostep (mkOState w rs) (mkOState (SetTradingTime t w).1 rs)
| os_brokerage b w rs : ostep (mkOState w rs) (mkOState (w <| o_brokerage := b |>) rs).

(** Requests that run without interruption. *)
Inductive astep : relation oworld :=
| as_create E o w : astep w (CreateOrder E o w).1
| as_handle E op id w : astep w (handle E op id w).1
| as_submit E o w : astep w (SubmitOrder E o w).1
| as_dict e w : astep w (UpsertDict e w).1
| as_stop e w : astep w (AddStopList e w).1
| as_time t w : astep w (SetTradingTime t w).1
| as_brokerage b w : astep w (w <| o_brokerage := b |>).

End world.
(** ** What holds of every row *)

(** The columns that no UPDATE writes. *)
Definition terms (o : Order) : Order :=
  o <| or_Status := "" |> <| or_StatusMessage := "" |> <| or_RejectReason := "" |>
    <| or_AMLStatus := "" |> <| or_TradeRef := "" |> <| or_SecurityTxnID := "" |>
    <| or_MoneyTxnID := "" |> <| or_UpdatedAt := 0 |>.

Definition order_statuses : list string :=
  [OrderStatusDraft; OrderStatusChecked; OrderStatusApproved; OrderStatusExecuted;
   OrderStatusRejected; OrderStatusCancelled].

Section invariant.
Context `{Decimal, TaskQueue.Asynq}.
Abbreviation O := (prog oworld).

Record row_ok (o : Order) : Prop := {
  ro_valid : is_ok (Validate o) = true;
  ro_status : or_Status o ∈ order_statuses;
  ro_passed : or_Status o ∈ [OrderStatusChecked; OrderStatusApproved; OrderStatusExecuted] →
    or_AMLStatus o = AMLStatusPassed;
  ro_executed : or_Status o = OrderStatusExecuted → or_TradeRef o = or_Reference o;
  ro_open : or_Status o ≠ OrderStatusExecuted →
    or_TradeRef o = "" ∧ or_SecurityTxnID o = "" ∧ or_MoneyTxnID o = "";
}.

Definition copy_of (l : list Order) (o : Order) : Prop := ∃ x, x ∈ l ∧ terms x = terms o.

Definition request_order (r : request) : Order := match r with RRead _ o | RWrite o => o end.

Record orders_ok (s : ostate) : Prop := {
  oo_ids : NoDup (map or_OrderID (o_orders (os_world s)));
  oo_refs : NoDup (map or_Reference (o_orders (os_world s)));
  oo_rows : Forall row_ok (o_orders (os_world s));
  oo_requests : Forall (λ r, row_ok (request_order r)
                  ∧ copy_of (o_orders (os_world s)) (request_order r)) (os_requests s);
}.

(** Rows are only added, and their terms are kept. *)
Definition orders_grow (l l' : list Order) : Prop := ∀ x, x ∈ l → ∃ x', x' ∈ l' ∧ terms x' = terms x.

Lemma terms_id o o' : terms o = terms o' → or_OrderID o = or_OrderID o' ∧ or_Reference o = or_Reference o'.
Proof. intros E. split; [by apply (f_equal or_OrderID) in E|by apply (f_equal or_Reference) in E]. Qed.

Lemma terms_validate o o' : terms o = terms o' → Validate o = Validate o'.
Proof.
  intros E. change (Validate o) with (Validate (terms o)). change (Validate o') with (Validate (terms o')).
  by rewrite E.
Qed.

Lemma orders_grow_refl l : orders_grow l l.
Proof. intros x Hx. by exists x. Qed.
Lemma orders_grow_trans l1 l2 l3 : orders_grow l1 l2 → orders_grow l2 l3 → orders_grow l1 l3.
Proof.
  intros H1 H2 x Hx. destruct (H1 x Hx) as (x1 & Hx1 & E1). destruct (H2 x1 Hx1) as (x2 & Hx2 & E2).
  exists x2. split; [done|by rewrite E2].
Qed.
Lemma copy_of_grow l l' o : orders_grow l l' → copy_of l o → copy_of l' o.
Proof. intros Hg (x & Hx & E). destruct (Hg x Hx) as (x' & Hx' & E'). exists x'. split; [done|congruence]. Qed.

(** *** Programs that leave the orders alone *)

Definition still {A} (m : O A) : Prop := ∀ w, o_orders (m w).1 = o_orders w.

Lemma still_ret {A} (a : A) : still (mret a). Proof. done. Qed.
Lemma still_raise {A} e : still (raise e : O A). Proof. done. Qed.
Lemma still_lift {A} (r : result A) : still (lift r). Proof. done. Qed.
Lemma still_read {A} (f : oworld → result A) : still (oread f). Proof. done. Qed.
Lemma still_inb {A} (m : prog bworld A) : still (inb m).
Proof. intros w. unfold inb. by destruct (m (o_brokerage w)). Qed.
Lemma still_bind {A B} (m : O A) (k : A → O B) : still m → (∀ a, still (k a)) → still (m ≫= k).
Proof.
  intros Hm Hk w. unfold mbind, prog_bind. specialize (Hm w). destruct (m w) as [w1 [a|e]]; [|done].
  by rewrite (Hk a w1).
Qed.

Lemma still_checks E o : still (runOrderChecks E o).
Proof.
  unfold runOrderChecks. apply still_bind; [done|intros []; [done|]].
  apply still_bind; [done|intros []; [|done]]. apply still_bind; [done|intros [r|]; [done|]].
  apply still_bind; [|by intros []]. unfold checkFunds, orderSettleDate.
  apply still_bind.
  { apply still_bind; [apply still_inb|intros p]. apply still_bind; [apply still_inb|by intros []]. }
  intros d. case_goal.
  - apply still_bind; [done|intros qty]. apply still_bind; [apply still_inb|done].
  - apply still_bind; [done|intros m]. apply still_bind; [apply still_inb|intros p].
    apply still_bind; [apply still_inb|done].
Qed.

Lemma still_book E o : still (book_order E o).
Proof. unfold book_order. case_goal; [apply still_bind; [apply still_inb|done]|apply still_inb]. Qed.

Lemma still_decide E op o : still (decide_order E op o).
Proof.
  destruct op; cbn [decide_order].
  - unfold check_order. case_goal; [done|]. apply still_bind; [apply still_checks|intros r].
    by destruct (oc_Passed r).
  - unfold approve_order. by case_goal.
  - unfold execute_order. case_goal; [done|]. intros w. pose proof (still_book E o w) as Hs.
    destruct (book_order E o w) as [w1 [r|e]]; [done|]. by destruct (Inflight.is_panic e).
  - unfold cancel_order. by case_goal.
Qed.

(** *** Decisions follow the transition table *)

Lemma transitions_from from to : CanTransitionOrder from to = true →
  (from = OrderStatusDraft ∧ to ∈ [OrderStatusChecked; OrderStatusRejected; OrderStatusCancelled])
  ∨ (from = OrderStatusChecked ∧ to ∈ [OrderStatusApproved; OrderStatusRejected; OrderStatusCancelled])
  ∨ (from = OrderStatusApproved ∧ to ∈ [OrderStatusExecuted; OrderStatusRejected; OrderStatusCancelled]).
Proof.
  unfold CanTransitionOrder, orderTransitions.
  assert (∀ l, existsb (String.eqb to) l = true → to ∈ l) as Hin.
  { intros l (x & Hx & ->%String.eqb_eq)%existsb_exists. by apply list_elem_of_In. }
  destruct (String.eqb_spec from OrderStatusDraft); [by auto|].
  destruct (String.eqb_spec from OrderStatusChecked); [by auto|].
  destruct (String.eqb_spec from OrderStatusApproved); [by auto|done].
Qed.

(** What a decision may write: the same terms, a lawful transition, and the
    outcome that belongs to the status. *)
Lemma decide_lawful E op o w w' o' :
  row_ok o → decide_order E op o w = (w', Ok o') →
  terms o' = terms o ∧ CanTransitionOrder (or_Status o) (or_Status o') = true ∧ row_ok o'.
Proof.
  intros [Hv Hst Hp Hx Ho].
  assert (∀ m : O Order, ∀ b e, (if negb b then raise e else m) w = (w', Ok o') → b = true ∧ m w = (w', Ok o'))
    as Hguard by by intros m []; cbn.
  destruct op; cbn [decide_order].
  - unfold check_order. intros [Hd Hm]%Hguard. apply String.eqb_eq in Hd.
    unfold mbind, prog_bind, mret, prog_ret in Hm.
    destruct (runOrderChecks E o w) as [w1 [r|e]]; [|done].
    assert (or_Status o ≠ OrderStatusExecuted) as Hne by by rewrite Hd.
    destruct (Ho Hne) as (Ht & Hs & Hmo).
    destruct (oc_Passed r); injection Hm as <- <-; (split; [done|]); (split; [by rewrite Hd|]);
      (split; [done|cbn; set_solver| |done|done]); [done|].
    cbn. set_solver.
  - unfold approve_order. intros [Hd Hm]%Hguard. injection Hm as <- <-.
    split; [done|]. split; [exact Hd|]. apply transitions_from in Hd.
    assert (or_Status o = OrderStatusChecked) as Hc by (destruct Hd as [[??]|[[??]|[??]]]; set_solver).
    assert (or_Status o ≠ OrderStatusExecuted) as Hne by by rewrite Hc.
    split; cbn; [done|set_solver| |done|by auto]. intros _. apply Hp. rewrite Hc. set_solver.
  - unfold execute_order. intros [Hd Hm]%Hguard. pose proof Hd as Hd'. apply transitions_from in Hd'.
    assert (or_Status o = OrderStatusApproved) as Hc by (destruct Hd' as [[??]|[[??]|[??]]]; set_solver).
    assert (or_Status o ≠ OrderStatusExecuted) as Hne by by rewrite Hc.
    assert (or_AMLStatus o = AMLStatusPassed) as Haml by (apply Hp; rewrite Hc; set_solver).
    destruct (book_order E o w) as [w1 [r|e]].
    + injection Hm as <- <-. split; [done|]. split; [exact Hd|]. split; cbn; [done|set_solver|done|done|done].
    + destruct (Inflight.is_panic e); [done|]. injection Hm as <- <-. split; [done|].
      split; [by rewrite Hc|]. split; cbn; [done|set_solver|done|done|by auto].
  - unfold cancel_order. intros [Hd Hm]%Hguard. injection Hm as <- <-.
    split; [done|]. split; [exact Hd|]. apply transitions_from in Hd.
    assert (or_Status o ≠ OrderStatusExecuted) as Hne by (destruct Hd as [[-> _]|[[-> _]|[-> _]]]; done).
    split; cbn; [done|set_solver| |done|by auto]. intros Hin. set_solver.
Qed.

(** *** Writes *)

Lemma find_order_in w id o : find_order w id = Ok o → o ∈ o_orders w ∧ or_OrderID o = id.
Proof.
  unfold find_order. destruct (List.find _ _) as [x|] eqn:Ef; [|done]. intros [= <-].
  apply find_some in Ef as [Hin E%String.eqb_eq]. by rewrite list_elem_of_In.
Qed.

(** The row that a write leaves for a copy of it. *)
Lemma written_ok now o x : terms x = terms o → row_ok o → row_ok (written now o x) ∧ terms (written now o x) = terms x.
Proof.
  intros E [Hv Hst Hp Hx Ho]. destruct (terms_id _ _ E) as [_ Er]. split; [|done]. split; cbn.
  - change (Validate (written now o x)) with (Validate x). by rewrite (terms_validate _ _ E).
  - done.
  - done.
  - intros Hs. rewrite (Hx Hs). done.
  - done.
Qed.

(** An UPDATE writes the one row with the id or none. *)
Lemma update_rows E o w : ∃ rows,
  (UpdateOrder E o w).1 = mkO (o_brokerage w) rows (o_dict w) (o_stop w) (o_times w)
  ∧ (rows = o_orders w
     ∨ rows = map (λ x, if String.eqb (or_OrderID x) (or_OrderID o) then written (oe_now E) o x else x) (o_orders w)).
Proof.
  unfold UpdateOrder. destruct w; cbn. destruct (oe_update_fault E o); [by eexists; split; [|left]|].
  destruct (existsb _ _); [by eexists; split; [|right]|by eexists; split; [|left]].
Qed.

Section write.
Context (now : time) (o : Order) (l : list Order).
Context (Hids : NoDup (map or_OrderID l)) (Hcopy : copy_of l o) (Hok : row_ok o) (Hrows : Forall row_ok l).
Let after := map (λ x, if String.eqb (or_OrderID x) (or_OrderID o) then written now o x else x) l.

Lemma write_row x : x ∈ l → or_OrderID x = or_OrderID o → terms x = terms o.
Proof.
  intros Hx Ex. destruct Hcopy as (y & Hy & Ey). destruct (terms_id _ _ Ey) as [Ei _].
  rewrite <- Ey. f_equal. eapply (NoDup_map_eq or_OrderID); eauto. congruence.
Qed.

Lemma write_ids : map or_OrderID after = map or_OrderID l.
Proof. unfold after. rewrite map_map. apply map_ext. intros x. by destruct (String.eqb _ _). Qed.
Lemma write_refs : map or_Reference after = map or_Reference l.
Proof. unfold after. rewrite map_map. apply map_ext. intros x. by destruct (String.eqb _ _). Qed.

Lemma write_rows_ok : Forall row_ok after.
Proof.
  apply Forall_map, Forall_forall. intros x Hx. rewrite Forall_forall in Hrows.
  destruct (String.eqb_spec (or_OrderID x) (or_OrderID o)) as [Ei|]; [|by apply Hrows].
  by apply written_ok; [apply write_row|].
Qed.

Lemma write_grow : orders_grow l after.
Proof.
  intros x Hx. eexists. split; [apply list_elem_of_fmap_2, Hx|]. cbn.
  destruct (String.eqb_spec (or_OrderID x) (or_OrderID o)) as [Ei|]; [|done].
  by apply written_ok; [apply write_row|].
Qed.
End write.

(** A new order has an id and a reference of its own. *)
Lemma create_rows E o w :
  o_orders (CreateOrder E o w).1 = o_orders w
  ∨ ∃ x, o_orders (CreateOrder E o w).1 = o_orders w ++ [x] ∧ row_ok x
      ∧ or_OrderID x ∉ map or_OrderID (o_orders w) ∧ or_Reference x ∉ map or_Reference (o_orders w)
      ∧ or_Status x = OrderStatusDraft
      ∧ ∃ o', (CreateOrder E o w).2 = Ok o' ∧ or_OrderID o' = or_OrderID x.
Proof.
  unfold CreateOrder, mbind, prog_bind, lift.
  destruct (bad_request (Validate o)) as [u|e] eqn:Hv; [|by left].
  unfold insert_order, mbind, prog_bind.
  pose proof (still_inb (ledger (Execution.fresh_id (be_exec (oe_brokerage E)) "ord")) w) as Hs.
  destruct (inb _ w) as [w1 [id|e]]; [|by left]. cbn in Hs.
  unfold store_order. destruct (oe_create_fault E); [by left|].
  destruct (existsb _ _) eqn:Ex; [by left|]. right. rewrite Hs in *. cbn.
  assert (∀ x, x ∈ o_orders w → or_Reference x ≠ or_Reference o ∧ or_OrderID x ≠ id) as Hnew.
  { intros x Hx. assert (existsb (λ x, String.eqb (or_Reference x) (or_Reference o)
      || String.eqb (or_OrderID x) id) (o_orders w) = false) as Hf by exact Ex.
    rewrite <- not_true_iff_false, existsb_exists in Hf.
    split; intros Hc; apply Hf; exists x; (split; [by apply list_elem_of_In|]); rewrite Hc, String.eqb_refl;
      [done|apply orb_true_r]. }
  eexists. split; [done|]. split_and!; [|cbn..|done|].
  - split; cbn; [|set_solver|set_solver|done|done].
    change (Validate _) with (Validate o). unfold bad_request in Hv. by destruct (Validate o).
  - intros (x & -> & Hx)%list_elem_of_fmap. by destruct (Hnew x Hx).
  - intros (x & Er & Hx)%list_elem_of_fmap. by destruct (Hnew x Hx).
  - by eexists.
Qed.

Lemma orders_ok_create E o w rs :
  orders_ok (mkOState w rs) →
  orders_ok (mkOState (CreateOrder E o w).1 rs) ∧ orders_grow (o_orders w) (o_orders (CreateOrder E o w).1).
Proof.
  intros [Hi Hr Hrows Hreq]. cbn in *.
  destruct (create_rows E o w) as [Es|(x & Es & Hx & Hid & Href & _)].
  { split; [split; cbn; by rewrite Es|]. rewrite Es. apply orders_grow_refl. }
  assert (orders_grow (o_orders w) (o_orders w ++ [x])) as Hg.
  { intros y Hy. exists y. split; [|done]. apply elem_of_app. by left. }
  split; [|by rewrite Es]. split; cbn; rewrite Es.
  - rewrite map_app. apply NoDup_app. split_and!; [done| |cbn; apply NoDup_singleton].
    intros y Hy ->%list_elem_of_singleton. done.
  - rewrite map_app. apply NoDup_app. split_and!; [done| |cbn; apply NoDup_singleton].
    intros y Hy ->%list_elem_of_singleton. done.
  - apply Forall_app. split; [done|]. by constructor.
  - eapply Forall_impl; [exact Hreq|]. intros r [Hro Hc]. split; [done|]. by eapply copy_of_grow.
Qed.

(** The same orders, fewer requests. *)
Lemma orders_ok_same w w' rs rs' :
  o_orders w' = o_orders w → (∀ r, r ∈ rs' → r ∈ rs) → orders_ok (mkOState w rs) → orders_ok (mkOState w' rs').
Proof.
  intros Es Hrs [Hi Hr Hrows Hreq]. cbn in *. split; cbn; rewrite ?Es; try done.
  rewrite Forall_forall in Hreq |- *. eauto.
Qed.

Lemma ostep_ok s s' :
  ostep s s' → orders_ok s →
  orders_ok s' ∧ orders_grow (o_orders (os_world s)) (o_orders (os_world s')).
Proof.
  assert (∀ (w w' : oworld) rs rs', o_orders w' = o_orders w → (∀ r, r ∈ rs' → r ∈ rs) →
    orders_ok (mkOState w rs) →
    orders_ok (mkOState w' rs') ∧ orders_grow (o_orders w) (o_orders w')) as Hsame.
  { intros w w' rs rs' Es Hrs Hok. split; [by eapply orders_ok_same|]. rewrite Es. apply orders_grow_refl. }
  intros Hs Hok.
  destruct Hs as [E o w rs|op id w rs o Hf|E op o w rs1 rs2 w' o' Hd|E op o w rs1 rs2 w' e Hd
    |E o w rs1 rs2|w rs1 r rs2|e w rs|e w rs|t w rs|b w rs]; cbn [os_world].
  - by apply orders_ok_create.
  - apply find_order_in in Hf as [Hin _]. split; [|apply orders_grow_refl].
    destruct Hok as [Hi Hr Hrows Hreq]. split; cbn in *; [done..|].
    apply Forall_app. split; [done|]. constructor; [|constructor]. rewrite Forall_forall in Hrows.
    split; [by apply Hrows|by exists o].
  - pose proof (still_decide E op o w) as Hst. rewrite Hd in Hst. cbn in Hst.
    split; [|rewrite Hst; apply orders_grow_refl]. destruct Hok as [Hi Hr Hrows Hreq]. cbn in *.
    apply Forall_app in Hreq as [Hq1 [[Hro Hc] Hq2]%Forall_cons].
    destruct (decide_lawful E op o w w' o' Hro Hd) as (Ht & _ & Hro').
    split; cbn; rewrite ?Hst; try done. apply Forall_app. split; [done|]. constructor; [|done].
    split; [done|]. destruct Hc as (x & Hx & Ex). exists x. split; [done|]. by etrans.
  - pose proof (still_decide E op o w) as Hst. rewrite Hd in Hst. cbn in Hst.
    apply (Hsame w w' (rs1 ++ RRead op o :: rs2)); [done| |done]. set_solver.
  - destruct Hok as [Hi Hr Hrows Hreq]. cbn in *.
    apply Forall_app in Hreq as [Hq1 [[Hro Hc] Hq2]%Forall_cons]. cbn in Hro, Hc.
    destruct (update_rows E o w) as (rows & -> & [->| ->]); cbn [os_world o_orders].
    { destruct w. split; [|apply orders_grow_refl]. split; cbn; try done. by apply Forall_app. }
    pose proof (write_grow (oe_now E) o _ Hi Hc Hro) as Hg. split; [|exact Hg].
    split; cbn; [by rewrite write_ids|by rewrite write_refs|by apply write_rows_ok|].
    apply Forall_app. split; (eapply Forall_impl; [eassumption|]); intros r [? ?];
      (split; [done|]); by eapply copy_of_grow.
  - apply (Hsame w w (rs1 ++ r :: rs2)); [done| |done]. set_solver.
  - apply (Hsame w _ rs); [|done|done]. unfold UpsertDict. by case_goal.
  - apply (Hsame w _ rs); [|done|done]. unfold AddStopList. by case_goal.
  - apply (Hsame w _ rs); [|done|done]. unfold SetTradingTime. by case_goal.
  - by apply (Hsame w _ rs).
Qed.
(** *** Uninterrupted requests *)

(** A row moves along the transition table, keeping its terms. *)
Definition row_moves (x x' : Order) : Prop :=
  terms x' = terms x ∧ (x' = x ∨ CanTransitionOrder (or_Status x) (or_Status x') = true).

Definition orders_move (l l' : list Order) : Prop := ∀ x, x ∈ l → ∃ x', x' ∈ l' ∧ rtc row_moves x x'.

Lemma orders_move_refl l : orders_move l l.
Proof. intros x Hx. by exists x. Qed.
Lemma orders_move_trans l1 l2 l3 : orders_move l1 l2 → orders_move l2 l3 → orders_move l1 l3.
Proof.
  intros H1 H2 x Hx. destruct (H1 x Hx) as (x1 & Hx1 & E1). destruct (H2 x1 Hx1) as (x2 & Hx2 & E2).
  exists x2. split; [done|by etrans].
Qed.

(** A terminal row is not moved. *)
Lemma terminal_stays x x' : IsTerminalOrderStatus (or_Status x) = true → rtc row_moves x x' → x' = x.
Proof.
  intros Ht. induction 1 as [|x y z [_ [->|Hc]] _ IH]; [done|by apply IH|].
  unfold IsTerminalOrderStatus in Ht. unfold CanTransitionOrder in Hc.
  by destruct (orderTransitions (or_Status x)).
Qed.

(** A handler run at once is a run of its parts, and moves its row only. *)
Lemma handle_run E op id w :
  orders_ok (mkOState w []) →
  orders_ok (mkOState (handle E op id w).1 [])
  ∧ orders_move (o_orders w) (o_orders (handle E op id w).1).
Proof.
  intros Hok. unfold handle, GetOrder, oread, mbind, prog_bind.
  destruct (find_order w id) as [o|e] eqn:Hf; [|split; [done|apply orders_move_refl]].
  destruct (ostep_ok _ _ (os_read op id w [] o Hf) Hok) as [Hok1 _]. cbn in Hok1.
  apply find_order_in in Hf as [Hin Hid].
  assert (row_ok o) as Hro by (pose proof (oo_rows _ Hok) as Hr; rewrite Forall_forall in Hr; by apply Hr).
  destruct (decide_order E op o w) as [w1 [o'|e]] eqn:Hd.
  2: { split; [exact (proj1 (ostep_ok _ _ (os_refuse E op o w [] [] w1 e Hd) Hok1))|].
       pose proof (still_decide E op o w) as Hst. rewrite Hd in Hst. cbn in *. rewrite Hst.
       apply orders_move_refl. }
  destruct (ostep_ok _ _ (os_decide E op o w [] [] w1 o' Hd) Hok1) as [Hok2 _].
  destruct (ostep_ok _ _ (os_write E o' w1 [] []) Hok2) as [Hok3 _]. cbn in Hok3.
  unfold save, mbind, prog_bind, mret, prog_ret.
  assert ((let (s', r) := UpdateOrder E o' w1 in
           match r with Ok _ => (s', Ok o') | Err e => (s', Err e) end).1 = (UpdateOrder E o' w1).1) as Hfst
    by by destruct (UpdateOrder E o' w1) as [? [?|?]].
  rewrite Hfst. split; [exact Hok3|].
  pose proof (still_decide E op o w) as Hst. rewrite Hd in Hst. cbn in Hst.
  destruct (decide_lawful E op o w w1 o' Hro Hd) as (Ht & Hc & _). destruct (terms_id _ _ Ht) as [Hi' _].
  destruct (update_rows E o' w1) as (rows & -> & [->| ->]); cbn; rewrite Hst; [apply orders_move_refl|].
  intros x Hx. eexists. split; [apply list_elem_of_fmap_2, Hx|]. cbn.
  destruct (String.eqb_spec (or_OrderID x) (or_OrderID o')) as [Ei|]; [|done].
  assert (x = o) as -> by (eapply (NoDup_map_eq or_OrderID); [apply (oo_ids _ Hok)|done|done|congruence]).
  apply rtc_once. split; [done|by right].
Qed.

Lemma orders_move_create E o w : orders_move (o_orders w) (o_orders (CreateOrder E o w).1).
Proof.
  intros x Hx. exists x. split; [|done].
  destruct (create_rows E o w) as [->|(y & -> & _)]; [done|]. apply elem_of_app. by left.
Qed.

Lemma submit_run E o w :
  orders_ok (mkOState w []) →
  orders_ok (mkOState (SubmitOrder E o w).1 [])
  ∧ orders_move (o_orders w) (o_orders (SubmitOrder E o w).1).
Proof.
  assert (∀ {A} (m : O A) (k : A → O Order) w,
    (orders_ok (mkOState w []) → orders_ok (mkOState (m w).1 []) ∧ orders_move (o_orders w) (o_orders (m w).1)) →
    (∀ a w, orders_ok (mkOState w []) →
       orders_ok (mkOState (k a w).1 []) ∧ orders_move (o_orders w) (o_orders (k a w).1)) →
    orders_ok (mkOState w []) →
    orders_ok (mkOState ((m ≫= k) w).1 []) ∧ orders_move (o_orders w) (o_orders ((m ≫= k) w).1)) as Hbind.
  { intros A m k w1 Hm Hk Hok. unfold mbind, prog_bind. destruct (Hm Hok) as [Hok1 Hmv].
    destruct (m w1) as [w2 [a|e]]; [|done]. destruct (Hk a w2 Hok1) as [Hok2 Hmv2].
    split; [done|by eapply orders_move_trans]. }
  apply Hbind.
  - intros Hok. split; [by apply orders_ok_create|apply orders_move_create].
  - intros created w1. apply Hbind; [apply handle_run|]. intros checked w2 Hok.
    destruct (String.eqb _ _); [split; [done|apply orders_move_refl]|].
    revert Hok. apply Hbind; [apply handle_run|]. intros approved w3. apply handle_run.
Qed.

Lemma astep_ok w w' :
  astep w w' → orders_ok (mkOState w []) →
  orders_ok (mkOState w' []) ∧ orders_move (o_orders w) (o_orders w').
Proof.
  assert (∀ w w' : oworld, o_orders w' = o_orders w → orders_ok (mkOState w []) →
    orders_ok (mkOState w' []) ∧ orders_move (o_orders w) (o_orders w')) as Hsame.
  { intros w1 w2 Es Hok. split; [by eapply orders_ok_same|]. rewrite Es. apply orders_move_refl. }
  intros [E o w1|E op id w1|E o w1|e w1|e w1|t w1|b w1] Hok.
  - split; [by apply orders_ok_create|apply orders_move_create].
  - by apply handle_run.
  - by apply submit_run.
  - apply Hsame; [|done]. unfold UpsertDict. by case_goal.
  - apply Hsame; [|done]. unfold AddStopList. by case_goal.
  - apply Hsame; [|done]. unfold SetTradingTime. by case_goal.
  - by apply Hsame.
Qed.

End invariant.


(** ** Witnesses and findings *)

Import TaskQueue.

Definition ex_oenv : oenv := mkOEnv ex_benv None (λ _, None).
Definition ex_order (qty reference : string) : Order :=
  mkOrder "" reference "ldg" "idt" "acc" "ISIN" "" "USD" TradeSideBuy qty 1 "10" 100 1 None "" "" "" ""
    "@settlement" "@market" "" "" "" 0 0.
Definition ex_oworld : oworld := mkO ex_funded [] ∅ ∅ ∅.
Definition ex_outcomes (w : oworld) : list (string * string * string) :=
  map (λ o, (or_Status o, or_RejectReason o, or_TradeRef o)) (o_orders w).
Definition ex_booked (w : oworld) : list (string * string) :=
  map (λ t, (t_Reference t, t_Status t)) (List.filter (λ t, String.eqb (leg_ref t) "o1")
    (db_transactions (bdb (o_brokerage w)))).

(** An order that the cash covers is executed, one that it does not is
    rejected, and so is one of a client on the stop list. *)
Example orders_submitted :
  let w := (SubmitOrder ex_oenv (ex_order "100" "o1") ex_oworld).1 in
  let w := (SubmitOrder ex_oenv (ex_order "99999" "o2") w).1 in
  let w := (AddStopList (mkStop "idt" "" "sanctions" true) w).1 in
  let w := (SubmitOrder ex_oenv (ex_order "1" "o3") w).1 in
  ex_outcomes w = [("EXECUTED", "", "o1"); ("REJECTED", "insufficient funds", "");
                   ("REJECTED", "stop list", "")]
  ∧ ex_booked w = [("o1_money", "INFLIGHT"); ("o1_sec", "INFLIGHT")].
Proof. by vm_compute. Qed.

Definition ex_approved : oworld :=
  let w := (CreateOrder ex_oenv (ex_order "100" "o1") ex_oworld).1 in
  match o_orders w with
  | o :: _ => (ApproveOrder ex_oenv (or_OrderID o) (CheckOrder ex_oenv (or_OrderID o) w).1).1
  | [] => w
  end.
Definition ex_the_order (w : oworld) : Order := default (ex_order "" "") (head (o_orders w)).

(** The UPDATE does not look at the status it replaces: an order cancelled
    while it is being executed ends as CANCELLED with its trade booked. *)
Lemma cancelled_and_booked :
  let o := ex_the_order ex_approved in
  let w := (ExecuteOrder ex_oenv (or_OrderID o) ex_approved).1 in
  ex_outcomes w = [("EXECUTED", "", "o1")]
  ∧ match decide_order ex_oenv Cancel_ o w with
    | (w, Ok o) => let w := (UpdateOrder ex_oenv o w).1 in
        ex_outcomes w = [("CANCELLED", "", "")]
        ∧ ex_booked w = [("o1_money", "INFLIGHT"); ("o1_sec", "INFLIGHT")]
    | (_, Err _) => False
    end.
Proof. by vm_compute. Qed.

(** An execution whose UPDATE fails leaves the order APPROVED with its trade
    booked; the next attempt finds the references taken and rejects the order. *)
Definition ex_update_fails : oenv := mkOEnv ex_benv None (λ _, Some (ENew "connection lost")).
Lemma booked_order_rejected :
  let o := ex_the_order ex_approved in
  let w := (ExecuteOrder ex_update_fails (or_OrderID o) ex_approved).1 in
  ex_outcomes w = [("APPROVED", "", "")]
  ∧ let w := (ExecuteOrder ex_oenv (or_OrderID o) w).1 in
    ex_outcomes w = [("REJECTED", "execution failed", "")]
    ∧ ex_booked w = [("o1_money", "INFLIGHT"); ("o1_sec", "INFLIGHT")].
Proof. by vm_compute. Qed.

(** A trading window over midnight is never open. *)
Lemma overnight_window_closed :
  forallb (λ h, negb (IsOpenAt (mkWindow "XNYS" 1 "22:00" "06:00")
                        (Time.format_hhmm (h * (30 * Time.minute)))))
    (map Z.of_nat (seq 0 48)) = true.
Proof. by vm_compute. Qed.

End Orders.
