(* ===== verification/Encoding.v ===== *)
(** * Bytes as text: base64 and UTF-8

    The parts of Go's standard library that tokens are built with:
    [base64.StdEncoding] (RFC 4648 with padding, decoded the way
    [decodeQuantum] does, line breaks skipped), the conversions [[]rune(s)]
    and [string(runes)], and [strings.SplitN].  A byte is an [ascii]. *)

From S2P Require Import Prelude.

Module Encoding.

Definition byte_val (b : ascii) : Z := Z.of_N (N_of_ascii b).
Definition byte_of (z : Z) : ascii := ascii_of_N (Z.to_N (z mod 256)).

Lemma byte_val_range b : 0 <= byte_val b < 256.
Proof. unfold byte_val. pose proof (N_ascii_bounded b). lia. Qed.

Lemma byte_val_of z : 0 <= z < 256 → byte_val (byte_of z) = z.
Proof.
  intros Hz. unfold byte_val, byte_of. rewrite Z.mod_small by lia.
  rewrite N_ascii_embedding by lia. lia.
Qed.

Lemma byte_of_val b : byte_of (byte_val b) = b.
Proof.
  unfold byte_of. rewrite Z.mod_small by apply byte_val_range.
  unfold byte_val. rewrite N2Z.id. apply ascii_N_embedding.
Qed.

Lemma byte_val_inj a b : byte_val a = byte_val b → a = b.
Proof. intros H. by rewrite <-(byte_of_val a), <-(byte_of_val b), H. Qed.

(** ** base64 *)

(** Six bits, the most significant first. *)
Definition sextet : Type := bool * bool * bool * bool * bool * bool.

Definition alphabet : list ascii :=
  list_ascii_of_string "ABCDEFGHIJKLMNOPQRSTUVWXYZabcdefghijklmnopqrstuvwxyz0123456789+/".

Definition sextet_index (s : sextet) : nat :=
  let '(b5, b4, b3, b2, b1, b0) := s in
  fold_left (λ n b, 2 * n + if b : bool then 1 else 0)%nat [b5; b4; b3; b2; b1; b0] 0%nat.

Definition sextet_of (n : nat) : sextet :=
  let bit i := Z.testbit (Z.of_nat n) i in
  (bit 5, bit 4, bit 3, bit 2, bit 1, bit 0).

Definition enc_sextet (s : sextet) : ascii := nth (sextet_index s) alphabet "A"%char.

Fixpoint index_of (c : ascii) (l : list ascii) : option nat :=
  match l with
  | [] => None
  | x :: l => if Ascii.eqb c x then Some O else S <$> index_of c l
  end.

(** [enc.decodeMap[c]]. *)
Definition dec_char (c : ascii) : option sextet := sextet_of <$> index_of c alphabet.

Definition padChar : ascii := "="%char.

(** [base64.StdEncoding.EncodeToString]. *)
Fixpoint encode (l : list ascii) : list ascii :=
  match l with
  | [] => []
  | [Ascii a0 a1 a2 a3 a4 a5 a6 a7] =>
      [enc_sextet (a7, a6, a5, a4, a3, a2); enc_sextet (a1, a0, false, false, false, false);
       padChar; padChar]
  | [Ascii a0 a1 a2 a3 a4 a5 a6 a7; Ascii b0 b1 b2 b3 b4 b5 b6 b7] =>
      [enc_sextet (a7, a6, a5, a4, a3, a2); enc_sextet (a1, a0, b7, b6, b5, b4);
       enc_sextet (b3, b2, b1, b0, false, false); padChar]
  | Ascii a0 a1 a2 a3 a4 a5 a6 a7 :: Ascii b0 b1 b2 b3 b4 b5 b6 b7
      :: Ascii c0 c1 c2 c3 c4 c5 c6 c7 :: l =>
      enc_sextet (a7, a6, a5, a4, a3, a2) :: enc_sextet (a1, a0, b7, b6, b5, b4)
      :: enc_sextet (b3, b2, b1, b0, c7, c6) :: enc_sextet (c5, c4, c3, c2, c1, c0) :: encode l
  end.

(** [CorruptInputError(i)]. *)
Definition corrupt (i : Z) : error := ENew ("illegal base64 data at input byte " +:+ Z_to_string i).

Definition is_newline (c : ascii) : bool :=
  Ascii.eqb c (ascii_of_nat 10) || Ascii.eqb c (ascii_of_nat 13).

(** The bytes with their positions; [decodeQuantum] skips line breaks. *)
Fixpoint index_from (i : Z) (l : list ascii) : list (Z * ascii) :=
  match l with [] => [] | c :: l => (i, c) :: index_from (i + 1) l end.

Definition significant (l : list (Z * ascii)) : list (Z * ascii) :=
  List.filter (λ p, negb (is_newline p.2)) l.

Definition dec_at (i : Z) (c : ascii) : result sextet :=
  match dec_char c with Some s => Ok s | None => Err (corrupt i) end.

(** Nothing may follow the padding. *)
Definition at_end (src : list (Z * ascii)) (out : list ascii) : result (list ascii) :=
  match src with [] => Ok out | (i, _) :: _ => Err (corrupt i) end.

Definition byte1 (s t : sextet) : ascii :=
  let '(a7, a6, a5, a4, a3, a2) := s in let '(a1, a0, _, _, _, _) := t in
  Ascii a0 a1 a2 a3 a4 a5 a6 a7.
Definition byte2 (s t : sextet) : ascii :=
  let '(_, _, b7, b6, b5, b4) := s in let '(b3, b2, b1, b0, _, _) := t in
  Ascii b0 b1 b2 b3 b4 b5 b6 b7.
Definition byte3 (s t : sextet) : ascii :=
  let '(_, _, _, _, c7, c6) := s in let '(c5, c4, c3, c2, c1, c0) := t in
  Ascii c0 c1 c2 c3 c4 c5 c6 c7.

(** One [decodeQuantum] after the other; [n] is the length of the input. *)
Fixpoint decode_quanta (n : Z) (src : list (Z * ascii)) : result (list ascii) :=
  match src with
  | [] => Ok []
  | (i0, c0) :: r0 =>
      s0 ← dec_at i0 c0;
      match r0 with
      | [] => Err (corrupt (n - 1))
      | (i1, c1) :: r1 =>
          s1 ← dec_at i1 c1;
          match r1 with
          | [] => Err (corrupt (n - 2))
          | (i2, c2) :: r2 =>
              if Ascii.eqb c2 padChar then
                match r2 with
                | [] => Err (corrupt n)
                | (i3, c3) :: r3 =>
                    if Ascii.eqb c3 padChar then at_end r3 [byte1 s0 s1]
                    else Err (corrupt (i3 - 1))
                end
              else
                s2 ← dec_at i2 c2;
                match r2 with
                | [] => Err (corrupt (n - 3))
                | (i3, c3) :: r3 =>
                    if Ascii.eqb c3 padChar then at_end r3 [byte1 s0 s1; byte2 s1 s2]
                    else
                      s3 ← dec_at i3 c3;
                      rest ← decode_quanta n r3;
                      Ok (byte1 s0 s1 :: byte2 s1 s2 :: byte3 s2 s3 :: rest)
                end
          end
      end
  end.

(** [base64.StdEncoding.DecodeString]. *)
Definition decode (l : list ascii) : result (list ascii) :=
  decode_quanta (Z.of_nat (length l)) (significant (index_from 0 l)).

Example encode_foobar : encode (list_ascii_of_string "fooba") = list_ascii_of_string "Zm9vYmE=".
Proof. reflexivity. Qed.

Example decode_lines : decode (list_ascii_of_string ("Zm" +:+ String (ascii_of_nat 10) "9vYg=="))
  = Ok (list_ascii_of_string "foob").
Proof. reflexivity. Qed.

Example decode_garbage : decode (list_ascii_of_string "Zm9v:") = Err (corrupt 4).
Proof. reflexivity. Qed.

Lemma dec_enc_sextet s : dec_char (enc_sextet s) = Some s.
Proof. destruct s as [[[[[[] []] []] []] []] []]; reflexivity. Qed.

Lemma dec_at_enc i s : dec_at i (enc_sextet s) = Ok s.
Proof. unfold dec_at. by rewrite dec_enc_sextet. Qed.

Lemma enc_sextet_plain s :
  Ascii.eqb (enc_sextet s) padChar = false ∧ is_newline (enc_sextet s) = false
  ∧ enc_sextet s ≠ ":"%char.
Proof. destruct s as [[[[[[] []] []] []] []] []]; repeat split; done. Qed.

(** Induction three elements at a time. *)
Lemma list_ind3 {A} (P : list A → Prop) :
  P [] → (∀ a, P [a]) → (∀ a b, P [a; b]) → (∀ a b c l, P l → P (a :: b :: c :: l)) → ∀ l, P l.
Proof.
  intros H0 H1 H2 H3. fix IH 1. intros [|a [|b [|c l]]]; [done..|]. apply H3, IH.
Qed.

Lemma encode_chars l c :
  c ∈ encode l → (∃ s, c = enc_sextet s) ∨ c = padChar.
Proof.
  induction l as [|[] |[] []|[] [] [] l IH] using list_ind3; cbn [encode];
    rewrite ?elem_of_cons, ?elem_of_nil; naive_solver.
Qed.

(** No line break and no colon is ever written. *)
Lemma encode_no_newline l c : c ∈ encode l → is_newline c = false.
Proof. intros [[s ->]| ->]%encode_chars; [apply enc_sextet_plain|done]. Qed.

Lemma encode_no_colon l : ":"%char ∉ encode l.
Proof. intros [[s Hs]|[=]]%encode_chars. by destruct (enc_sextet_plain s) as (_ & _ & []). Qed.

Lemma significant_all i l :
  (∀ c, c ∈ l → is_newline c = false) → significant (index_from i l) = index_from i l.
Proof.
  intros H. apply list_filter_all. intros [j c] Hc. simpl. rewrite H; [done|].
  clear H. revert i Hc. induction l as [|x l IH]; intros i; cbn [index_from];
    rewrite ?elem_of_nil, ?elem_of_cons; naive_solver.
Qed.

Lemma decode_quanta_encode n i l : decode_quanta n (index_from i (encode l)) = Ok l.
Proof.
  revert i. induction l as [|[] |[] []|[] [] [] l IH] using list_ind3; intros i;
    cbn [encode index_from decode_quanta].
  - done.
  - rewrite !dec_at_enc. done.
  - rewrite !dec_at_enc. cbn [mbind result_bind].
    by rewrite (proj1 (enc_sextet_plain _)).
  - rewrite !dec_at_enc. cbn [mbind result_bind].
    rewrite !(proj1 (enc_sextet_plain _)). by rewrite IH.
Qed.

Lemma decode_encode l : decode (encode l) = Ok l.
Proof.
  unfold decode. rewrite significant_all by apply encode_no_newline. apply decode_quanta_encode.
Qed.

(** Only the alphabet, padding and line breaks can be decoded. *)
Definition base64_char (c : ascii) : Prop := is_Some (dec_char c) ∨ c = padChar.

Lemma dec_at_Ok i c s : dec_at i c = Ok s → base64_char c.
Proof. unfold dec_at, base64_char. destruct (dec_char c) eqn:E; [by left|done]. Qed.

Lemma at_end_Ok src out out' : at_end src out = Ok out' → src = [].
Proof. destruct src as [|[] ?]; [done|discriminate]. Qed.

Lemma pad_char : base64_char padChar.
Proof. by right. Qed.

Ltac decode_step :=
  match goal with
  | H : mbind _ _ = Ok _ |- _ => apply bind_Ok in H as (? & ?%dec_at_Ok & H)
  | H : (if Ascii.eqb ?c padChar then _ else _) = Ok _ |- _ =>
      destruct (Ascii.eqb_spec c padChar)
  | H : at_end _ _ = Ok _ |- _ => apply at_end_Ok in H
  end.

Lemma decode_quanta_chars n src out :
  decode_quanta n src = Ok out → Forall (λ p, base64_char p.2) src.
Proof.
  revert src out. fix IH 1. intros [|[i0 c0] r0] out; [constructor|].
  cbn [decode_quanta]. intros H. decode_step.
  destruct r0 as [|[i1 c1] r1]; [done|]. decode_step.
  destruct r1 as [|[i2 c2] r2]; [done|]. decode_step.
  - destruct r2 as [|[i3 c3] r3]; [done|]. decode_step; [decode_step|done].
    subst. rewrite !Forall_cons. auto using pad_char, Forall_nil_2.
  - decode_step. destruct r2 as [|[i3 c3] r3]; [done|]. decode_step.
    + decode_step. subst. rewrite !Forall_cons. auto using pad_char, Forall_nil_2.
    + decode_step. apply bind_Ok in H as (rest & H & _). apply IH in H. rewrite !Forall_cons. auto.
Qed.

Lemma index_from_chars i l c : c ∈ l → ∃ j, (j, c) ∈ index_from i l.
Proof.
  revert i. induction l as [|x l IH]; intros i; [by intros []%elem_of_nil|].
  cbn [index_from]. rewrite elem_of_cons. intros [->|Hc].
  - exists i. apply list_elem_of_here.
  - destruct (IH (i + 1) Hc) as [j Hj]. exists j. by apply list_elem_of_further.
Qed.

(** A colon is never decoded. *)
Lemma decode_colon l : ":"%char ∈ l → ∃ e, decode l = Err e.
Proof.
  intros Hc. destruct (decode l) as [out|e] eqn:Hd; [|by exists e].
  apply decode_quanta_chars in Hd. destruct (index_from_chars 0 l _ Hc) as [j Hj].
  rewrite Forall_forall in Hd. ospecialize (Hd (j, ":"%char) _).
  - apply elem_of_list_filter. by split.
  - destruct Hd as [[s [=]]|[=]].
Qed.

(** ** UTF-8

    A rune is its code point.  An ill-formed sequence gives U+FFFD for its first
    byte. *)

Definition RuneError : Z := 65533.

Definition in_range (lo hi : Z) (z : Z) : bool := (lo <=? z) && (z <=? hi).

(** The second byte's range depends on the first one: no overlong forms, no
    surrogates, nothing above U+10FFFF. *)
Definition second_ok (b0 b1 : Z) : bool :=
  in_range (if b0 =? 224 then 160 else if b0 =? 240 then 144 else 128)
           (if b0 =? 237 then 159 else if b0 =? 244 then 143 else 191) b1.
Definition cont (b : Z) : bool := in_range 128 191 b.

(** [[]rune(s)]. *)
Fixpoint runes_of (l : list ascii) : list Z :=
  match l with
  | [] => []
  | c0 :: r0 =>
      let b0 := byte_val c0 in
      let invalid := RuneError :: runes_of r0 in
      if b0 <? 128 then b0 :: runes_of r0
      else match r0 with
      | c1 :: r1 =>
          let b1 := byte_val c1 in
          if negb (second_ok b0 b1) then invalid
          else if in_range 194 223 b0 then ((b0 - 192) * 64 + (b1 - 128)) :: runes_of r1
          else match r1 with
          | c2 :: r2 =>
              let b2 := byte_val c2 in
              if negb (cont b2) then invalid
              else if in_range 224 239 b0
              then ((b0 - 224) * 4096 + (b1 - 128) * 64 + (b2 - 128)) :: runes_of r2
              else match r2 with
              | c3 :: r3 =>
                  let b3 := byte_val c3 in
                  if cont b3 && in_range 240 244 b0
                  then ((b0 - 240) * 262144 + (b1 - 128) * 4096 + (b2 - 128) * 64 + (b3 - 128))
                         :: runes_of r3
                  else invalid
              | [] => invalid
              end
          | [] => invalid
          end
      | [] => invalid
      end
  end.

Definition valid_rune (r : Z) : bool :=
  in_range 0 1114111 r && negb (in_range 55296 57343 r).

(** [utf8.AppendRune]. *)
Definition encode_rune (r : Z) : list ascii :=
  let r := if valid_rune r then r else RuneError in
  if r <? 128 then [byte_of r]
  else if r <? 2048 then [byte_of (192 + r / 64); byte_of (128 + r mod 64)]
  else if r <? 65536 then
    [byte_of (224 + r / 4096); byte_of (128 + r / 64 mod 64); byte_of (128 + r mod 64)]
  else
    [byte_of (240 + r / 262144); byte_of (128 + r / 4096 mod 64);
     byte_of (128 + r / 64 mod 64); byte_of (128 + r mod 64)].

(** [string(runes)]. *)
Definition string_of_runes (l : list Z) : list ascii := flat_map encode_rune l.

Example runes_utf8 : runes_of (map byte_of [66; 195; 169; 226; 130; 172; 240; 159; 152; 128; 195])
  = [66; 233; 8364; 128512; RuneError].
Proof. reflexivity. Qed.

Example runes_back : string_of_runes [66; 233; 8364; 128512; 55296]
  = map byte_of [66; 195; 169; 226; 130; 172; 240; 159; 152; 128; 239; 191; 189].
Proof. reflexivity. Qed.

Lemma second_ok_spec b0 b1 : second_ok b0 b1 = true →
  128 <= b1 <= 191 ∧ (b0 = 224 → 160 <= b1) ∧ (b0 = 237 → b1 <= 159)
  ∧ (b0 = 240 → 144 <= b1) ∧ (b0 = 244 → b1 <= 143).
Proof. unfold second_ok, in_range. repeat case_match; lia. Qed.

Lemma valid_rune_intro r : 0 <= r < 55296 ∨ 57344 <= r < 1114112 → valid_rune r = true.
Proof. unfold valid_rune, in_range. lia. Qed.

(** What decoding does at the head of a non-empty string. *)
Lemma runes_of_step c0 r0 :
  ∃ rune pre post, c0 :: r0 = pre ++ post ∧ pre ≠ []
    ∧ runes_of (c0 :: r0) = rune :: runes_of post ∧ valid_rune rune = true
    ∧ (pre = [c0] ∧ rune = byte_val c0 ∧ rune < 128
       ∨ 128 <= rune ∧ Forall (λ c, 128 <= byte_val c) pre).
Proof.
  pose proof (byte_val_range c0).
  destruct (Z.ltb_spec (byte_val c0) 128).
  { exists (byte_val c0), [c0], r0. cbn [runes_of]. rewrite (proj2 (Z.ltb_lt _ _)) by done.
    split_and!; [done|done|done|apply valid_rune_intro; lia|by left]. }
  assert (runes_of (c0 :: r0) = RuneError :: runes_of r0 → 
  ∃ rune pre post, c0 :: r0 = pre ++ post ∧ pre ≠ []
    ∧ runes_of (c0 :: r0) = rune :: runes_of post ∧ valid_rune rune = true
    ∧ (pre = [c0] ∧ rune = byte_val c0 ∧ rune < 128
       ∨ 128 <= rune ∧ Forall (λ c, 128 <= byte_val c) pre)) as Hinv.
  { intros ->. exists RuneError, [c0], r0. split_and!; [done..|]. right.
    split; [done|]. by repeat constructor. }
  cbn [runes_of] in *. rewrite (proj2 (Z.ltb_ge _ _)) in * by done.
  destruct r0 as [|c1 r1]; [by apply Hinv|].
  destruct (second_ok _ _) eqn:H1; [|by apply Hinv]. cbn [negb] in *.
  apply second_ok_spec in H1 as (R1 & R2 & R3 & R4 & R5).
  destruct (in_range 194 223 _) eqn:H2.
  { eexists _, [c0; c1], r1. unfold in_range in H2.
    split_and!; [done|done|done|apply valid_rune_intro; lia|right].
    split; [lia|]. repeat constructor; lia. }
  destruct r1 as [|c2 r2]; [by apply Hinv|].
  destruct (cont (byte_val c2)) eqn:H3; [|by apply Hinv]. cbn [negb] in *.
  destruct (in_range 224 239 _) eqn:H4.
  { eexists _, [c0; c1; c2], r2. unfold cont, in_range in H3, H4.
    split_and!; [done|done|done|apply valid_rune_intro; lia|right].
    split; [lia|]. repeat constructor; lia. }
  destruct r2 as [|c3 r3]; [by apply Hinv|].
  destruct (cont (byte_val c3)) eqn:H5; [|by apply Hinv]. cbn [andb] in *.
  destruct (in_range 240 244 _) eqn:H6; [|by apply Hinv].
  eexists _, [c0; c1; c2; c3], r3. unfold cont, in_range in H3, H5, H6.
  split_and!; [done|done|done|apply valid_rune_intro; lia|right].
  split; [lia|]. repeat constructor; lia.
Qed.

(** Induction rune by rune. *)
Lemma runes_ind (P : list ascii → Prop) :
  P [] →
  (∀ rune pre post, pre ≠ [] → runes_of (pre ++ post) = rune :: runes_of post →
     valid_rune rune = true →
     (∃ c, pre = [c] ∧ rune = byte_val c ∧ rune < 128)
     ∨ 128 <= rune ∧ Forall (λ c, 128 <= byte_val c) pre →
     P post → P (pre ++ post)) →
  ∀ l, P l.
Proof.
  intros H0 HS l. induction l as [l IH] using (induction_ltof1 _ (@length ascii)). unfold ltof in IH.
  destruct l as [|c0 r0]; [done|].
  destruct (runes_of_step c0 r0) as (rune & pre & post & Hl & Hpre & Hr & Hv & Hb).
  rewrite Hl in *. apply (HS rune); [done..|by naive_solver|]. apply IH.
  destruct pre; [done|]. rewrite length_app. simpl. lia.
Qed.

Lemma runes_of_valid l : Forall (λ r, valid_rune r = true) (runes_of l).
Proof.
  induction l as [|rune pre post Hpre Hr Hv Hb IH] using runes_ind; [constructor|].
  rewrite Hr. by constructor.
Qed.

Lemma runes_of_colon l : 58 ∈ runes_of l ↔ ":"%char ∈ l.
Proof.
  induction l as [|rune pre post Hpre Hr Hv Hb IH] using runes_ind.
  { cbn [runes_of]. by rewrite !elem_of_nil. }
  rewrite Hr, elem_of_cons, elem_of_app, IH.
  destruct Hb as [(c & -> & -> & Hc)|[Hrune Hpre8]].
  - rewrite list_elem_of_singleton. split; intros [H|H]; [|by right| |by right]; left.
    + by apply byte_val_inj.
    + by subst.
  - rewrite Forall_forall in Hpre8. split; intros [H|H]; [lia|by right| |by right].
    apply Hpre8 in H. by compute in H.
Qed.

Ltac utf8_arith :=
  unfold second_ok, cont, in_range; Z.to_euclidean_division_equations;
  repeat case_match; lia.

(** Decides the tests of the decoder on bytes that are given by arithmetic. *)
Ltac utf8_test :=
  match goal with
  | |- context [if ?b then _ else _] =>
      first [replace b with true by utf8_arith | replace b with false by utf8_arith]
  end.

Lemma encode_rune_valid r l :
  valid_rune r = true → runes_of (encode_rune r ++ l) = r :: runes_of l.
Proof.
  intros Hv. unfold encode_rune. rewrite Hv. unfold valid_rune, in_range in Hv.
  assert (0 <= r < 55296 ∨ 57344 <= r < 1114112) as Hr by lia. clear Hv.
  destruct (Z.ltb_spec r 128); [|destruct (Z.ltb_spec r 2048); [|destruct (Z.ltb_spec r 65536)]];
    cbn [app runes_of]; rewrite !byte_val_of by (Z.to_euclidean_division_equations; lia);
    repeat utf8_test; f_equal.
  all: Z.to_euclidean_division_equations; lia.
Qed.

Lemma runes_of_string rs :
  Forall (λ r, valid_rune r = true) rs → runes_of (string_of_runes rs) = rs.
Proof.
  induction 1 as [|r rs Hr _ IH]; [done|]. cbn [string_of_runes flat_map].
  rewrite encode_rune_valid by done. by f_equal.
Qed.

Lemma string_of_runes_colon rs :
  Forall (λ r, valid_rune r = true) rs → ":"%char ∈ string_of_runes rs ↔ 58 ∈ rs.
Proof. intros Hrs. by rewrite <-runes_of_colon, runes_of_string. Qed.

End Encoding.
