(* ===== verification/Aes.v ===== *)
(** * AES, GCM and HMAC

    The Go standard library's [crypto/aes] (FIPS 197), [cipher.NewGCM] with its
    12-byte nonce and 16-byte tag (NIST SP 800-38D) and [hmac.New] over SHA-256
    (RFC 2104), which tokens are made with.  Published test vectors are checked
    below each of them. *)

From S2P Require Import Prelude Encoding Sha256.
Import Encoding Sha256.

Module Aes.

Definition xor_byte (a b : ascii) : ascii :=
  match a, b with
  | Ascii a0 a1 a2 a3 a4 a5 a6 a7, Ascii b0 b1 b2 b3 b4 b5 b6 b7 =>
      Ascii (xorb a0 b0) (xorb a1 b1) (xorb a2 b2) (xorb a3 b3)
            (xorb a4 b4) (xorb a5 b5) (xorb a6 b6) (xorb a7 b7)
  end.

Definition xor_bytes : list ascii → list ascii → list ascii := zip_with xor_byte.

Lemma xor_byte_cancel a k : xor_byte (xor_byte a k) k = a.
Proof. destruct a as [[] [] [] [] [] [] [] []], k as [[] [] [] [] [] [] [] []]; reflexivity. Qed.

Lemma xor_bytes_cancel l ks :
  (length l <= length ks)%nat → xor_bytes (xor_bytes l ks) ks = l.
Proof.
  revert ks. induction l as [|a l IH]; intros [|k ks] Hl; simpl in *; [done..|lia|].
  unfold xor_bytes in *. simpl. rewrite xor_byte_cancel, IH by lia. done.
Qed.

(** ** The field GF(2^8) and the S-box *)

Definition zero_byte : ascii := Ascii false false false false false false false false.

(** Multiplication by [x] modulo [x^8 + x^4 + x^3 + x + 1]. *)
Definition xtime (a : ascii) : ascii :=
  match a with
  | Ascii a0 a1 a2 a3 a4 a5 a6 a7 =>
      Ascii a7 (xorb a0 a7) a1 (xorb a2 a7) (xorb a3 a7) a4 a5 a6
  end.

Definition gmul (a b : ascii) : ascii :=
  match b with
  | Ascii b0 b1 b2 b3 b4 b5 b6 b7 =>
      (fold_right (λ (bit : bool) acc,
         xor_byte (if bit then a else zero_byte) (xtime acc))
        zero_byte [b0; b1; b2; b3; b4; b5; b6; b7])
  end.

(** [a^254], the inverse of [a]. *)
Definition ginv (a : ascii) : ascii :=
  let sq a := gmul a a in
  let a2 := sq a in let a4 := sq a2 in let a8 := sq a4 in let a16 := sq a8 in
  let a32 := sq a16 in let a64 := sq a32 in let a128 := sq a64 in
  fold_left gmul [a4; a8; a16; a32; a64; a128] a2.

Definition affine (a : ascii) : ascii :=
  match a with
  | Ascii a0 a1 a2 a3 a4 a5 a6 a7 =>
      let x5 a b c d e := xorb a (xorb b (xorb c (xorb d e))) in
      xor_byte (byte_of 99)
        (Ascii (x5 a0 a4 a5 a6 a7) (x5 a1 a5 a6 a7 a0) (x5 a2 a6 a7 a0 a1) (x5 a3 a7 a0 a1 a2)
               (x5 a4 a0 a1 a2 a3) (x5 a5 a1 a2 a3 a4) (x5 a6 a2 a3 a4 a5) (x5 a7 a3 a4 a5 a6))
  end.

Definition sbox : list ascii :=
  Eval vm_compute in map (λ n, affine (ginv (ascii_of_nat n))) (seq 0 256).

Definition sub_byte (a : ascii) : ascii := nth (nat_of_ascii a) sbox zero_byte.

(** ** The cipher; a block is 16 bytes, column after column *)

Definition at_ (l : list ascii) (i : nat) : ascii := nth i l zero_byte.

Definition shift_rows (s : list ascii) : list ascii :=
  map (λ i, at_ s (i mod 4 + 4 * ((i / 4 + i mod 4) mod 4))%nat) (seq 0 16).

Definition mix_columns (s : list ascii) : list ascii :=
  map (λ i,
    let c := (4 * (i / 4))%nat in
    let v j := at_ s (c + (i + j) mod 4)%nat in
    xor_byte (xor_byte (gmul (v 0%nat) (byte_of 2)) (gmul (v 1%nat) (byte_of 3)))
             (xor_byte (v 2%nat) (v 3%nat))) (seq 0 16).

(** The words of the key schedule, the latest first; [i] is the index of the
    next word and [nk] the number of words of the key. *)
Fixpoint expand (n nk i : nat) (rcon : ascii) (ws : list (list ascii)) : list (list ascii) :=
  match n with
  | O => ws
  | S n =>
      let prev := hd [] ws in
      let base := nth (nk - 1) ws [] in
      if Nat.eqb (i mod nk) 0 then
        let t := map sub_byte (tl prev ++ [hd zero_byte prev]) in
        let t := xor_bytes t [rcon; zero_byte; zero_byte; zero_byte] in
        expand n nk (S i) (xtime rcon) (xor_bytes base t :: ws)
      else if Nat.ltb 6 nk && Nat.eqb (i mod nk) 4 then
        expand n nk (S i) rcon (xor_bytes base (map sub_byte prev) :: ws)
      else expand n nk (S i) rcon (xor_bytes base prev :: ws)
  end.

Fixpoint chunk (k n : nat) (l : list ascii) : list (list ascii) :=
  match n with O => [] | S n => take k l :: chunk k n (drop k l) end.

Definition key_schedule (key : list ascii) : list ascii :=
  let nk := (length key / 4)%nat in
  let words := (4 * (nk + 7))%nat in
  concat (reverse (expand (words - nk) nk nk (byte_of 1) (reverse (chunk 4 nk key)))).

Definition round_key (w : list ascii) (r : nat) : list ascii :=
  map (at_ w) (seq (16 * r) 16).

(** [block.Encrypt]. *)
Definition encrypt_with (nr : nat) (w block : list ascii) : list ascii :=
  let s := fold_left
    (λ s r, xor_bytes (mix_columns (shift_rows (map sub_byte s))) (round_key w r))
    (seq 1 (nr - 1)) (xor_bytes block (round_key w 0)) in
  xor_bytes (shift_rows (map sub_byte s)) (round_key w nr).

Definition encrypt (key : list ascii) : list ascii → list ascii :=
  encrypt_with (length key / 4 + 6) (key_schedule key).

Lemma encrypt_length key block : length (encrypt key block) = 16%nat.
Proof.
  unfold encrypt, encrypt_with, xor_bytes, shift_rows, round_key.
  by rewrite length_zip_with, !length_map, !length_seq.
Qed.

(** [aes.NewCipher]. *)
Definition NewCipher (key : list ascii) : result (list ascii → list ascii) :=
  let k := length key in
  if bool_decide (k ∈ [16; 24; 32]%nat) then Ok (encrypt key)
  else Err (ENew ("crypto/aes: invalid key size " +:+ Z_to_string (Z.of_nat k))).

Definition bytes (l : list Z) : list ascii := map byte_of l.
Definition hex_of (l : list ascii) : string := hex_encode (map byte_val l).

Example aes128_vector :
  hex_of (encrypt (bytes (map Z.of_nat (seq 0 16))) (bytes (map (λ i, 17 * Z.of_nat i) (seq 0 16))))
  = "69c4e0d86a7b0430d8cdb78070b4c55a".
Proof. vm_compute. reflexivity. Qed.

Example aes192_vector :
  hex_of (encrypt (bytes (map Z.of_nat (seq 0 24))) (bytes (map (λ i, 17 * Z.of_nat i) (seq 0 16))))
  = "dda97ca4864cdfe06eaf70a0ec0d7191".
Proof. vm_compute. reflexivity. Qed.

Example aes256_vector :
  hex_of (encrypt (bytes (map Z.of_nat (seq 0 32))) (bytes (map (λ i, 17 * Z.of_nat i) (seq 0 16))))
  = "8ea2b7ca516745bfeafc49904b496089".
Proof. vm_compute. reflexivity. Qed.

(** ** Galois/counter mode *)

Definition nonceSize : nat := 12.
Definition tagSize : nat := 16.

(** A block as a 128-bit integer, most significant byte first. *)
Definition block_val (l : list ascii) : Z := fold_left (λ z b, z * 256 + byte_val b) l 0.
Definition be_bytes (n : nat) (z : Z) : list ascii := bytes (bytes_of_Z n z).

Lemma be_bytes_length n z : length (be_bytes n z) = n.
Proof.
  unfold be_bytes, bytes. rewrite length_map. induction n as [|n IH]; simpl; congruence.
Qed.

(** Multiplication in GF(2^128), whose bits are read from the left. *)
Definition gf_step (y : Z) (zv : Z * Z) (i : nat) : Z * Z :=
  let '(z, v) := zv in
  (if Z.testbit y (127 - Z.of_nat i) then Z.lxor z v else z,
   if Z.odd v then Z.lxor (Z.shiftr v 1) (Z.shiftl 225 120) else Z.shiftr v 1).

Definition gf_mul (x y : Z) : Z := fst (fold_left (gf_step y) (seq 0 128) (0, x)).

Definition blocks_of (l : list ascii) : nat := ((length l + 15) / 16)%nat.

Definition pad_block (l : list ascii) : list ascii := l ++ repeat zero_byte (16 - length l).

(** GHASH of a ciphertext without additional data. *)
Definition ghash (h : Z) (ct : list ascii) : Z :=
  let blocks := map (λ b, block_val (pad_block b)) (chunk 16 (blocks_of ct) ct)
                ++ [8 * Z.of_nat (length ct)] in
  fold_left (λ y x, gf_mul (Z.lxor y x) h) blocks 0.

Section Gcm.
Context (E : list ascii → list ascii).

Definition counter_block (nonce : list ascii) (i : nat) : list ascii :=
  nonce ++ be_bytes 4 (Z.of_nat i).

Definition keystream (nonce : list ascii) (n : nat) : list ascii :=
  flat_map (λ i, E (counter_block nonce i)) (seq 2 n).

Definition auth_tag (nonce ct : list ascii) : list ascii :=
  let h := block_val (E (repeat zero_byte 16)) in
  xor_bytes (be_bytes 16 (ghash h ct)) (E (counter_block nonce 1)).

(** [gcm.Seal(dst, nonce, plaintext, nil)]. *)
Definition Seal (dst nonce plaintext : list ascii) : list ascii :=
  let ct := xor_bytes plaintext (keystream nonce (blocks_of plaintext)) in
  dst ++ ct ++ auth_tag nonce ct.

(** [gcm.Open(nil, nonce, ciphertext, nil)]. *)
Definition Open (nonce ciphertext : list ascii) : result (list ascii) :=
  let n := length ciphertext in
  let errOpen := ENew "cipher: message authentication failed" in
  if Nat.ltb n tagSize then Err errOpen
  else
    let ct := take (n - tagSize) ciphertext in
    if bool_decide (drop (n - tagSize) ciphertext = auth_tag nonce ct)
    then Ok (xor_bytes ct (keystream nonce (blocks_of ct)))
    else Err errOpen.

Hypothesis E_length : ∀ b, length (E b) = 16%nat.

Lemma keystream_length nonce n : length (keystream nonce n) = (16 * n)%nat.
Proof.
  unfold keystream.
  enough (∀ i, length (flat_map (λ i, E (counter_block nonce i)) (seq i n)) = (16 * n)%nat) by done.
  induction n as [|n IH]; intros i; [done|].
  cbn [seq flat_map]. rewrite length_app, E_length, IH. lia.
Qed.

Lemma blocks_of_enough (l : list ascii) : (length l <= 16 * blocks_of l)%nat.
Proof.
  unfold blocks_of. pose proof (Nat.div_mod_eq (length l + 15) 16).
  pose proof (Nat.mod_upper_bound (length l + 15) 16 ltac:(done)). lia.
Qed.

Lemma auth_tag_length nonce ct : length (auth_tag nonce ct) = tagSize.
Proof. unfold auth_tag, xor_bytes. by rewrite length_zip_with, E_length, be_bytes_length. Qed.

Lemma ciphertext_length nonce p :
  length (xor_bytes p (keystream nonce (blocks_of p))) = length p.
Proof.
  unfold xor_bytes. rewrite length_zip_with, keystream_length.
  pose proof (blocks_of_enough p). lia.
Qed.

(** What was sealed opens. *)
Lemma Open_Seal nonce p : Open nonce (Seal [] nonce p) = Ok p.
Proof.
  unfold Open, Seal. rewrite app_nil_l. set (ct := xor_bytes p _).
  rewrite length_app, auth_tag_length. replace (_ + tagSize - tagSize)%nat with (length ct) by lia.
  rewrite (proj2 (Nat.ltb_ge _ _)) by lia.
  rewrite take_app_length, drop_app_length, bool_decide_eq_true_2 by done. f_equal.
  replace (blocks_of ct) with (blocks_of p)
    by (unfold blocks_of, ct; by rewrite ciphertext_length).
  apply xor_bytes_cancel. rewrite keystream_length. apply blocks_of_enough.
Qed.
End Gcm.

Example gcm_empty_vector :
  hex_of (Seal (encrypt (repeat zero_byte 32)) [] (repeat zero_byte 12) [])
  = "530f8afbc74536b9a963b4f1c4cb738b".
Proof. vm_compute. reflexivity. Qed.

Example gcm_block_vector :
  hex_of (Seal (encrypt (repeat zero_byte 32)) [] (repeat zero_byte 12) (repeat zero_byte 16))
  = "cea7403d4d606b6e074ec5d3baf39d18d0d1c8a799996bf0265b98b5d48ab919".
Proof. vm_compute. reflexivity. Qed.

(** ** HMAC-SHA256 *)

Definition hmac_sha256 (key msg : list ascii) : list ascii :=
  let vals := map byte_val in
  let k := if Nat.ltb 64 (length key) then bytes (sum256 (vals key)) else key in
  let k := k ++ repeat zero_byte (64 - length k) in
  let pad z := vals (map (xor_byte (byte_of z)) k) in
  bytes (sum256 (pad 92 ++ sum256 (pad 54 ++ vals msg))).

Example hmac_vector :
  hex_of (hmac_sha256 (list_ascii_of_string "Jefe")
                      (list_ascii_of_string "what do ya want for nothing?"))
  = "5bdcc146bf60754e6a042426089575c75a003f089d2739839dec58b964ec3843".
Proof. vm_compute. reflexivity. Qed.

End Aes.
