(* ===== verification/Tokenization.v ===== *)
(** * Tokenization of personal data

    [internal/tokenization/tokenization.go]: a value becomes a standard token
    (AES-GCM under a random nonce, in base64) or a format-preserving one, which
    carries a visible text of the same shape in front of a standard token. *)

From S2P Require Import Prelude Encoding Sha256 Aes.
Import Encoding Aes.

Module Tokenization.

Inductive TokenizationMode : Type := StandardMode | FormatPreservingMode.

Definition TokenizableFields : list string :=
  ["FirstName"; "LastName"; "OtherNames"; "EmailAddress"; "PhoneNumber"; "Street"; "PostCode"].

Record TokenizationService := mkService {
  ts_key : list ascii;
  ts_enabled : bool;
}.

Definition ErrDisabled : error := ESentinel ErrTokenizationDisabled
  "tokenization is disabled: BLNK_TOKENIZATION_SECRET or tokenization_secret in your blnk.json file must be set to a 32-byte value".

Definition ensureEnabled (s : TokenizationService) : result unit :=
  fail_if (negb (ts_enabled s)) ErrDisabled.

Definition NewTokenizationService (encryptionKey : list ascii) : TokenizationService :=
  mkService encryptionKey (Nat.eqb (length encryptionKey) 32).

(** [strings.SplitN(s, sep, n)] for [0 < n]. *)
Fixpoint cut (sep : ascii) (s : list ascii) : option (list ascii * list ascii) :=
  match s with
  | [] => None
  | c :: s =>
      if Ascii.eqb c sep then Some ([], s)
      else '(a, b) ← cut sep s; Some (c :: a, b)
  end.

Fixpoint split_n (sep : ascii) (n : nat) (s : list ascii) : list (list ascii) :=
  match n with
  | O | S O => [s]
  | S n => match cut sep s with Some (a, b) => a :: split_n sep n b | None => [s] end
  end.

(** ** The visible text *)

Inductive rune_class : Type := Upper | Lower | Digit | Special.

Definition class_of (char : Z) : rune_class :=
  if in_range 65 90 char then Upper
  else if in_range 97 122 char then Lower
  else if in_range 48 57 char then Digit
  else Special.

Definition format_rune (seedByte char : Z) : Z :=
  match class_of char with
  | Upper => 65 + seedByte mod 26
  | Lower => 97 + seedByte mod 26
  | Digit => 48 + seedByte mod 10
  | Special => char
  end.

Definition format_runes (seed : list ascii) (runes : list Z) : list Z :=
  imap (λ i char, format_rune (byte_val (nth (i mod length seed) seed zero_byte)) char) runes.

Definition generateTokenWithFormat (seed originalValue : list ascii) : list ascii :=
  string_of_runes (format_runes seed (runes_of originalValue)).

(** ** Tokens; [rand] is what reading a nonce from [rand.Reader] gives *)

(** [s.TokenizeWithMode(value, StandardMode)]. *)
Definition Tokenize (s : TokenizationService) (rand : result (list ascii)) (value : list ascii)
    : result (list ascii) :=
  _ ← ensureEnabled s;
  block ← NewCipher (ts_key s);
  nonce ← rand;
  Ok (encode (Seal block nonce nonce value)).

Definition FPT : list ascii := ["F"; "P"; "T"]%char.
Definition prefixFPT : list ascii := FPT ++ [":"%char].

Definition formatPreservingTokenize (s : TokenizationService) (rand : result (list ascii))
    (value : list ascii) : result (list ascii) :=
  let seed := hmac_sha256 (ts_key s) value in
  let visibleToken := generateTokenWithFormat seed value in
  standardToken ← Tokenize s rand value;
  Ok (prefixFPT ++ visibleToken ++ ":"%char :: standardToken).

Definition TokenizeWithMode (s : TokenizationService) (rand : result (list ascii))
    (value : list ascii) (mode : TokenizationMode) : result (list ascii) :=
  _ ← ensureEnabled s;
  match mode with
  | FormatPreservingMode => formatPreservingTokenize s rand value
  | StandardMode => Tokenize s rand value
  end.

Definition standardDetokenize (s : TokenizationService) (token : list ascii)
    : result (list ascii) :=
  data ← decode token;
  block ← NewCipher (ts_key s);
  if Nat.ltb (length data) nonceSize then Err (ENew "token too short")
  else Open block (take nonceSize data) (drop nonceSize data).

(** [strings.HasPrefix]. *)
Definition starts_with (p s : list ascii) : bool := bool_decide (take (length p) s = p).

Definition formatPreservingDetokenize (s : TokenizationService) (token : list ascii)
    : result (list ascii) :=
  if negb (starts_with prefixFPT token) then Err (ENew "not a format-preserving token")
  else match split_n ":" 3 token with
       | _ :: _ :: standardToken :: _ => standardDetokenize s standardToken
       | _ => Err (ENew "invalid format-preserving token format")
       end.

Definition DetokenizeWithMode (s : TokenizationService) (token : list ascii)
    (mode : TokenizationMode) : result (list ascii) :=
  match mode with
  | FormatPreservingMode => formatPreservingDetokenize s token
  | StandardMode => standardDetokenize s token
  end.

Definition Detokenize (s : TokenizationService) (token : list ascii) : result (list ascii) :=
  if starts_with prefixFPT token then formatPreservingDetokenize s token
  else standardDetokenize s token.

(** ** The visible text keeps the shape *)

Lemma class_format_rune b char : class_of (format_rune b char) = class_of char.
Proof.
  unfold format_rune. destruct (class_of char) eqn:Hc; [| | |done];
    unfold class_of, in_range.
  - pose proof (Z.mod_pos_bound b 26). by rewrite (proj2 (andb_true_iff _ _)) by lia.
  - pose proof (Z.mod_pos_bound b 26).
    destruct (_ && _) eqn:E; [lia|]. by rewrite (proj2 (andb_true_iff _ _)) by lia.
  - pose proof (Z.mod_pos_bound b 10).
    destruct (_ && _) eqn:E; [lia|]. clear E. destruct (_ && _) eqn:E; [lia|].
    by rewrite (proj2 (andb_true_iff _ _)) by lia.
Qed.

Lemma format_rune_special b char :
  class_of (format_rune b char) = Special → format_rune b char = char.
Proof. rewrite class_format_rune. unfold format_rune. by intros ->. Qed.

Lemma format_rune_valid b char : valid_rune char = true → valid_rune (format_rune b char) = true.
Proof.
  intros Hv. unfold format_rune. destruct (class_of char); [| | |done]; apply valid_rune_intro;
    pose proof (Z.mod_pos_bound b 26); pose proof (Z.mod_pos_bound b 10); lia.
Qed.

Lemma format_runes_valid seed rs :
  Forall (λ r, valid_rune r = true) rs → Forall (λ r, valid_rune r = true) (format_runes seed rs).
Proof.
  rewrite !Forall_lookup. unfold format_runes. intros H i x.
  rewrite list_lookup_imap. destruct (rs !! i) as [r|] eqn:Hr; [|done].
  intros [= <-]. apply format_rune_valid. eauto.
Qed.

(** The runes of the visible text are the formatted runes. *)
Lemma visible_runes seed value :
  runes_of (generateTokenWithFormat seed value) = format_runes seed (runes_of value).
Proof. apply runes_of_string, format_runes_valid, runes_of_valid. Qed.

Lemma visible_classes seed value :
  map class_of (runes_of (generateTokenWithFormat seed value)) = map class_of (runes_of value).
Proof.
  rewrite visible_runes. apply list_eq. intros i. rewrite !list_lookup_fmap.
  unfold format_runes. rewrite list_lookup_imap.
  destruct (_ !! i); [|done]. simpl. by rewrite class_format_rune.
Qed.

Lemma visible_colon seed value :
  ":"%char ∈ generateTokenWithFormat seed value ↔ ":"%char ∈ value.
Proof.
  rewrite <-!runes_of_colon, visible_runes, !list_elem_of_lookup.
  unfold format_runes. setoid_rewrite list_lookup_imap.
  split; intros [i Hi]; exists i; destruct (_ !! i) as [r|] eqn:Hr; try done; simpl in *.
  - injection Hi as Hi. f_equal.
    rewrite <-(format_rune_special (byte_val (nth (i mod length seed) seed zero_byte)) r); [done|].
    by rewrite Hi.
  - injection Hi as ->. done.
Qed.

(** ** Splitting a token *)

Lemma cut_app sep (a b : list ascii) : sep ∉ a → cut sep (a ++ sep :: b) = Some (a, b).
Proof.
  induction a as [|c a IH]; cbn [cut app]; intros Hs.
  - by rewrite Ascii.eqb_refl.
  - apply not_elem_of_cons in Hs as [Hc Ha]. rewrite (proj2 (Ascii.eqb_neq _ _)) by done.
    by rewrite IH.
Qed.

(** The first separator splits a string that has one. *)
Lemma cut_first (sep : ascii) (s : list ascii) : sep ∈ s → ∃ a b, s = a ++ sep :: b ∧ sep ∉ a.
Proof.
  induction s as [|c s IH]; [by intros ?%elem_of_nil|].
  destruct (decide (c = sep)) as [->|Hc].
  - intros _. exists [], s. split; [done|apply not_elem_of_nil].
  - intros [->|Hs]%elem_of_cons; [done|]. destruct (IH Hs) as (a & b & -> & Ha).
    exists (c :: a), b. split; [done|]. by apply not_elem_of_cons.
Qed.

(** The third part of a format-preserving token. *)
Lemma split_token (vis std : list ascii) :
  ∃ part, split_n ":" 3 (prefixFPT ++ vis ++ ":"%char :: std) = [FPT; part.1; part.2]
    ∧ (":"%char ∉ vis → part.2 = std) ∧ (":"%char ∈ vis → ":"%char ∈ part.2).
Proof.
  assert (cut ":" (prefixFPT ++ vis ++ ":"%char :: std) = Some (FPT, vis ++ ":"%char :: std))
    as Hcut by reflexivity.
  cbn [split_n]. rewrite Hcut.
  destruct (decide (":"%char ∈ vis)) as [Hv|Hv].
  - destruct (cut_first _ _ Hv) as (a & b & -> & Ha). exists (a, b ++ ":"%char :: std).
    rewrite <-app_assoc. cbn [app]. rewrite cut_app by done. split_and!; [done..|].
    intros _. simpl. apply elem_of_app. right. apply list_elem_of_here.
  - exists (vis, std). by rewrite cut_app by done.
Qed.

Lemma starts_with_FPT tok : starts_with prefixFPT (prefixFPT ++ tok) = true.
Proof. reflexivity. Qed.

(** ** Round trips *)

(** A standard token never looks like a format-preserving one. *)
Lemma standard_not_FPT l : starts_with prefixFPT (encode l) = false.
Proof.
  apply bool_decide_eq_false. intros H. apply (encode_no_colon l).
  rewrite <-(take_drop 4 (encode l)). apply elem_of_app. left.
  change 4%nat with (length prefixFPT). rewrite H. set_solver.
Qed.

Section RoundTrip.
Context (key nonce : list ascii).
Hypothesis key_size : length key = 32%nat.
Hypothesis nonce_size : length nonce = nonceSize.

Let s := NewTokenizationService key.

Lemma enabled : ensureEnabled s = Ok tt.
Proof. unfold ensureEnabled, s. cbn [NewTokenizationService ts_enabled]. by rewrite key_size. Qed.

Lemma cipher_ok : NewCipher (ts_key s) = Ok (encrypt key).
Proof. unfold NewCipher. cbn [s NewTokenizationService ts_key]. by rewrite key_size. Qed.

Lemma Tokenize_value value :
  Tokenize s (Ok nonce) value = Ok (encode (Seal (encrypt key) nonce nonce value)).
Proof. unfold Tokenize. by rewrite enabled, cipher_ok. Qed.

Lemma standardDetokenize_value value :
  standardDetokenize s (encode (Seal (encrypt key) nonce nonce value)) = Ok value.
Proof.
  unfold standardDetokenize. rewrite decode_encode, cipher_ok. cbn [mbind result_bind].
  unfold Seal. rewrite length_app, nonce_size.
  rewrite (proj2 (Nat.ltb_ge _ _)) by lia.
  rewrite <-nonce_size, take_app_length, drop_app_length.
  apply (Open_Seal _ (encrypt_length key)).
Qed.

Lemma formatPreserving_value value :
  formatPreservingTokenize s (Ok nonce) value
  = Ok (prefixFPT ++ generateTokenWithFormat (hmac_sha256 key value) value
        ++ ":"%char :: encode (Seal (encrypt key) nonce nonce value)).
Proof. unfold formatPreservingTokenize. by rewrite Tokenize_value. Qed.

Lemma TokenizeWithMode_FPT value :
  TokenizeWithMode s (Ok nonce) value FormatPreservingMode
  = formatPreservingTokenize s (Ok nonce) value.
Proof. unfold TokenizeWithMode. by rewrite enabled. Qed.

(** What [SplitN] hands to the decryption decides. *)
Lemma Detokenize_FPT visible value :
  let tok := prefixFPT ++ visible ++ ":"%char :: encode (Seal (encrypt key) nonce nonce value) in
  (":"%char ∉ visible → Detokenize s tok = Ok value)
  ∧ (":"%char ∈ visible → ∃ e, Detokenize s tok = Err e).
Proof.
  intros tok. unfold Detokenize, formatPreservingDetokenize, tok.
  rewrite starts_with_FPT. cbn [negb].
  destruct (split_token visible (encode (Seal (encrypt key) nonce nonce value)))
    as (part & -> & Hno & Hyes). split.
  - intros Hc. rewrite Hno by done. apply standardDetokenize_value.
  - intros Hc. destruct (decode_colon _ (Hyes Hc)) as [e He]. exists e.
    unfold standardDetokenize. by rewrite He.
Qed.

(** A value without a colon comes back. *)
Lemma FPT_round_trip value :
  ":"%char ∉ value →
  ∃ tok, TokenizeWithMode s (Ok nonce) value FormatPreservingMode = Ok (prefixFPT ++ tok)
    ∧ Detokenize s (prefixFPT ++ tok) = Ok value.
Proof.
  intros Hc. rewrite TokenizeWithMode_FPT, formatPreserving_value. eexists. split; [done|].
  apply Detokenize_FPT. by rewrite visible_colon.
Qed.
End RoundTrip.

(** C36. Tokens give the value back exactly when they can be taken apart: under a
    32-byte key and a 12-byte nonce, [Detokenize] inverts the standard mode for
    every value, and the format-preserving mode for every value without a
    colon; a value with a colon is tokenized without complaint and can never be
    read back, since the colon stays in the visible text and [SplitN] cuts
    there. *)
Theorem Detokenize_Tokenize key nonce value :
  length key = 32%nat → length nonce = nonceSize →
  let s := NewTokenizationService key in
  (∃ tok, TokenizeWithMode s (Ok nonce) value StandardMode = Ok tok
     ∧ Detokenize s tok = Ok value)
  ∧ (∃ tok, TokenizeWithMode s (Ok nonce) value FormatPreservingMode = Ok tok
     ∧ (":"%char ∉ value → Detokenize s tok = Ok value)
     ∧ (":"%char ∈ value → ∃ e, Detokenize s tok = Err e)).
Proof.
  intros Hk Hn s. split.
  - exists (encode (Seal (encrypt key) nonce nonce value)). split.
    + unfold TokenizeWithMode, s. rewrite (enabled _ Hk). apply (Tokenize_value _ _ Hk).
    + unfold Detokenize. rewrite standard_not_FPT.
      apply (standardDetokenize_value key nonce Hk Hn).
  - eexists. split; [by rewrite (TokenizeWithMode_FPT _ _ Hk), (formatPreserving_value _ _ Hk)|].
    pose proof (Detokenize_FPT key nonce Hk Hn
      (generateTokenWithFormat (hmac_sha256 key value) value) value) as HD.
    cbv zeta in HD. rewrite visible_colon in HD. exact HD.
Qed.

Lemma Detokenize_Tokenize_witness :
  let key := map ascii_of_nat (seq 0 32) in
  let nonce := map ascii_of_nat (seq 100 12) in
  length key = 32%nat ∧ length nonce = nonceSize ∧
  let s := NewTokenizationService key in
  let value := list_ascii_of_string "12: Main St" in
  (∃ tok, TokenizeWithMode s (Ok nonce) value StandardMode = Ok tok
     ∧ Detokenize s tok = Ok value)
  ∧ (∃ tok, TokenizeWithMode s (Ok nonce) value FormatPreservingMode = Ok tok
     ∧ (":"%char ∉ value → Detokenize s tok = Ok value)
     ∧ (":"%char ∈ value → ∃ e, Detokenize s tok = Err e)).
Proof.
  split; [reflexivity|split; [reflexivity|]].
  apply (Detokenize_Tokenize (map ascii_of_nat (seq 0 32)) (map ascii_of_nat (seq 100 12))
           (list_ascii_of_string "12: Main St")); reflexivity.
Defined.

(** The visible text of a format-preserving token has, rune for rune, the
    shape of the value: upper-case letters, lower-case letters and digits stay
    in their class and every other character is kept. *)
Theorem visible_format seed value :
  let visible := runes_of (generateTokenWithFormat seed value) in
  map class_of visible = map class_of (runes_of value)
  ∧ ∀ i char, runes_of value !! i = Some char → class_of char = Special →
      visible !! i = Some char.
Proof.
  intros visible. split; [apply visible_classes|]. intros i char Hi Hs.
  unfold visible. rewrite visible_runes. unfold format_runes. rewrite list_lookup_imap, Hi.
  simpl. f_equal. apply format_rune_special. by rewrite class_format_rune.
Qed.

(** A service whose key has another size tokenizes nothing. *)
Lemma Tokenize_disabled key rand value mode :
  length key ≠ 32%nat →
  TokenizeWithMode (NewTokenizationService key) rand value mode = Err ErrDisabled.
Proof.
  intros Hk. unfold TokenizeWithMode, ensureEnabled. cbn [NewTokenizationService ts_enabled].
  by rewrite (proj2 (Nat.eqb_neq _ _)).
Qed.

(** A colon in the value: the token exists and cannot be read. *)
Lemma colon_token_lost :
  let s := NewTokenizationService (map ascii_of_nat (seq 0 32)) in
  let nonce := map ascii_of_nat (seq 100 12) in
  (tok ← TokenizeWithMode s (Ok nonce) (list_ascii_of_string "Apt: 4") FormatPreservingMode;
   Detokenize s tok) = Err (corrupt 0).
Proof. vm_compute. reflexivity. Qed.

End Tokenization.
