(* ===== verification/Identities.v ===== *)
(** * Identities and the tokenization of their fields

    [model/identity.go], [identity.go] and [database/identity.go]: the identity
    table, the requests that tokenize and detokenize fields, and what they leave
    in the table.  The metadata of an identity is a Go map whose values came
    from JSON, except for the map of tokenized fields a request has just
    written ([goval]); storing turns the latter into JSON. *)

From S2P Require Import Prelude Types Encoding Aes Tokenization Lineage.
Import Encoding Aes Tokenization.

Module Identities.

(** ** model.Identity *)

Inductive goval : Type :=
| GJson (v : metaval)
| GBoolMap (m : gmap string bool).

Abbreviation gometa := (gmap string goval).

Record Identity := mkIdentity {
  i_IdentityID : string;
  i_IdentityType : string;
  i_OrganizationName : string;
  i_Category : string;
  i_FirstName : string;
  i_LastName : string;
  i_OtherNames : string;
  i_Gender : string;
  i_EmailAddress : string;
  i_PhoneNumber : string;
  i_Nationality : string;
  i_Street : string;
  i_Country : string;
  i_State : string;
  i_PostCode : string;
  i_City : string;
  i_DOB : time;
  i_CreatedAt : time;
  i_MetaData : option gometa;
}.
#[global] Instance Identity_eta : Eta Identity := λ i,
  mkIdentity (i_IdentityID i) (i_IdentityType i) (i_OrganizationName i) (i_Category i)
    (i_FirstName i) (i_LastName i) (i_OtherNames i) (i_Gender i) (i_EmailAddress i)
    (i_PhoneNumber i) (i_Nationality i) (i_Street i) (i_Country i) (i_State i)
    (i_PostCode i) (i_City i) (i_DOB i) (i_CreatedAt i) (i_MetaData i).

(** The fields of type [string], by which [reflect] finds them. *)
Inductive sfield : Type :=
| FIdentityID | FIdentityType | FOrganizationName | FCategory | FFirstName | FLastName
| FOtherNames | FGender | FEmailAddress | FPhoneNumber | FNationality | FStreet | FCountry
| FState | FPostCode | FCity.

#[global] Instance sfield_eq_dec : EqDecision sfield.
Proof. solve_decision. Defined.

Definition sfields : list sfield :=
  [FIdentityID; FIdentityType; FOrganizationName; FCategory; FFirstName; FLastName; FOtherNames;
   FGender; FEmailAddress; FPhoneNumber; FNationality; FStreet; FCountry; FState; FPostCode; FCity].

Definition field_name (f : sfield) : string :=
  match f with
  | FIdentityID => "IdentityID" | FIdentityType => "IdentityType"
  | FOrganizationName => "OrganizationName" | FCategory => "Category"
  | FFirstName => "FirstName" | FLastName => "LastName" | FOtherNames => "OtherNames"
  | FGender => "Gender" | FEmailAddress => "EmailAddress" | FPhoneNumber => "PhoneNumber"
  | FNationality => "Nationality" | FStreet => "Street" | FCountry => "Country"
  | FState => "State" | FPostCode => "PostCode" | FCity => "City"
  end.

Definition get (f : sfield) (i : Identity) : string :=
  match f with
  | FIdentityID => i_IdentityID i | FIdentityType => i_IdentityType i
  | FOrganizationName => i_OrganizationName i | FCategory => i_Category i
  | FFirstName => i_FirstName i | FLastName => i_LastName i | FOtherNames => i_OtherNames i
  | FGender => i_Gender i | FEmailAddress => i_EmailAddress i | FPhoneNumber => i_PhoneNumber i
  | FNationality => i_Nationality i | FStreet => i_Street i | FCountry => i_Country i
  | FState => i_State i | FPostCode => i_PostCode i | FCity => i_City i
  end.

Definition put (f : sfield) (v : string) (i : Identity) : Identity :=
  match f with
  | FIdentityID => i <| i_IdentityID := v |>
  | FIdentityType => i <| i_IdentityType := v |>
  | FOrganizationName => i <| i_OrganizationName := v |>
  | FCategory => i <| i_Category := v |>
  | FFirstName => i <| i_FirstName := v |>
  | FLastName => i <| i_LastName := v |>
  | FOtherNames => i <| i_OtherNames := v |>
  | FGender => i <| i_Gender := v |>
  | FEmailAddress => i <| i_EmailAddress := v |>
  | FPhoneNumber => i <| i_PhoneNumber := v |>
  | FNationality => i <| i_Nationality := v |>
  | FStreet => i <| i_Street := v |>
  | FCountry => i <| i_Country := v |>
  | FState => i <| i_State := v |>
  | FPostCode => i <| i_PostCode := v |>
  | FCity => i <| i_City := v |>
  end.

(** [val.FieldByName(name)]: a string field, one of another type, or none. *)
Inductive reflected : Type := RString (f : sfield) | ROther (text : string) | RInvalid.

Definition FieldByName (name : string) : reflected :=
  match List.find (λ f, String.eqb (field_name f) name) sfields with
  | Some f => RString f
  | None =>
      if String.eqb name "DOB" || String.eqb name "CreatedAt" then ROther "<time.Time Value>"
      else if String.eqb name "MetaData" then ROther "<map[string]interface {} Value>"
      else RInvalid
  end.

(** [strings.ToUpper(fieldName[0:1]) + fieldName[1:]]; a byte that is no
    character by itself becomes U+FFFD. *)
Definition convertToStructFieldName (fieldName : string) : string :=
  match fieldName with
  | EmptyString => fieldName
  | String c s =>
      if byte_val c <? 128 then String (ascii_upper c) s
      else string_of_list_ascii (encode_rune RuneError) +:+ s
  end.

Definition obj_map (l : list (string * metaval)) : gmap string metaval := list_to_map l.
Definition as_bool (v : metaval) : option bool := match v with MBool b => Some b | _ => None end.

Definition IsFieldTokenized (i : Identity) (fieldName : string) : bool :=
  let structFieldName := convertToStructFieldName fieldName in
  match i_MetaData i with
  | None => false
  | Some md =>
      match md !! "tokenized_fields" with
      | Some (GBoolMap m) =>
          default false (m !! structFieldName) || default false (m !! fieldName)
      | Some (GJson (MObj l)) =>
          match obj_map l !! structFieldName ≫= as_bool with
          | Some b => b
          | None => default false (obj_map l !! fieldName ≫= as_bool)
          end
      | _ => false
      end
  end.

(** The marks of either shape, as [map[string]bool]. *)
Definition marks_of (raw : option goval) : gmap string bool :=
  match raw with
  | Some (GBoolMap m) => m
  | Some (GJson (MObj l)) => omap as_bool (obj_map l)
  | _ => ∅
  end.

Definition MarkFieldAsTokenized (i : Identity) (fieldName : string) : Identity :=
  let md := default ∅ (i_MetaData i) in
  let existing := marks_of (md !! "tokenized_fields") in
  i <| i_MetaData :=
    Some (<["tokenized_fields" := GBoolMap (<[convertToStructFieldName fieldName := true]> existing)]> md) |>.

(** ** database/identity.go

    [is_refs] are the ids that rows of [blnk.balances] and [blnk.accounts]
    refer to. *)

Record istore := mkStore {
  is_rows : gmap string Identity;
  is_refs : gset string;
}.
#[global] Instance istore_eta : Eta istore := λ s, mkStore (is_rows s) (is_refs s).

Abbreviation I := (prog istore).

(** What [json.Marshal] into a JSONB column and reading it back make of a value. *)
Definition json_form (v : goval) : goval :=
  match v with
  | GJson v => GJson v
  | GBoolMap m => GJson (MObj (map_to_list (MBool <$> m)))
  end.

Definition stored_meta (md : option gometa) : option gometa := fmap (M := gmap string) json_form <$> md.

(** A DATE column keeps the day of a time given in UTC. *)
Definition day : Z := 86400 * 1000000000.
Definition to_date (t : time) : time := t / day * day.

Definition not_found (id : string) : error :=
  EAPI "NOT_FOUND" ("Identity with ID '" +:+ id +:+ "' not found").

Section store.
Context (uuid_Parse : string → bool).   (* github.com/google/uuid *)

Definition has_idt (id : string) : bool := has_prefix "idt_" id.

(** [generated] is the id the server draws when the caller gives none. *)
Definition CreateIdentity (generated : string) (now : time) (identity : Identity) : I Identity := λ s,
  let id := i_IdentityID identity in
  if negb (String.eqb id "") && negb (has_idt id) then
    (s, Err (EAPI "BAD_REQUEST" "identity_id must start with the 'idt_' prefix"))
  else if negb (String.eqb id "") && negb (uuid_Parse (String.substring 4 (String.length id - 4) id)) then
    (s, Err (EAPI "BAD_REQUEST" "identity_id suffix after 'idt_' must be a valid UUID"))
  else
    let identity := identity <| i_IdentityID := if String.eqb id "" then generated else id |>
                             <| i_CreatedAt := now |> in
    let id := i_IdentityID identity in
    if bool_decide (is_Some (is_rows s !! id)) then
      (s, Err (EAPI "CONFLICT" ("Identity already exists: " +:+ id)))
    else
      let row := identity <| i_DOB := to_date (i_DOB identity) |>
                          <| i_MetaData := stored_meta (i_MetaData identity) |> in
      (s <| is_rows := <[id := row]> (is_rows s) |>, Ok identity).
End store.

Definition GetIdentityByID (id : string) : I Identity := λ s,
  (s, match is_rows s !! id with Some i => Ok i | None => Err (not_found id) end).

(** Rows created at the same time come in no particular order. *)
Definition GetAllIdentities : I (list Identity) := λ s,
  (s, Ok (order_desc i_CreatedAt (map snd (map_to_list (is_rows s))))).

Definition page_limit (limit : Z) : Z := if (limit <=? 0) || (100 <? limit) then 20 else limit.

Definition GetAllIdentitiesPaginated (limit offset : Z) : I (list Identity) :=
  if offset <? 0 then raise (EAPI "INTERNAL_SERVER_ERROR" "Failed to retrieve identities")
  else all ← GetAllIdentities;
       mret (limit_offset (Z.to_nat (page_limit limit)) (Z.to_nat offset) all).

(** A field is written only if it has a value. *)
Definition upd (old new : string) : string := if String.eqb new "" then old else new.
Definition upd_time (old new : time) : time := if is_zero_time new then old else to_date new.

Definition updated_row (row identity : Identity) : Identity :=
  mkIdentity (i_IdentityID row)
    (upd (i_IdentityType row) (i_IdentityType identity))
    (upd (i_OrganizationName row) (i_OrganizationName identity))
    (upd (i_Category row) (i_Category identity))
    (upd (i_FirstName row) (i_FirstName identity))
    (upd (i_LastName row) (i_LastName identity))
    (upd (i_OtherNames row) (i_OtherNames identity))
    (upd (i_Gender row) (i_Gender identity))
    (upd (i_EmailAddress row) (i_EmailAddress identity))
    (upd (i_PhoneNumber row) (i_PhoneNumber identity))
    (upd (i_Nationality row) (i_Nationality identity))
    (upd (i_Street row) (i_Street identity))
    (upd (i_Country row) (i_Country identity))
    (upd (i_State row) (i_State identity))
    (upd (i_PostCode row) (i_PostCode identity))
    (upd (i_City row) (i_City identity))
    (upd_time (i_DOB row) (i_DOB identity))
    (i_CreatedAt row)
    (match i_MetaData identity with
     | Some md => stored_meta (Some md)
     | None => i_MetaData row
     end).

(** No column would be set. *)
Definition nothing_to_update (identity : Identity) : bool :=
  forallb (λ f, bool_decide (f = FIdentityID) || String.eqb (get f identity) "") sfields
  && is_zero_time (i_DOB identity) && bool_decide (i_MetaData identity = None).

Definition UpdateIdentity (identity : Identity) : I unit := λ s,
  if nothing_to_update identity then (s, Err (EAPI "BAD_REQUEST" "No fields provided for update"))
  else match is_rows s !! i_IdentityID identity with
       | Some row =>
           (s <| is_rows := <[i_IdentityID identity := updated_row row identity]> (is_rows s) |>, Ok tt)
       | None => (s, Err (not_found (i_IdentityID identity)))
       end.

Definition DeleteIdentity (id : string) : I unit := λ s,
  match is_rows s !! id with
  | Some _ =>
      if bool_decide (id ∈ is_refs s)
      then (s, Err (EAPI "INTERNAL_SERVER_ERROR" "Failed to delete identity"))
      else (s <| is_rows := delete id (is_rows s) |>, Ok tt)
  | None => (s, Err (not_found id))
  end.

(** ** identity.go *)

Section service.
Context (tk : TokenizationService).          (* l.tokenizer *)
Context (json_text : gometa → string).       (* metadata as JSON text, for an error message *)
Context `{MapIter}.

(** *** Tokenizing; [rand] is what reading a nonce gives *)

Definition not_tokenizable (fieldName : string) : error :=
  ENew ("field " +:+ fieldName +:+ " is not tokenizable").

Definition validField (fieldName : string) : bool :=
  existsb (String.eqb (convertToStructFieldName fieldName)) TokenizableFields.

Definition tokenize_text (rand : result (list ascii)) (v : string) : result string :=
  string_of_list_ascii <$> TokenizeWithMode tk rand (list_ascii_of_string v) FormatPreservingMode.
Definition detokenize_text (v : string) : result string :=
  string_of_list_ascii <$> Detokenize tk (list_ascii_of_string v).

(** What [TokenizeIdentityField] makes of the identity it has read. *)
Definition tokenized (rand : result (list ascii)) (fieldName : string) (identity : Identity)
    : result Identity :=
  if IsFieldTokenized identity fieldName
  then Err (ENew ("field " +:+ fieldName +:+ " is already tokenized"))
  else match FieldByName (convertToStructFieldName fieldName) with
       | RString f =>
           token ← tokenize_text rand (get f identity);
           Ok (MarkFieldAsTokenized (put f token identity) fieldName)
       | ROther _ => Err (EPanic "reflect: call of reflect.Value.SetString")
       | RInvalid => Err (ENew ("field " +:+ fieldName +:+ " not found or cannot be set"))
       end.

Definition TokenizeIdentityField (rand : result (list ascii)) (identityID fieldName : string)
    : I unit :=
  if negb (validField fieldName) then raise (not_tokenizable fieldName)
  else
    identity ← GetIdentityByID identityID;
    identity ← lift (tokenized rand fieldName identity);
    UpdateIdentity identity.

(** One nonce for each field. *)
Fixpoint TokenizeIdentity (identityID : string) (fields : list (string * result (list ascii)))
    : I unit :=
  match fields with
  | [] => mret tt
  | (field, rand) :: fields =>
      _ ← TokenizeIdentityField rand identityID field;
      TokenizeIdentity identityID fields
  end.

(** Errors are dropped. *)
Fixpoint tokenize_each (identityID : string) (fields : list (string * result (list ascii)))
    : I unit := λ s,
  match fields with
  | [] => (s, Ok tt)
  | (field, rand) :: fields =>
      tokenize_each identityID fields (TokenizeIdentityField rand identityID field s).1
  end.

Definition TokenizeAllPII (rands : list (result (list ascii))) (identityID : string) : I unit :=
  tokenize_each identityID (zip TokenizableFields rands).

(** *** Detokenizing *)

Definition not_tokenized (fieldName : string) (md : option gometa) : error :=
  ENew ("field " +:+ fieldName +:+ " is not tokenized"
        +:+ match md with Some md => ". Metadata: " +:+ json_text md | None => "" end).

(** [fieldVal.String()], looked up under either name. *)
Definition field_text (fieldName : string) (identity : Identity) : result string :=
  match FieldByName (convertToStructFieldName fieldName) with
  | RString f => Ok (get f identity)
  | ROther t => Ok t
  | RInvalid =>
      match FieldByName fieldName with
      | RString f => Ok (get f identity)
      | ROther t => Ok t
      | RInvalid => Err (ENew ("field " +:+ fieldName +:+ " not found"))
      end
  end.

Definition detokenized (fieldName : string) (identity : Identity) : result string :=
  if negb (IsFieldTokenized identity fieldName)
     && negb (IsFieldTokenized identity (convertToStructFieldName fieldName))
  then Err (not_tokenized fieldName (i_MetaData identity))
  else tokenVal ← field_text fieldName identity; detokenize_text tokenVal.

Definition DetokenizeIdentityField (identityID fieldName : string) : I string :=
  identity ← GetIdentityByID identityID; lift (detokenized fieldName identity).

Fixpoint detokenize_each (identityID : string) (fields : list (string * bool))
    (result : gmap string string) : I (gmap string string) :=
  match fields with
  | [] => mret result
  | (fieldName, isTokenized) :: fields =>
      if isTokenized : bool then
        originalValue ← DetokenizeIdentityField identityID fieldName;
        detokenize_each identityID fields (<[fieldName := originalValue]> result)
      else detokenize_each identityID fields result
  end.

Definition tokenized_fields (identity : Identity) : gmap string bool :=
  match i_MetaData identity with
  | Some md => marks_of (md !! "tokenized_fields")
  | None => ∅
  end.

Definition DetokenizeIdentity (identityID : string) : I (gmap string string) :=
  identity ← GetIdentityByID identityID;
  detokenize_each identityID (map_iter (tokenized_fields identity)) ∅.

(** Each detokenized value is written into the copy. *)
Definition set_field (fieldName v : string) (identity : Identity) : result Identity :=
  match FieldByName fieldName with
  | RString f => Ok (put f v identity)
  | ROther _ => Err (EPanic "reflect: call of reflect.Value.SetString")
  | RInvalid => Ok identity
  end.

Fixpoint detokenize_into (identityID : string) (fields : list (string * bool)) (copy : Identity)
    : I Identity :=
  match fields with
  | [] => mret copy
  | (field, isTokenized) :: fields =>
      if isTokenized : bool then
        originalValue ← DetokenizeIdentityField identityID field;
        copy ← lift (set_field field originalValue copy);
        detokenize_into identityID fields copy
      else detokenize_into identityID fields copy
  end.

Definition GetDetokenizedIdentity (identityID : string) : I Identity :=
  identity ← GetIdentityByID identityID;
  copy ← match i_MetaData identity with
         | Some md =>
             match md !! "tokenized_fields" with
             | Some (GBoolMap m) => detokenize_into identityID (map_iter m) identity
             | _ => mret identity
             end
         | None => mret identity
         end;
  mret (copy <| i_MetaData := (λ md : gometa, delete "tokenized_fields" md) <$> i_MetaData copy |>).

End service.

(** ** Field names *)

Definition tfields : list sfield :=
  [FFirstName; FLastName; FOtherNames; FEmailAddress; FPhoneNumber; FStreet; FPostCode].

Lemma tfields_names : map field_name tfields = TokenizableFields.
Proof. reflexivity. Qed.

Lemma validField_spec n :
  validField n = true ↔ ∃ f, f ∈ tfields ∧ convertToStructFieldName n = field_name f.
Proof.
  unfold validField. rewrite existsb_exists. split.
  - intros (x & Hx & He%String.eqb_eq). rewrite <-tfields_names in Hx.
    apply in_map_iff in Hx as (f & <- & Hf). exists f. by rewrite list_elem_of_In.
  - intros (f & Hf & He). exists (field_name f). rewrite He, String.eqb_refl. split; [|done].
    rewrite <-tfields_names. apply in_map. by rewrite <-list_elem_of_In.
Qed.

Lemma FieldByName_name f : FieldByName (field_name f) = RString f.
Proof. by destruct f. Qed.

Lemma field_name_inj f g : field_name f = field_name g → f = g.
Proof. intros H. apply (f_equal FieldByName) in H. rewrite !FieldByName_name in H. by injection H. Qed.

(** Names of fields are their own struct form. *)
Lemma convert_field_name f : convertToStructFieldName (field_name f) = field_name f.
Proof. by destruct f. Qed.

Lemma get_put f v i : get f (put f v i) = v.
Proof. by destruct f. Qed.

Lemma get_put_ne f g v i : f ≠ g → get g (put f v i) = get g i.
Proof. destruct f, g; done. Qed.

(** ** The table *)

(** A row is in the form PostgreSQL returns it in. *)
Definition stored (i : Identity) : Prop :=
  to_date (i_DOB i) = i_DOB i ∧ stored_meta (i_MetaData i) = i_MetaData i.

Definition row_ok (id : string) (i : Identity) : Prop := i_IdentityID i = id ∧ stored i.
Definition table_ok (s : istore) : Prop := map_Forall row_ok (is_rows s).

Lemma to_date_idemp t : to_date (to_date t) = to_date t.
Proof. unfold to_date. by rewrite Z.div_mul. Qed.

Lemma json_form_idemp v : json_form (json_form v) = json_form v.
Proof. by destruct v. Qed.

Lemma stored_meta_idemp md : stored_meta (stored_meta md) = stored_meta md.
Proof.
  destruct md as [md|]; [|done]. unfold stored_meta. simpl. f_equal.
  rewrite <-map_fmap_compose. apply map_fmap_ext. intros k v _. apply json_form_idemp.
Qed.

Lemma updated_row_ok id row identity : row_ok id row → row_ok id (updated_row row identity).
Proof.
  intros (Hid & Hd & Hm). split; [done|]. split; cbn [updated_row i_DOB i_MetaData].
  - unfold upd_time. destruct (is_zero_time _); [done|apply to_date_idemp].
  - destruct (i_MetaData identity) as [md|]; [apply (stored_meta_idemp (Some md))|done].
Qed.

Lemma UpdateIdentity_ok identity s : table_ok s → table_ok (UpdateIdentity identity s).1.
Proof.
  intros Hs. unfold UpdateIdentity. destruct (nothing_to_update identity); [done|].
  destruct (is_rows s !! _) as [row|] eqn:Hrow; [|done].
  apply map_Forall_insert_2; [|done]. by apply updated_row_ok, Hs.
Qed.

Lemma CreateIdentity_ok uuid_Parse generated now identity s :
  table_ok s → table_ok (CreateIdentity uuid_Parse generated now identity s).1.
Proof.
  intros Hs. unfold CreateIdentity. repeat (case_match; [done|]).
  apply map_Forall_insert_2; [|done]. split; [done|]. split; [apply to_date_idemp|].
  apply stored_meta_idemp.
Qed.

Lemma DeleteIdentity_ok id s : table_ok s → table_ok (DeleteIdentity id s).1.
Proof.
  intros Hs. unfold DeleteIdentity. repeat case_match; try done. by apply map_Forall_delete.
Qed.

(** ** The marks *)

Lemma marks_of_stored (m : gmap string bool) : marks_of (Some (json_form (GBoolMap m))) = m.
Proof.
  cbn [json_form marks_of]. unfold obj_map. rewrite list_to_map_to_list.
  apply map_eq. intros k. rewrite lookup_omap, lookup_fmap. by destruct (m !! k).
Qed.

(** The names marked in a row are names of tokenizable fields. *)
Definition marks_ok (m : gmap string bool) : Prop :=
  map_Forall (λ n b, b = true ∧ ∃ f, f ∈ tfields ∧ n = field_name f) m.

Lemma IsFieldTokenized_marks i n :
  marks_ok (tokenized_fields i) →
  IsFieldTokenized i n = bool_decide (is_Some (tokenized_fields i !! convertToStructFieldName n)).
Proof.
  intros Hok.
  assert (∀ b, tokenized_fields i !! n = Some b →
            b = true ∧ tokenized_fields i !! convertToStructFieldName n = Some true) as Hn.
  { intros b Hb. destruct (Hok _ _ Hb) as (-> & f & _ & ->). by rewrite convert_field_name. }
  assert (∀ b, tokenized_fields i !! convertToStructFieldName n = Some b → b = true) as Hc.
  { intros b Hb. by destruct (Hok _ _ Hb). }
  clear Hok. unfold IsFieldTokenized, tokenized_fields in *.
  destruct (i_MetaData i) as [md|]; [|done].
  destruct (md !! "tokenized_fields") as [[[]|m]|]; cbn [marks_of] in *; try done.
  - rewrite !lookup_omap in *.
    destruct (obj_map l !! convertToStructFieldName n ≫= as_bool) as [b|]; [by rewrite (Hc b eq_refl)|].
    destruct (obj_map l !! n ≫= as_bool) as [b|]; [|done]. by destruct (Hn b eq_refl).
  - destruct (m !! convertToStructFieldName n) as [b|]; [by rewrite (Hc b eq_refl)|]. simpl.
    destruct (m !! n) as [b|]; [|done]. by destruct (Hn b eq_refl).
Qed.

(** ** What a tokenizing request writes *)

Definition marked (f : sfield) (i : Identity) : bool :=
  bool_decide (is_Some (tokenized_fields i !! field_name f)).

Lemma get_mark g i n : get g (MarkFieldAsTokenized i n) = get g i.
Proof. by destruct g. Qed.

Lemma upd_same v : upd v v = v.
Proof. unfold upd. by destruct (String.eqb v ""). Qed.

Lemma upd_new old v : v ≠ "" → upd old v = v.
Proof. intros Hv. unfold upd. by rewrite (proj2 (String.eqb_neq _ _)). Qed.

Lemma get_updated_row g row identity :
  get g (updated_row row identity)
  = if decide (g = FIdentityID) then get g row else upd (get g row) (get g identity).
Proof. by destruct g. Qed.

Lemma tfields_not_id f : f ∈ tfields → f ≠ FIdentityID.
Proof. intros Hf ->. unfold tfields in Hf. rewrite !elem_of_cons, elem_of_nil in Hf. naive_solver. Qed.

Lemma stored_meta_Some (md : gometa) : stored_meta (Some md) = Some (json_form <$> md).
Proof. done. Qed.

Lemma meta_mark j n :
  i_MetaData (MarkFieldAsTokenized j n)
  = Some (<["tokenized_fields" := GBoolMap (<[convertToStructFieldName n := true]> (tokenized_fields j))]>
            (default ∅ (i_MetaData j))).
Proof. unfold MarkFieldAsTokenized, tokenized_fields. by destruct (i_MetaData j). Qed.

Lemma meta_put g v j : i_MetaData (put g v j) = i_MetaData j.
Proof. by destruct g. Qed.

Lemma tokenized_put g v j : tokenized_fields (put g v j) = tokenized_fields j.
Proof. unfold tokenized_fields. by rewrite meta_put. Qed.

Lemma DOB_mark_put f v j n : i_DOB (MarkFieldAsTokenized (put f v j) n) = i_DOB j.
Proof. by destruct f. Qed.

Lemma meta_updated_row row identity :
  i_MetaData (updated_row row identity)
  = match i_MetaData identity with Some md => stored_meta (Some md) | None => i_MetaData row end.
Proof. done. Qed.

Section written.
Context (f : sfield) (token n : string) (i : Identity).
Hypothesis f_tokenizable : f ∈ tfields.
Hypothesis token_text : token ≠ "".
Hypothesis name_of_f : convertToStructFieldName n = field_name f.
Hypothesis i_stored : stored i.

Definition written_row : Identity := updated_row i (MarkFieldAsTokenized (put f token i) n).

Lemma get_written_row g : get g written_row = if decide (g = f) then token else get g i.
Proof.
  unfold written_row. rewrite get_updated_row, get_mark.
  destruct (decide (g = FIdentityID)) as [->|Hg]; destruct (decide (_ = f)) as [<-|Hf]; try done.
  - by destruct (tfields_not_id _ f_tokenizable).
  - by rewrite get_put, upd_new.
  - by rewrite get_put_ne, upd_same.
Qed.

Lemma meta_written : i_MetaData written_row
  = Some (json_form <$>
      (<["tokenized_fields" := GBoolMap (<[field_name f := true]> (tokenized_fields i))]>
         (default ∅ (i_MetaData i)))).
Proof.
  unfold written_row. by rewrite meta_updated_row, meta_mark, meta_put, tokenized_put, name_of_f.
Qed.

Lemma tokenized_written_row :
  tokenized_fields written_row = <[field_name f := true]> (tokenized_fields i).
Proof.
  unfold tokenized_fields at 1. rewrite meta_written, lookup_fmap, lookup_insert_eq.
  apply marks_of_stored.
Qed.

Lemma meta_written_row k :
  k ≠ "tokenized_fields" →
  default ∅ (i_MetaData written_row) !! k = default ∅ (i_MetaData i) !! k.
Proof.
  intros Hk. rewrite meta_written. cbn [default from_option id].
  rewrite lookup_fmap, lookup_insert_ne by done.
  destruct i_stored as [_ Hm]. destruct (i_MetaData i) as [md|]; [|done].
  rewrite stored_meta_Some in Hm. injection Hm as Hm. simpl.
  by rewrite <-lookup_fmap, Hm.
Qed.

Lemma times_written_row : i_DOB written_row = i_DOB i ∧ i_CreatedAt written_row = i_CreatedAt i.
Proof.
  split; [|done]. unfold written_row. cbn [updated_row i_DOB].
  rewrite DOB_mark_put.
  unfold upd_time. by destruct (is_zero_time _); [|apply i_stored].
Qed.
End written.

(** ** A row that holds the fields of [p], some of them as tokens *)

Section lossless.
Context (key : list ascii).
Let tk := NewTokenizationService key.

Definition rand_ok (rand : result (list ascii)) : Prop :=
  match rand with Ok nonce => length nonce = nonceSize | Err _ => True end.

Definition no_colon (v : string) : Prop := ":"%char ∉ list_ascii_of_string v.

Record faithful (p i : Identity) : Prop := mkFaithful {
  fa_marks : marks_ok (tokenized_fields i);
  fa_token : ∀ f, marked f i = true → detokenize_text tk (get f i) = Ok (get f p);
  fa_plain : ∀ f, marked f i = false → get f i = get f p;
  fa_times : i_DOB i = i_DOB p ∧ i_CreatedAt i = i_CreatedAt p;
  fa_meta : ∀ k, k ≠ "tokenized_fields" →
    default ∅ (i_MetaData i) !! k = default ∅ (i_MetaData p) !! k;
}.

Lemma faithful_refl i : tokenized_fields i = ∅ → faithful i i.
Proof.
  intros Hm. split; [by rewrite Hm|unfold marked; rewrite Hm|done..]. intros f.
  by rewrite lookup_empty.
Qed.

(** Tokenizing the text of a field. *)
Lemma tokenize_text_Ok rand v token :
  rand_ok rand → no_colon v → tokenize_text tk rand v = Ok token →
  token ≠ "" ∧ detokenize_text tk token = Ok v.
Proof.
  unfold tokenize_text, detokenize_text, tk. intros Hr Hv Ht.
  destruct (decide (length key = 32%nat)) as [Hk|Hk];
    [|by rewrite (Tokenize_disabled _ _ _ _ Hk) in Ht].
  destruct rand as [nonce|e].
  - destruct (FPT_round_trip key nonce Hk Hr _ Hv) as (tok & Htok & Hback).
    rewrite Htok in Ht. assert (token = string_of_list_ascii (prefixFPT ++ tok)) as ->
      by (symmetry; by injection Ht).
    split; [done|].
    rewrite list_ascii_of_string_of_list_ascii, Hback. simpl.
    by rewrite string_of_list_ascii_of_string.
  - unfold TokenizeWithMode, formatPreservingTokenize, Tokenize in Ht.
    rewrite !(enabled _ Hk), (cipher_ok _ Hk) in Ht. done.
Qed.

Lemma faithful_written p i f n rand token :
  f ∈ tfields → convertToStructFieldName n = field_name f → stored i → rand_ok rand →
  no_colon (get f p) → marked f i = false → tokenize_text tk rand (get f i) = Ok token →
  faithful p i → faithful p (written_row f token n i).
Proof.
  intros Hf Hn Hs Hr Hc Hu Ht [Hm Htok Hpl Htm Hmd].
  rewrite (Hpl _ Hu) in Ht. destruct (tokenize_text_Ok _ _ _ Hr Hc Ht) as [Hne Hback].
  pose proof (tokenized_written_row f token n i Hn) as Hfields.
  assert (∀ g, marked g (written_row f token n i) = bool_decide (g = f) || marked g i) as Hmk.
  { intros g. unfold marked. rewrite Hfields. destruct (decide (g = f)) as [->|Hg].
    - rewrite lookup_insert_eq, (bool_decide_eq_true_2 (f = f)) by done.
      apply bool_decide_eq_true_2. by eexists.
    - rewrite (bool_decide_eq_false_2 (g = f)) by done. rewrite lookup_insert_ne; [done|].
      by intros ?%field_name_inj. }
  split.
  - rewrite Hfields. apply map_Forall_insert_2; [|done]. split; [done|]. by exists f.
  - intros g. rewrite Hmk, get_written_row by done. case_decide as Hg; [by subst|].
    rewrite bool_decide_eq_false_2 by done. apply Htok.
  - intros g. rewrite Hmk, get_written_row by done. case_decide as Hg.
    + by rewrite bool_decide_eq_true_2.
    + rewrite bool_decide_eq_false_2 by done. apply Hpl.
  - destruct (times_written_row f token n i Hs) as [-> ->]. done.
  - intros k Hk. by rewrite meta_written_row, Hmd.
Qed.

(** ** Requests *)

Lemma mark_updates j n : nothing_to_update (MarkFieldAsTokenized j n) = false.
Proof.
  unfold nothing_to_update. rewrite meta_mark, andb_false_iff. right. by apply bool_decide_eq_false.
Qed.

(** A request leaves the table alone or writes one field and its mark. *)
Lemma TokenizeIdentityField_step rand id n s :
  table_ok s →
  let s' := (TokenizeIdentityField tk rand id n s).1 in
  s' = s ∨ ∃ i f token, is_rows s !! id = Some i ∧ f ∈ tfields
    ∧ convertToStructFieldName n = field_name f ∧ IsFieldTokenized i n = false
    ∧ tokenize_text tk rand (get f i) = Ok token
    ∧ s' = s <| is_rows := <[id := written_row f token n i]> (is_rows s) |>.
Proof.
  intros Hs. unfold TokenizeIdentityField.
  destruct (validField n) eqn:Hv; [|by left]. apply validField_spec in Hv as (f & Hf & Hn).
  cbn [negb]. unfold GetIdentityByID, lift, mbind, prog_bind.
  destruct (is_rows s !! id) as [i|] eqn:Hi; [|by left].
  destruct (Hs _ _ Hi) as [Hid _]. unfold tokenized. rewrite Hn, FieldByName_name.
  destruct (IsFieldTokenized i n) eqn:Hm; [by left|].
  destruct (tokenize_text tk rand (get f i)) as [token|e] eqn:Ht; [|by left].
  cbn [mbind result_bind].
  right. exists i, f, token. split_and!; [done..|].
  unfold UpdateIdentity. rewrite mark_updates.
  change (i_IdentityID (MarkFieldAsTokenized ?j _)) with (i_IdentityID j).
  assert (i_IdentityID (put f token i) = id) as ->.
  { rewrite <-Hid. apply (get_put_ne f FIdentityID). by apply tfields_not_id. }
  by rewrite Hi.
Qed.

Definition request : Type := string * string * result (list ascii).

Definition run_requests (reqs : list request) (s : istore) : istore :=
  fold_left (λ s '(id, n, rand), (TokenizeIdentityField tk rand id n s).1) reqs s.

Definition holds (p : Identity) (id : string) (s : istore) : Prop :=
  table_ok s ∧ ∃ i, is_rows s !! id = Some i ∧ faithful p i.

Lemma table_ok_written id f token n i s :
  table_ok s → is_rows s !! id = Some i →
  table_ok (s <| is_rows := <[id := written_row f token n i]> (is_rows s) |>).
Proof. intros Hs Hi. apply map_Forall_insert_2; [|done]. by apply updated_row_ok, Hs. Qed.

Lemma request_holds p id id' n rand s :
  (∀ f, f ∈ tfields → no_colon (get f p)) → rand_ok rand → holds p id s →
  holds p id (TokenizeIdentityField tk rand id' n s).1.
Proof.
  intros Hc Hr (Hs & i & Hi & Hfa).
  destruct (TokenizeIdentityField_step rand id' n s Hs)
    as [->|(j & f & token & Hj & Hf & Hn & Hu & Ht & ->)]; [by split; [|exists i]|].
  split; [by apply table_ok_written|]. cbn [is_rows set].
  destruct (decide (id' = id)) as [->|Hne].
  - rewrite Hi in Hj. injection Hj as <-. eexists. split; [apply lookup_insert_eq|].
    apply (faithful_written p i f n rand token); try done; [apply (Hs _ _ Hi)|by apply Hc|].
    rewrite IsFieldTokenized_marks in Hu by apply Hfa. by rewrite Hn in Hu.
  - exists i. by rewrite lookup_insert_ne.
Qed.

Lemma run_requests_holds p id reqs s :
  (∀ f, f ∈ tfields → no_colon (get f p)) → Forall (λ r : request, rand_ok r.2) reqs →
  holds p id s → holds p id (run_requests reqs s).
Proof.
  intros Hc Hr. revert s. induction Hr as [|[[id' n] rand] reqs Hr _ IH]; intros s Hh; [done|].
  apply IH. by apply request_holds.
Qed.

(** *** Reading back *)

Context (json_text : gometa → string) `{MapIter}.

(** The value of the field called [n]. *)
Definition value_of (p : Identity) (n : string) : string :=
  match FieldByName n with RString f => get f p | _ => "" end.

Lemma detokenized_marked p i n :
  faithful p i → is_Some (tokenized_fields i !! n) →
  detokenized tk json_text n i = Ok (value_of p n).
Proof.
  intros Hfa Hn. destruct Hn as [b Hb]. destruct (fa_marks _ _ Hfa _ _ Hb) as (-> & f & Hf & ->).
  unfold detokenized, field_text, value_of.
  rewrite convert_field_name, FieldByName_name, IsFieldTokenized_marks, convert_field_name by apply Hfa.
  rewrite bool_decide_eq_true_2 by (by eexists). cbn [negb andb mbind result_bind].
  apply (fa_token _ _ Hfa). apply bool_decide_eq_true_2. by eexists.
Qed.

Lemma DetokenizeIdentityField_marked p id i n s :
  is_rows s !! id = Some i → faithful p i → is_Some (tokenized_fields i !! n) →
  DetokenizeIdentityField tk json_text id n s = (s, Ok (value_of p n)).
Proof.
  intros Hi Hfa Hn. unfold DetokenizeIdentityField, GetIdentityByID, mbind, prog_bind, lift.
  rewrite Hi. by rewrite (detokenized_marked p).
Qed.

Lemma detokenize_each_marked p id i l acc s :
  is_rows s !! id = Some i → faithful p i →
  (∀ n b, (n, b) ∈ l → b = true ∧ is_Some (tokenized_fields i !! n)) →
  ∃ m, detokenize_each tk json_text id l acc s = (s, Ok m)
    ∧ ∀ k, m !! k = if bool_decide (k ∈ map fst l) then Some (value_of p k) else acc !! k.
Proof.
  intros Hi Hfa. revert acc. induction l as [|[n b] l IH]; intros acc Hl; [by exists acc|].
  destruct (Hl n b) as [-> Hn]; [apply list_elem_of_here|].
  cbn [detokenize_each]. unfold mbind, prog_bind.
  rewrite (DetokenizeIdentityField_marked p _ i) by done.
  destruct (IH (<[n := value_of p n]> acc)) as (m & -> & Hm).
  { intros n' b' Hin. apply Hl. by apply list_elem_of_further. }
  exists m. split; [done|]. intros k. rewrite Hm. cbn [map fst].
  destruct (decide (k = n)) as [->|Hk].
  - rewrite (bool_decide_eq_true_2 (n ∈ n :: _)) by apply list_elem_of_here.
    rewrite lookup_insert_eq. by case_match.
  - rewrite lookup_insert_ne by done.
    rewrite (bool_decide_ext (k ∈ n :: map fst l) (k ∈ map fst l)); [done|].
    rewrite elem_of_cons. naive_solver.
Qed.

Lemma DetokenizeIdentity_faithful p id i s :
  is_rows s !! id = Some i → faithful p i →
  ∃ m, DetokenizeIdentity tk json_text id s = (s, Ok m)
    ∧ ∀ k, m !! k = (λ _, value_of p k) <$> tokenized_fields i !! k.
Proof.
  intros Hi Hfa. unfold DetokenizeIdentity, GetIdentityByID, mbind, prog_bind. rewrite Hi.
  destruct (detokenize_each_marked p id i (map_iter (tokenized_fields i)) ∅ s Hi Hfa)
    as (m & -> & Hm).
  { intros n b Hin%elem_of_map_iter. split; [by apply (fa_marks _ _ Hfa) in Hin as [-> _]|by eexists]. }
  exists m. split; [done|]. intros k. rewrite Hm, lookup_empty.
  destruct (tokenized_fields i !! k) as [b|] eqn:Hb; case_bool_decide as Hk; try done.
  - destruct Hk. apply list_elem_of_fmap. exists (k, b). by rewrite elem_of_map_iter.
  - apply list_elem_of_fmap in Hk as ([k' b] & -> & Hin%elem_of_map_iter). simpl in *. congruence.
Qed.

End lossless.

(** C37. Tokenization loses nothing.  From a row without marks whose tokenizable
    fields hold no colon, any sequence of tokenizing requests, on this and other
    identities, succeeding or failing, leaves a row in which an unmarked field
    still holds its text, the dates and the rest of the metadata are as before,
    and [DetokenizeIdentity] returns, without changing the table, the original
    text of exactly the marked fields. *)
Theorem tokenization_lossless `{MapIter} key json_text s id p (reqs : list request) :
  table_ok s → is_rows s !! id = Some p → tokenized_fields p = ∅ →
  (∀ f, f ∈ tfields → no_colon (get f p)) →
  Forall (λ r : request, rand_ok r.2) reqs →
  let tk := NewTokenizationService key in
  let s' := run_requests key reqs s in
  ∃ i m, is_rows s' !! id = Some i
    ∧ DetokenizeIdentity tk json_text id s' = (s', Ok m)
    ∧ (∀ f, marked f i = false → get f i = get f p ∧ m !! field_name f = None)
    ∧ (∀ f, marked f i = true → f ∈ tfields ∧ m !! field_name f = Some (get f p))
    ∧ (∀ k, is_Some (m !! k) → ∃ f, k = field_name f)
    ∧ i_DOB i = i_DOB p ∧ i_CreatedAt i = i_CreatedAt p
    ∧ ∀ k, k ≠ "tokenized_fields" →
        default ∅ (i_MetaData i) !! k = default ∅ (i_MetaData p) !! k.
Proof.
  intros Hs Hp Hno Hc Hr tk s'.
  destruct (run_requests_holds key p id reqs s Hc Hr) as (_ & i & Hi & Hfa).
  { split; [done|]. exists p. split; [done|]. by apply faithful_refl. }
  destruct (DetokenizeIdentity_faithful key json_text p id i s' Hi Hfa) as (m & Hm & Hk).
  exists i, m. split_and!; [done..| | | |apply Hfa|apply Hfa|apply Hfa].
  - intros f Hf. split; [by apply (fa_plain _ _ _ Hfa)|]. rewrite Hk.
    apply bool_decide_eq_false in Hf. apply eq_None_not_Some in Hf. by rewrite Hf.
  - intros f Hf. apply bool_decide_eq_true in Hf as [b Hb].
    destruct (fa_marks _ _ _ Hfa _ _ Hb) as (-> & g & Hg & <-%field_name_inj).
    split; [done|]. rewrite Hk, Hb. simpl. unfold value_of. by rewrite FieldByName_name.
  - intros k [v Hv]. rewrite Hk in Hv. destruct (_ !! k) as [b|] eqn:Hb; [|done].
    destruct (fa_marks _ _ _ Hfa _ _ Hb) as (_ & f & _ & ->). by exists f.
Qed.

(** *** A concrete table *)

Definition ada : Identity :=
  mkIdentity "idt_ada" "individual" "" "" "Ada" "Lovelace" "" "" "ada@example.org" "" "" "" "" "" ""
    "" 0 7 (Some {["tier" := GJson (MStr "gold")]}).
Definition sample_store : istore := mkStore {["idt_ada" := ada]} ∅.
Definition sample_key : list ascii := map ascii_of_nat (seq 0 32).
Definition sample_rand (k : nat) : result (list ascii) := Ok (map ascii_of_nat (seq k 12)).
Definition sample_tk : TokenizationService := NewTokenizationService sample_key.
Definition no_text : gometa → string := λ _, "{}".

Lemma sample_ok : table_ok sample_store.
Proof. apply map_Forall_singleton. by repeat split. Qed.

Lemma sample_no_colon f : f ∈ tfields → no_colon (get f ada).
Proof. intros _. apply (bool_decide_unpack _). by destruct f. Qed.

Lemma tokenization_lossless_witness :
  let reqs := [("idt_ada", "firstName", sample_rand 40); ("idt_ada", "Gender", sample_rand 1);
               ("idt_ada", "EmailAddress", sample_rand 60); ("idt_bob", "Street", sample_rand 3)] in
  table_ok sample_store ∧ is_rows sample_store !! "idt_ada" = Some ada
  ∧ Forall (λ r : request, rand_ok r.2) reqs
  ∧ let s' := run_requests sample_key reqs sample_store in
  ∃ i m, is_rows s' !! "idt_ada" = Some i
    ∧ DetokenizeIdentity sample_tk no_text "idt_ada" s' = (s', Ok m)
    ∧ (∀ f, marked f i = false → get f i = get f ada ∧ m !! field_name f = None)
    ∧ (∀ f, marked f i = true → f ∈ tfields ∧ m !! field_name f = Some (get f ada))
    ∧ (∀ k, is_Some (m !! k) → ∃ f, k = field_name f)
    ∧ i_DOB i = i_DOB ada ∧ i_CreatedAt i = i_CreatedAt ada
    ∧ ∀ k, k ≠ "tokenized_fields" →
        default ∅ (i_MetaData i) !! k = default ∅ (i_MetaData ada) !! k.
Proof.
  intros reqs. split; [apply sample_ok|]. split; [reflexivity|].
  assert (Forall (λ r : request, rand_ok r.2) reqs) as Hr by (repeat constructor).
  split; [exact Hr|].
  apply (tokenization_lossless sample_key no_text sample_store "idt_ada" ada reqs);
    [apply sample_ok|reflexivity|reflexivity|apply sample_no_colon|exact Hr].
Defined.

(** A request on an unmarked field succeeds when the service has its key. *)
Lemma TokenizeIdentityField_Ok key s id i n f nonce :
  table_ok s → is_rows s !! id = Some i → f ∈ tfields →
  convertToStructFieldName n = field_name f → IsFieldTokenized i n = false →
  no_colon (get f i) → length key = 32%nat → length nonce = nonceSize →
  (TokenizeIdentityField (NewTokenizationService key) (Ok nonce) id n s).2 = Ok tt.
Proof.
  intros Hs Hi Hf Hn Hm Hc Hk Hl. unfold TokenizeIdentityField.
  rewrite (proj2 (validField_spec n)) by eauto. cbn [negb].
  unfold GetIdentityByID, lift. unfold mbind, prog_bind. rewrite Hi. unfold tokenized.
  rewrite Hm, Hn, FieldByName_name. unfold tokenize_text.
  destruct (FPT_round_trip key nonce Hk Hl _ Hc) as (tok & -> & _).
  cbn [fmap result_fmap mbind result_bind].
  unfold UpdateIdentity. rewrite mark_updates.
  change (i_IdentityID (MarkFieldAsTokenized ?j _)) with (i_IdentityID j).
  destruct (Hs _ _ Hi) as [Hid _].
  match goal with |- context [put f ?v i] => assert (i_IdentityID (put f v i) = id) as -> end.
  { rewrite <-Hid. apply (get_put_ne f FIdentityID). by apply tfields_not_id. }
  by rewrite Hi.
Qed.

(** ** What goes wrong *)

(** Without a key, [TokenizeAllPII] reports success and tokenizes nothing. *)
Lemma TokenizeAllPII_disabled key rands id s :
  length key ≠ 32%nat → TokenizeAllPII (NewTokenizationService key) rands id s = (s, Ok tt).
Proof.
  intros Hk. unfold TokenizeAllPII. generalize (zip TokenizableFields rands) as l.
  induction l as [|[n rand] l IH]; [done|]. cbn [tokenize_each].
  replace (TokenizeIdentityField _ rand id n s).1 with s; [done|].
  unfold TokenizeIdentityField. destruct (negb _); [done|].
  unfold GetIdentityByID, lift. unfold mbind, prog_bind. destruct (is_rows s !! id) as [i|]; [|done].
  unfold tokenized. destruct (IsFieldTokenized i n); [done|].
  destruct (FieldByName _); [|done..]. unfold tokenize_text. by rewrite Tokenize_disabled.
Qed.

(** [GetDetokenizedIdentity] detokenizes nothing: a row read from the table
    never has its marks in the one shape it looks for. *)
Lemma GetDetokenizedIdentity_tokens `{MapIter} tk json_text id i s :
  table_ok s → is_rows s !! id = Some i →
  GetDetokenizedIdentity tk json_text id s
  = (s, Ok (i <| i_MetaData := (λ md : gometa, delete "tokenized_fields" md) <$> i_MetaData i |>)).
Proof.
  intros Hs Hi. destruct (Hs _ _ Hi) as (_ & _ & Hm).
  unfold GetDetokenizedIdentity, GetIdentityByID, mbind, prog_bind. rewrite Hi.
  destruct (i_MetaData i) as [md|] eqn:E; [|simpl; by rewrite E].
  rewrite stored_meta_Some in Hm. injection Hm as Hm.
  destruct (md !! "tokenized_fields") as [[v|m]|] eqn:Em;
    [simpl; by rewrite E| |simpl; by rewrite E].
  rewrite <-Hm, lookup_fmap in Em. by destruct (md !! "tokenized_fields") as [[]|].
Qed.

(** An update that sends other metadata drops the marks and keeps the tokens:
    the field cannot be detokenized any more. *)
Lemma update_forgets_marks :
  let s := run_requests sample_key [("idt_ada", "firstName", sample_rand 40)] sample_store in
  let patch := mkIdentity "idt_ada" "" "" "" "" "" "" "" "" "" "" "" "" "" "" "" 0 0
                 (Some {["tier" := GJson (MStr "silver")]}) in
  let s' := (UpdateIdentity patch s).1 in
  is_ok (UpdateIdentity patch s).2 = true
  ∧ is_ok (DetokenizeIdentityField sample_tk no_text "idt_ada" "firstName" s).2 = true
  ∧ (DetokenizeIdentityField sample_tk no_text "idt_ada" "firstName" s').2
    = Err (ENew "field firstName is not tokenized. Metadata: {}")
  ∧ (i_FirstName <$> is_rows s' !! "idt_ada") = (i_FirstName <$> is_rows s !! "idt_ada").
Proof. vm_compute. repeat split. Qed.

(** An update that sends a tokenized field in the clear leaves it marked: from
    then on no field of the identity can be read with [DetokenizeIdentity]. *)
Lemma update_blocks_detokenization :
  let s := run_requests sample_key [("idt_ada", "firstName", sample_rand 40);
             ("idt_ada", "emailAddress", sample_rand 60)] sample_store in
  let patch := mkIdentity "idt_ada" "" "" "" "Augusta" "" "" "" "" "" "" "" "" "" "" "" 0 0 None in
  let s' := (UpdateIdentity patch s).1 in
  is_ok (DetokenizeIdentity sample_tk no_text "idt_ada" s).2 = true
  ∧ is_ok (UpdateIdentity patch s).2 = true
  ∧ is_ok (DetokenizeIdentity sample_tk no_text "idt_ada" s').2 = false.
Proof. vm_compute. repeat split. Qed.

(** Two requests that read the row before either writes it: the second write
    puts the first field back in the clear and drops its mark, though both
    callers were told their field is tokenized. *)
Lemma concurrent_tokenization_undone :
  match tokenized sample_tk (sample_rand 40) "firstName" ada,
        tokenized sample_tk (sample_rand 60) "emailAddress" ada with
  | Ok first, Ok second =>
      let '(s1, r1) := UpdateIdentity first sample_store in
      let '(s2, r2) := UpdateIdentity second s1 in
      r1 = Ok tt ∧ r2 = Ok tt
      ∧ (i_FirstName <$> is_rows s1 !! "idt_ada") ≠ Some "Ada"
      ∧ (i_FirstName <$> is_rows s2 !! "idt_ada") = Some "Ada"
      ∧ (marked FFirstName <$> is_rows s2 !! "idt_ada") = Some false
  | _, _ => False
  end.
Proof. vm_compute. repeat split. done. Qed.

(** ** Lineage names its balances after the fields of the row *)

Definition lineage_view (i : Identity) : Lineage.Identity :=
  Lineage.mkIdentity (i_IdentityID i) (i_FirstName i) (i_LastName i) (i_OrganizationName i).

Lemma fpt_prefix x y : String.prefix "fpt:" (to_lower ("FPT:" +:+ x) +:+ y) = true.
Proof. exact (prefix_app "fpt:" (to_lower x +:+ y)). Qed.

(** Once the first name is a token, the lineage balances of the identity have
    other names: the money the old ones hold is no longer found. *)
Lemma tokenized_name_moves_lineage key nonce i n :
  length key = 32%nat → length nonce = nonceSize →
  convertToStructFieldName n = field_name FFirstName →
  i_LastName i ≠ "" → no_colon (i_FirstName i) →
  has_prefix "fpt:" (Lineage.getIdentityIdentifier (lineage_view i)) = false →
  ∃ token, tokenize_text (NewTokenizationService key) (Ok nonce) (i_FirstName i) = Ok token
    ∧ Lineage.getIdentityIdentifier (lineage_view (written_row FFirstName token n i))
      ≠ Lineage.getIdentityIdentifier (lineage_view i).
Proof.
  intros Hk Hl Hn Hlast Hc Hold.
  destruct (FPT_round_trip key nonce Hk Hl _ Hc) as (tok & Htok & _).
  exists (string_of_list_ascii (prefixFPT ++ tok)). unfold tokenize_text.
  split; [by rewrite Htok|]. intros Heq. rewrite <-Heq in Hold. revert Hold. clear Heq.
  unfold lineage_view, written_row. cbn [updated_row i_FirstName i_LastName i_IdentityID i_OrganizationName].
  unfold Lineage.getIdentityIdentifier.
  cbn [Lineage.id_FirstName Lineage.id_LastName Lineage.id_IdentityID Lineage.id_OrganizationName].
  change (i_LastName (MarkFieldAsTokenized _ n)) with (i_LastName i).
  change (i_FirstName (MarkFieldAsTokenized _ n)) with (string_of_list_ascii (prefixFPT ++ tok)).
  rewrite upd_same, upd_new by done.
  rewrite (proj2 (String.eqb_neq (i_LastName i) "")) by done.
  replace (String.eqb (string_of_list_ascii (prefixFPT ++ tok)) "") with false by done.
  cbn [negb andb]. unfold has_prefix.
  by rewrite (fpt_prefix (string_of_list_ascii tok +:+ "_" +:+ i_LastName i)).
Qed.

End Identities.
