(* ===== verification/Snapshots.v ===== *)
(** * Snapshots and balances at a past time

    [database/balance.go]: the daily snapshots of all balances (the SQL
    function of [sql/1740493523.sql] that [TakeBalanceSnapshots] calls) and
    [GetBalanceAtTime], which starts from the latest snapshot or from nothing
    and adds the applied transactions that took effect since. *)

From S2P Require Import Prelude Float64 Types Datastore Identities.
Import Datastore.

Module Snapshots.

(** A row of [blnk.balance_snapshots]. *)
Record Snapshot := mkSnapshot {
  sn_BalanceID : string;
  sn_LedgerID : string;
  sn_Balance : Z;
  sn_CreditBalance : Z;
  sn_DebitBalance : Z;
  sn_InflightBalance : Z;
  sn_InflightCreditBalance : Z;
  sn_InflightDebitBalance : Z;
  sn_Currency : string;
  sn_Time : time;
  sn_LastTxID : option string;
  sn_MetaData : metadata;
}.

(** ** TakeBalanceSnapshots *)

(** [DATE_TRUNC('day', t) = DATE_TRUNC('day', u)], in UTC. *)
Definition same_day (t u : time) : bool := Identities.to_date t =? Identities.to_date u.

Definition touches (id : string) (r : Transaction) : bool :=
  String.eqb (t_Source r) id || String.eqb (t_Destination r) id.

Definition last_tx_id (d : db) (id : string) : option string :=
  t_TransactionID <$> head (order_desc t_CreatedAt (List.filter (touches id) (db_transactions d))).

Definition snapshot_of (d : db) (now : time) (id : string) : Snapshot :=
  let b := default empty_balance (db_balances d !! id) in
  mkSnapshot id (b_LedgerID b) (ival (b_Balance b)) (ival (b_CreditBalance b))
    (ival (b_DebitBalance b)) (ival (b_InflightBalance b)) (ival (b_InflightCreditBalance b))
    (ival (b_InflightDebitBalance b)) (b_Currency b) now (last_tx_id d id) (b_MetaData b).

Definition has_today (snaps : list Snapshot) (now : time) (id : string) : bool :=
  existsb (λ s, String.eqb (sn_BalanceID s) id && same_day (sn_Time s) now) snaps.

(** The loop of [take_daily_balance_snapshots_batched].  [order] lists the
    balances by serial id; the cursor [k] is the number of them passed. *)
Fixpoint snapshot_loop (fuel : nat) (d : db) (order : list string) (now : time) (batch_size : nat)
    (k : nat) (snaps : list Snapshot) (total : nat) : option (nat * list Snapshot) :=
  match fuel with
  | O => None
  | S fuel =>
      let window := drop k order in
      let batch := take batch_size (List.filter (λ id, negb (has_today snaps now id)) window) in
      let snaps := snaps ++ map (snapshot_of d now) batch in
      let total := (total + length batch)%nat in
      let k := (k + length (take batch_size window))%nat in
      if Nat.eqb (length batch) 0 || Nat.leb (length order) k then Some (total, snaps)
      else snapshot_loop fuel d order now batch_size k snaps total
  end.

(** Every round passes a balance or ends, so the number of balances and one
    more is enough fuel. *)
Definition TakeBalanceSnapshots (d : db) (order : list string) (now : time) (batch_size : nat)
    (snaps : list Snapshot) : option (nat * list Snapshot) :=
  snapshot_loop (S (length order)) d order now batch_size 0 snaps 0.

(** ** GetBalanceAtTime *)

(** [COALESCE(effective_date, created_at)]. *)
Definition effective (r : Transaction) : time := default (t_CreatedAt r) (t_EffectiveDate r).

Definition validateBalanceTimeParams (balanceID : string) (targetTime : time) : result unit :=
  _ ← fail_if (String.eqb balanceID "") (EAPI "BAD_REQUEST" "Balance ID cannot be empty");
  fail_if (is_zero_time targetTime) (EAPI "BAD_REQUEST" "Target time cannot be zero").

Definition getBalanceInfo (d : db) (balanceID : string) : result (string * time) :=
  match db_balances d !! balanceID with
  | Some b => Ok (b_Currency b, b_CreatedAt b)
  | None => Err (EAPI "NOT_FOUND" ("Balance '" +:+ balanceID +:+ "' not found"))
  end.

(** The accumulators to start from and the time they stand for. *)
Definition getMostRecentSnapshot (snaps : list Snapshot) (balanceID : string) (targetTime : time)
    : Z * Z * time :=
  match head (order_desc sn_Time
                (List.filter (λ s, String.eqb (sn_BalanceID s) balanceID
                                   && (sn_Time s <=? targetTime)) snaps)) with
  | Some s => (sn_CreditBalance s, sn_DebitBalance s, sn_Time s)
  | None => (0, 0, 0)
  end.

Definition fetchTransactions (d : db) (balanceID : string) (startTime targetTime : time)
    : list Transaction :=
  order_asc effective
    (List.filter (λ r, touches balanceID r && (startTime <? effective r)
                       && (effective r <=? targetTime) && String.eqb (t_Status r) "APPLIED")
       (db_transactions d)).

Definition applyTransaction (balanceID : string) (acc : Z * Z) (r : Transaction) : Z * Z :=
  let txAmount := ival (t_PreciseAmount r) in
  (if String.eqb (t_Destination r) balanceID then acc.1 + txAmount else acc.1,
   if String.eqb (t_Source r) balanceID then acc.2 + txAmount else acc.2).

Definition calculateBalanceFromTransactions (d : db) (balanceID : string)
    (startTime targetTime : time) (initial : Z * Z) : Z * Z :=
  fold_left (applyTransaction balanceID) (fetchTransactions d balanceID startTime targetTime) initial.

Definition GetBalanceAtTime (d : db) (snaps : list Snapshot) (balanceID : string)
    (targetTime : time) (fromSource : bool) : result Balance :=
  _ ← validateBalanceTimeParams balanceID targetTime;
  '(currency, createdAt) ← getBalanceInfo d balanceID;
  let '(credit, debit, startTime) :=
    if fromSource then (0, 0, 0) else getMostRecentSnapshot snaps balanceID targetTime in
  let '(credit, debit) :=
    calculateBalanceFromTransactions d balanceID startTime targetTime (credit, debit) in
  Ok (empty_balance <| b_BalanceID := balanceID |> <| b_Balance := Some (credit - debit) |>
        <| b_CreditBalance := Some credit |> <| b_DebitBalance := Some debit |>
        <| b_Currency := currency |> <| b_CreatedAt := createdAt |>).

(** [l.GetBalanceAtTime] (balance.go). *)
Definition service_GetBalanceAtTime (d : db) (snaps : list Snapshot) (balanceID : string)
    (targetTime : time) (fromSource : bool) : result Balance :=
  wrap_err "failed to get balance at time" (GetBalanceAtTime d snaps balanceID targetTime fromSource).

(** ** The daily function visits every balance *)

Section daily.
Context (d : db) (now : time).

Definition todo (snaps : list Snapshot) (ids : list string) : list string :=
  List.filter (λ id, negb (has_today snaps now id)) ids.

Lemma has_today_app snaps ids id :
  has_today (snaps ++ map (snapshot_of d now) ids) now id
  = has_today snaps now id || bool_decide (id ∈ ids).
Proof.
  unfold has_today. rewrite existsb_app. f_equal.
  induction ids as [|x ids IH]; [by rewrite bool_decide_false by apply not_elem_of_nil|].
  cbn [map existsb]. rewrite IH. cbn [snapshot_of sn_BalanceID sn_Time].
  unfold same_day. rewrite Z.eqb_refl, andb_true_r.
  destruct (String.eqb_spec x id) as [->|Hx].
  - by rewrite (bool_decide_eq_true_2 (id ∈ id :: ids)) by apply list_elem_of_here.
  - simpl. apply bool_decide_ext. rewrite elem_of_cons. naive_solver.
Qed.

Lemma filter_not_take n (l : list string) :
  NoDup l → List.filter (λ x, bool_decide (x ∉ take n l)) l = drop n l.
Proof.
  intros Hnd. rewrite <-(take_drop n l) in Hnd. apply NoDup_app in Hnd as (_ & Hd & _).
  transitivity (List.filter (λ x, bool_decide (x ∉ take n l)) (take n l ++ drop n l));
    [by rewrite take_drop|].
  rewrite List.filter_app, list_filter_none, list_filter_all; [done|..].
  - intros x Hx. apply bool_decide_eq_true_2. intros Ht. by apply (Hd x).
  - intros x Hx. apply bool_decide_eq_false_2. intros Hn. by apply Hn.
Qed.

Lemma todo_snapshots snaps l ids :
  todo (snaps ++ map (snapshot_of d now) l) ids
  = List.filter (λ x, bool_decide (x ∉ l)) (todo snaps ids).
Proof.
  unfold todo. induction ids as [|x ids IH]; [done|]. cbn [List.filter].
  rewrite IH, has_today_app. destruct (has_today snaps now x); [done|]. cbn [negb orb List.filter].
  rewrite bool_decide_not. by case_bool_decide.
Qed.

Lemma NoDup_todo snaps ids : NoDup ids → NoDup (todo snaps ids).
Proof. intros H. rewrite <-(map_id ids) in H. apply (NoDup_map_filter _ (λ x, negb (has_today snaps now x))) in H. by rewrite map_id in H. Qed.

(** Taking the first [n] of those left to do leaves the others. *)
Lemma todo_take snaps n ids :
  NoDup ids →
  todo (snaps ++ map (snapshot_of d now) (take n (todo snaps ids))) ids = drop n (todo snaps ids).
Proof. intros Hnd. rewrite todo_snapshots. by apply filter_not_take, NoDup_todo. Qed.

Lemma filter_take_sub (p : string → bool) n l x :
  x ∈ take n l → p x = true → x ∈ take n (List.filter p l).
Proof.
  intros Hx Hp.
  replace (List.filter p l) with (List.filter p (take n l) ++ List.filter p (drop n l))
    by (by rewrite <-List.filter_app, take_drop).
  rewrite take_app. apply elem_of_app. left. rewrite take_ge.
  - by apply elem_of_list_filter.
  - rewrite (List.filter_length_le p). rewrite length_take. lia.
Qed.

Lemma todo_drop snaps k order :
  (∀ id, id ∈ take k order → has_today snaps now id = true) →
  todo snaps (drop k order) = todo snaps order.
Proof.
  intros Hk. transitivity (todo snaps (take k order ++ drop k order)); [|by rewrite take_drop].
  unfold todo. rewrite List.filter_app, (list_filter_none _ (take k order)); [done|].
  intros x Hx. by rewrite (Hk x Hx).
Qed.

Lemma snapshot_loop_spec order batch_size fuel k snaps total :
  NoDup order → (0 < batch_size)%nat → (length order - k < fuel)%nat →
  (∀ id, id ∈ take k order → has_today snaps now id = true) →
  snapshot_loop fuel d order now batch_size k snaps total
  = Some ((total + length (todo snaps order))%nat,
          snaps ++ map (snapshot_of d now) (todo snaps order)).
Proof.
  intros Hnd Hb. revert k snaps total. induction fuel as [|fuel IH]; intros k snaps total Hf Hk; [lia|].
  cbn [snapshot_loop]. fold (todo snaps (drop k order)). rewrite (todo_drop _ _ _ Hk).
  set (T := todo snaps order). set (batch := take batch_size T).
  set (k' := (k + length (take batch_size (drop k order)))%nat).
  assert (∀ id, id ∈ take k' order →
            has_today (snaps ++ map (snapshot_of d now) batch) now id = true) as Hk'.
  { intros id Hid. rewrite has_today_app. unfold k' in Hid.
    rewrite <-take_take_drop, length_take in Hid. apply elem_of_app in Hid as [Hid|Hid].
    - by rewrite Hk.
    - destruct (has_today snaps now id) eqn:E; [done|]. apply bool_decide_eq_true_2.
      unfold batch, T. rewrite <-(todo_drop _ _ _ Hk). unfold todo.
      apply filter_take_sub; [|by rewrite E].
      by rewrite Nat.min_comm, <-take_take in Hid; apply (subseteq_take) in Hid. }
  pose proof (todo_take snaps batch_size order Hnd) as Hrest. fold T batch in Hrest.
  destruct (Nat.eqb_spec (length batch) 0) as [E|E]; [|destruct (Nat.leb_spec (length order) k') as [L|L]];
    cbn [orb].
  - assert (T = []) as HT.
    { unfold batch in E. rewrite length_take in E. apply nil_length_inv. lia. }
    rewrite E, HT. unfold batch. rewrite HT. by destruct batch_size.
  - assert (T = batch) as <-; [|done].
    assert (drop batch_size T = []) as HT.
    { rewrite <-Hrest. apply list_filter_none. intros id Hid.
      rewrite Hk'; [done|]. by rewrite take_ge. }
    by rewrite <-(take_drop batch_size T), HT, app_nil_r at 1.
  - rewrite IH; [|unfold k' in *; rewrite length_take, length_drop in *; lia|done].
    rewrite Hrest, <-app_assoc, <-map_app. f_equal. f_equal.
    + unfold batch. rewrite length_take, length_drop. lia.
    + unfold batch. by rewrite take_drop.
Qed.

End daily.
(** The daily function does the whole day's work whatever the batch size:
    it ends, appends one snapshot, with the figures of now, for each balance
    that has none today and for no other, in the order of the table, and reports
    their number. *)
Theorem TakeBalanceSnapshots_daily d order now batch_size snaps :
  NoDup order → (0 < batch_size)%nat →
  ∃ n new, TakeBalanceSnapshots d order now batch_size snaps = Some (n, snaps ++ new)
    ∧ n = length new
    ∧ map sn_BalanceID new = todo now snaps order
    ∧ Forall (λ s, s = snapshot_of d now (sn_BalanceID s)) new
    ∧ todo now (snaps ++ new) order = [].
Proof.
  intros Hnd Hb. unfold TakeBalanceSnapshots.
  rewrite snapshot_loop_spec by (done || lia || (intros id Hid; by apply elem_of_nil in Hid)).
  eexists _, _. split; [reflexivity|]. split_and!.
  - by rewrite length_map.
  - rewrite map_map. apply map_id.
  - apply Forall_forall. intros s (id & -> & _)%list_elem_of_fmap. done.
  - rewrite todo_snapshots. apply list_filter_none. intros id Hid.
    apply bool_decide_eq_false_2. intros H. by apply H.
Qed.

Definition sample_rows : db :=
  empty_db <| db_balances :=
    {["a" := empty_balance <| b_BalanceID := "a" |> <| b_CreditBalance := Some 5 |>;
      "b" := empty_balance <| b_BalanceID := "b" |>; "c" := empty_balance <| b_BalanceID := "c" |>]} |>.

Lemma TakeBalanceSnapshots_daily_witness :
  let order := ["a"; "b"; "c"] in
  let snaps := [snapshot_of sample_rows 50 "b"] in
  NoDup order ∧ (0 < 1)%nat ∧
  ∃ n new, TakeBalanceSnapshots sample_rows order 70 1 snaps = Some (n, snaps ++ new)
    ∧ n = length new
    ∧ map sn_BalanceID new = todo 70 snaps order
    ∧ Forall (λ s, s = snapshot_of sample_rows 70 (sn_BalanceID s)) new
    ∧ todo 70 (snaps ++ new) order = [].
Proof.
  assert (NoDup ["a"; "b"; "c"]) as Hnd by (by apply (bool_decide_unpack _)).
  split; [exact Hnd|]. split; [lia|].
  apply (TakeBalanceSnapshots_daily sample_rows ["a"; "b"; "c"] 70 1
           [snapshot_of sample_rows 50 "b"]); [exact Hnd|lia].
Defined.

(** ** What the transactions of a period add up to *)

Definition is_applied (r : Transaction) : bool := String.eqb (t_Status r) "APPLIED".
Definition credited (id : string) (r : Transaction) : Z :=
  if is_applied r && String.eqb (t_Destination r) id then ival (t_PreciseAmount r) else 0.
Definition debited (id : string) (r : Transaction) : Z :=
  if is_applied r && String.eqb (t_Source r) id then ival (t_PreciseAmount r) else 0.

(** The sum of [f] over the rows effective after [lo] and up to [hi]. *)
Definition within (lo hi : time) (f : Transaction → Z) (rows : list Transaction) : Z :=
  sumZ (λ r, if (lo <? effective r) && (effective r <=? hi) then f r else 0) rows.

Lemma applyTransaction_sum id l acc :
  fold_left (applyTransaction id) l acc
  = (acc.1 + sumZ (λ r, if String.eqb (t_Destination r) id then ival (t_PreciseAmount r) else 0) l,
     acc.2 + sumZ (λ r, if String.eqb (t_Source r) id then ival (t_PreciseAmount r) else 0) l).
Proof.
  revert acc. induction l as [|r l IH]; intros [c e]; cbn [fold_left sumZ];
    [by rewrite !Z.add_0_r|].
  rewrite IH. unfold applyTransaction. cbn [fst snd].
  f_equal; case_match; lia.
Qed.

Lemma sumZ_filter {A} (p : A → bool) f (l : list A) :
  sumZ f (List.filter p l) = sumZ (λ x, if p x then f x else 0) l.
Proof. induction l as [|x l IH]; [done|]. cbn [List.filter sumZ]. destruct (p x); cbn [sumZ]; lia. Qed.

Lemma calculate_sum d id lo hi acc :
  calculateBalanceFromTransactions d id lo hi acc
  = (acc.1 + within lo hi (credited id) (db_transactions d),
     acc.2 + within lo hi (debited id) (db_transactions d)).
Proof.
  unfold calculateBalanceFromTransactions, fetchTransactions. rewrite applyTransaction_sum.
  rewrite !(sumZ_perm _ _ _ (order_asc_perm _ _)), !sumZ_filter. unfold within.
  f_equal; f_equal; apply sumZ_ext; intros r _; unfold touches, credited, debited, is_applied;
    destruct (String.eqb (t_Source r) id), (String.eqb (t_Destination r) id), (lo <? effective r),
      (effective r <=? hi), (String.eqb (t_Status r) "APPLIED"); reflexivity.
Qed.

Lemma within_split lo mid hi f rows :
  lo <= mid <= hi → within lo hi f rows = within lo mid f rows + within mid hi f rows.
Proof.
  intros H. unfold within. rewrite <-sumZ_add. apply sumZ_ext. intros r _.
  destruct (Z.ltb_spec lo (effective r)), (Z.leb_spec (effective r) hi),
    (Z.leb_spec (effective r) mid), (Z.ltb_spec mid (effective r)); simpl; lia.
Qed.

(** ** When a snapshot stands for the transactions before it *)

Definition snapshot_ok (rows : list Transaction) (s : Snapshot) : Prop :=
  0 <= sn_Time s
  ∧ sn_CreditBalance s = within 0 (sn_Time s) (credited (sn_BalanceID s)) rows
  ∧ sn_DebitBalance s = within 0 (sn_Time s) (debited (sn_BalanceID s)) rows.

Lemma recent_snapshot rows snaps id T :
  Forall (snapshot_ok rows) snaps → 0 <= T →
  let '(c, e, t) := getMostRecentSnapshot snaps id T in
  0 <= t <= T ∧ c = within 0 t (credited id) rows ∧ e = within 0 t (debited id) rows.
Proof.
  intros Hok HT. unfold getMostRecentSnapshot.
  destruct (head _) as [s|] eqn:Hh.
  - apply head_Some_elem_of in Hh. rewrite order_desc_perm, elem_of_list_filter in Hh.
    destruct Hh as [Hin [Hid%String.eqb_eq Ht]%andb_true_iff].
    rewrite Forall_forall in Hok. destruct (Hok s Hin) as (H0 & Hc & He). rewrite Hid in *.
    split; [lia|done].
  - split; [lia|].
    assert (∀ f, within 0 0 f rows = 0) as Hz; [|by rewrite !Hz].
    intros f. apply sumZ_zero. intros r _.
    destruct (Z.ltb_spec 0 (effective r)), (Z.leb_spec (effective r) 0); simpl; lia.
Qed.

(** The two ways of computing a past balance agree over good snapshots. *)
Lemma GetBalanceAtTime_agree d snaps id T b :
  Forall (snapshot_ok (db_transactions d)) snaps → 0 <= T →
  GetBalanceAtTime d snaps id T b = GetBalanceAtTime d [] id T true.
Proof.
  intros Hok HT. unfold GetBalanceAtTime. destruct (validateBalanceTimeParams id T) as [[]|e]; [|done].
  cbn [mbind result_bind]. destruct (getBalanceInfo d id) as [[cur at_]|e]; [|done].
  cbn [mbind result_bind]. destruct b; [done|].
  pose proof (recent_snapshot _ _ id T Hok HT) as Hs.
  destruct (getMostRecentSnapshot snaps id T) as [[c e] t]. destruct Hs as (Ht & -> & ->).
  rewrite !calculate_sum. cbn [fst snd].
  by rewrite <-!(within_split 0 t T) by lia.
Qed.

(** ** Histories

    The database with its snapshots and the clock.  A posting appends an APPLIED
    row and adds its amount to the accumulators it names, as a settled
    transaction does in [Ledger]; other writes leave the settled accumulators
    alone.  A posting is prompt if it takes effect after every snapshot there
    is, and not in the future. *)

Record hstate := mkHist {
  h_db : db;
  h_order : list string;      (* the balances by serial id *)
  h_snaps : list Snapshot;
  h_now : time;
}.

Definition credit_of (d : db) (id : string) : Z :=
  ival (b_CreditBalance (default empty_balance (db_balances d !! id))).
Definition debit_of (d : db) (id : string) : Z :=
  ival (b_DebitBalance (default empty_balance (db_balances d !! id))).

Definition prompt (st : hstate) (r : Transaction) : Prop :=
  0 < effective r <= h_now st ∧ Forall (λ s, sn_Time s < effective r) (h_snaps st).

Inductive hstep : hstate → hstate → Prop :=
| h_tick d order snaps now now' :
    now < now' → hstep (mkHist d order snaps now) (mkHist d order snaps now')
| h_create d order snaps now b id d' b' order' :
    ival (b_CreditBalance b) = 0 → ival (b_DebitBalance b) = 0 →
    id ∉ order → Datastore.CreateBalance d b id now = Ok (d', b') →
    (d' = d ∧ order' = order) ∨ (is_Some (db_balances d' !! id) ∧ order' = order ++ [id]) →
    hstep (mkHist d order snaps now) (mkHist d' order' snaps now)
| h_post d order snaps now r d' :
    is_applied r = true → t_Source r ∈ order → t_Destination r ∈ order →
    prompt (mkHist d order snaps now) r →
    db_transactions d' = db_transactions d ++ [r] →
    (∀ id, credit_of d' id = credit_of d id + credited id r
           ∧ debit_of d' id = debit_of d id + debited id r) →
    hstep (mkHist d order snaps now) (mkHist d' order snaps now)
| h_other d order snaps now rows d' :
    Forall (λ r, is_applied r = false) rows →
    db_transactions d' = db_transactions d ++ rows →
    (∀ id, credit_of d' id = credit_of d id ∧ debit_of d' id = debit_of d id) →
    hstep (mkHist d order snaps now) (mkHist d' order snaps now)
| h_snapshot d order snaps now batch_size n snaps' :
    (0 < batch_size)%nat →
    TakeBalanceSnapshots d order now batch_size snaps = Some (n, snaps') →
    hstep (mkHist d order snaps now) (mkHist d order snaps' now).

Definition h_init (now : time) : hstate := mkHist empty_db [] [] now.

Record hinv (st : hstate) : Prop := mkHinv {
  hi_now : 0 < h_now st;
  hi_order : NoDup (h_order st);
  hi_rows : Forall (λ r, is_applied r = true → 0 < effective r <= h_now st
                ∧ t_Source r ∈ h_order st ∧ t_Destination r ∈ h_order st) (db_transactions (h_db st));
  hi_sums : ∀ id, credit_of (h_db st) id = sumZ (credited id) (db_transactions (h_db st))
                  ∧ debit_of (h_db st) id = sumZ (debited id) (db_transactions (h_db st));
  hi_snaps : Forall (λ s, snapshot_ok (db_transactions (h_db st)) s ∧ sn_Time s <= h_now st) (h_snaps st);
}.

Lemma credited_applied id r : is_applied r = false → credited id r = 0 ∧ debited id r = 0.
Proof. unfold credited, debited. by intros ->. Qed.

Lemma within_app lo hi f rows rows' :
  within lo hi f (rows ++ rows') = within lo hi f rows + within lo hi f rows'.
Proof. apply sumZ_app. Qed.

Lemma within_zero lo hi f rows :
  Forall (λ r, f r = 0 ∨ ¬ (lo < effective r <= hi)) rows → within lo hi f rows = 0.
Proof.
  intros H. apply sumZ_zero. intros r Hr. rewrite Forall_forall in H. specialize (H r Hr).
  destruct (Z.ltb_spec lo (effective r)), (Z.leb_spec (effective r) hi); simpl; try done.
  destruct H as [H|H]; [done|lia].
Qed.

(** All of it, when every row that counts took effect by then. *)
Lemma within_all f hi rows :
  Forall (λ r, f r = 0 ∨ 0 < effective r <= hi) rows → within 0 hi f rows = sumZ f rows.
Proof.
  intros H. apply sumZ_ext. intros r Hr. rewrite Forall_forall in H.
  destruct (H r Hr) as [Hf|He].
  - rewrite Hf. by case_match.
  - rewrite (proj2 (andb_true_iff _ _)); [done|]. split; lia.
Qed.

Lemma snapshot_ok_app rows rows' s :
  snapshot_ok rows s →
  Forall (λ r, is_applied r = false ∨ sn_Time s < effective r) rows' →
  snapshot_ok (rows ++ rows') s.
Proof.
  intros (H0 & Hc & He) Hr. unfold snapshot_ok. rewrite !within_app, Hc, He.
  rewrite (within_zero 0 (sn_Time s) (credited _) rows'), (within_zero 0 (sn_Time s) (debited _) rows');
    [split; [done|]; split; lia|..];
    (eapply Forall_impl; [exact Hr|]); intros r [Hf|Ht];
    [left; by apply credited_applied|right; lia|left; by apply credited_applied|right; lia].
Qed.

(** A snapshot taken now stands for all the rows. *)
Lemma snapshot_of_ok st id :
  hinv st → snapshot_ok (db_transactions (h_db st)) (snapshot_of (h_db st) (h_now st) id).
Proof.
  intros [Hnow _ Hrows Hsums _]. destruct (Hsums id) as [Hc He].
  unfold snapshot_ok. cbn [snapshot_of sn_Time sn_CreditBalance sn_DebitBalance sn_BalanceID].
  fold (credit_of (h_db st) id) (debit_of (h_db st) id). rewrite Hc, He.
  split; [lia|]. split; symmetry; apply within_all; (eapply Forall_impl; [exact Hrows|]);
    intros r Hr; destruct (is_applied r) eqn:E;
    [right; by apply Hr|left; by apply credited_applied|right; by apply Hr|left; by apply credited_applied].
Qed.

Lemma CreateBalance_sums d b id now d' b' :
  ival (b_CreditBalance b) = 0 → ival (b_DebitBalance b) = 0 →
  Datastore.CreateBalance d b id now = Ok (d', b') →
  db_transactions d' = db_transactions d
  ∧ ((d' = d) ∨ db_balances d !! id = None ∧
     ∀ id', credit_of d' id' = (if bool_decide (id' = id) then 0 else credit_of d id')
       ∧ debit_of d' id' = (if bool_decide (id' = id) then 0 else debit_of d id')).
Proof.
  intros Hc He. unfold Datastore.CreateBalance. case_match; [by intros [= <- _]; auto|].
  case_bool_decide as Hid; [done|]. intros [= <- _]. split; [done|]. right.
  apply eq_None_not_Some in Hid. split; [done|]. intros id'. unfold credit_of, debit_of. cbn [set db_balances].
  case_bool_decide as Hx.
  - subst id'. rewrite !lookup_insert_eq. simpl. rewrite Hc, He. done.
  - by rewrite !lookup_insert_ne by done.
Qed.

Lemma hstep_inv st st' : hstep st st' → hinv st → hinv st'.
Proof.
  intros Hst Hinv. pose proof Hinv as [Hnow Hord Hrows Hsums Hsn].
  destruct Hst as [d order snaps now now' Hlt|d order snaps now b id d' b' order' Hc He Hid Hcr Hor
    |d order snaps now r d' Ha Hs Hd [Heff Hpr] Ht Hb|d order snaps now rows d' Ha Ht Hb
    |d order snaps now bs n snaps' Hbs Htk]; cbn [h_db h_order h_snaps h_now] in *.
  - split; cbn [h_db h_order h_snaps h_now]; [lia|done| |done|].
    + eapply Forall_impl; [exact Hrows|]. intros r Hr Ha. destruct (Hr Ha). split; [lia|done].
    + eapply Forall_impl; [exact Hsn|]. intros s [? ?]. split; [done|lia].
  - destruct (CreateBalance_sums d b id now d' b' Hc He Hcr) as [Ht Hsum].
    assert (∀ x, x ∈ order → x ∈ order') as Hsub.
    { intros x Hx. destruct Hor as [[_ ->]|[_ ->]]; [done|]. apply elem_of_app. by left. }
    split; cbn [h_db h_order h_snaps h_now]; [done| | | |by rewrite Ht].
    + destruct Hor as [[_ ->]|[_ ->]]; [done|]. apply NoDup_app. split; [done|].
      split; [|apply NoDup_singleton]. intros x Hx ->%list_elem_of_singleton. done.
    + rewrite Ht. eapply Forall_impl; [exact Hrows|]. intros r Hr Ha.
      destruct (Hr Ha) as (? & ? & ?). auto.
    + rewrite Ht. destruct Hsum as [->|[_ Hsum]]; [done|]. intros x. destruct (Hsum x) as [-> ->].
      case_bool_decide as Hx; [|apply Hsums]. subst x.
      rewrite !sumZ_zero; [done|..]; intros r Hr; rewrite Forall_forall in Hrows;
        unfold credited, debited; destruct (is_applied r) eqn:E; try done;
        destruct (Hrows r Hr E) as (_ & Hs & Hd); simpl; case_match eqn:Heq; try done;
        apply String.eqb_eq in Heq; by subst.
  - split; cbn [h_db h_order h_snaps h_now]; [done|done|..]; rewrite Ht.
    + apply Forall_app. split; [done|]. apply Forall_singleton. done.
    + intros x. rewrite !sumZ_app. cbn [sumZ]. destruct (Hb x), (Hsums x). lia.
    + rewrite Forall_forall in *. intros s Hin. destruct (Hsn s Hin). split; [|done].
      apply snapshot_ok_app; [done|]. apply Forall_singleton. right. by apply Hpr.
  - split; cbn [h_db h_order h_snaps h_now]; [done|done|..]; rewrite Ht.
    + apply Forall_app. split; [done|]. eapply Forall_impl; [exact Ha|]. intros r Hr. congruence.
    + intros x. rewrite !sumZ_app. destruct (Hb x) as [-> ->], (Hsums x) as [-> ->].
      rewrite !(sumZ_zero _ rows); [lia|..]; intros r Hr; rewrite Forall_forall in Ha;
        by apply credited_applied, Ha.
    + rewrite Forall_forall in *. intros s Hin. destruct (Hsn s Hin). split; [|done].
      apply snapshot_ok_app; [done|]. eapply Forall_impl; [exact Ha|]. by left.
  - unfold TakeBalanceSnapshots in Htk.
    rewrite snapshot_loop_spec in Htk by (done || lia || (intros x Hx; by apply elem_of_nil in Hx)).
    injection Htk as <- <-. split; cbn [h_db h_order h_snaps h_now]; try done.
    apply Forall_app. split; [done|]. apply Forall_forall.
    intros s (id & -> & _)%list_elem_of_fmap. split; [|done].
    apply (snapshot_of_ok (mkHist d order snaps now) id Hinv).
Qed.

Lemma h_init_inv now : 0 < now → hinv (h_init now).
Proof. intros H. split; [done|constructor|constructor|done|constructor]. Qed.

Lemma history_inv now st : 0 < now → rtc hstep (h_init now) st → hinv st.
Proof.
  intros Hn Hr. assert (hinv (h_init now)) as Hi by by apply h_init_inv. revert Hi.
  induction Hr as [|x y z Hxy _ IH]; [done|]. intros Hx. apply IH. by eapply hstep_inv.
Qed.

(** C35. Snapshots only save work.  In every prompt history, for each balance and
    each past or future time, the balance computed from the latest snapshot is
    the one computed from all transactions, whatever snapshots were taken; and
    from now on it is what the row of the balance holds. *)
Theorem GetBalanceAtTime_history now0 st id T :
  0 < now0 → rtc hstep (h_init now0) st → 0 <= T →
  GetBalanceAtTime (h_db st) (h_snaps st) id T false
  = GetBalanceAtTime (h_db st) (h_snaps st) id T true
  ∧ (h_now st <= T → ∀ fromSource b,
       GetBalanceAtTime (h_db st) (h_snaps st) id T fromSource = Ok b →
       b_CreditBalance b = Some (credit_of (h_db st) id)
       ∧ b_DebitBalance b = Some (debit_of (h_db st) id)
       ∧ b_Balance b = Some (credit_of (h_db st) id - debit_of (h_db st) id)).
Proof.
  intros Hn Hr HT. pose proof (history_inv _ _ Hn Hr) as [_ _ Hrows Hsums Hsn].
  assert (Forall (snapshot_ok (db_transactions (h_db st))) (h_snaps st)) as Hok.
  { eapply Forall_impl; [exact Hsn|]. by intros s [? _]. }
  split; [by rewrite !(GetBalanceAtTime_agree _ _ _ _ _ Hok HT)|].
  intros Hlate fromSource b. rewrite (GetBalanceAtTime_agree _ _ _ _ _ Hok HT).
  unfold GetBalanceAtTime. destruct (validateBalanceTimeParams id T) as [[]|e]; [|done].
  cbn [mbind result_bind]. destruct (getBalanceInfo _ id) as [[cur at_]|e]; [|done].
  cbn [mbind result_bind]. rewrite calculate_sum. cbn [fst snd]. intros [= <-].
  destruct (Hsums id) as [-> ->].
  rewrite !within_all, !Z.add_0_l; [done|..]; (eapply Forall_impl; [exact Hrows|]); intros r Hra;
    (destruct (is_applied r) eqn:E; [right; destruct (Hra E); lia|left; by apply credited_applied]).
Qed.

(** ** Concrete histories *)

(** The database after posting [r]. *)
Definition post_db (d : db) (r : Transaction) : db :=
  mkDB (map_imap (λ id b, Some (b
          <| b_CreditBalance := Some (ival (b_CreditBalance b) + credited id r) |>
          <| b_DebitBalance := Some (ival (b_DebitBalance b) + debited id r) |>)) (db_balances d))
    (db_transactions d ++ [r]) (db_outbox d).

Lemma post_db_sums d r id :
  is_Some (db_balances d !! t_Source r) → is_Some (db_balances d !! t_Destination r) →
  credit_of (post_db d r) id = credit_of d id + credited id r
  ∧ debit_of (post_db d r) id = debit_of d id + debited id r.
Proof.
  intros Hs Hd. unfold credit_of, debit_of. cbn [post_db db_balances].
  rewrite map_lookup_imap. destruct (db_balances d !! id) as [b|] eqn:Hid; [done|].
  simpl. unfold credited, debited.
  rewrite (proj2 (String.eqb_neq (t_Source r) id)), (proj2 (String.eqb_neq (t_Destination r) id)).
  - by rewrite !andb_false_r.
  - intros <-. destruct Hd. congruence.
  - intros <-. destruct Hs. congruence.
Qed.

Definition row (id : string) (amount : Z) (at_ : time) : Transaction :=
  empty_transaction <| t_TransactionID := id |> <| t_Source := "a" |> <| t_Destination := "b" |>
    <| t_PreciseAmount := Some amount |> <| t_Status := "APPLIED" |>
    <| t_CreatedAt := at_ |> <| t_EffectiveDate := Some at_ |>.

Definition created (d : db) (id : string) : db :=
  match Datastore.CreateBalance d empty_balance id 1 with Ok (d, _) => d | Err _ => d end.
Definition ex_base : db := created (created empty_db "a") "b".
Definition ex_one : db := post_db ex_base (row "t1" 7 5).
Definition ex_snaps : list Snapshot :=
  match TakeBalanceSnapshots ex_one ["a"; "b"] 10 1 [] with Some (_, s) => s | None => [] end.
Definition ex_two : db := post_db ex_one (row "t2" 30 15).
Definition ex_hist : hstate := mkHist ex_two ["a"; "b"] ex_snaps 20.

Lemma create_step d order snaps id :
  id ∉ order → is_ok (Datastore.CreateBalance d empty_balance id 1) = true →
  is_Some (db_balances (created d id) !! id) →
  hstep (mkHist d order snaps 1) (mkHist (created d id) (order ++ [id]) snaps 1).
Proof.
  intros Hid Hok Hin. unfold created in *.
  destruct (Datastore.CreateBalance d empty_balance id 1) as [[d' b']|e] eqn:E; [|done].
  eapply (h_create _ _ _ _ empty_balance id d' b'); [done|done|done|exact E|by right].
Qed.

Lemma post_step d order snaps now r :
  is_applied r && bool_decide (t_Source r ∈ order) && bool_decide (t_Destination r ∈ order)
  && bool_decide (is_Some (db_balances d !! t_Source r))
  && bool_decide (is_Some (db_balances d !! t_Destination r))
  && (0 <? effective r) && (effective r <=? now)
  && forallb (λ s, sn_Time s <? effective r) snaps = true →
  hstep (mkHist d order snaps now) (mkHist (post_db d r) order snaps now).
Proof.
  rewrite !andb_true_iff, !bool_decide_eq_true, forallb_forall.
  intros [[[[[[[Ha Hs] Hd] Ls] Ld] H0] H1] Hf].
  apply (h_post _ _ _ _ r); [done..| |done|intros id; by apply post_db_sums].
  split; [cbn; lia|]. apply Forall_forall. intros s Hin.
  apply Z.ltb_lt, Hf. by apply list_elem_of_In.
Qed.

Lemma ex_hist_reachable : rtc hstep (h_init 1) ex_hist.
Proof.
  eapply rtc_l.
  { apply (create_step empty_db [] [] "a"); [by apply (bool_decide_unpack _)|done|by eexists]. }
  eapply rtc_l.
  { apply (create_step (created empty_db "a") ["a"] [] "b");
      [by apply (bool_decide_unpack _)|done|by eexists]. }
  eapply rtc_l; [by apply (h_tick _ _ _ 1 10)|].
  eapply rtc_l.
  { apply (post_step ex_base ["a"; "b"] [] 10 (row "t1" 7 5)); vm_compute; reflexivity. }
  eapply rtc_l.
  { apply (h_snapshot ex_one ["a"; "b"] [] 10 1 2 ex_snaps); [lia|vm_compute; reflexivity]. }
  eapply rtc_l; [by apply (h_tick _ _ _ 10 20)|].
  eapply rtc_l; [|apply rtc_refl].
  apply (post_step ex_one ["a"; "b"] ex_snaps 20 (row "t2" 30 15)); vm_compute; reflexivity.
Qed.

Lemma GetBalanceAtTime_history_witness :
  rtc hstep (h_init 1) ex_hist ∧
  GetBalanceAtTime (h_db ex_hist) (h_snaps ex_hist) "b" 25 false
  = GetBalanceAtTime (h_db ex_hist) (h_snaps ex_hist) "b" 25 true
  ∧ (h_now ex_hist <= 25 → ∀ fromSource b,
       GetBalanceAtTime (h_db ex_hist) (h_snaps ex_hist) "b" 25 fromSource = Ok b →
       b_CreditBalance b = Some (credit_of (h_db ex_hist) "b")
       ∧ b_DebitBalance b = Some (debit_of (h_db ex_hist) "b")
       ∧ b_Balance b = Some (credit_of (h_db ex_hist) "b" - debit_of (h_db ex_hist) "b")).
Proof.
  split; [apply ex_hist_reachable|].
  apply (GetBalanceAtTime_history 1 ex_hist "b" 25); [lia|apply ex_hist_reachable|lia].
Defined.

Example snapshot_then_row :
  (b_CreditBalance <$> GetBalanceAtTime ex_two ex_snaps "b" 12 false) = Ok (Some 7)
  ∧ (b_CreditBalance <$> GetBalanceAtTime ex_two ex_snaps "b" 25 false) = Ok (Some 37).
Proof. vm_compute. done. Qed.

(** A transaction is stamped with its effective date when it is queued.  One
    that was queued before a snapshot and settled after it is in neither the
    snapshot nor the rows read after it. *)
Lemma queued_transaction_missed :
  let d := post_db ex_one (row "t2" 30 8) in
  (b_CreditBalance <$> GetBalanceAtTime d ex_snaps "b" 25 false) = Ok (Some 7)
  ∧ (b_CreditBalance <$> GetBalanceAtTime d ex_snaps "b" 25 true) = Ok (Some 37)
  ∧ credit_of d "b" = 37.
Proof. vm_compute. done. Qed.

(** A transaction with an effective date ahead of the next snapshot is in the
    snapshot already and is added again. *)
Lemma future_transaction_counted_twice :
  let d := post_db ex_base (row "t1" 7 15) in
  match TakeBalanceSnapshots d ["a"; "b"] 10 1 [] with
  | Some (_, snaps) =>
      (b_CreditBalance <$> GetBalanceAtTime d snaps "b" 12 false) = Ok (Some 7)
      ∧ (b_CreditBalance <$> GetBalanceAtTime d snaps "b" 12 true) = Ok (Some 0)
      ∧ (b_CreditBalance <$> GetBalanceAtTime d snaps "b" 20 false) = Ok (Some 14)
      ∧ credit_of d "b" = 7
  | None => False
  end.
Proof. vm_compute. done. Qed.

End Snapshots.
