(* ===== verification/Monitors.v ===== *)
(** * Balance monitors

    [balance.go], [database/balance.go]: monitors are rows that name a balance
    and a condition on one of its figures.  After each commit the monitors of
    every balance it changed are read, through a cache with a lifetime of five
    minutes, and those whose condition holds are sent to a webhook. *)

From S2P Require Import Prelude Float64 Types Balances.
Import Balances.

Module Monitors.

(** [ms_balances] are the ids of [blnk.balances], which the table refers to;
    the cache keeps each list with the time it expires. *)
Record mstore := mkMStore {
  ms_rows : list BalanceMonitor;
  ms_cache : gmap string (list BalanceMonitor * time);
  ms_balances : gset string;
}.
#[global] Instance mstore_eta : Eta mstore := λ s, mkMStore (ms_rows s) (ms_cache s) (ms_balances s).
#[global] Instance monitor_eta : Eta BalanceMonitor := λ m,
  mkBalanceMonitor (m_MonitorID m) (m_BalanceID m) (m_Description m) (m_CallBackURL m)
    (m_CreatedAt m) (m_Condition m).
#[global] Instance condition_eta : Eta AlertCondition := λ c,
  mkAlertCondition (a_Value c) (a_Precision c) (a_PreciseValue c) (a_Field c) (a_Operator c).

Abbreviation B := (prog mstore).

(** ** The columns of [blnk.balance_monitors] *)

Definition fits_int64 (z : Z) : bool := (- 2 ^ 63 <=? z) && (z <? 2 ^ 63).

(** [value] is a BIGINT: the text of a float must be that of an integer. *)
Definition bigint_value (x : float64) : bool :=
  Float64.eqb (Float64.of_Z (Float64.to_int x)) x && fits_int64 (Float64.to_int x).

Definition monitor_fields : list string :=
  ["debit_balance"; "credit_balance"; "balance"; "inflight_debit_balance";
   "inflight_credit_balance"; "inflight_balance"].
Definition monitor_operators : list string := [">"; "<"; ">="; "<="; "="; "!="].

(** The CHECK constraints and column types. *)
Definition condition_ok (c : AlertCondition) : bool :=
  bool_decide (a_Field c ∈ monitor_fields) && bool_decide (a_Operator c ∈ monitor_operators)
  && bigint_value (a_Value c).

Definition db_error (msg : string) : error := EAPI "INTERNAL_SERVER_ERROR" msg.
Definition monitor_not_found (id : string) : error :=
  EAPI "NOT_FOUND" ("Monitor with ID '" +:+ id +:+ "' not found").

(** ** database/balance.go *)

Definition insert_monitor (new_id : string) (now : time) (monitor : BalanceMonitor) : B BalanceMonitor := λ s,
  let cond := m_Condition monitor in
  let precise := ival (a_PreciseValue cond) in
  let monitor := monitor <| m_MonitorID := new_id |> <| m_CreatedAt := now |>
                   <| m_Condition := cond <| a_PreciseValue := Some precise |> |> in
  if negb (condition_ok cond && fits_int64 precise) then (s, Err (db_error "Database error occurred"))
  else if existsb (λ r, String.eqb (m_MonitorID r) new_id) (ms_rows s)
  then (s, Err (EAPI "CONFLICT" "Monitor with this ID already exists"))
  else if negb (bool_decide (m_BalanceID monitor ∈ ms_balances s))
  then (s, Err (EAPI "BAD_REQUEST" "Invalid balance ID"))
  else (s <| ms_rows := ms_rows s ++ [monitor] |>, Ok monitor).

Definition GetMonitorByID (id : string) : B BalanceMonitor := λ s,
  (s, match List.find (λ r, String.eqb (m_MonitorID r) id) (ms_rows s) with
      | Some r => Ok r
      | None => Err (monitor_not_found id)
      end).

(** The list leaves out precision and precise value. *)
Definition GetAllMonitors (s : mstore) : list BalanceMonitor :=
  map (λ r, r <| m_Condition := (m_Condition r) <| a_Precision := Float64.zero |>
                                              <| a_PreciseValue := None |> |>) (ms_rows s).

Definition GetBalanceMonitors (s : mstore) (balanceID : string) : list BalanceMonitor :=
  List.filter (λ r, String.eqb (m_BalanceID r) balanceID) (ms_rows s).

(** The columns an update writes; not precision and precise value. *)
Definition updated_monitor (r monitor : BalanceMonitor) : BalanceMonitor :=
  r <| m_BalanceID := m_BalanceID monitor |>
    <| m_Description := m_Description monitor |>
    <| m_CallBackURL := m_CallBackURL monitor |>
    <| m_Condition := (m_Condition r) <| a_Field := a_Field (m_Condition monitor) |>
                                    <| a_Operator := a_Operator (m_Condition monitor) |>
                                    <| a_Value := a_Value (m_Condition monitor) |> |>.

Definition update_monitor (monitor : BalanceMonitor) : B unit := λ s,
  if negb (bigint_value (a_Value (m_Condition monitor))) then (s, Err (db_error "Failed to update monitor"))
  else if negb (existsb (λ r, String.eqb (m_MonitorID r) (m_MonitorID monitor)) (ms_rows s))
  then (s, Err (monitor_not_found (m_MonitorID monitor)))
  else if negb (condition_ok (m_Condition monitor) && bool_decide (m_BalanceID monitor ∈ ms_balances s))
  then (s, Err (db_error "Failed to update monitor"))
  else (s <| ms_rows := map (λ r, if String.eqb (m_MonitorID r) (m_MonitorID monitor)
                                  then updated_monitor r monitor else r) (ms_rows s) |>, Ok tt).

Definition delete_monitor (id : string) : B unit := λ s,
  if existsb (λ r, String.eqb (m_MonitorID r) id) (ms_rows s)
  then (s <| ms_rows := List.filter (λ r, negb (String.eqb (m_MonitorID r) id)) (ms_rows s) |>, Ok tt)
  else (s, Err (monitor_not_found id)).

(** ** The cache

    A read or write of Redis may fail; the code then goes on without it. *)

Record cache_faults := mkCF { get_fails : bool; set_fails : bool; delete_fails : bool }.

Definition ttl : Z := 300 * 1000000000.

Definition cache_get (cf : cache_faults) (now : time) (s : mstore) (balanceID : string)
    : option (list BalanceMonitor) :=
  if get_fails cf then None
  else match ms_cache s !! balanceID with
       | Some (l, expiry) => if now <? expiry then Some l else None
       | None => None
       end.

Definition cache_set (cf : cache_faults) (now : time) (balanceID : string) (l : list BalanceMonitor)
    (s : mstore) : mstore :=
  if set_fails cf then s else s <| ms_cache := <[balanceID := (l, now + ttl)]> (ms_cache s) |>.

Definition cache_delete (cf : cache_faults) (balanceID : string) : B unit := λ s,
  (if delete_fails cf then s else s <| ms_cache := delete balanceID (ms_cache s) |>, Ok tt).

(** ** balance.go *)

Definition CreateMonitor (cf : cache_faults) (new_id : string) (now : time) (monitor : BalanceMonitor)
    : B BalanceMonitor :=
  let cond := m_Condition monitor in
  let amount := Float64.to_int (Float64.mul (a_Value cond) (a_Precision cond)) in
  monitor ← insert_monitor new_id now
              (monitor <| m_Condition := cond <| a_PreciseValue := Some amount |> |>);
  _ ← cache_delete cf (m_BalanceID monitor);
  mret monitor.

Definition UpdateMonitor (cf : cache_faults) (monitor : BalanceMonitor) : B unit :=
  _ ← update_monitor monitor;
  cache_delete cf (m_BalanceID monitor).

Definition DeleteMonitor (cf : cache_faults) (id : string) : B unit :=
  monitor ← GetMonitorByID id;
  _ ← delete_monitor id;
  cache_delete cf (m_BalanceID monitor).

Definition getBalanceMonitorsCached (cf : cache_faults) (now : time) (balanceID : string)
    : B (list BalanceMonitor) := λ s,
  match cache_get cf now s balanceID with
  | Some monitors => (s, Ok monitors)
  | None =>
      let monitors := GetBalanceMonitors s balanceID in
      (cache_set cf now balanceID monitors s, Ok monitors)
  end.

(** The monitors whose condition holds, or the panic of a nil figure. *)
Fixpoint met (monitors : list BalanceMonitor) (b : Balance) : result (list BalanceMonitor) :=
  match monitors with
  | [] => Ok []
  | m :: monitors =>
      match CheckCondition m b with
      | None => Err (EPanic "invalid memory address or nil pointer dereference")
      | Some c => rest ← met monitors b; Ok (if c : bool then m :: rest else rest)
      end
  end.

(** The webhooks sent for an updated balance. *)
Definition checkBalanceMonitors (cf : cache_faults) (now : time) (updatedBalance : Balance)
    : B (list BalanceMonitor) :=
  monitors ← getBalanceMonitorsCached cf now (b_BalanceID updatedBalance);
  lift (met monitors updatedBalance).

(** ** The cache holds what the table holds

    as long as its deletions succeed and an update leaves a monitor on its
    balance. *)

Definition coherent (s : mstore) : Prop :=
  map_Forall (λ id l, l.1 = GetBalanceMonitors s id) (ms_cache s).

Inductive op : Type :=
| OCreate (new_id : string) (now : time) (monitor : BalanceMonitor)
| OUpdate (monitor : BalanceMonitor)
| ODelete (id : string)
| OCheck (now : time) (b : Balance).

Definition run_op (cf : cache_faults) (o : op) (s : mstore) : mstore :=
  match o with
  | OCreate new_id now monitor => (CreateMonitor cf new_id now monitor s).1
  | OUpdate monitor => (UpdateMonitor cf monitor s).1
  | ODelete id => (DeleteMonitor cf id s).1
  | OCheck now b => (checkBalanceMonitors cf now b s).1
  end.

(** An update does not move the monitor to another balance. *)
Definition stays (o : op) (s : mstore) : Prop :=
  match o with
  | OUpdate monitor => ∀ r, r ∈ ms_rows s → m_MonitorID r = m_MonitorID monitor →
      m_BalanceID r = m_BalanceID monitor
  | _ => True
  end.

(** States after operations, each with its own failures of the cache. *)
Inductive reach (s0 : mstore) : mstore → Prop :=
| reach_start : reach s0 s0
| reach_op s cf o : reach s0 s → delete_fails cf = false → stays o s → reach s0 (run_op cf o s).

(** Dropping an entry makes up for a change to that balance's monitors. *)
Lemma coherent_delete s s' id :
  coherent s → ms_cache s' = delete id (ms_cache s) →
  (∀ id', id' ≠ id → GetBalanceMonitors s' id' = GetBalanceMonitors s id') → coherent s'.
Proof.
  intros Hc Hcache Hrows id' l. rewrite Hcache, lookup_delete_Some. intros [Hne Hl].
  rewrite Hrows by done. by apply Hc.
Qed.

Lemma filter_map_same {A} (p q : A → bool) (f : A → A) l :
  (∀ x, x ∈ l → q x = true → p (f x) = false ∧ p x = false) →
  List.filter p (map (λ x, if q x then f x else x) l) = List.filter p l.
Proof.
  induction l as [|x l IH]; intros H; [done|]. cbn [map List.filter].
  rewrite IH by (intros y Hy; apply H; by apply list_elem_of_further).
  destruct (q x) eqn:Hq; [|done].
  destruct (H x (list_elem_of_here _ _) Hq) as [-> ->]. done.
Qed.

Lemma insert_monitor_cases new_id now m s :
  (insert_monitor new_id now m s).1 = s ∧ is_ok (insert_monitor new_id now m s).2 = false
  ∨ ∃ r, insert_monitor new_id now m s = (s <| ms_rows := ms_rows s ++ [r] |>, Ok r).
Proof. unfold insert_monitor. repeat (case_match; [by left|]). right. by eexists. Qed.

Lemma CreateMonitor_coherent cf new_id now m s :
  delete_fails cf = false → coherent s → coherent (CreateMonitor cf new_id now m s).1.
Proof.
  intros Hd Hc. unfold CreateMonitor, mbind, prog_bind.
  match goal with |- context [insert_monitor new_id now ?m' s] =>
    destruct (insert_monitor_cases new_id now m' s) as [[H1 H2]|[r H]] end.
  - destruct (insert_monitor _ _ _ s) as [s' [x|e]]; simpl in *; by subst.
  - rewrite H. unfold cache_delete. rewrite Hd. cbn [fst].
    apply (coherent_delete s _ (m_BalanceID r)); [done|done|].
    intros id' Hne.
    transitivity (List.filter (λ r, String.eqb (m_BalanceID r) id') (ms_rows s ++ [r])); [done|].
    rewrite List.filter_app. cbn [List.filter].
    rewrite (proj2 (String.eqb_neq (m_BalanceID r) id')) by congruence. apply app_nil_r.
Qed.

Lemma UpdateMonitor_coherent cf m s :
  delete_fails cf = false → stays (OUpdate m) s → coherent s → coherent (UpdateMonitor cf m s).1.
Proof.
  intros Hd Hst Hc. unfold UpdateMonitor, mbind, prog_bind, update_monitor.
  destruct (negb (bigint_value _)); [done|]. destruct (negb (existsb _ _)); [done|].
  destruct (negb (_ && _)); [done|]. unfold cache_delete. rewrite Hd. cbn [fst].
  apply (coherent_delete s _ (m_BalanceID m)); [done|done|].
  intros id' Hne. unfold GetBalanceMonitors. cbn [ms_rows set].
  apply filter_map_same. intros r Hr Hid%String.eqb_eq.
  change (m_BalanceID (updated_monitor r m)) with (m_BalanceID m). rewrite (Hst r Hr Hid).
  split; apply String.eqb_neq; congruence.
Qed.

Lemma delete_filter_same id b' (l : list BalanceMonitor) m :
  NoDup (map m_MonitorID l) → m ∈ l → m_MonitorID m = id → m_BalanceID m ≠ b' →
  List.filter (λ r, String.eqb (m_BalanceID r) b')
    (List.filter (λ r, negb (String.eqb (m_MonitorID r) id)) l)
  = List.filter (λ r, String.eqb (m_BalanceID r) b') l.
Proof.
  intros Hnd Hm Hid Hb. induction l as [|r l IH]; [done|]. cbn [map List.filter].
  cbn [map] in Hnd. apply NoDup_cons in Hnd as [Hr Hnd].
  apply elem_of_cons in Hm as [<-|Hm].
  - rewrite Hid, String.eqb_refl. cbn [negb].
    rewrite (proj2 (String.eqb_neq (m_BalanceID m) b')) by done.
    f_equal. apply list_filter_all. intros x Hx.
    rewrite (proj2 (String.eqb_neq (m_MonitorID x) id)); [done|]. intros E. apply Hr.
    rewrite Hid, <-E. by apply list_elem_of_fmap_2.
  - rewrite (proj2 (String.eqb_neq (m_MonitorID r) id)).
    + cbn [negb List.filter]. by rewrite IH.
    + intros E. apply Hr. rewrite E, <-Hid. by apply list_elem_of_fmap_2.
Qed.

Lemma find_monitor id (l : list BalanceMonitor) r :
  List.find (λ r, String.eqb (m_MonitorID r) id) l = Some r → r ∈ l ∧ m_MonitorID r = id.
Proof. intros [H1 H2%String.eqb_eq]%find_some. by rewrite list_elem_of_In. Qed.

Definition ids_unique (s : mstore) : Prop := NoDup (map m_MonitorID (ms_rows s)).

Lemma DeleteMonitor_coherent cf id s :
  delete_fails cf = false → ids_unique s → coherent s → coherent (DeleteMonitor cf id s).1.
Proof.
  intros Hd Hu Hc. unfold DeleteMonitor, mbind, prog_bind, GetMonitorByID.
  destruct (List.find _ (ms_rows s)) as [m|] eqn:Hf; [|done].
  destruct (find_monitor _ _ _ Hf) as [Hm Hid].
  unfold delete_monitor. destruct (existsb _ _); [|done]. unfold cache_delete. rewrite Hd. cbn [fst].
  apply (coherent_delete s _ (m_BalanceID m)); [done|done|].
  intros id' Hne.
  by apply (delete_filter_same id id' (ms_rows s) m).
Qed.

Lemma check_coherent cf now b s : coherent s → coherent (checkBalanceMonitors cf now b s).1.
Proof.
  intros Hc. unfold checkBalanceMonitors, mbind, prog_bind, getBalanceMonitorsCached, lift.
  destruct (cache_get cf now s (b_BalanceID b)); [done|]. cbn [fst]. unfold cache_set.
  destruct (set_fails cf); [done|]. by apply map_Forall_insert_2.
Qed.

(** *** Ids stay unique *)

Lemma run_op_ids cf o s : ids_unique s → ids_unique (run_op cf o s).
Proof.
  intros Hu. unfold ids_unique. destruct o as [new_id now m|m|id|now b]; cbn [run_op].
  - unfold CreateMonitor, mbind, prog_bind.
    match goal with |- context [insert_monitor new_id now ?m' s] =>
      set (mon := m'); destruct (insert_monitor new_id now mon s) as [s' r] eqn:E end.
    assert (NoDup (map m_MonitorID (ms_rows s'))) as Hs'.
    { unfold insert_monitor in E. repeat (case_match; [by injection E as <- <-|]).
      injection E as <- <-. cbn [ms_rows set]. rewrite map_app. cbn [map].
      apply NoDup_app. split; [done|]. split; [|apply NoDup_singleton].
      intros x Hx ->%list_elem_of_singleton. cbn in *.
      match goal with H : existsb _ _ = false |- _ => rename H into Hex end.
      apply list_elem_of_fmap in Hx as (y & Hy & Hin).
      assert (existsb (λ r, String.eqb (m_MonitorID r) new_id) (ms_rows s) = true); [|congruence].
      apply existsb_exists. exists y. rewrite list_elem_of_In in Hin. split; [done|].
      by apply String.eqb_eq. }
    destruct r; [|done]. unfold cache_delete. by destruct (delete_fails cf).
  - unfold UpdateMonitor, mbind, prog_bind, update_monitor.
    destruct (negb (bigint_value _)); [done|]. destruct (negb (existsb _ _)); [done|].
    destruct (negb (_ && _)); [done|]. unfold cache_delete. destruct (delete_fails cf); cbn [fst ms_rows set];
      (rewrite map_map; erewrite map_ext; [exact Hu|]; intros r; by case_match).
  - unfold DeleteMonitor, mbind, prog_bind, GetMonitorByID.
    destruct (List.find _ _); [|done]. unfold delete_monitor. destruct (existsb _ _); [|done].
    unfold cache_delete. destruct (delete_fails cf); cbn [fst ms_rows set]; by apply NoDup_map_filter.
  - unfold checkBalanceMonitors, mbind, prog_bind, getBalanceMonitorsCached, lift.
    destruct (cache_get _ _ _ _); [done|]. cbn [fst]. unfold cache_set. by destruct (set_fails cf).
Qed.

Lemma reach_inv s0 s : ids_unique s0 → coherent s0 → reach s0 s → ids_unique s ∧ coherent s.
Proof.
  intros Hu Hc. induction 1 as [|s cf o _ [IHu IHc] Hd Hst]; [done|]. split; [by apply run_op_ids|].
  destruct o as [new_id now m|m|id|now b]; cbn [run_op].
  - by apply CreateMonitor_coherent.
  - by apply UpdateMonitor_coherent.
  - by apply DeleteMonitor_coherent.
  - by apply check_coherent.
Qed.

(** The webhooks of an updated balance, by the table. *)
Definition due (s : mstore) (b : Balance) : list BalanceMonitor :=
  List.filter (λ m, bool_decide (CheckCondition m b = Some true))
    (GetBalanceMonitors s (b_BalanceID b)).

Definition figures_present (b : Balance) : Prop :=
  is_Some (b_DebitBalance b) ∧ is_Some (b_CreditBalance b) ∧ is_Some (b_Balance b)
  ∧ is_Some (b_InflightDebitBalance b) ∧ is_Some (b_InflightCreditBalance b)
  ∧ is_Some (b_InflightBalance b).

Definition precise (m : BalanceMonitor) : Prop := is_Some (a_PreciseValue (m_Condition m)).

Lemma CheckCondition_total m b : figures_present b → precise m → is_Some (CheckCondition m b).
Proof.
  intros ([? H1] & [? H2] & [? H3] & [? H4] & [? H5] & [? H6]) [? Hp].
  unfold CheckCondition, compare. rewrite H1, H2, H3, H4, H5, H6, Hp.
  repeat case_match; by eexists.
Qed.

Lemma met_filter l b :
  figures_present b → Forall precise l →
  met l b = Ok (List.filter (λ m, bool_decide (CheckCondition m b = Some true)) l).
Proof.
  intros Hb. induction 1 as [|m l Hm _ IH]; [done|]. cbn [met List.filter].
  destruct (CheckCondition_total m b Hb Hm) as [c ->]. rewrite IH. by destruct c.
Qed.

Definition all_precise (s : mstore) : Prop := Forall precise (ms_rows s).

Lemma run_op_precise cf o s : all_precise s → all_precise (run_op cf o s).
Proof.
  intros Hp. unfold all_precise in *. destruct o as [new_id now m|m|id|now b]; cbn [run_op].
  - unfold CreateMonitor, mbind, prog_bind.
    match goal with |- context [insert_monitor new_id now ?m' s] =>
      set (mon := m'); destruct (insert_monitor new_id now mon s) as [s' r] eqn:E end.
    assert (Forall precise (ms_rows s')) as Hs'.
    { unfold insert_monitor in E. repeat (case_match; [by injection E as <- <-|]).
      injection E as <- <-. apply Forall_app. split; [done|]. apply Forall_singleton. by eexists. }
    destruct r; [|done]. unfold cache_delete. by destruct (delete_fails cf).
  - unfold UpdateMonitor, mbind, prog_bind, update_monitor.
    destruct (negb (bigint_value _)); [done|]. destruct (negb (existsb _ _)); [done|].
    destruct (negb (_ && _)); [done|]. unfold cache_delete.
    assert (Forall precise (map (λ r, if String.eqb (m_MonitorID r) (m_MonitorID m)
                                      then updated_monitor r m else r) (ms_rows s))).
    { apply Forall_map. eapply Forall_impl; [exact Hp|]. intros r Hr. by case_match. }
    by destruct (delete_fails cf).
  - unfold DeleteMonitor, mbind, prog_bind, GetMonitorByID.
    destruct (List.find _ _); [|done]. unfold delete_monitor. destruct (existsb _ _); [|done].
    assert (∀ q, Forall precise (List.filter q (ms_rows s))) as Hq.
    { intros q. apply Forall_forall. intros r [Hr _]%elem_of_list_filter.
      by apply (proj1 (Forall_forall _ _) Hp). }
    unfold cache_delete. destruct (delete_fails cf); apply Hq.
  - unfold checkBalanceMonitors, mbind, prog_bind, getBalanceMonitorsCached, lift.
    destruct (cache_get _ _ _ _); [done|]. cbn [fst]. unfold cache_set. by destruct (set_fails cf).
Qed.

Lemma reach_precise s0 s : all_precise s0 → reach s0 s → all_precise s.
Proof. intros H0. induction 1; [done|]. by apply run_op_precise. Qed.

Lemma cached_coherent cf now s id :
  coherent s → (getBalanceMonitorsCached cf now id s).2 = Ok (GetBalanceMonitors s id).
Proof.
  intros Hc. unfold getBalanceMonitorsCached, cache_get. destruct (get_fails cf); [done|].
  destruct (ms_cache s !! id) as [[l e]|] eqn:E; [|done]. destruct (now <? e); [|done].
  by rewrite <-(Hc id (l, e) E).
Qed.

Definition start (balances : gset string) : mstore := mkMStore [] ∅ balances.


(** ** A concrete table *)

Definition no_faults : cache_faults := mkCF false false false.

Definition asked (balance field operator : string) (value precision : Z) : BalanceMonitor :=
  mkBalanceMonitor "" balance "" "" 0
    (mkAlertCondition (Float64.of_Z value) (Float64.of_Z precision) None field operator).

Definition sample_balance (credit : Z) : Balance :=
  empty_balance <| b_BalanceID := "bln_1" |> <| b_Balance := Some credit |>
    <| b_CreditBalance := Some credit |> <| b_DebitBalance := Some 0 |>
    <| b_InflightBalance := Some 0 |> <| b_InflightCreditBalance := Some 0 |>
    <| b_InflightDebitBalance := Some 0 |>.

Definition two_monitors : mstore :=
  run_op no_faults (OCheck 5 (sample_balance 1))
    (run_op no_faults (OCreate "mon_2" 2 (asked "bln_1" "balance" ">" 50 100))
      (run_op no_faults (OCreate "mon_1" 1 (asked "bln_1" "credit_balance" ">=" 10 100))
        (start {["bln_1"; "bln_2"]}))).

Lemma two_monitors_reach : reach (start {["bln_1"; "bln_2"]}) two_monitors.
Proof. unfold two_monitors. repeat apply reach_op; [apply reach_start|done..]. Qed.


(** ** What goes wrong *)

Definition fired (r : result (list BalanceMonitor)) : list string :=
  match r with Ok l => map m_MonitorID l | Err _ => [] end.

(** An update changes the shown value and not the precise one that is compared:
    the monitor keeps firing at its old threshold. *)
Lemma update_keeps_old_threshold :
  let changed := (asked "bln_1" "credit_balance" ">=" 1000 100) <| m_MonitorID := "mon_1" |> in
  let s := (UpdateMonitor no_faults changed two_monitors).1 in
  is_ok (UpdateMonitor no_faults changed two_monitors).2 = true
  ∧ map (λ m, Float64.to_int (a_Value (m_Condition m))) (GetBalanceMonitors s "bln_1") = [1000; 50]
  ∧ fired (checkBalanceMonitors no_faults 9 (sample_balance 2000) s).2 = ["mon_1"].
Proof. vm_compute. done. Qed.

(** The table takes "=" for equality and the comparison only knows "==": no
    monitor can watch for equality. *)
Lemma equality_never_fires :
  (∀ m b, a_Operator (m_Condition m) = "=" → CheckCondition m b ≠ Some true)
  ∧ condition_ok (m_Condition (asked "bln_1" "balance" "=" 10 100)) = true
  ∧ ∀ cf new_id now m s, a_Operator (m_Condition m) = "==" →
      is_ok (CreateMonitor cf new_id now m s).2 = false.
Proof.
  split; [|split].
  - intros m b Ho. unfold CheckCondition, compare. rewrite Ho. repeat case_match; congruence.
  - vm_compute. done.
  - intros cf new_id now m s Ho. unfold CreateMonitor, mbind, prog_bind, insert_monitor.
    unfold condition_ok. cbn [m_Condition a_Operator set]. rewrite Ho.
    rewrite (bool_decide_eq_false_2 ("==" ∈ monitor_operators)) by (by apply (bool_decide_unpack _)).
    by rewrite !andb_false_r.
Qed.

(** The value column holds integers: a monitor on 10.5 cannot be created. *)
Lemma fractional_value_rejected :
  let m := asked "bln_1" "balance" ">" 0 100 in
  let m := m <| m_Condition := (m_Condition m) <| a_Value := Float64.of_ratio 21 2 |> |> in
  (CreateMonitor no_faults "mon_3" 3 m two_monitors).2 = Err (db_error "Database error occurred").
Proof. vm_compute. done. Qed.

(** A monitor moved to another balance goes on firing for the first one until
    the cached list of that balance expires. *)
Lemma moved_monitor_fires :
  let moved := (asked "bln_2" "credit_balance" ">=" 10 100) <| m_MonitorID := "mon_1" |> in
  let s := (UpdateMonitor no_faults moved two_monitors).1 in
  map m_MonitorID (due s (sample_balance 2000)) = []
  ∧ fired (checkBalanceMonitors no_faults 9 (sample_balance 2000) s).2 = ["mon_1"].
Proof. vm_compute. done. Qed.

End Monitors.
