(* ===== verification/BalanceQueries.v ===== *)
(** * The balance table beside the ledger path

    [balance.go], [database/balance.go]: listing balances, reading a pair, the
    unguarded update and the change of a balance's identity.  Lookup, creation
    and the guarded updates of the ledger are in [Datastore]. *)

From S2P Require Import Prelude Float64 Types Datastore Identities.
Import Datastore.

Module BalanceQueries.

(** What the list scans: no version, queued amounts, allocation or position columns. *)
Definition scan_listed (b : Balance) : Balance :=
  empty_balance <| b_BalanceID := b_BalanceID b |> <| b_Indicator := b_Indicator b |>
    <| b_Balance := b_Balance b |> <| b_CreditBalance := b_CreditBalance b |>
    <| b_DebitBalance := b_DebitBalance b |> <| b_InflightBalance := b_InflightBalance b |>
    <| b_InflightCreditBalance := b_InflightCreditBalance b |>
    <| b_InflightDebitBalance := b_InflightDebitBalance b |>
    <| b_Currency := b_Currency b |> <| b_LedgerID := b_LedgerID b |>
    <| b_IdentityID := b_IdentityID b |> <| b_CreatedAt := b_CreatedAt b |>
    <| b_MetaData := b_MetaData b |>.

(** Balances created at the same time come in no particular order. *)
Definition newest_first (d : db) : list Balance :=
  order_desc b_CreatedAt (map snd (map_to_list (db_balances d))).

Definition GetAllBalances (d : db) (limit offset : Z) : result (list Balance) :=
  if (limit <? 0) || (offset <? 0) then Err (ENew "pq: LIMIT and OFFSET must not be negative")
  else Ok (map scan_listed (limit_offset (Z.to_nat limit) (Z.to_nat offset) (newest_first d))).

Definition GetSourceDestination (d : db) (sourceId destinationId : string) : list Balance :=
  map (λ b, empty_balance <| b_BalanceID := b_BalanceID b |>
      <| b_Balance := b_Balance b |> <| b_CreditBalance := b_CreditBalance b |>
      <| b_DebitBalance := b_DebitBalance b |> <| b_Currency := b_Currency b |>
      <| b_LedgerID := b_LedgerID b |> <| b_CreatedAt := b_CreatedAt b |>
      <| b_MetaData := b_MetaData b |>)
    (List.filter (λ b, String.eqb (b_BalanceID b) sourceId || String.eqb (b_BalanceID b) destinationId)
       (map snd (map_to_list (db_balances d)))).

(** [UpdateBalance]: no version is compared or advanced. *)
Definition UpdateBalance (d : db) (b : Balance) : result db :=
  match db_balances d !! b_BalanceID b with
  | Some row =>
      Ok (d <| db_balances := <[b_BalanceID b := row
            <| b_Balance := b_Balance b |> <| b_CreditBalance := b_CreditBalance b |>
            <| b_DebitBalance := b_DebitBalance b |> <| b_Currency := b_Currency b |>
            <| b_LedgerID := b_LedgerID b |> <| b_CreatedAt := b_CreatedAt b |>
            <| b_MetaData := b_MetaData b |>]> (db_balances d) |>)
  | None => Err (EAPI "NOT_FOUND" ("Balance with ID '" +:+ b_BalanceID b +:+ "' not found"))
  end.

(** The tables of balances and identities. *)
Abbreviation tables := (db * Identities.istore)%type.

Definition update_balance_identity (balanceID identityID : string) : prog tables unit := λ '(d, s),
  if negb (bool_decide (is_Some (db_balances d !! balanceID)))
  then ((d, s), Err (EAPI "NOT_FOUND" ("Balance with ID '" +:+ balanceID +:+ "' not found")))
  else if negb (bool_decide (is_Some (Identities.is_rows s !! identityID)))
  then ((d, s), Err (EAPI "INTERNAL_SERVER_ERROR" "Failed to update balance identity"))
  else ((d <| db_balances := alter (λ b, b <| b_IdentityID := identityID |>) balanceID (db_balances d) |>,
         s), Ok tt).

(** Reads of either table. *)
Definition on_identities {A} (m : prog Identities.istore A) : prog tables A := λ '(d, s),
  let '(s, r) := m s in ((d, s), r).
Definition on_balances {A} (f : db → result A) : prog tables A := λ '(d, s), ((d, s), f d).

Definition UpdateBalanceIdentity (balanceID identityID : string) : prog tables unit :=
  _ ← ctx_err "identity validation failed" (on_identities (Identities.GetIdentityByID identityID));
  _ ← ctx_err "balance validation failed" (on_balances (λ d, GetBalanceByIDLite d balanceID));
  update_balance_identity balanceID identityID.

(** Both rows are there, or nothing changes; and then only the reference does. *)
Lemma UpdateBalanceIdentity_effect d s balanceID identityID :
  let '((d', s'), r) := UpdateBalanceIdentity balanceID identityID (d, s) in
  s' = s ∧
  (r = Ok tt ∧ is_Some (Identities.is_rows s !! identityID)
   ∧ (∃ b, db_balances d !! balanceID = Some b
       ∧ db_balances d' = <[balanceID := b <| b_IdentityID := identityID |>]> (db_balances d))
   ∧ db_transactions d' = db_transactions d
   ∨ is_ok r = false ∧ d' = d).
Proof.
  unfold UpdateBalanceIdentity, ctx_err, map_err, mbind, prog_bind, on_identities, on_balances,
    Identities.GetIdentityByID, GetBalanceByIDLite, update_balance_identity.
  destruct (Identities.is_rows s !! identityID) as [i|] eqn:Hi; [|by split; [|right]].
  destruct (db_balances d !! balanceID) as [b|] eqn:Hb; [|by split; [|right]].
  rewrite Hi, Hb. cbn [negb bool_decide]. rewrite !bool_decide_eq_true_2 by (by eexists). cbn [negb].
  split; [done|]. left. split_and!; [done|by eexists| |done]. exists b. split; [done|].
  cbn [db_balances set]. apply map_eq. intros k. destruct (decide (k = balanceID)) as [->|Hk].
  - by rewrite lookup_alter_eq, Hb, lookup_insert_eq.
  - by rewrite lookup_alter_ne, lookup_insert_ne by done.
Qed.

(** Pages of the list put together are the list. *)
Lemma GetAllBalances_pages d limit offset n :
  0 <= limit → 0 <= offset → 0 <= n →
  (∃ a b, GetAllBalances d limit offset = Ok a ∧ GetAllBalances d n (offset + limit) = Ok b
     ∧ GetAllBalances d (limit + n) offset = Ok (a ++ b)).
Proof.
  intros Hl Ho Hn. unfold GetAllBalances, limit_offset.
  rewrite !(proj2 (orb_false_iff _ _)) by lia. eexists _, _. split_and!; [done..|].
  rewrite <-map_app. f_equal. f_equal.
  rewrite (Z2Nat.inj_add limit n), (Z2Nat.inj_add offset limit) by done.
  rewrite <-drop_drop. generalize (drop (Z.to_nat offset) (newest_first d)) as l.
  intros l. by rewrite take_take_drop.
Qed.

End BalanceQueries.
