(* ===== verification/ApiKeys.v ===== *)
(** * API keys, scopes and the check every request passes

    [api/middleware/scope.go], [api/middleware/auth.go], [api/apikeys.go],
    [model/api_key.go], [database/api_key.go]: requests carry the master key or
    an API key; an API key has scopes and an owner and may itself create and
    revoke keys of its owner.  The tables keep bcrypt hashes; keys found by
    their prefix are cached for five minutes.  bcrypt is an interface, random
    bytes, ids and the time are arguments. *)

From S2P Require Import Prelude Float64 Types Time Encoding.
Import Encoding.

Module ApiKeys.

(** golang.org/x/crypto/bcrypt: hashing with a fresh salt, and checking. *)
Class Bcrypt := {
  GenerateFromPassword : string → string → result string;
  CompareHashAndPassword : string → string → bool;
  compare_generated : ∀ salt key h,
    GenerateFromPassword salt key = Ok h → CompareHashAndPassword h key = true;
}.

(** ** Scopes *)

Abbreviation Resource := string (only parsing).
Abbreviation Action := string (only parsing).

Definition ActionRead : Action := "read".
Definition ActionWrite : Action := "write".
Definition ActionDelete : Action := "delete".
Definition ActionAll : Action := "*".
Definition ResourceAll : Resource := "*".

(** A missing key of the Go map reads as the empty action. *)
Definition methodToAction (method : string) : Action :=
  if String.eqb method "GET" then ActionRead
  else if String.eqb method "HEAD" then ActionRead
  else if String.eqb method "POST" then ActionWrite
  else if String.eqb method "PUT" then ActionWrite
  else if String.eqb method "PATCH" then ActionWrite
  else if String.eqb method "DELETE" then ActionDelete
  else "".

Definition BuildScope (resource : Resource) (action : Action) : string := resource +:+ ":" +:+ action.

Definition ParseScope (scope : string) : Resource * Action :=
  match split ":" scope with
  | [r; a] => (r, a)
  | _ => ("", "")
  end.

(** One turn of the loop. *)
Definition scope_permits (resource : Resource) (action : Action) (scope : string) : bool :=
  let '(scopeResource, scopeAction) := ParseScope scope in
  if String.eqb scopeResource ResourceAll then
    String.eqb scopeAction ActionAll || String.eqb scopeAction action
  else if String.eqb scopeResource resource then
    String.eqb scopeAction ActionAll || String.eqb scopeAction action
  else false.

Definition HasPermission (scopes : list string) (resource : Resource) (method : string) : bool :=
  let action := methodToAction method in
  if String.eqb action "" then false
  else existsb (scope_permits resource action) scopes.

Definition ScopeCovers (grantedScope requestedScope : string) : bool :=
  let '(grantedResource, grantedAction) := ParseScope grantedScope in
  let '(requestedResource, requestedAction) := ParseScope requestedScope in
  if String.eqb grantedResource "" || String.eqb grantedAction ""
     || String.eqb requestedResource "" || String.eqb requestedAction "" then false
  else if String.eqb grantedResource ResourceAll then
    String.eqb grantedAction ActionAll || String.eqb grantedAction requestedAction
  else if negb (String.eqb grantedResource requestedResource) then false
  else String.eqb grantedAction ActionAll || String.eqb grantedAction requestedAction.

Definition CanGrantScopes (callerScopes requestedScopes : list string) : bool :=
  forallb (λ requestedScope, existsb (λ callerScope, ScopeCovers callerScope requestedScope) callerScopes)
    requestedScopes.

(** ** model.APIKey *)

Record APIKey := mkAPIKey {
  k_APIKeyID : string;
  k_Key : string;
  k_Name : string;
  k_OwnerID : string;
  k_Scopes : list string;
  k_ExpiresAt : time;
  k_CreatedAt : time;
  k_LastUsedAt : time;
  k_IsRevoked : bool;
  k_RevokedAt : option time;
}.
#[global] Instance APIKey_eta : Eta APIKey := λ k,
  mkAPIKey (k_APIKeyID k) (k_Key k) (k_Name k) (k_OwnerID k) (k_Scopes k) (k_ExpiresAt k)
    (k_CreatedAt k) (k_LastUsedAt k) (k_IsRevoked k) (k_RevokedAt k).

Definition IsValid (now : time) (k : APIKey) : bool := negb (k_IsRevoked k) && (now <? k_ExpiresAt k).

Definition HasScope (scope : string) (k : APIKey) : bool :=
  existsb (λ s, String.eqb s scope) (k_Scopes k).

(** What the outside supplies for a new key: 32 random bytes or the error of
    the generator, the id, the salt, the time. *)
Record key_env := mkKeyEnv {
  ke_random : result (list ascii);
  ke_id : string;
  ke_salt : string;
  ke_now : time;
}.

(** The URL alphabet replaces two characters of the standard one. *)
Definition url_char (c : ascii) : ascii :=
  if bool_decide (c = "+"%char) then "-"%char
  else if bool_decide (c = "/"%char) then "_"%char else c.

Definition GenerateKey (random : result (list ascii)) : result string :=
  b ← random; Ok (string_of_list_ascii (map url_char (encode b))).

Definition NewAPIKey (E : key_env) (name ownerID : string) (scopes : list string) (expiresAt : time)
    : result APIKey :=
  key ← GenerateKey (ke_random E);
  Ok (mkAPIKey (ke_id E) key name ownerID scopes expiresAt (ke_now E) 0 false None).

(** ** database/api_key.go *)

(** [key_prefix] came with a later migration and is NULL in older rows. *)
Record key_row := mkKeyRow { kr_key : APIKey; kr_prefix : option string }.
#[global] Instance key_row_eta : Eta key_row := λ r, mkKeyRow (kr_key r) (kr_prefix r).

(** The table, and the cache with the time each entry expires. *)
Record kstore := mkKStore {
  ks_rows : list key_row;
  ks_cache : gmap string (APIKey * time);
}.
#[global] Instance kstore_eta : Eta kstore := λ s, mkKStore (ks_rows s) (ks_cache s).

Abbreviation K := (prog kstore).

(** Whether a read, a write or a deletion in the cache fails. *)
Record cache_faults := mkCF { get_fails : bool; set_fails : bool; delete_fails : bool }.

Definition ttl : Z := 300 * 1000000000.

Definition ErrAPIKeyNotFound : error := ESentinel Prelude.ErrAPIKeyNotFound "api key not found".
Definition duplicate_key : error := ENew "pq: duplicate key value violates unique constraint".

Definition getKeyPrefix (key : string) : string :=
  if Nat.leb 16 (String.length key) then String.substring 0 16 key else key.

Definition getAPIKeyCacheKey (prefix : string) : string := "api_key:hash:" +:+ prefix.

Definition has_id (id : string) (r : key_row) : bool := String.eqb (k_APIKeyID (kr_key r)) id.
Definition owned (id ownerID : string) (r : key_row) : bool :=
  has_id id r && String.eqb (k_OwnerID (kr_key r)) ownerID.

Section datasource.
Context `{Bcrypt}.

Definition hashAPIKey (salt key : string) : result string := GenerateFromPassword salt key.
Definition verifyAPIKey (hashedKey plainKey : string) : bool := CompareHashAndPassword hashedKey plainKey.

(** The id and the hash are UNIQUE columns. *)
Definition insert_key (r : key_row) : K unit := λ s,
  if existsb (λ r', String.eqb (k_APIKeyID (kr_key r')) (k_APIKeyID (kr_key r))
                    || String.eqb (k_Key (kr_key r')) (k_Key (kr_key r))) (ks_rows s)
  then (s, Err duplicate_key)
  else (s <| ks_rows := ks_rows s ++ [r] |>, Ok tt).

Definition CreateAPIKey (E : key_env) (name ownerID : string) (scopes : list string) (expiresAt : time)
    : K APIKey :=
  apiKey ← lift (NewAPIKey E name ownerID scopes expiresAt);
  let plainTextKey := k_Key apiKey in
  let keyPrefix := getKeyPrefix plainTextKey in
  hashedKey ← ctx_err "failed to hash API key" (lift (hashAPIKey (ke_salt E) plainTextKey));
  let apiKey := apiKey <| k_Key := hashedKey |> in
  _ ← insert_key (mkKeyRow apiKey (Some keyPrefix));
  mret (apiKey <| k_Key := plainTextKey |>).

(** A miss and an error both leave the variable empty. *)
Definition cache_get (cf : cache_faults) (now : time) (cacheKey : string) (s : kstore) : option APIKey :=
  if get_fails cf then None
  else match ks_cache s !! cacheKey with
       | Some (k, expiry) => if now <? expiry then Some k else None
       | None => None
       end.

Definition cache_set (cf : cache_faults) (now : time) (cacheKey : string) (k : APIKey) (s : kstore) : kstore :=
  if set_fails cf then s else s <| ks_cache := <[cacheKey := (k, now + ttl)]> (ks_cache s) |>.

Definition cache_delete (cf : cache_faults) (cacheKey : string) (s : kstore) : kstore :=
  if delete_fails cf then s else s <| ks_cache := delete cacheKey (ks_cache s) |>.

(** The cached key, when it is the one asked for. *)
Definition cached_key (cf : cache_faults) (now : time) (key : string) (s : kstore) : option APIKey :=
  match cache_get cf now (getAPIKeyCacheKey (getKeyPrefix key)) s with
  | Some k => if negb (String.eqb (k_Key k) "") && verifyAPIKey (k_Key k) key then Some k else None
  | None => None
  end.

(** The loop over the rows with the prefix. *)
Definition find_candidate (key : string) (s : kstore) : option APIKey :=
  kr_key <$> List.find (λ r, bool_decide (kr_prefix r = Some (getKeyPrefix key))
                             && verifyAPIKey (k_Key (kr_key r)) key) (ks_rows s).

Definition GetAPIKey (cf : cache_faults) (now : time) (key : string) : K APIKey := λ s,
  match cached_key cf now key s with
  | Some k => (s, Ok k)
  | None =>
      match find_candidate key s with
      | Some k => (cache_set cf now (getAPIKeyCacheKey (getKeyPrefix key)) k s, Ok k)
      | None => (s, Err ErrAPIKeyNotFound)
      end
  end.

Definition revoke_row (now : time) (id ownerID : string) (r : key_row) : key_row :=
  if owned id ownerID r
  then r <| kr_key := (kr_key r) <| k_IsRevoked := true |> <| k_RevokedAt := Some now |> |>
  else r.

Definition RevokeAPIKey (cf : cache_faults) (now : time) (id ownerID : string) : K unit := λ s,
  match List.find (owned id ownerID) (ks_rows s) with
  | None => (s, Err ErrAPIKeyNotFound)
  | Some _ =>
      let s := s <| ks_rows := map (revoke_row now id ownerID) (ks_rows s) |> in
      match List.find (has_id id) (ks_rows s) with
      | Some r =>
          (match kr_prefix r with
           | Some p => cache_delete cf (getAPIKeyCacheKey p) s
           | None => s
           end, Ok tt)
      | None => (s, Ok tt)
      end
  end.

Definition touch_row (now : time) (id : string) (r : key_row) : key_row :=
  if has_id id r then r <| kr_key := (kr_key r) <| k_LastUsedAt := now |> |> else r.

Definition UpdateLastUsed (now : time) (id : string) : K unit := λ s,
  (s <| ks_rows := map (touch_row now id) (ks_rows s) |>, Ok tt).

Definition ListAPIKeys (ownerID : string) : K (list APIKey) := λ s,
  (s, Ok (order_desc k_CreatedAt
            (List.filter (λ k, String.eqb (k_OwnerID k) ownerID) (map kr_key (ks_rows s))))).

(** ** api/middleware/auth.go *)

Definition ResourceAPIKeys : Resource := "api-keys".

Definition pathToResource : list (string * Resource) :=
  [("ledgers", "ledgers"); ("balances", "balances"); ("accounts", "accounts");
   ("identities", "identities"); ("transactions", "transactions");
   ("balance-monitors", "balance-monitors"); ("hooks", "hooks"); ("api-keys", ResourceAPIKeys);
   ("search", "search"); ("reconciliation", "reconciliation"); ("metadata", "metadata");
   ("backup", "backup")].

Definition TrimPrefix (s p : string) : string :=
  if has_prefix p s then String.substring (String.length p) (String.length s - String.length p) s else s.

Definition getResourceFromPath (path : string) : Resource :=
  match split "/" (TrimPrefix path "/") with
  | [] => ""
  | part :: _ =>
      if String.eqb part "mocked-account" then "accounts"
      else if String.eqb part "multi-search" then "search"
      else if String.eqb part "refund-transaction" then "transactions"
      else match List.find (λ e, String.eqb e.1 part) pathToResource with
           | Some (_, resource) => resource
           | None => ""
           end
  end.

(** A request body as [json.Unmarshal] into a map finds it.  A number keeps its
    text until it is decoded. *)
Inductive raw : Type :=
| RNum (text : string)
| RVal (v : metaval).

Inductive request_body : Type :=
| BObject (fields : list (string * raw))
| BNull
| BOther   (* another JSON value, or no JSON *)
| BMarshalled (m : metadata).

Definition number (text : string) : metaval :=
  match Float64.parse_float text with Some x => MNum x | None => MNil end.

Definition raw_value (r : raw) : metaval :=
  match r with RNum text => number text | RVal v => v end.

(** A repeated key keeps its last value. *)
Definition body_map (fields : list (string * raw)) : metadata :=
  list_to_map (rev (map (λ '(k, r), (k, raw_value r)) fields)).

(** [metaData["BLNK_GENERATED_BY"] = apiKeyID] on an object's fields. *)
Definition generated_by (apiKeyID : string) (fields : list (string * metaval)) : metaval :=
  MObj (List.filter (λ f, negb (String.eqb f.1 "BLNK_GENERATED_BY")) fields
        ++ [("BLNK_GENERATED_BY", MStr apiKeyID)]).

Definition inject_map (apiKeyID : string) (bodyMap : metadata) : metadata :=
  <["meta_data" := generated_by apiKeyID
                     (match bodyMap !! "meta_data" with Some (MObj fields) => fields | _ => [] end)]>
    bodyMap.

(** The body the handler reads; [null] decodes to a nil map, whose assignment
    panics. *)
Definition injectAPIKeyToMetadata (apiKeyID : string) (body : request_body) : result request_body :=
  match body with
  | BObject fields => Ok (BMarshalled (inject_map apiKeyID (body_map fields)))
  | BMarshalled m => Ok (BMarshalled (inject_map apiKeyID m))
  | BNull => Err (EPanic "assignment to entry in nil map")
  | BOther => Ok BOther
  end.

Record request := mkRequest {
  rq_Method : string;
  rq_Path : string;
  rq_Key : string;   (* the X-Blnk-Key header *)
  rq_Body : option request_body;
}.

Record Configuration := mkConfiguration { Secure : bool; SecretKey : string }.

(** What the context of the request says of the caller. *)
Inductive principal : Type :=
| Anonymous
| Master
| Caller (k : APIKey).

Definition abortWithCode {A} (code message : string) : K A := raise (EAPI code message).

(** Who the request comes from and the body its handler reads; aborted requests
    are errors.  [conf] is [None] when it cannot be read. *)
Definition Authenticate (cf : cache_faults) (now : time) (conf : option Configuration) (rq : request)
    : K (principal * option request_body) :=
  if String.eqb (rq_Path rq) "/" || String.eqb (rq_Path rq) "/health"
     || String.eqb (rq_Path rq) "/metrics" then mret (Anonymous, rq_Body rq)
  else if match conf with Some c => negb (Secure c) | None => false end
  then mret (Anonymous, rq_Body rq)
  else if String.eqb (rq_Key rq) ""
  then abortWithCode "AUTH_MISSING_API_KEY" "Authentication required. Use X-Blnk-Key header"
  else if match conf with
          | Some c => negb (String.eqb (SecretKey c) "") && String.eqb (SecretKey c) (rq_Key rq)
          | None => false end
  then mret (Master, rq_Body rq)
  else
    apiKey ← map_err (λ _, EAPI "AUTH_INVALID_API_KEY" "Invalid API key") (GetAPIKey cf now (rq_Key rq));
    if negb (IsValid now apiKey)
    then abortWithCode "AUTH_EXPIRED_API_KEY" "API key is expired or revoked"
    else
      let resource := getResourceFromPath (rq_Path rq) in
      if String.eqb resource "" then abortWithCode "AUTH_UNKNOWN_RESOURCE" "Unknown resource type"
      else if negb (HasPermission (k_Scopes apiKey) resource (rq_Method rq))
      then abortWithCode "AUTH_INSUFFICIENT_PERMISSIONS"
             ("Insufficient permissions for " +:+ resource +:+ ":" +:+ methodToAction (rq_Method rq))
      else
        body ← (match rq_Body rq with
                | Some b => if String.eqb (rq_Method rq) "POST"
                            then b ← lift (injectAPIKeyToMetadata (k_APIKeyID apiKey) b); mret (Some b)
                            else mret (Some b)
                | None => mret None
                end : K (option request_body));
        mret (Caller apiKey, body).

(** ** api/apikeys.go *)

Definition isMasterKeyRequest (p : principal) : bool := match p with Master => true | _ => false end.
Definition currentAPIKeyPrincipal (p : principal) : option APIKey :=
  match p with Caller k => Some k | _ => None end.

Definition errAPIKeyOwnerRequired : error := EAPI "APIKEY_OWNER_REQUIRED" "owner is required".
Definition errAPIKeyCrossOwnerAccess : error :=
  EAPI "AUTH_CROSS_OWNER_ACCESS" "cannot manage API keys for another owner".
Definition errAPIKeyScopeEscalation : error :=
  EAPI "AUTH_SCOPE_ESCALATION" "cannot grant scopes broader than caller".
Definition errMissingAPIKeyPrincipal : error :=
  EAPI "AUTH_MISSING_PRINCIPAL" "authenticated API key principal missing".

Definition resolveAPIKeyOwner (isMaster : bool) (caller : option APIKey) (requestedOwner : string)
    (ownerRequired : bool) : result string :=
  if isMaster then
    if ownerRequired && String.eqb requestedOwner "" then Err errAPIKeyOwnerRequired
    else Ok requestedOwner
  else match caller with
       | None => Err errMissingAPIKeyPrincipal
       | Some k =>
           if negb (String.eqb requestedOwner "") && negb (String.eqb requestedOwner (k_OwnerID k))
           then Err errAPIKeyCrossOwnerAccess
           else Ok (k_OwnerID k)
       end.

Definition validateGrantedScopes (isMaster : bool) (caller : option APIKey) (requestedScopes : list string)
    : result unit :=
  if isMaster then Ok tt
  else match caller with
       | None => Err errMissingAPIKeyPrincipal
       | Some k => if CanGrantScopes (k_Scopes k) requestedScopes then Ok tt
                   else Err errAPIKeyScopeEscalation
       end.

(** [api/model.CreateAPIKeyRequest], every field of which is required; nil
    scopes are [None]. *)
Record CreateAPIKeyRequest := mkCreateAPIKeyRequest {
  cr_Name : string;
  cr_Scopes : option (list string);
  cr_Owner : string;
  cr_ExpiresAt : time;
}.

Definition bound (req : CreateAPIKeyRequest) : bool :=
  negb (String.eqb (cr_Name req) "") && bool_decide (is_Some (cr_Scopes req))
  && negb (String.eqb (cr_Owner req) "") && negb (is_zero_time (cr_ExpiresAt req)).

Definition api_CreateAPIKey (E : key_env) (p : principal) (req : CreateAPIKeyRequest) : K APIKey :=
  _ ← lift (fail_if (negb (bound req)) (EAPI "GEN_MALFORMED_REQUEST" "a required field is missing"));
  let isMaster := isMasterKeyRequest p in
  let caller := currentAPIKeyPrincipal p in
  let scopes := default [] (cr_Scopes req) in
  ownerID ← lift (resolveAPIKeyOwner isMaster caller (cr_Owner req) true);
  _ ← lift (validateGrantedScopes isMaster caller scopes);
  CreateAPIKey E (cr_Name req) ownerID scopes (cr_ExpiresAt req).

Definition api_ListAPIKeys (p : principal) (owner : string) : K (list APIKey) :=
  ownerID ← lift (resolveAPIKeyOwner (isMasterKeyRequest p) (currentAPIKeyPrincipal p) owner
                    (isMasterKeyRequest p));
  ListAPIKeys ownerID.

Definition api_RevokeAPIKey (cf : cache_faults) (now : time) (p : principal) (id owner : string) : K unit :=
  ownerID ← lift (resolveAPIKeyOwner (isMasterKeyRequest p) (currentAPIKeyPrincipal p) owner
                    (isMasterKeyRequest p));
  map_err (λ e, if bool_decide (e = ErrAPIKeyNotFound)
                then EAPI "APIKEY_NOT_FOUND" "API key not found" else e)
    (RevokeAPIKey cf now id ownerID).

End datasource.

(** ** api/middleware/middleware.go *)

Definition MetricsAuth (secure : bool) (token auth : string) : result unit :=
  if secure && String.eqb token "" then
    Err (EAPI "AUTH_METRICS_DISABLED" "Metrics endpoint unavailable: metrics_bearer_token must be configured when secure mode is enabled")
  else if String.eqb token "" then Ok tt
  else if String.eqb auth "" then
    Err (EAPI "AUTH_METRICS_TOKEN_REQUIRED" "Authorization required for metrics endpoint")
  else if negb (has_prefix "Bearer " auth) then
    Err (EAPI "AUTH_METRICS_TOKEN_REQUIRED" "Authorization header must use Bearer scheme")
  else if String.eqb (String.substring 7 (String.length auth - 7) auth) token then Ok tt
  else Err (EAPI "AUTH_INVALID_BEARER_TOKEN" "Invalid bearer token").

(** ** Scopes only narrow *)

Lemma eqb_or_wildcard a b : String.eqb a ActionAll || String.eqb a b = true → a = ActionAll ∨ a = b.
Proof. intros [H|H]%orb_true_iff; apply String.eqb_eq in H; auto. Qed.

Lemma scope_permits_spec resource action scope :
  action ≠ "" → scope_permits resource action scope = true ↔
    let '(r, a) := ParseScope scope in
    (r = ResourceAll ∨ r = resource) ∧ (a = ActionAll ∨ a = action).
Proof.
  intros Hne. unfold scope_permits. destruct (ParseScope scope) as [r a].
  destruct (String.eqb_spec r ResourceAll), (String.eqb_spec r resource),
    (String.eqb_spec a ActionAll), (String.eqb_spec a action); simpl; naive_solver.
Qed.

Lemma ScopeCovers_permits granted requested resource action :
  action ≠ "" → ScopeCovers granted requested = true →
  scope_permits resource action requested = true → scope_permits resource action granted = true.
Proof.
  intros Hne Hc. rewrite !scope_permits_spec by done. unfold ScopeCovers in Hc.
  destruct (ParseScope granted) as [gr ga], (ParseScope requested) as [rr ra].
  destruct (_ || _) eqn:Hempty in Hc; [done|].
  destruct (String.eqb_spec gr ResourceAll) as [->|Hgr].
  - apply eqb_or_wildcard in Hc. naive_solver.
  - destruct (String.eqb_spec gr rr) as [->|]; [|done]. apply eqb_or_wildcard in Hc.
    assert (rr ≠ ResourceAll) by done. naive_solver.
Qed.

Lemma existsb_elem {A} (p : A → bool) l : existsb p l = true ↔ ∃ x, x ∈ l ∧ p x = true.
Proof. rewrite existsb_exists. by setoid_rewrite <-list_elem_of_In. Qed.

Lemma HasPermission_spec scopes resource method :
  HasPermission scopes resource method = true ↔
  methodToAction method ≠ "" ∧
  ∃ scope, scope ∈ scopes ∧ scope_permits resource (methodToAction method) scope = true.
Proof.
  unfold HasPermission. destruct (String.eqb_spec (methodToAction method) "") as [->|Hne].
  - naive_solver.
  - rewrite existsb_elem. naive_solver.
Qed.

(** Scopes a caller may grant give nothing the caller has not. *)
Lemma CanGrantScopes_permits caller requested resource method :
  CanGrantScopes caller requested = true → HasPermission requested resource method = true →
  HasPermission caller resource method = true.
Proof.
  intros Hg. rewrite !HasPermission_spec. intros (Hne & scope & Hin & Hp). split; [done|].
  unfold CanGrantScopes in Hg. rewrite forallb_forall in Hg.
  apply list_elem_of_In, Hg, existsb_elem in Hin as (c & Hc & Hcov).
  exists c. split; [done|]. by eapply ScopeCovers_permits.
Qed.

(** A built scope reads back. *)
Lemma ParseScope_BuildScope r a :
  free_of ":" r = true → free_of ":" a = true → ParseScope (BuildScope r a) = (r, a).
Proof.
  intros Hr Ha. unfold ParseScope, BuildScope.
  change (r +:+ ":" +:+ a) with (r +:+ String ":" a).
  by rewrite split_first, split_free.
Qed.

(** ** The system: requests to the key routes, and any other request

    Each request runs in one step; the background update of the last use is a
    step of its own. *)

Section system.
Context `{Bcrypt}.

Definition serve {A} (cf : cache_faults) (now : time) (conf : option Configuration) (rq : request)
    (handler : principal → K A) : K A :=
  '(p, _) ← Authenticate cf now conf rq; handler p.

Inductive op : Type :=
| OCreate (E : key_env) (rq : request) (req : CreateAPIKeyRequest)
| ORevoke (rq : request) (id owner : string)
| OList (rq : request) (owner : string)
| OOther (rq : request)
| OTouch (id : string).

Definition run_op (cf : cache_faults) (now : time) (conf : option Configuration) (o : op) (s : kstore)
    : kstore :=
  match o with
  | OCreate E rq req => (serve cf now conf rq (λ p, api_CreateAPIKey E p req) s).1
  | ORevoke rq id owner => (serve cf now conf rq (λ p, api_RevokeAPIKey cf now p id owner) s).1
  | OList rq owner => (serve cf now conf rq (λ p, api_ListAPIKeys p owner) s).1
  | OOther rq => (serve cf now conf rq (λ _, mret tt) s).1
  | OTouch id => (UpdateLastUsed now id s).1
  end.

(** The key a step created at the request of the holder of the master key. *)
Definition master_grant (cf : cache_faults) (now : time) (conf : option Configuration) (o : op) (s : kstore)
    : list APIKey :=
  match o with
  | OCreate E rq req =>
      match Authenticate cf now conf rq s with
      | (s', Ok (Master, _)) => match (api_CreateAPIKey E Master req s').2 with
                                | Ok k => [k]
                                | Err _ => []
                                end
      | _ => []
      end
  | _ => []
  end.

(** Stores, the keys the master key granted so far, and the clock.  Deletions in
    the cache fail only when [lossy]. *)
Inductive reach (lossy : bool) : kstore → list APIKey → time → Prop :=
| reach_start t : reach lossy (mkKStore [] ∅) [] t
| reach_step s g t cf now conf o :
    reach lossy s g t → t <= now → (delete_fails cf = true → lossy = true) →
    reach lossy (run_op cf now conf o s) (g ++ master_grant cf now conf o s) now.

(** ** The invariant *)

(** What no operation changes of a key. *)
Definition core (k : APIKey) : string * string * string * list string * time :=
  (k_APIKeyID k, k_Key k, k_OwnerID k, k_Scopes k, k_ExpiresAt k).

(** A copy of a row's key that is not marked revoked outlives the revocation
    only where a deletion failed, and until [limit]. *)
Definition copy_of (lossy : bool) (k : APIKey) (limit : time) (r : key_row) : Prop :=
  core k = core (kr_key r) ∧
  (k_IsRevoked k = false → k_IsRevoked (kr_key r) = true →
   lossy = true ∧ ∃ t0, k_RevokedAt (kr_key r) = Some t0 ∧ limit <= t0 + ttl) ∧
  (k_IsRevoked k = true → k_IsRevoked (kr_key r) = true).

Definition within_grants (g : list APIKey) (r : key_row) : Prop :=
  ∀ resource method, HasPermission (k_Scopes (kr_key r)) resource method = true →
    ∃ k, k ∈ g ∧ k_OwnerID k = k_OwnerID (kr_key r)
         ∧ HasPermission (k_Scopes k) resource method = true.

Definition ids (s : kstore) : list string := map (λ r, k_APIKeyID (kr_key r)) (ks_rows s).

Record inv (lossy : bool) (s : kstore) (t : time) : Prop := {
  inv_ids : NoDup (ids s);
  inv_rows : ∀ r, r ∈ ks_rows s → k_IsRevoked (kr_key r) = true →
    ∃ t0, k_RevokedAt (kr_key r) = Some t0 ∧ t0 <= t;
  inv_cache : ∀ ck k e, ks_cache s !! ck = Some (k, e) → e <= t + ttl ∧
    ∃ r p, r ∈ ks_rows s ∧ kr_prefix r = Some p ∧ ck = getAPIKeyCacheKey p ∧ copy_of lossy k e r;
}.

Lemma cache_key_inj p q : getAPIKeyCacheKey p = getAPIKeyCacheKey q → p = q.
Proof. unfold getAPIKeyCacheKey. by intros ?%(inj (String.append _)). Qed.

Lemma inv_later lossy s t now : inv lossy s t → t <= now → inv lossy s now.
Proof.
  intros [Hi Hr Hc] Hle. split; [done| |].
  - intros r Hin Hrev. destruct (Hr r Hin Hrev) as (t0 & ? & ?). exists t0. split; [done|lia].
  - intros ck k e He. destruct (Hc ck k e He) as [? ?]. split; [lia|done].
Qed.

Lemma find_elem {A} (p : A → bool) l x : List.find p l = Some x → x ∈ l ∧ p x = true.
Proof. intros [? ?]%find_some. by rewrite list_elem_of_In. Qed.

Lemma find_candidate_spec key s k :
  find_candidate key s = Some k → ∃ r, r ∈ ks_rows s ∧ kr_prefix r = Some (getKeyPrefix key)
    ∧ verifyAPIKey (k_Key (kr_key r)) key = true ∧ k = kr_key r.
Proof.
  unfold find_candidate. intros (r & Hf & ->)%fmap_Some.
  apply find_elem in Hf as [Hin [Hp%bool_decide_eq_true Hv]%andb_true_iff]. by exists r.
Qed.

(** [k] answers a request with [key]: it is a copy of the key of a row [r] that
    [key] unlocks. *)
Definition answers (lossy : bool) (s : kstore) (now : time) (key : string) (k : APIKey) (r : key_row) : Prop :=
  r ∈ ks_rows s ∧ kr_prefix r = Some (getKeyPrefix key)
  ∧ verifyAPIKey (k_Key (kr_key r)) key = true
  ∧ copy_of lossy k (now + 1) r.

Lemma GetAPIKey_miss lossy s cf now key k :
  inv lossy s now → find_candidate key s = Some k →
  inv lossy (cache_set cf now (getAPIKeyCacheKey (getKeyPrefix key)) k s) now
  ∧ ∃ r, answers lossy s now key k r.
Proof.
  intros [Hi Hr Hc] (r & Hin & Hp & Hv & ->)%find_candidate_spec.
  assert (∀ e, copy_of lossy (kr_key r) e r) as Hcopy by (intros e; split_and!; [done|congruence|done]).
  split; [|by exists r]. unfold cache_set. destruct (set_fails cf); [done|].
  split; [done|done|]. cbn [ks_cache set]. intros ck k e Hl.
  apply lookup_insert_Some in Hl as [[<- [= <- <-]]|[_ Hl]]; [|by apply Hc].
  split; [lia|]. by exists r, (getKeyPrefix key).
Qed.

(** Looking a key up changes no row and gives a copy of a row's key. *)
Lemma GetAPIKey_spec lossy s cf now key :
  inv lossy s now →
  let out := GetAPIKey cf now key s in
  inv lossy out.1 now ∧ ks_rows out.1 = ks_rows s ∧
  ∀ k, out.2 = Ok k → ∃ r, answers lossy s now key k r.
Proof.
  intros Hinv. unfold GetAPIKey. destruct (cached_key cf now key s) as [k|] eqn:Hc.
  - split_and!; [done..|]. intros k' [= <-]. unfold cached_key, cache_get in Hc.
    destruct (get_fails cf); [done|].
    destruct (ks_cache s !! _) as [[k' e]|] eqn:Hl; [|done].
    destruct (now <? e) eqn:He; [|done]. destruct (negb _ && _) eqn:Hv; [|done].
    injection Hc as ->. apply andb_true_iff in Hv as [_ Hv].
    destruct (inv_cache _ _ _ Hinv _ _ _ Hl) as (_ & r & p & Hin & Hp & Hck%cache_key_inj & Hcore & Hrev & Hrev').
    subst p. exists r. split_and!; try done.
    + assert (k_Key k = k_Key (kr_key r)) as <- by (unfold core in Hcore; congruence). done.
    + split_and!; [done| |done]. intros H1 H2. destruct (Hrev H1 H2) as (-> & t0 & ? & ?). split; [done|].
      exists t0. split; [done|lia].
  - destruct (find_candidate key s) as [k|] eqn:Hf; [|done].
    destruct (GetAPIKey_miss lossy s cf now key k) as [? ?]; [done|done|]. cbn [fst snd].
    split_and!; [done|by unfold cache_set; destruct (set_fails cf)|]. by intros k' [= <-].
Qed.

(** ** Every operation keeps it *)

(** A change of rows in place that keeps cores, ids and prefixes, and whose
    revocations the cache has heard of. *)
Lemma inv_map_rows lossy s t f cache' :
  inv lossy s t →
  (∀ r, core (kr_key (f r)) = core (kr_key r) ∧ kr_prefix (f r) = kr_prefix r) →
  (∀ r, r ∈ ks_rows s → k_IsRevoked (kr_key (f r)) = true →
    ∃ t0, k_RevokedAt (kr_key (f r)) = Some t0 ∧ t0 <= t) →
  (∀ ck k e, cache' !! ck = Some (k, e) → ks_cache s !! ck = Some (k, e)) →
  (∀ r, k_IsRevoked (kr_key r) = true → k_IsRevoked (kr_key (f r)) = true) →
  (∀ r p k e, r ∈ ks_rows s → kr_prefix r = Some p → cache' !! getAPIKeyCacheKey p = Some (k, e) →
    k_IsRevoked k = false → copy_of lossy k e r → e <= t + ttl → copy_of lossy k e (f r)) →
  inv lossy (mkKStore (map f (ks_rows s)) cache') t.
Proof.
  intros [Hi Hr Hc] Hf Hrev Hsub Hmono Hcopy. split.
  - unfold ids in *. cbn [ks_rows]. rewrite map_map.
    rewrite (map_ext _ (λ r, k_APIKeyID (kr_key r))); [done|].
    intros r. destruct (Hf r) as [Hcore _]. unfold core in Hcore. congruence.
  - cbn [ks_rows]. intros r' (r & -> & Hin)%list_elem_of_fmap. by apply Hrev.
  - cbn [ks_rows ks_cache]. intros ck k e Hl. destruct (Hc _ _ _ (Hsub _ _ _ Hl)) as (He & r & p & Hin & Hp & -> & Hcp).
    split; [done|]. exists (f r), p. split_and!; [by apply list_elem_of_fmap_2|by rewrite (proj2 (Hf r))|done|].
    destruct (k_IsRevoked k) eqn:Hk.
    + split_and!; [|congruence|intros _; by apply Hmono, Hcp].
      by rewrite (proj1 (Hf r)), (proj1 Hcp).
    + by eapply Hcopy.
Qed.

Lemma same_id_same_row s r1 r2 :
  NoDup (ids s) → r1 ∈ ks_rows s → r2 ∈ ks_rows s →
  k_APIKeyID (kr_key r1) = k_APIKeyID (kr_key r2) → r1 = r2.
Proof. apply (NoDup_map_eq (λ r, k_APIKeyID (kr_key r))). Qed.

Lemma revoke_row_keeps now id owner r :
  core (kr_key (revoke_row now id owner r)) = core (kr_key r)
  ∧ kr_prefix (revoke_row now id owner r) = kr_prefix r
  ∧ k_APIKeyID (kr_key (revoke_row now id owner r)) = k_APIKeyID (kr_key r).
Proof. unfold revoke_row. by destruct (owned id owner r). Qed.

Lemma RevokeAPIKey_inv lossy s cf now id owner :
  (delete_fails cf = true → lossy = true) →
  inv lossy s now → inv lossy (RevokeAPIKey cf now id owner s).1 now.
Proof.
  intros Hd Hinv. unfold RevokeAPIKey. destruct (List.find (owned id owner) _) as [r0|] eqn:Hf; [|done].
  apply find_elem in Hf as [Hin0 [Hid0%String.eqb_eq _]%andb_true_iff].
  set (s1 := s <| ks_rows := _ |>).
  destruct (List.find (has_id id) (ks_rows s1)) as [r1|] eqn:Hf1; swap 1 2.
  { assert (has_id id (revoke_row now id owner r0) = true) as Hid.
    { unfold has_id. rewrite (proj2 (proj2 (revoke_row_keeps _ _ _ _))), Hid0. apply String.eqb_refl. }
    rewrite (find_none _ _ Hf1 (revoke_row now id owner r0)) in Hid; [done|].
    apply in_map. by apply list_elem_of_In. }
  apply find_elem in Hf1 as [(r1' & -> & Hin1)%list_elem_of_fmap Hid1%String.eqb_eq].
  rewrite (proj2 (proj2 (revoke_row_keeps _ _ _ _))) in Hid1.
  rewrite (proj1 (proj2 (revoke_row_keeps _ _ _ _))).
  assert (r1' = r0) as -> by (eapply same_id_same_row; [apply Hinv|done..|congruence]).
  set (s2 := match kr_prefix r0 with Some p => cache_delete cf (getAPIKeyCacheKey p) s1 | None => s1 end).
  assert (ks_rows s2 = map (revoke_row now id owner) (ks_rows s)) as Hrows
    by (unfold s2, cache_delete; by destruct (kr_prefix r0), (delete_fails cf)).
  assert (∀ ck k e, ks_cache s2 !! ck = Some (k, e) → ks_cache s !! ck = Some (k, e)) as Hsub.
  { unfold s2, cache_delete. intros ck k e.
    destruct (kr_prefix r0), (delete_fails cf); try done.
    cbn [ks_cache set]. by intros [? ?]%lookup_delete_Some. }
  cbn [fst]. replace s2 with (mkKStore (map (revoke_row now id owner) (ks_rows s)) (ks_cache s2))
    by (rewrite <-Hrows; by destruct s2).
  apply inv_map_rows; [done| | |done| |].
  - intros r. destruct (revoke_row_keeps now id owner r) as (? & ? & ?). done.
  - intros r Hin. unfold revoke_row. destruct (owned id owner r); [|by apply Hinv].
    intros _. exists now. split; [done|lia].
  - intros r. unfold revoke_row. by destruct (owned id owner r).
  - intros r p k e Hin Hp Hl Hk Hcopy He. unfold revoke_row.
    destruct (owned id owner r) eqn:Ho; [|done]. apply andb_true_iff in Ho as [Hid%String.eqb_eq _].
    assert (r = r0) as -> by (eapply same_id_same_row; [apply Hinv|done..|congruence]).
    split_and!; [exact (proj1 Hcopy)| |done]. intros _ _. unfold s2, cache_delete in Hl. rewrite Hp in Hl.
    destruct (delete_fails cf); [|by cbn [ks_cache set] in Hl; rewrite lookup_delete_eq in Hl].
    split; [by apply Hd|]. by exists now.
Qed.

Lemma UpdateLastUsed_inv lossy s now id : inv lossy s now → inv lossy (UpdateLastUsed now id s).1 now.
Proof.
  intros Hinv. destruct s as [rows c].
  apply (inv_map_rows lossy (mkKStore rows c) now (touch_row now id) c); [done| | |done| |].
  - intros r. unfold touch_row. by destruct (has_id id r).
  - intros r Hin. unfold touch_row. destruct (has_id id r); by apply (inv_rows _ _ _ Hinv r).
  - intros r. unfold touch_row. by destruct (has_id id r).
  - intros r p k e _ _ _ _ (H1 & H2 & H3) _. unfold touch_row. by destruct (has_id id r).
Qed.

Lemma insert_key_cases r s :
  insert_key r s = (s, Err duplicate_key)
  ∨ k_APIKeyID (kr_key r) ∉ ids s ∧ insert_key r s = (s <| ks_rows := ks_rows s ++ [r] |>, Ok tt).
Proof.
  unfold insert_key. destruct (existsb _ _) eqn:He; [by left|]. right. split; [|done].
  intros (r' & E & Hin)%list_elem_of_fmap. apply not_true_iff_false in He. apply He, existsb_elem.
  exists r'. split; [done|]. by rewrite <-E, String.eqb_refl.
Qed.

(** What a creation does: nothing, or one row the caller named. *)
Lemma CreateAPIKey_cases E name owner scopes expires s :
  let out := CreateAPIKey E name owner scopes expires s in
  out.1 = s ∧ is_ok out.2 = false
  ∨ ∃ k h, out.2 = Ok k ∧ k_OwnerID k = owner ∧ k_Scopes k = scopes ∧ k_APIKeyID k ∉ ids s
      ∧ verifyAPIKey h (k_Key k) = true ∧ k_ExpiresAt k = expires
      ∧ k_IsRevoked k = false
      ∧ out.1 = s <| ks_rows := ks_rows s ++ [mkKeyRow (k <| k_Key := h |>) (Some (getKeyPrefix (k_Key k)))] |>.
Proof.
  unfold CreateAPIKey, NewAPIKey, mbind, prog_bind, result_bind, lift, ctx_err, map_err.
  destruct (GenerateKey (ke_random E)) as [key|e]; [|by left]. cbn [k_Key].
  destruct (hashAPIKey (ke_salt E) key) as [h|e] eqn:Hh; [|by left].
  match goal with |- context [insert_key ?r s] => destruct (insert_key_cases r s) as [->|[Hnew ->]] end;
    [by left|].
  right. eexists _, h. split_and!; try done. by eapply compare_generated.
Qed.

Lemma insert_inv lossy s t r :
  inv lossy s t → k_APIKeyID (kr_key r) ∉ ids s → k_IsRevoked (kr_key r) = false →
  inv lossy (s <| ks_rows := ks_rows s ++ [r] |>) t.
Proof.
  intros [Hi Hr Hc] Hnew Hrev. split.
  - unfold ids. cbn [ks_rows set]. rewrite map_app. apply NoDup_app. split_and!; [done| |apply NoDup_singleton].
    intros x Hx ->%list_elem_of_singleton. done.
  - cbn [ks_rows set]. intros r' [Hin| ->%list_elem_of_singleton]%elem_of_app; [by apply Hr|congruence].
  - cbn [ks_rows ks_cache set]. intros ck k e Hl. destruct (Hc _ _ _ Hl) as (? & r' & p & ? & ?).
    split; [done|]. exists r', p. rewrite elem_of_app. naive_solver.
Qed.

Definition accepted (lossy : bool) (s : kstore) (now : time) (rq : request) (k : APIKey) : Prop :=
  (∃ r, answers lossy s now (rq_Key rq) k r) ∧ IsValid now k = true
  ∧ getResourceFromPath (rq_Path rq) ≠ ""
  ∧ HasPermission (k_Scopes k) (getResourceFromPath (rq_Path rq)) (rq_Method rq) = true.

Lemma Authenticate_spec lossy s cf now conf rq :
  inv lossy s now →
  let out := Authenticate cf now conf rq s in
  inv lossy out.1 now ∧ ks_rows out.1 = ks_rows s ∧
  ∀ k body, out.2 = Ok (Caller k, body) → accepted lossy s now rq k.
Proof.
  intros Hinv. unfold Authenticate.
  destruct (_ || _); [done|]. destruct (match conf with Some c => negb (Secure c) | None => false end); [done|].
  destruct (String.eqb _ ""); [done|]. destruct (match conf with Some _ => _ | None => false end); [done|].
  unfold mbind, prog_bind, map_err.
  destruct (GetAPIKey_spec lossy s cf now (rq_Key rq) Hinv) as (Hi & Hrows & Hk).
  destruct (GetAPIKey cf now (rq_Key rq) s) as [s1 [k|e]]; cbn [fst snd] in *; [|done].
  destruct (IsValid now k) eqn:Hv; cbn [negb]; [|done].
  destruct (String.eqb_spec (getResourceFromPath (rq_Path rq)) "") as [|Hres]; [done|].
  destruct (HasPermission _ _ _) eqn:Hp; cbn [negb]; [|done].
  assert (accepted lossy s now rq k) as Hacc by (split_and!; [by apply Hk|done..]).
  destruct (rq_Body rq) as [b|]; [|split_and!; [done..|]; by intros k' body [= <- _]].
  destruct (String.eqb (rq_Method rq) "POST"); [|split_and!; [done..|]; by intros k' body [= <- _]].
  unfold lift. destruct (injectAPIKeyToMetadata _ b); [|done].
  split_and!; [done..|]. by intros k' body [= <- _].
Qed.

(** A served request is turned away, or reaches its handler. *)
Lemma serve_cases {A} cf now conf rq (handler : principal → K A) s :
  (∃ e, serve cf now conf rq handler s = ((Authenticate cf now conf rq s).1, Err e))
  ∨ ∃ p body, (Authenticate cf now conf rq s).2 = Ok (p, body)
      ∧ serve cf now conf rq handler s = handler p (Authenticate cf now conf rq s).1.
Proof.
  unfold serve, mbind, prog_bind.
  destruct (Authenticate cf now conf rq s) as [s1 [[p body]|e]]; [right|left]; by repeat eexists.
Qed.

Lemma api_CreateAPIKey_cases E p req s :
  let out := api_CreateAPIKey E p req s in
  out.1 = s ∧ is_ok out.2 = false
  ∨ ∃ k h, out.2 = Ok k ∧ k_APIKeyID k ∉ ids s ∧ k_IsRevoked k = false
      ∧ out.1 = s <| ks_rows := ks_rows s ++ [mkKeyRow (k <| k_Key := h |>) (Some (getKeyPrefix (k_Key k)))] |>
      ∧ (p = Master ∨ ∃ c, p = Caller c ∧ k_OwnerID k = k_OwnerID c
                           ∧ CanGrantScopes (k_Scopes c) (k_Scopes k) = true).
Proof.
  unfold api_CreateAPIKey, mbind, prog_bind, lift.
  destruct (fail_if _ _) as [[]|e]; [|by left].
  destruct (resolveAPIKeyOwner _ _ _ _) as [owner|e] eqn:Ho; [|by left].
  destruct (validateGrantedScopes _ _ _) as [[]|e] eqn:Hs; [|by left].
  destruct (CreateAPIKey_cases E (cr_Name req) owner (default [] (cr_Scopes req)) (cr_ExpiresAt req) s)
    as [?|(k & h & -> & Hown & Hsc & Hid & _ & _ & Hrev & ->)]; [by left|].
  right. exists k, h. split_and!; [done..|].
  destruct p as [| |c]; [done|by left|right]. exists c. cbn in Ho, Hs. split; [done|].
  destruct (_ && _) in Ho; [done|]. injection Ho as <-.
  destruct (CanGrantScopes _ _) eqn:Hg in Hs; [|done]. by rewrite Hown, Hsc.
Qed.

Lemma api_RevokeAPIKey_inv lossy s cf now p id owner :
  (delete_fails cf = true → lossy = true) →
  inv lossy s now → inv lossy (api_RevokeAPIKey cf now p id owner s).1 now.
Proof.
  intros Hd Hinv. unfold api_RevokeAPIKey, mbind, prog_bind, lift, map_err.
  destruct (resolveAPIKeyOwner _ _ _ _) as [o|e]; [|done].
  pose proof (RevokeAPIKey_inv lossy s cf now id o Hd Hinv).
  by destruct (RevokeAPIKey cf now id o s) as [s' [[]|e]].
Qed.

Lemma serve_inv {A} lossy cf now conf rq (handler : principal → K A) s :
  inv lossy s now → (∀ p s', inv lossy s' now → inv lossy (handler p s').1 now) →
  inv lossy (serve cf now conf rq handler s).1 now.
Proof.
  intros Hinv Hh. pose proof (proj1 (Authenticate_spec lossy s cf now conf rq Hinv)) as Ha.
  destruct (serve_cases cf now conf rq handler s) as [[e ->]|(p & body & _ & ->)]; [done|by apply Hh].
Qed.

Lemma run_op_inv lossy s cf now conf o :
  inv lossy s now → (delete_fails cf = true → lossy = true) → inv lossy (run_op cf now conf o s) now.
Proof.
  intros Hinv Hd. destruct o as [E rq req|rq id owner|rq owner|rq|id]; cbn [run_op];
    [apply serve_inv; [done|]; intros p s' Hs..|by apply UpdateLastUsed_inv].
  - destruct (api_CreateAPIKey_cases E p req s') as [[-> _]|(k & h & _ & Hid & Hrev & -> & _)]; [done|].
    by apply insert_inv.
  - by apply api_RevokeAPIKey_inv.
  - unfold api_ListAPIKeys, mbind, prog_bind, lift. by destruct (resolveAPIKeyOwner _ _ _ _).
  - done.
Qed.

Lemma keys_reach_inv lossy s g t : reach lossy s g t → inv lossy s t.
Proof.
  induction 1 as [t|s g t cf now conf o _ IH Hle Hd].
  - split; [apply NoDup_nil_2|by intros r ?%not_elem_of_nil|done].
  - apply run_op_inv; [by eapply inv_later|done].
Qed.

(** Where the rows of a store come from after a step. *)
Definition old_row (s : kstore) (r' : key_row) : Prop :=
  ∃ r, r ∈ ks_rows s ∧ core (kr_key r') = core (kr_key r).

Lemma revoked_rows_old cf now p id owner s r' :
  r' ∈ ks_rows (api_RevokeAPIKey cf now p id owner s).1 → old_row s r'.
Proof.
  assert (r' ∈ ks_rows s → old_row s r') as Hsame by (intros; by exists r').
  unfold api_RevokeAPIKey, mbind, prog_bind, lift, map_err.
  destruct (resolveAPIKeyOwner _ _ _ _) as [o|e]; [|done].
  assert (r' ∈ ks_rows (RevokeAPIKey cf now id o s).1 → old_row s r') as Hrev.
  { unfold RevokeAPIKey. destruct (List.find _ _); [|done].
    intros Hin. cut (r' ∈ map (revoke_row now id o) (ks_rows s)).
    - intros (r & -> & Hr)%list_elem_of_fmap. exists r. split; [done|]. apply revoke_row_keeps.
    - destruct (List.find _ _) as [r1|]; [|done]. destruct (kr_prefix r1); [|done].
      unfold cache_delete in Hin. by destruct (delete_fails cf). }
  by destruct (RevokeAPIKey cf now id o s) as [s' [[]|e]].
Qed.

Lemma run_op_rows lossy s cf now conf o r' :
  inv lossy s now → r' ∈ ks_rows (run_op cf now conf o s) →
  old_row s r'
  ∨ ∃ k, k_OwnerID (kr_key r') = k_OwnerID k ∧ k_Scopes (kr_key r') = k_Scopes k
      ∧ (k ∈ master_grant cf now conf o s
         ∨ ∃ c r, r ∈ ks_rows s ∧ core c = core (kr_key r) ∧ k_OwnerID k = k_OwnerID c
                  ∧ CanGrantScopes (k_Scopes c) (k_Scopes k) = true).
Proof.
  intros Hinv. destruct (Authenticate_spec lossy s cf now conf (match o with
    | OCreate _ rq _ | ORevoke rq _ _ | OList rq _ | OOther rq => rq
    | OTouch _ => mkRequest "" "" "" None end) Hinv) as (_ & Hrows & Hacc).
  assert (∀ s', ks_rows s' = ks_rows s → r' ∈ ks_rows s' → old_row s r') as Hsame
    by (intros s' E ?; exists r'; by rewrite <-E).
  destruct o as [E rq req|rq id owner|rq owner|rq|id]; cbn [run_op master_grant].
  - intros Hin. unfold serve, mbind, prog_bind in Hin.
    destruct (Authenticate cf now conf rq s) as [s1 [[p body]|e]] eqn:Ha; cbn [fst snd] in *;
      [|left; by apply (Hsame s1)].
    destruct (api_CreateAPIKey_cases E p req s1)
      as [[Hs _]|(k & h & Hk & _ & _ & Hs & Hp)]; rewrite Hs in Hin; [left; by apply (Hsame s1)|].
    cbn [ks_rows set] in Hin. rewrite Hrows in Hin.
    apply elem_of_app in Hin as [Hin| ->%list_elem_of_singleton]; [left; by exists r'|].
    right. exists k. split_and!; [done..|]. destruct Hp as [->|(c & -> & Hown & Hg)].
    + left. rewrite Hk. by apply list_elem_of_singleton.
    + right. destruct (Hacc c body eq_refl) as [(r & Hr & _ & _ & Hcopy) _].
      exists c, r. split_and!; [done|exact (proj1 Hcopy)|done..].
  - intros Hin. destruct (serve_cases cf now conf rq (λ p, api_RevokeAPIKey cf now p id owner) s)
      as [[e Hs]|(p & body & Ha & Hs)]; rewrite Hs in Hin; [left; by eapply Hsame|].
    apply revoked_rows_old in Hin as (r & Hr & Hc). left. exists r. by rewrite <-Hrows.
  - intros Hin. left. apply (Hsame (run_op cf now conf (OList rq owner) s)); [|done].
    cbn [run_op]. destruct (serve_cases cf now conf rq (λ p, api_ListAPIKeys p owner) s)
      as [[e ->]|(p & body & _ & ->)]; [done|].
    unfold api_ListAPIKeys, mbind, prog_bind, lift. by destruct (resolveAPIKeyOwner _ _ _ _).
  - intros Hin. left. apply (Hsame (run_op cf now conf (OOther rq) s)); [|done].
    cbn [run_op]. by destruct (serve_cases cf now conf rq (λ _ : principal, mret tt : K unit) s)
      as [[e ->]|(p & body & _ & ->)].
  - cbn [UpdateLastUsed fst ks_rows set]. intros (r & -> & Hr)%list_elem_of_fmap. left. exists r.
    split; [done|]. unfold touch_row. by destruct (has_id id r).
Qed.

Lemma within_grants_core g g' r r' :
  g ⊆ g' → core (kr_key r') = core (kr_key r) → within_grants g r → within_grants g' r'.
Proof.
  intros Hsub Hcore Hr resource method Hp.
  assert (k_Scopes (kr_key r') = k_Scopes (kr_key r) ∧ k_OwnerID (kr_key r') = k_OwnerID (kr_key r))
    as [Hs Ho] by (unfold core in Hcore; split; congruence).
  rewrite Hs in Hp. destruct (Hr resource method Hp) as (k & ? & ? & ?).
  exists k. rewrite Ho. auto.
Qed.

Lemma reach_within lossy s g t :
  reach lossy s g t → ∀ r, r ∈ ks_rows s → within_grants g r.
Proof.
  induction 1 as [t|s g t cf now conf o Hreach IH Hle Hd]; [by intros r ?%not_elem_of_nil|].
  intros r' Hin. assert (inv lossy s now) as Hinv by (eapply inv_later; [by eapply keys_reach_inv|done]).
  destruct (run_op_rows lossy s cf now conf o r' Hinv Hin)
    as [(r & Hr & Hcore)|(k & Ho & Hs & [Hk|(c & r & Hr & Hcore & Hoc & Hg)])].
  - eapply within_grants_core; [|done|by apply IH]. apply list_subseteq_app_l. done.
  - intros resource method Hp. exists k. rewrite Ho, <-Hs. split_and!; [|done..].
    apply elem_of_app. by right.
  - assert (k_Scopes c = k_Scopes (kr_key r) ∧ k_OwnerID c = k_OwnerID (kr_key r)) as [Hsc Howc]
      by (unfold core in Hcore; split; congruence).
    intros resource method Hp. rewrite Hs in Hp.
    assert (HasPermission (k_Scopes (kr_key r)) resource method = true) as Hp'
      by (rewrite <-Hsc; by eapply CanGrantScopes_permits).
    destruct (IH r Hr resource method Hp') as (m & ? & ? & ?).
    exists m. split_and!; [apply elem_of_app; by left|congruence|done].
Qed.

(** C20. No chain of keys exceeds what the master key granted: whatever requests
    were served, with any failures of the cache, everything a stored key permits
    is permitted by a key of the same owner that the master key created. *)
Theorem keys_within_master_grants lossy s g t r resource method :
  reach lossy s g t → r ∈ ks_rows s →
  HasPermission (k_Scopes (kr_key r)) resource method = true →
  ∃ k, k ∈ g ∧ k_OwnerID k = k_OwnerID (kr_key r) ∧ HasPermission (k_Scopes k) resource method = true.
Proof. intros H1 H2 H3. by eapply reach_within. Qed.


(** Conversely a key works while its row is neither revoked nor expired, as long
    as no other row answers to it. *)
Lemma GetAPIKey_finds cf now key s r :
  r ∈ ks_rows s → kr_prefix r = Some (getKeyPrefix key) →
  verifyAPIKey (k_Key (kr_key r)) key = true → ∃ k, (GetAPIKey cf now key s).2 = Ok k.
Proof.
  intros Hin Hp Hv. unfold GetAPIKey. destruct (cached_key cf now key s) as [k|]; [by exists k|].
  unfold find_candidate. destruct (List.find _ _) as [r'|] eqn:Hf; [by eexists|].
  exfalso. apply list_elem_of_In in Hin. pose proof (find_none _ _ Hf r Hin) as Hn. cbn beta in Hn.
  rewrite Hv, andb_true_r in Hn. by apply bool_decide_eq_false in Hn.
Qed.

Lemma live_key_accepted lossy s g t cf now c rq r :
  reach lossy s g t → t <= now → r ∈ ks_rows s →
  kr_prefix r = Some (getKeyPrefix (rq_Key rq)) → verifyAPIKey (k_Key (kr_key r)) (rq_Key rq) = true →
  (∀ r', r' ∈ ks_rows s → verifyAPIKey (k_Key (kr_key r')) (rq_Key rq) = true → r' = r) →
  k_IsRevoked (kr_key r) = false → now < k_ExpiresAt (kr_key r) →
  Secure c = true → rq_Key rq ≠ "" → SecretKey c ≠ rq_Key rq → rq_Body rq ≠ Some BNull →
  getResourceFromPath (rq_Path rq) ≠ "" →
  HasPermission (k_Scopes (kr_key r)) (getResourceFromPath (rq_Path rq)) (rq_Method rq) = true →
  ∃ k body, (Authenticate cf now (Some c) rq s).2 = Ok (Caller k, body) ∧ core k = core (kr_key r).
Proof.
  intros Hr Hle Hin Hpre Hv Huniq Hrev Hexp Hsec Hne Hmaster Hbody Hres Hp.
  assert (inv lossy s now) as Hinv by (eapply inv_later; [by eapply keys_reach_inv|done]).
  destruct (GetAPIKey_finds cf now (rq_Key rq) s r Hin Hpre Hv) as [k Hk].
  destruct (proj2 (proj2 (GetAPIKey_spec lossy s cf now (rq_Key rq) Hinv)) k Hk)
    as (r' & Hr' & _ & Hv' & Hcore & _ & Hrev').
  rewrite (Huniq r' Hr' Hv') in Hcore, Hrev'.
  assert (k_Scopes k = k_Scopes (kr_key r) ∧ k_ExpiresAt k = k_ExpiresAt (kr_key r)) as [Hsc Hex]
    by (unfold core in Hcore; split; congruence).
  assert (IsValid now k = true) as Hvalid.
  { unfold IsValid. rewrite Hex. destruct (k_IsRevoked k); [by rewrite Hrev' in Hrev|]. cbn. lia. }
  unfold Authenticate.
  destruct (_ || _) eqn:Hpath.
  { rewrite !orb_true_iff, !String.eqb_eq in Hpath. destruct Hpath as [[E|E]|E]; by rewrite E in Hres. }
  rewrite Hsec. cbn [negb]. rewrite (proj2 (String.eqb_neq _ _) Hne), (proj2 (String.eqb_neq _ _) Hmaster), andb_false_r.
  unfold mbind, prog_bind, map_err. destruct (GetAPIKey cf now (rq_Key rq) s) as [s1 out].
  cbn [snd] in Hk. subst out. rewrite Hvalid. cbn [negb].
  rewrite (proj2 (String.eqb_neq _ _) Hres), Hsc, Hp. cbn [negb].
  assert (∀ body, ∃ k' body', Ok (Caller k, body : option request_body) = Ok (Caller k', body')
    ∧ core k' = core (kr_key r)) as Hdone by (intros body; by exists k, body).
  destruct (rq_Body rq) as [b|]; [|apply Hdone].
  destruct (String.eqb (rq_Method rq) "POST"); [|apply Hdone].
  destruct b; try apply Hdone. done.
Qed.

End system.

(** ** Examples, on a hash that keeps the text *)

#[local] Instance plain_hash : Bcrypt.
Proof.
  refine {| GenerateFromPassword := λ salt key, Ok (salt +:+ key);
            CompareHashAndPassword := λ h key, has_suffix h key |}.
  intros salt key h [= <-]. induction salt as [|c salt IH].
  - rewrite string_app_nil_l. destruct key; cbn; by rewrite ?String.eqb_refl, ?Ascii.eqb_refl.
  - rewrite string_app_cons. cbn [has_suffix]. by rewrite IH, orb_true_r.
Defined.

Definition no_faults : cache_faults := mkCF false false false.
Definition secured : option Configuration := Some (mkConfiguration true "master").
Definition bytes_env (b : ascii) (id : string) (now : time) : key_env :=
  mkKeyEnv (Ok (repeat b 32)) id "$2a$" now.
Definition post_keys (key : string) : request := mkRequest "POST" "/api-keys" key None.
Definition key_a : string := match GenerateKey (Ok (repeat "a"%char 32)) with Ok k => k | _ => "" end.

(** The master key grants a key to acme, which makes a narrower one. *)
Definition op_a : op :=
  OCreate (bytes_env "a" "key_a" 1) (post_keys "master")
    (mkCreateAPIKeyRequest "a" (Some ["api-keys:write"; "ledgers:*"; "api-keys:delete"]) "acme" 1000).
Definition op_b : op :=
  OCreate (bytes_env "b" "key_b" 2) (post_keys key_a)
    (mkCreateAPIKeyRequest "b" (Some ["ledgers:read"]) "acme" 2000).

Definition store_a : kstore := run_op no_faults 1 secured op_a (mkKStore [] ∅).
Definition store_b : kstore := run_op no_faults 2 secured op_b store_a.
Definition grants_b : list APIKey :=
  ([] ++ master_grant no_faults 1 secured op_a (mkKStore [] ∅)) ++ master_grant no_faults 2 secured op_b store_a.

Lemma store_b_reach : reach false store_b grants_b 2.
Proof. apply (reach_step false store_a _ 1); [apply (reach_step false _ [] 0)|..]; [constructor|done..]. Qed.

Definition row_b : key_row := nth 1 (ks_rows store_b) (mkKeyRow (mkAPIKey "" "" "" "" [] 0 0 0 false None) None).

Lemma keys_within_master_grants_witness :
  reach false store_b grants_b 2 ∧ row_b ∈ ks_rows store_b
  ∧ map k_APIKeyID grants_b = ["key_a"] ∧ k_APIKeyID (kr_key row_b) = "key_b"
  ∧ ∃ k, k ∈ grants_b ∧ k_OwnerID k = k_OwnerID (kr_key row_b)
      ∧ HasPermission (k_Scopes k) "ledgers" "GET" = true.
Proof.
  assert (row_b ∈ ks_rows store_b) as Hin by (vm_compute; by right; left).
  split; [apply store_b_reach|]. split; [done|].
  split; [vm_compute; reflexivity|]. split; [vm_compute; reflexivity|].
  apply (keys_within_master_grants false store_b grants_b 2 row_b "ledgers" "GET");
    [apply store_b_reach|done|vm_compute; reflexivity].
Defined.

(** The key is revoked while Redis loses the deletion: it is still accepted. *)
Definition get_ledgers : request := mkRequest "GET" "/ledgers" key_a None.
Definition lossy_faults : cache_faults := mkCF false false true.
Definition store_used : kstore := run_op no_faults 3 secured (OOther get_ledgers) store_b.
Definition store_revoked : kstore :=
  run_op lossy_faults 4 secured (ORevoke (mkRequest "DELETE" "/api-keys/key_a" "master" None) "key_a" "acme")
    store_used.
Definition grants_revoked : list APIKey :=
  (grants_b ++ master_grant no_faults 3 secured (OOther get_ledgers) store_b)
  ++ master_grant lossy_faults 4 secured
       (ORevoke (mkRequest "DELETE" "/api-keys/key_a" "master" None) "key_a" "acme") store_used.

Lemma store_revoked_reach : reach true store_revoked grants_revoked 4.
Proof.
  apply (reach_step true store_used _ 3); [apply (reach_step true store_b _ 2)|..]; [|done..].
  apply (reach_step true store_a _ 1); [apply (reach_step true _ [] 0)|..]; [constructor|done..].
Qed.

Definition cached_a : APIKey := nth 0 grants_b (mkAPIKey "" "" "" "" [] 0 0 0 false None).


(** ** What the examples show *)

(** The body [null], with a good API key, makes the middleware panic. *)
Lemma null_body_panics :
  (Authenticate no_faults 3 secured (mkRequest "POST" "/ledgers" key_a (Some BNull)) store_b).2
  = Err (EPanic "assignment to entry in nil map").
Proof. vm_compute. reflexivity. Qed.

(** Different precise amounts posted with an API key reach the handler equal:
    the middleware decodes and encodes the body through [float64]. *)
Lemma inject_merges_amounts id :
  injectAPIKeyToMetadata id (BObject [("precise_amount", RNum "9007199254740993")])
  = injectAPIKeyToMetadata id (BObject [("precise_amount", RNum "9007199254740992")]).
Proof.
  unfold injectAPIKeyToMetadata, body_map. cbn [map raw_value].
  replace (number "9007199254740993") with (number "9007199254740992"); [done|].
  vm_compute. reflexivity.
Qed.

(** Routes no API key opens, whatever its scopes: metadata has a resource that
    no path maps to, later routes have none. *)
Lemma routes_without_resource :
  Forall (λ path, getResourceFromPath path = "")
    ["/ldg_1/metadata"; "/brokerage/trades"; "/orders"; "/dicts"; "/stop-list"; "/trading-times/X";
     "/balances-snapshots"; "/backup-s3"].
Proof. repeat constructor. Qed.

(** A request that read the table before a revocation and writes the cache after
    it brings the revoked key back for five minutes. *)
Lemma revoked_key_cached_again :
  let s := (RevokeAPIKey no_faults 4 "key_a" "acme" store_b).1 in
  ∃ k k' body, find_candidate key_a store_b = Some k
  ∧ (Authenticate no_faults 5 secured get_ledgers s).2
    = Err (EAPI "AUTH_EXPIRED_API_KEY" "API key is expired or revoked")
  ∧ (Authenticate no_faults 5 secured get_ledgers
       (cache_set no_faults 4 (getAPIKeyCacheKey (getKeyPrefix key_a)) k s)).2 = Ok (Caller k', body).
Proof. eexists _, _, None. repeat split; vm_compute; reflexivity. Qed.

End ApiKeys.
