(* ===== verification/FilterParse.v ===== *)
(** * List filters: values, dates and the query string

    [internal/filter/types.go], [operators.go], [reserved.go], [values.go],
    [datetime.go], [parser.go]: a query parameter [field_operator=value] becomes
    a filter whose value is read as an integer, a float, a boolean, a date or a
    text; Go ranges over the parameters in any order ([MapIter]). *)

From Stdlib Require Import Floats.SpecFloat.
From S2P Require Import Prelude Float64 Types Time.

Module FilterParse.

Abbreviation Operator := string (only parsing).

Definition OpEqual : Operator := "eq".
Definition OpNotEqual : Operator := "ne".
Definition OpGreaterThan : Operator := "gt".
Definition OpGreaterThanOrEqual : Operator := "gte".
Definition OpLessThan : Operator := "lt".
Definition OpLessThanOrEqual : Operator := "lte".
Definition OpIn : Operator := "in".
Definition OpBetween : Operator := "between".
Definition OpLike : Operator := "like".
Definition OpILike : Operator := "ilike".
Definition OpIsNull : Operator := "isnull".
Definition OpIsNotNull : Operator := "isnotnull".

(** A time with the offset of its location, in seconds. *)
Record TimestampValue := mkTimestampValue {
  ts_Time : time;
  ts_Offset : Z;
  ts_Original : string;
  ts_Precision : string;
}.

(** [interface{}] values of a filter: those the query parser makes, those of a
    JSON body, and a [time.Time]. *)
Inductive value : Type :=
| VNil
| VBool (b : bool)
| VInt (z : Z)
| VFloat (x : float64)
| VString (s : string)
| VTimestamp (t : TimestampValue)
| VTime (t : time) (offset : Z)
| VJson (v : metaval).

Record QueryFilter := mkQueryFilter {
  f_Field : string;
  f_Operator : Operator;
  f_Value : value;
  f_Values : list value;
}.

Abbreviation LogicalOperator := string (only parsing).
Definition LogicalAnd : LogicalOperator := "and".
Definition LogicalOr : LogicalOperator := "or".

Record QueryFilterSet := mkQueryFilterSet {
  qs_Filters : list QueryFilter;
  qs_LogicalOperator : LogicalOperator;
}.

(** ** operators.go, reserved.go *)

Definition is_space (c : ascii) : bool :=
  bool_decide (c ∈ [" "%char; "009"%char; "010"%char; "011"%char; "012"%char; "013"%char]).

(** [strings.TrimSpace], on ASCII text. *)
Fixpoint trim_left (s : string) : string :=
  match s with
  | String c s' => if is_space c then trim_left s' else s
  | "" => ""
  end.
Fixpoint trim_right (s : string) : string :=
  match s with
  | String c s' => let t := trim_right s' in
                   if String.eqb t "" && is_space c then "" else String c t
  | "" => ""
  end.
Definition TrimSpace (s : string) : string := trim_right (trim_left s).

Definition ResolveOperator (s : string) : Operator :=
  let s := to_lower s in
  if String.eqb s "eq" then OpEqual
  else if String.eqb s "ne" || String.eqb s "neq" then OpNotEqual
  else if String.eqb s "gt" then OpGreaterThan
  else if String.eqb s "gte" || String.eqb s "gteq" then OpGreaterThanOrEqual
  else if String.eqb s "lt" then OpLessThan
  else if String.eqb s "lte" || String.eqb s "lteq" then OpLessThanOrEqual
  else if String.eqb s "in" then OpIn
  else if String.eqb s "between" then OpBetween
  else if String.eqb s "like" then OpLike
  else if String.eqb s "ilike" then OpILike
  else if String.eqb s "isnull" then OpIsNull
  else if String.eqb s "isnotnull" then OpIsNotNull
  else "".

Definition ResolveLogicalOperator (s : string) : LogicalOperator :=
  let s := to_lower (TrimSpace s) in
  if String.eqb s "" || String.eqb s "and" then LogicalAnd
  else if String.eqb s "or" then LogicalOr
  else "".

Definition IsValidLogicalOperator (op : LogicalOperator) : bool :=
  String.eqb op "" || String.eqb op LogicalAnd || String.eqb op LogicalOr.

Definition operators : list Operator :=
  [OpEqual; OpNotEqual; OpGreaterThan; OpGreaterThanOrEqual; OpLessThan; OpLessThanOrEqual;
   OpIn; OpBetween; OpLike; OpILike; OpIsNull; OpIsNotNull].
Definition IsValidOperator (op : Operator) : bool := existsb (String.eqb op) operators.

Definition reservedParams : list string :=
  ["page"; "pagesize"; "per_page"; "limit"; "offset"; "sort"; "order"; "order_by"; "order_dir";
   "logical_operator"; "instance_id"; "org_id"].
Definition isReservedParam (param : string) : bool := existsb (String.eqb (to_lower param)) reservedParams.

(** ** datetime.go *)

(** The elements of the layouts.  Go reads a fraction after the seconds whether
    or not the layout has one, and any number of digits of it; a space stands
    for any number of spaces. *)
Inductive elem : Type :=
| ELit (c : ascii) | ESpace | EYear | EMonth | EDay | EHour | EMin | ESec | EZone.

Record fields := mkFields {
  d_year : Z; d_month : Z; d_day : Z; d_hour : Z; d_min : Z; d_sec : Z; d_ns : Z; d_zone : Z;
}.
#[global] Instance fields_eta : Eta fields := λ d,
  mkFields (d_year d) (d_month d) (d_day d) (d_hour d) (d_min d) (d_sec d) (d_ns d) (d_zone d).

(** Exactly [n] digits. *)
Fixpoint getnum (n : nat) (acc : Z) (s : string) : option (Z * string) :=
  match n, s with
  | O, _ => Some (acc, s)
  | S n, String c s' => d ← Float64.digit_of c; getnum n (10 * acc + d) s'
  | S _, "" => None
  end.

(** One digit or two. *)
Definition getnum_loose (s : string) : option (Z * string) :=
  match getnum 2 0 s with
  | Some r => Some r
  | None => getnum 1 0 s
  end.

(** The digits at the head, as nanoseconds: [scale] is the weight of the next. *)
Fixpoint read_fraction (scale acc : Z) (s : string) : Z * string :=
  match s with
  | String c s' =>
      match Float64.digit_of c with
      | Some d => read_fraction (scale / 10) (acc + scale * d) s'
      | None => (acc, s)
      end
  | "" => (acc, s)
  end.

Definition optional_fraction (s : string) : Z * string :=
  match s with
  | String c (String e _ as s') =>
      if (bool_decide (c = ".") || bool_decide (c = ","))%char && bool_decide (is_Some (Float64.digit_of e))
      then read_fraction 100000000 0 s' else (0, s)
  | _ => (0, s)
  end.

Definition read_zone (s : string) : option (Z * string) :=
  match s with
  | String "Z" s' => Some (0, s')
  | String sign s' =>
      sg ← (if bool_decide (sign = "+"%char) then Some 1
            else if bool_decide (sign = "-"%char) then Some (-1) else None);
      '(hr, s') ← getnum 2 0 s';
      match s' with
      | String ":" s' =>
          '(mm, s') ← getnum 2 0 s';
          if (24 <? hr) || (60 <? mm) then None else Some (sg * (60 * hr + mm) * 60, s')
      | _ => None
      end
  | "" => None
  end.

(** A number within bounds, stored. *)
Definition checked (r : option (Z * string)) (lo hi : Z) (store : Z → fields) : option (fields * string) :=
  '(n, s) ← r; if (lo <=? n) && (n <=? hi) then Some (store n, s) else None.

(** The blanks at the head. *)
Fixpoint trim_blanks (s : string) : string :=
  match s with
  | String " " s' => trim_blanks s'
  | _ => s
  end.

Definition read_elem (e : elem) (s : string) (d : fields) : option (fields * string) :=
  match e with
  | ELit c => match s with
              | String c' s' => if bool_decide (c = c') then Some (d, s') else None
              | "" => None
              end
  | ESpace => match s with
              | String c _ => if bool_decide (c = " "%char) then Some (d, trim_blanks s) else None
              | "" => Some (d, "")
              end
  | EYear => checked (getnum 4 0 s) 0 9999 (λ n, d <| d_year := n |>)
  | EMonth => checked (getnum 2 0 s) 1 12 (λ n, d <| d_month := n |>)
  | EDay => checked (getnum 2 0 s) 1 31 (λ n, d <| d_day := n |>)
  | EHour => checked (getnum_loose s) 0 23 (λ n, d <| d_hour := n |>)
  | EMin => checked (getnum 2 0 s) 0 59 (λ n, d <| d_min := n |>)
  | ESec => '(d, s) ← checked (getnum 2 0 s) 0 59 (λ n, d <| d_sec := n |>);
            let '(ns, s) := optional_fraction s in Some (d <| d_ns := ns |>, s)
  | EZone => '(off, s) ← read_zone s; Some (d <| d_zone := off |>, s)
  end.

Fixpoint read_layout (layout : list elem) (s : string) (d : fields) : option fields :=
  match layout with
  | [] => if String.eqb s "" then Some d else None
  | e :: layout => '(d, s) ← read_elem e s d; read_layout layout s d
  end.

Definition days_in_month (y m : Z) : Z := nth (Z.to_nat (m - 1)) (Time.month_lengths (Time.is_leap y)) 0.

Definition days_of_date (y m d : Z) : Z :=
  Time.days_before_year y
  + fold_right Z.add 0 (take (Z.to_nat (m - 1)) (Time.month_lengths (Time.is_leap y))) + (d - 1).

(** [time.Parse]: the instant and the offset of the location. *)
Definition time_Parse (layout : list elem) (s : string) : option (time * Z) :=
  d ← read_layout layout s (mkFields 0 1 1 0 0 0 0 0);
  if days_in_month (d_year d) (d_month d) <? d_day d then None
  else Some (days_of_date (d_year d) (d_month d) (d_day d) * Time.day + d_hour d * Time.hour
             + d_min d * Time.minute + (d_sec d - d_zone d) * Time.second + d_ns d, d_zone d).

Definition date_with (c : ascii) : list elem := [EYear; ELit c; EMonth; ELit c; EDay].
Definition hm : list elem := [EHour; ELit ":"; EMin].
Definition hms : list elem := hm ++ [ELit ":"; ESec].

Definition formats : list (list elem) :=
  let d := date_with "-" in let t := [ELit "T"] in let sp := [ESpace] in
  [ d ++ t ++ hms ++ [EZone];   (* RFC3339Nano *)
    d ++ t ++ hms ++ [EZone];   (* RFC3339 *)
    d ++ t ++ hms; d ++ t ++ hms; d ++ t ++ hms; d ++ t ++ hms; (* nano, micro, milli, seconds *)
    d ++ t ++ hm;
    d ++ sp ++ hms; d ++ sp ++ hms; d ++ sp ++ hms; d ++ sp ++ hms;
    d ++ sp ++ hm;
    d;
    date_with "/" ].

(** The first format that reads the text. *)
Fixpoint first_format (l : list (list elem)) (value : string) : option (time * Z) :=
  match l with
  | [] => None
  | layout :: l => match time_Parse layout value with
                   | Some r => Some r
                   | None => first_format l value
                   end
  end.
Definition ParseDateTime (value : string) : option (time * Z) := first_format formats value.

(** The text before the first sign. *)
Fixpoint before_sign (s : string) : string :=
  match s with
  | "" => ""
  | String c s' => if (bool_decide (c = "+") || bool_decide (c = "-"))%char then "" else String c (before_sign s')
  end.

Definition TrimSuffix (s suf : string) : string :=
  if has_suffix s suf then String.substring 0 (String.length s - String.length suf) s else s.

Fixpoint count_char (c : ascii) (s : string) : nat :=
  match s with
  | "" => 0
  | String x s' => (if bool_decide (x = c) then 1 else 0) + count_char c s'
  end%nat.

(** Without a fraction: by colons. *)
Definition coarse_precision (dateStr : string) : string :=
  let colonCount := count_char ":" dateStr in
  if contains dateStr ":" && Nat.leb 2 colonCount then "second"
  else if contains dateStr ":" && Nat.eqb colonCount 1 then "minute"
  else if contains dateStr "T" || contains dateStr " " then "hour"
  else "day".

Definition getDatePrecisionFromString (dateStr : string) : string :=
  match split "." dateStr with
  | _ :: fractionalPart :: _ =>
      let digitCount := String.length (before_sign (TrimSuffix fractionalPart "Z")) in
      if Nat.leb 6 digitCount then "microseconds"
      else if Nat.leb 3 digitCount then "milliseconds"
      else if Nat.ltb 0 digitCount then "milliseconds"
      else coarse_precision dateStr
  | _ => coarse_precision dateStr
  end.

(** The clock of a time in its location. *)
Definition getDatePrecisionFromTime (t : time) (offset : Z) : string :=
  let local := t + offset * Time.second in
  let ns := local mod Time.second in
  if negb (ns mod 1000000 =? 0) && negb (ns mod 1000 =? 0) then "microseconds"
  else if negb (ns mod 1000000 =? 0) then "microseconds"
  else if negb (ns =? 0) then "milliseconds"
  else if negb (local / Time.second mod 60 =? 0) then "second"
  else if negb (local / Time.minute mod 60 =? 0) then "minute"
  else if negb (local / Time.hour mod 24 =? 0) then "hour"
  else "day".

(** [t.Truncate(d)]: down to a multiple of [d] since the zero time. *)
Definition Truncate (t d : Z) : Z := t - t mod d.

Definition computeTimestampRange (ts : TimestampValue) : time * time :=
  let t := ts_Time ts in
  let truncated d := (Truncate t d, Truncate t d + d) in
  let p := ts_Precision ts in
  if String.eqb p "microseconds" then truncated 1000
  else if String.eqb p "milliseconds" then truncated 1000000
  else if String.eqb p "second" then truncated Time.second
  else if String.eqb p "minute" then truncated Time.minute
  else if String.eqb p "hour" then truncated Time.hour
  else if String.eqb p "day" then
    let off := ts_Offset ts * Time.second in
    let floor := Truncate (t + off) Time.day - off in (floor, floor + Time.day)
  else truncated Time.second.

(** ** values.go *)

(** An underscore separates digits, or follows a base prefix.  [prev] says what
    came before: a digit or prefix, an underscore, something else. *)
Inductive prev : Type := PStart | PDigit | PUnder | POther.

Definition hex_digit (c : ascii) : option Z :=
  match Float64.digit_of c with
  | Some d => Some d
  | None => let n := Z.of_N (N_of_ascii (ascii_lower c)) in
            if (97 <=? n) && (n <=? 102) then Some (n - 87) else None
  end.

Fixpoint underscores (hex : bool) (i : prev) (s : string) : bool :=
  match s with
  | "" => match i with PUnder => false | _ => true end
  | String c s' =>
      if bool_decide (is_Some (if hex then hex_digit c else Float64.digit_of c))
      then underscores hex PDigit s'
      else if bool_decide (c = "_"%char) then
        match i with PDigit => underscores hex PUnder s' | _ => false end
      else match i with PUnder => false | _ => underscores hex POther s' end
  end.

Definition underscoreOK (s : string) : bool :=
  match (Float64.read_sign s).2 with
  | String "0" (String c s') =>
      let c := ascii_lower c in
      if bool_decide (c = "x"%char) then underscores true PDigit s'
      else if (bool_decide (c = "b") || bool_decide (c = "o"))%char then underscores false PDigit s'
      else underscores false PStart (Float64.read_sign s).2
  | t => underscores false PStart t
  end.

Fixpoint without_underscores (s : string) : string :=
  match s with
  | "" => ""
  | String c s' => if bool_decide (c = "_"%char) then without_underscores s' else String c (without_underscores s')
  end.

Fixpoint read_hex (s : string) (acc cnt : Z) : Z * Z * string :=
  match s with
  | String c s' => match hex_digit c with
                   | Some d => read_hex s' (16 * acc + d) (cnt + 1)
                   | None => (acc, cnt, s)
                   end
  | "" => (acc, cnt, s)
  end.

(** The text after [0x]: a mantissa with a binary exponent. *)
Definition parse_hex_float (neg : bool) (s : string) : option float64 :=
  let '(ip, n1, t) := read_hex s 0 0 in
  let '(v, n2, t) := match t with String "." t' => read_hex t' ip 0 | _ => (ip, 0, t) end in
  match t with
  | String ("p"%char | "P"%char) t' =>
      let '(eneg, t') := Float64.read_sign t' in
      let '(e, n, rest) := Float64.read_digits t' 0 0 in
      if (n1 + n2 =? 0) || (n =? 0) || negb (String.eqb rest "") then None
      else
        let e := Z.min 10000 e in
        match binary_normalize Float64.prec Float64.emax v ((if eneg then - e else e) - 4 * n2) false with
        | S754_infinity _ => None
        | x => Some (if neg then SFopp x else x)
        end
  | _ => None
  end.

(** [strconv.ParseFloat(s, 64)]. *)
Definition ParseFloat (s : string) : option float64 :=
  if negb (underscoreOK s) then None
  else
    let s := without_underscores s in
    match Float64.read_sign s with
    | (neg, String "0" (String ("x"%char | "X"%char) t)) => parse_hex_float neg t
    | _ => Float64.parse_float s
    end.

Definition parseValue (text : string) : value :=
  match Float64.parse_int64 text with
  | Some z => VInt z
  | None =>
      match ParseFloat text with
      | Some x => VFloat x
      | None =>
          if String.eqb text "true" then VBool true
          else if String.eqb text "false" then VBool false
          else match ParseDateTime text with
               | Some (t, offset) => VTimestamp (mkTimestampValue t offset text (getDatePrecisionFromString text))
               | None => VString text
               end
      end
  end.

(** ** parser.go *)

Record ParseOptions := mkParseOptions { MaxFilters : Z; MaxInValues : Z; MaxCharLen : Z }.
Record ParseError := mkParseError { pe_Param : string; pe_Message : string }.
Record ParseResult := mkParseResult { pr_Filters : QueryFilterSet; pr_Errors : list ParseError }.

Definition defaultMaxFilters : Z := 20.
Definition defaultMaxInValues : Z := 100.
Definition defaultMaxCharLen : Z := 1000.

(** The limits in force. *)
Definition limits (opts : option ParseOptions) : ParseOptions :=
  match opts with
  | None => mkParseOptions defaultMaxFilters defaultMaxInValues defaultMaxCharLen
  | Some o => mkParseOptions (if 0 <? MaxFilters o then MaxFilters o else defaultMaxFilters)
                (if 0 <? MaxInValues o then MaxInValues o else defaultMaxInValues)
                (if 0 <? MaxCharLen o then MaxCharLen o else defaultMaxCharLen)
  end.

(** [url.Values]; [Get] is the first value or the empty text. *)
Abbreviation url_Values := (gmap string (list string)).
Definition Get (q : url_Values) (key : string) : string :=
  match q !! key with Some (v :: _) => v | _ => "" end.

(** The parameters that are filters: their field, operator and first value. *)
Definition candidate (entry : string * list string) : option (string * string * Operator * string) :=
  let '(key, values) := entry in
  match values with
  | [] => None
  | value :: _ =>
      if isReservedParam key then None
      else
        let parts := split "_" key in
        if Nat.ltb (length parts) 2 then None
        else
          let operator := ResolveOperator (List.last parts "") in
          if String.eqb operator "" then None
          else Some (key, join "_" (removelast parts), operator, value)
  end.

(** The filter of a candidate, or what is wrong with it. *)
Definition read_filter (lim : ParseOptions) (c : string * string * Operator * string) : ParseError + QueryFilter :=
  let '(key, field, operator, text) := c in
  if MaxCharLen lim <? Z.of_nat (String.length text)
  then inl (mkParseError key ("value exceeds maximum length (" +:+ Z_to_string (MaxCharLen lim) +:+ " chars)"))
  else if String.eqb operator OpBetween then
    match split "|" text with
    | [v1; v2] => inr (mkQueryFilter field operator VNil [parseValue v1; parseValue v2])
    | _ => inl (mkParseError key "between operator requires exactly 2 pipe-separated values (value1|value2)")
    end
  else if String.eqb operator OpIn then
    let inValues := split "," text in
    if MaxInValues lim <? Z.of_nat (length inValues)
    then inl (mkParseError key ("IN operator exceeds maximum values (" +:+ Z_to_string (MaxInValues lim) +:+ ")"))
    else inr (mkQueryFilter field operator VNil (map (λ v, parseValue (TrimSpace v)) inValues))
  else if String.eqb operator OpIsNull || String.eqb operator OpIsNotNull
  then inr (mkQueryFilter field operator VNil [])
  else inr (mkQueryFilter field operator (parseValue text) []).

Definition too_many (lim : ParseOptions) (key : string) : ParseError :=
  mkParseError key ("exceeded maximum number of filters (" +:+ Z_to_string (MaxFilters lim) +:+ ")").

(** One candidate, with the filters and errors so far; other parameters are
    passed over. *)
Definition parse_candidate (lim : ParseOptions) (st : list QueryFilter * list ParseError)
    (c : string * string * Operator * string) : list QueryFilter * list ParseError :=
  let '(filters, errors) := st in
  if MaxFilters lim <=? Z.of_nat (length filters) then (filters, errors ++ [too_many lim c.1.1.1])
  else match read_filter lim c with
       | inl e => (filters, errors ++ [e])
       | inr f => (filters ++ [f], errors)
       end.

Definition parse_entry (lim : ParseOptions) (st : list QueryFilter * list ParseError)
    (entry : string * list string) : list QueryFilter * list ParseError :=
  match candidate entry with
  | None => st
  | Some c => parse_candidate lim st c
  end.

Definition bad_logical_operator : ParseError :=
  mkParseError "logical_operator" "invalid logical_operator: must be 'and' or 'or'".

(** The top-level operator and its error. *)
Definition top_operator (q : url_Values) : LogicalOperator * list ParseError :=
  let raw := TrimSpace (Get q "logical_operator") in
  if String.eqb raw "" then (LogicalAnd, [])
  else
    let op := ResolveLogicalOperator raw in
    if String.eqb op "" then (LogicalAnd, [bad_logical_operator]) else (op, []).

Definition ParseFromQuery `{MapIter} (q : url_Values) (opts : option ParseOptions) : ParseResult :=
  let '(op, errors) := top_operator q in
  let '(filters, errors) := fold_left (parse_entry (limits opts)) (map_iter q) ([], errors) in
  mkParseResult (mkQueryFilterSet filters op) errors.

(** ** What the parser gives *)

(** The arity of an operator. *)
Definition arity_ok (f : QueryFilter) : Prop :=
  IsValidOperator (f_Operator f) = true
  ∧ (f_Operator f = OpIn → f_Values f ≠ [])
  ∧ (f_Operator f = OpBetween → length (f_Values f) = 2%nat).

Lemma ResolveOperator_valid s : ResolveOperator s ≠ "" → IsValidOperator (ResolveOperator s) = true.
Proof. unfold ResolveOperator. by repeat case_match. Qed.

Lemma candidate_operator e key field op text :
  candidate e = Some (key, field, op, text) → IsValidOperator op = true.
Proof.
  destruct e as [k [|v vs]]; [done|]. cbn [candidate].
  destruct (isReservedParam k); [done|]. destruct (Nat.ltb _ _); [done|].
  destruct (String.eqb_spec (ResolveOperator (List.last (split "_" k) "")) "") as [|Hne]; [done|].
  intros [= _ _ <- _]. by apply ResolveOperator_valid.
Qed.

Lemma split_nonempty sep s : split sep s ≠ [].
Proof. unfold split. by destruct (split_at sep 0 s). Qed.

Lemma read_filter_arity lim key field op text f :
  IsValidOperator op = true → read_filter lim (key, field, op, text) = inr f → arity_ok f ∧ f_Operator f = op.
Proof.
  intros Hop. unfold read_filter. destruct (_ <? _); [done|].
  destruct (String.eqb_spec op OpBetween) as [->|Hb].
  { destruct (split "|" text) as [|v1 [|v2 [|v3 vs]]]; try done. by intros [= <-]. }
  destruct (String.eqb_spec op OpIn) as [->|Hi].
  { destruct (_ <? _); [done|]. intros [= <-]. split; [|done]. split_and!; [done| |done].
    intros _. cbn [f_Values]. pose proof (split_nonempty "," text). by destruct (split "," text). }
  by destruct (_ || _); intros [= <-].
Qed.

(** ** The order of the parameters does not matter *)

Lemma parse_entries lim l st :
  fold_left (parse_entry lim) l st = fold_left (parse_candidate lim) (omap candidate l) st.
Proof.
  revert st. induction l as [|e l IH]; intros st; [done|]. cbn [fold_left omap list_omap].
  rewrite IH. unfold parse_entry. by destruct (candidate e).
Qed.

Definition filter_of (lim : ParseOptions) (c : string * string * Operator * string) : option QueryFilter :=
  match read_filter lim c with inr f => Some f | inl _ => None end.

(** All candidates are read and fit. *)
Definition acceptable (lim : ParseOptions) (n : nat) (cs : list (string * string * Operator * string)) : Prop :=
  Z.of_nat (n + length cs) <= MaxFilters lim ∧ Forall (λ c, is_Some (filter_of lim c)) cs.

Lemma parse_loop_errors lim cs fs es :
  es ≠ [] → (fold_left (parse_candidate lim) cs (fs, es)).2 ≠ [].
Proof.
  revert fs es. induction cs as [|c cs IH]; intros fs es Hes; [done|]. cbn [fold_left parse_candidate].
  destruct (_ <=? _); [|destruct (read_filter lim c)]; apply IH; by destruct es.
Qed.

Lemma parse_loop_accepts lim cs fs :
  acceptable lim (length fs) cs →
  fold_left (parse_candidate lim) cs (fs, []) = (fs ++ omap (filter_of lim) cs, []).
Proof.
  revert fs. induction cs as [|c cs IH]; intros fs [Hn Hok]; [by rewrite app_nil_r|].
  apply Forall_cons in Hok as [[f Hf] Hok]. cbn [fold_left parse_candidate length] in *.
  rewrite (proj2 (Z.leb_gt _ _)) by lia. cbn [omap list_omap]. rewrite Hf.
  unfold filter_of in Hf. destruct (read_filter lim c); [done|]. injection Hf as ->.
  rewrite IH; [by rewrite <-app_assoc|]. split; [rewrite length_app; cbn; lia|done].
Qed.

Lemma parse_loop_rejects lim cs fs :
  (fold_left (parse_candidate lim) cs (fs, [])).2 = [] → cs = [] ∨ acceptable lim (length fs) cs.
Proof.
  revert fs. induction cs as [|c cs IH]; intros fs; [by left|]. right. cbn [fold_left parse_candidate] in *.
  destruct (MaxFilters lim <=? Z.of_nat (length fs)) eqn:Hmax.
  { by apply parse_loop_errors in H. }
  destruct (read_filter lim c) as [e|f] eqn:Hf; [by apply parse_loop_errors in H|].
  assert (is_Some (filter_of lim c)) as Hc by (unfold filter_of; by rewrite Hf).
  apply Z.leb_gt in Hmax.
  destruct (IH _ H) as [->|[Hn Hok]]; split; rewrite ?length_app in *; cbn [length] in *; try lia; by constructor.
Qed.

Lemma acceptable_perm lim n cs cs' : cs ≡ₚ cs' → acceptable lim n cs → acceptable lim n cs'.
Proof. intros Hp [Hn Hok]. split; [by rewrite <-Hp|by rewrite <-Hp]. Qed.

(** The result, in terms of the candidates in the order they come. *)
Lemma ParseFromQuery_errors `{MapIter} q opts :
  pr_Errors (ParseFromQuery q opts) = [] ↔
  (top_operator q).2 = [] ∧
  (omap candidate (map_iter q) = [] ∨ acceptable (limits opts) 0 (omap candidate (map_iter q))).
Proof.
  unfold ParseFromQuery. destruct (top_operator q) as [op es]. rewrite parse_entries. cbn [snd].
  set (cs := omap candidate (map_iter q)).
  pose proof (parse_loop_errors (limits opts) cs [] es) as Hes.
  destruct (fold_left _ cs _) as [fs es'] eqn:Hl. cbn [pr_Errors] in *. cbn [snd] in Hes. split.
  - intros ->. destruct es; [|by destruct Hes]. split; [done|].
    apply (parse_loop_rejects (limits opts) cs []). by rewrite Hl.
  - intros [-> [Hnil|Hacc]].
    + rewrite Hnil in Hl. by injection Hl as _ <-.
    + rewrite (parse_loop_accepts _ _ []) in Hl by done. by injection Hl as _ <-.
Qed.

Lemma ParseFromQuery_filters `{MapIter} q opts :
  pr_Errors (ParseFromQuery q opts) = [] →
  pr_Filters (ParseFromQuery q opts)
  = mkQueryFilterSet (omap (filter_of (limits opts)) (omap candidate (map_iter q))) (top_operator q).1.
Proof.
  intros [Hes Hcs]%ParseFromQuery_errors. unfold ParseFromQuery.
  destruct (top_operator q) as [op es]. cbn [fst snd] in *. subst es. rewrite parse_entries.
  destruct Hcs as [->|Hacc]; [done|]. by rewrite (parse_loop_accepts _ _ []).
Qed.

Lemma length_omap_le {A B} (f : A → option B) l : (length (omap f l) <= length l)%nat.
Proof. induction l as [|x l IH]; [done|]. cbn. destruct (f x); cbn; lia. Qed.

Lemma limits_pos opts : 0 < MaxFilters (limits opts).
Proof. destruct opts as [o|]; [|done]. cbn. destruct (0 <? MaxFilters o) eqn:H; [lia|done]. Qed.

Lemma top_operator_valid q : IsValidLogicalOperator (top_operator q).1 = true.
Proof.
  unfold top_operator. destruct (String.eqb (TrimSpace _) ""); [done|].
  destruct (String.eqb _ ""); [done|]. unfold ResolveLogicalOperator. by repeat case_match.
Qed.

Lemma filters_arity lim l : Forall arity_ok (omap (filter_of lim) (omap candidate l)).
Proof.
  apply Forall_forall. intros f (c & Hc & Hf)%list_elem_of_omap.
  apply list_elem_of_omap in Hc as (e & _ & He). destruct c as [[[key field] op] text].
  unfold filter_of in Hf. destruct (read_filter lim _) as [|f'] eqn:Hr; [done|]. injection Hf as <-.
  eapply read_filter_arity; [by eapply candidate_operator|done].
Qed.

Lemma map_iter_any {A} (M1 M2 : MapIter) (q : gmap string A) : @map_iter M1 A q ≡ₚ @map_iter M2 A q.
Proof. by rewrite !map_iter_perm. Qed.

(** The order in which Go ranges over the query parameters does not decide
    what a request asks for: under any two orders either both parses report
    errors, and the request is refused, or neither does and both give the same
    filters up to their order and the same logical operator; and a parse without
    errors has at most the maximal number of filters, all of known operators and
    with the values their operators need. *)
Theorem ParseFromQuery_any_order (M1 M2 : MapIter) q opts :
  let r1 := @ParseFromQuery M1 q opts in let r2 := @ParseFromQuery M2 q opts in
  (pr_Errors r1 = [] ↔ pr_Errors r2 = []) ∧
  (pr_Errors r1 = [] →
   qs_Filters (pr_Filters r1) ≡ₚ qs_Filters (pr_Filters r2)
   ∧ qs_LogicalOperator (pr_Filters r1) = qs_LogicalOperator (pr_Filters r2)
   ∧ IsValidLogicalOperator (qs_LogicalOperator (pr_Filters r1)) = true
   ∧ Z.of_nat (length (qs_Filters (pr_Filters r1))) <= MaxFilters (limits opts)
   ∧ Forall arity_ok (qs_Filters (pr_Filters r1))).
Proof.
  cbv zeta. assert (omap candidate (@map_iter M1 _ q) ≡ₚ omap candidate (@map_iter M2 _ q)) as Hp
    by (by rewrite (map_iter_any M1 M2)).
  assert (∀ M M' : MapIter, omap candidate (@map_iter M _ q) ≡ₚ omap candidate (@map_iter M' _ q) →
    pr_Errors (@ParseFromQuery M q opts) = [] → pr_Errors (@ParseFromQuery M' q opts) = []) as Herr.
  { intros M M' HM. rewrite !ParseFromQuery_errors. intros [? [Hn|Ha]]; (split; [done|]).
    - left. rewrite Hn in HM. by apply Permutation_nil in HM.
    - right. by eapply acceptable_perm. }
  split; [split; by apply Herr|]. intros H1. pose proof (Herr M1 M2 Hp H1) as H2.
  rewrite !ParseFromQuery_filters by done. cbn [qs_Filters qs_LogicalOperator]. split_and!.
  - by rewrite Hp.
  - done.
  - apply top_operator_valid.
  - apply ParseFromQuery_errors in H1 as [_ [->|[Hn _]]]; [cbn; pose proof (limits_pos opts); lia|].
    etrans; [|exact Hn]. apply inj_le, length_omap_le.
  - apply filters_arity.
Qed.

(** The limits matter for which filters are kept only when the request is
    refused: with two filters allowed, the order decides which error is
    reported. *)
Definition sample_query : url_Values :=
  {["status_eq" := ["APPLIED"]; "amount_between" := ["10|20"]; "currency_in" := ["USD, EUR"];
    "page" := ["2"]; "logical_operator" := ["OR"]]}.

Example parse_sample :
  let r := ParseFromQuery sample_query None in
  pr_Errors r = [] ∧ qs_LogicalOperator (pr_Filters r) = LogicalOr
  ∧ sort_strings (map f_Field (qs_Filters (pr_Filters r))) = ["amount"; "currency"; "status"].
Proof. vm_compute. done. Qed.

Example parse_too_many :
  length (pr_Errors (ParseFromQuery sample_query (Some (mkParseOptions 2 0 0)))) = 1%nat.
Proof. vm_compute. done. Qed.

(** ** Dates *)

(** A date equals those within its precision: the range holds the instant and
    is at most a day long. *)
Lemma computeTimestampRange_contains ts :
  let '(floor, ceiling) := computeTimestampRange ts in
  floor <= ts_Time ts < ceiling ∧ ceiling <= floor + Time.day.
Proof.
  assert (∀ t d, 0 < d → Truncate t d <= t < Truncate t d + d) as Ht
    by (intros t d Hd; unfold Truncate; pose proof (Z.mod_pos_bound t d Hd); lia).
  assert (∀ d, 0 < d → d <= Time.day → Truncate (ts_Time ts) d <= ts_Time ts < Truncate (ts_Time ts) d + d
    ∧ Truncate (ts_Time ts) d + d <= Truncate (ts_Time ts) d + Time.day) as Hd
    by (intros d H1 H2; pose proof (Ht (ts_Time ts) d H1); lia).
  unfold computeTimestampRange. cbv zeta.
  do 5 (destruct (String.eqb (ts_Precision ts) _); [apply Hd; by vm_compute|]).
  destruct (String.eqb (ts_Precision ts) _); [|apply Hd; by vm_compute].
  pose proof (Ht (ts_Time ts + ts_Offset ts * Time.second) Time.day (eq_refl : 0 < Time.day)). lia.
Qed.

(** Texts that look like numbers lose their spelling: a reference [007] is
    looked up as 7, and [1e5] as 100000. *)
Lemma references_lose_their_spelling :
  parseValue "007" = parseValue "7" ∧ parseValue "1e5" = parseValue "100000.0".
Proof. vm_compute. done. Qed.

End FilterParse.
