(* ===== verification/Filters.v ===== *)
(** * List filters: validation and SQL

    [internal/filter/validation.go], [sql_builder.go], [sql_json.go],
    [sql_special.go], [helpers.go], [api/filter_helper.go] and the filtered
    listings of the datasource: a set of filters becomes conditions with
    numbered parameters, and a listing one query with its arguments.  The text
    and the arguments are built as the code builds them; running the query is
    PostgreSQL's part. *)

From S2P Require Import Prelude Float64 Types Time FilterParse.
Import FilterParse.

Module Filters.

(** ** helpers.go *)

(** What is bound to a parameter: a value, a text array, or the JSON text of an
    object with one field. *)
Inductive arg : Type :=
| AValue (v : value)
| ATime (t : time)
| AText (s : string)
| AStrings (l : list string)
| AObject (key : string) (v : value)
| AInt (z : Z).

Definition is_string (v : value) : bool := match v with VString _ => true | _ => false end.
Definition isStringArray (values : list value) : bool := forallb is_string values.

(** [%v] of the texts that [isStringArray] let through. *)
Definition convertToStringArray (values : list value) : list string :=
  map (λ v, match v with VString s => s | _ => "" end) values.

Definition extractValueForSQL (v : value) : arg :=
  match v with VTimestamp t => ATime (ts_Time t) | _ => AValue v end.

(** [json.Marshal] fails on numbers that are not finite. *)
Definition finite (x : float64) : bool :=
  match x with SpecFloat.S754_nan | SpecFloat.S754_infinity _ => false | _ => true end.
Definition marshals (v : value) : bool := match v with VFloat x => finite x | _ => true end.
Definition buildContainmentJSON (key : string) (v : value) : option arg :=
  if marshals v then Some (AObject key v) else None.

(** ** validation.go *)

Definition isLetter (c : ascii) : bool :=
  let n := N_of_ascii c in ((97 <=? n) && (n <=? 122) || (65 <=? n) && (n <=? 90))%N.
Definition isDigit (c : ascii) : bool := let n := N_of_ascii c in ((48 <=? n) && (n <=? 57))%N.
Definition key_char (c : ascii) : bool := isLetter c || isDigit c || bool_decide (c = "_"%char).

Fixpoint all_chars (p : ascii → bool) (s : string) : bool :=
  match s with String c s' => p c && all_chars p s' | "" => true end.

(** [jsonKeyRegex], [^[a-zA-Z][a-zA-Z0-9_]*$]. *)
Definition jsonKeyRegex (s : string) : bool :=
  match s with String c s' => isLetter c && all_chars key_char s' | "" => false end.

Definition GetValidFieldsForTable (table : string) : list string :=
  if String.eqb table "transactions" then
    ["transaction_id"; "parent_transaction"; "amount"; "currency"; "source"; "destination"; "balance_id";
     "reference"; "status"; "created_at"; "effective_date"; "indicator"; "description"; "precision"; "meta_data"]
  else if String.eqb table "balances" then
    ["balance_id"; "ledger_id"; "identity_id"; "indicator"; "currency"; "balance"; "credit_balance";
     "debit_balance"; "inflight_balance"; "inflight_credit_balance"; "inflight_debit_balance"; "created_at"; "meta_data"]
  else if String.eqb table "ledgers" then ["ledger_id"; "name"; "created_at"; "meta_data"]
  else if String.eqb table "identity" then
    ["identity_id"; "first_name"; "last_name"; "other_names"; "gender"; "dob"; "email_address"; "phone_number";
     "nationality"; "street"; "country"; "state"; "organization_name"; "category"; "identity_type"; "post_code";
     "city"; "created_at"; "meta_data"]
  else if String.eqb table "reconciliations" then
    ["reconciliation_id"; "upload_id"; "status"; "matched_transactions"; "unmatched_transactions"; "started_at";
     "completed_at"]
  else if String.eqb table "matching_rules" then ["rule_id"; "name"; "description"; "created_at"; "updated_at"]
  else if String.eqb table "external_transactions" then
    ["id"; "amount"; "reference"; "currency"; "description"; "date"; "source"; "upload_id"]
  else if String.eqb table "accounts" then
    ["account_id"; "name"; "number"; "bank_name"; "currency"; "ledger_id"; "identity_id"; "balance_id";
     "created_at"; "meta_data"]
  else [].

Definition valid_field (table field : string) : bool := existsb (String.eqb field) (GetValidFieldsForTable table).

Definition drop_prefix (p s : string) : string :=
  if has_prefix p s then String.substring (String.length p) (String.length s - String.length p) s else s.

Definition balance_id_operators : list Operator := [OpEqual; OpNotEqual; OpIn; OpIsNull; OpIsNotNull].

Definition quoted (s : string) : string := "'" +:+ s +:+ "'".

Definition validate_filter (table : string) (f : QueryFilter) : result unit :=
  let field := f_Field f in let op := f_Operator f in
  if negb (IsValidOperator op) then
    Err (ENew ("invalid operator " +:+ quoted op +:+ " for field " +:+ quoted field +:+ ": must be one of eq, ne, gt, gte, lt, lte, in, between, like, ilike, isnull, isnotnull"))
  else if String.eqb op OpIn && Nat.eqb (length (f_Values f)) 0 then
    Err (ENew ("operator 'in' for field " +:+ quoted field +:+ " requires at least one value in 'values'"))
  else if String.eqb op OpBetween && negb (Nat.eqb (length (f_Values f)) 2) then
    Err (ENew ("operator 'between' for field " +:+ quoted field +:+ " requires exactly two values in 'values', got "
               +:+ Z_to_string (Z.of_nat (length (f_Values f)))))
  else if String.eqb table "transactions" && String.eqb field "balance_id"
          && negb (existsb (String.eqb op) balance_id_operators) then
    Err (ENew ("operator " +:+ quoted op +:+ " is not supported for field 'balance_id' on transactions: must be one of eq, ne, in, isnull, isnotnull"))
  else if has_prefix "meta_data." field && valid_field table "meta_data" then
    if jsonKeyRegex (drop_prefix "meta_data." field) then Ok tt
    else Err (ENew ("invalid JSON key " +:+ quoted (drop_prefix "meta_data." field) +:+ " in field "
                    +:+ quoted field +:+ ": must match pattern ^[a-zA-Z][a-zA-Z0-9_]*$"))
  else if valid_field table field then Ok tt
  else Err (ENew ("invalid field " +:+ quoted field +:+ " for table " +:+ quoted table)).

(** The first filter that is not valid. *)
Fixpoint validate_filters (table : string) (fs : list QueryFilter) : result unit :=
  match fs with
  | [] => Ok tt
  | f :: fs => _ ← validate_filter table f; validate_filters table fs
  end.

Definition Validate (filters : option QueryFilterSet) (table : string) : result unit :=
  match filters with
  | None => Ok tt
  | Some fs =>
      if negb (IsValidLogicalOperator (qs_LogicalOperator fs)) then
        Err (ENew ("invalid logical_operator " +:+ quoted (qs_LogicalOperator fs) +:+ ": must be 'and' or 'or'"))
      else if Nat.eqb (length (GetValidFieldsForTable table)) 0 then
        Err (ENew ("unsupported table for advanced filtering: " +:+ table))
      else validate_filters table (qs_Filters fs)
  end.

Definition ValidateSortField (sortBy table : string) : result unit :=
  if String.eqb sortBy "" then Ok tt
  else if Nat.eqb (length (GetValidFieldsForTable table)) 0 then
    Err (ENew ("sorting not supported for table: " +:+ table))
  else if valid_field table sortBy then Ok tt
  else Err (ENew ("cannot sort by " +:+ quoted sortBy +:+ " for table " +:+ quoted table +:+ ": field is not filterable")).

Definition GetDefaultSortField (table : string) : string := "created_at".

Abbreviation SortOrder := string (only parsing).
Definition SortAsc : SortOrder := "asc".
Definition SortDesc : SortOrder := "desc".

Record QueryOptions := mkQueryOptions { SortBy : string; o_SortOrder : SortOrder; IncludeCount : bool }.

Definition DefaultSortOrder (o : QueryOptions) : SortOrder :=
  if String.eqb (o_SortOrder o) ""
     || negb (String.eqb (o_SortOrder o) SortAsc) && negb (String.eqb (o_SortOrder o) SortDesc)
  then SortDesc else o_SortOrder o.

(** The options with the sort field normalized. *)
Definition ValidateSortByForTable (o : QueryOptions) (table : string) : result QueryOptions :=
  if String.eqb (SortBy o) "" then Ok o
  else
    let sortBy := to_lower (TrimSpace (SortBy o)) in
    if valid_field table sortBy then Ok (mkQueryOptions sortBy (o_SortOrder o) (IncludeCount o))
    else Err (ENew "invalid sort_by field").

(** ** sql_builder.go: columns *)

(** The cases of the switch; each returns the name it matched. *)
Definition safe_columns (table : string) : list string :=
  if String.eqb table "transactions" then
    ["transaction_id"; "parent_transaction"; "amount"; "currency"; "source"; "destination"; "balance_id";
     "reference"; "status"; "created_at"; "effective_date"; "indicator"; "description"; "precision"; "meta_data"]
  else if String.eqb table "balances" then
    ["balance_id"; "ledger_id"; "identity_id"; "indicator"; "currency"; "balance"; "credit_balance";
     "debit_balance"; "inflight_balance"; "inflight_credit_balance"; "inflight_debit_balance"; "created_at"; "meta_data"]
  else if String.eqb table "ledgers" then ["ledger_id"; "name"; "created_at"; "meta_data"]
  else if String.eqb table "identity" then
    ["identity_id"; "first_name"; "last_name"; "other_names"; "gender"; "dob"; "email_address"; "phone_number";
     "nationality"; "street"; "country"; "state"; "organization_name"; "category"; "identity_type"; "post_code";
     "city"; "created_at"; "meta_data"]
  else if String.eqb table "accounts" then
    ["account_id"; "name"; "number"; "bank_name"; "currency"; "ledger_id"; "identity_id"; "balance_id";
     "created_at"; "meta_data"]
  else if String.eqb table "reconciliations" then
    ["reconciliation_id"; "upload_id"; "status"; "matched_transactions"; "unmatched_transactions"; "started_at";
     "completed_at"]
  else if String.eqb table "matching_rules" then ["rule_id"; "name"; "description"; "created_at"; "updated_at"]
  else if String.eqb table "external_transactions" then
    ["id"; "amount"; "reference"; "currency"; "description"; "date"; "source"; "upload_id"]
  else [].

Definition safeColumnForTableAndField (table logicalName : string) : string :=
  default "" (List.find (String.eqb logicalName) (safe_columns table)).

Definition safeColumnForSort (table logicalName : string) : string :=
  let col := safeColumnForTableAndField table logicalName in
  if negb (String.eqb col "") then col else GetDefaultSortField table.

Definition ResolveSortField (table sortBy : string) : string :=
  let normalized := to_lower (TrimSpace sortBy) in
  if String.eqb normalized "" then GetDefaultSortField table
  else if negb (valid_field table normalized) then GetDefaultSortField table
  else safeColumnForSort table normalized.

(** A column, under the alias of its table if it has one. *)
Definition qualified (alias column : string) : string :=
  if String.eqb alias "" then column else alias +:+ "." +:+ column.

Definition BuildOrderBy (sortBy : string) (sortOrder : SortOrder) (table alias : string) : string :=
  let direction := if String.eqb sortOrder SortAsc then "ASC" else "DESC" in
  qualified alias (ResolveSortField table sortBy) +:+ " " +:+ direction.

(** ** sql_builder.go, sql_json.go, sql_special.go: conditions *)

(** [$%d]. *)
Definition ph (n : Z) : string := "$" +:+ Z_to_string n.

(** [count] parameters from [n] on, separated by commas. *)
Fixpoint ph_from (n : Z) (count : nat) : list string :=
  match count with O => [] | S count => ph n :: ph_from (n + 1) count end.
Definition ph_list (n : Z) (count : nat) : string := join ", " (ph_from n count).

(** The instants a value of an equality stands for, when it is a date. *)
Definition date_range (v : value) : option (time * time) :=
  match v with
  | VTimestamp t => Some (computeTimestampRange t)
  | VTime t offset =>
      Some (computeTimestampRange (mkTimestampValue t offset "" (getDatePrecisionFromTime t offset)))
  | _ => None
  end.

(** The SQL operators of the cases that compare with one value. *)
Definition sql_operator (op : Operator) : option string :=
  if String.eqb op OpNotEqual then Some " != "
  else if String.eqb op OpGreaterThan then Some " > "
  else if String.eqb op OpGreaterThanOrEqual then Some " >= "
  else if String.eqb op OpLessThan then Some " < "
  else if String.eqb op OpLessThanOrEqual then Some " <= "
  else if String.eqb op OpLike then Some " LIKE "
  else if String.eqb op OpILike then Some " ILIKE "
  else None.

(** A condition, its arguments and the next position. *)
Definition built : Type := string * list arg * Z.
Definition nothing (argPos : Z) : built := ("", [], argPos).

Definition buildStandardCondition (f : QueryFilter) (table alias : string) (argPos : Z) : built :=
  let safeField := safeColumnForTableAndField table (f_Field f) in
  if String.eqb safeField "" then nothing argPos
  else
    let fieldName := qualified alias safeField in
    let op := f_Operator f in
    if String.eqb op OpEqual then
      match date_range (f_Value f) with
      | Some (floor, ceiling) =>
          (fieldName +:+ " >= " +:+ ph argPos +:+ " AND " +:+ fieldName +:+ " < " +:+ ph (argPos + 1),
           [ATime floor; ATime ceiling], argPos + 2)
      | None => (fieldName +:+ " = " +:+ ph argPos, [extractValueForSQL (f_Value f)], argPos + 1)
      end
    else match sql_operator op with
    | Some o => (fieldName +:+ o +:+ ph argPos, [extractValueForSQL (f_Value f)], argPos + 1)
    | None =>
    if String.eqb op OpIn then
      match f_Values f with
      | [] => ("", [], 0)
      | vs => if isStringArray vs
              then (fieldName +:+ " = ANY(" +:+ ph argPos +:+ ")", [AStrings (convertToStringArray vs)], argPos + 1)
              else (fieldName +:+ " IN (" +:+ ph_list argPos (length vs) +:+ ")", map extractValueForSQL vs,
                    argPos + Z.of_nat (length vs))
      end
    else if String.eqb op OpBetween then
      match f_Values f with
      | [v1; v2] => (fieldName +:+ " BETWEEN " +:+ ph argPos +:+ " AND " +:+ ph (argPos + 1),
                     [extractValueForSQL v1; extractValueForSQL v2], argPos + 2)
      | _ => ("", [], 0)
      end
    else if String.eqb op OpIsNull then (fieldName +:+ " IS NULL", [], argPos)
    else if String.eqb op OpIsNotNull then (fieldName +:+ " IS NOT NULL", [], argPos)
    else nothing argPos
    end.

(** sql_json.go *)

Definition resolveJSONColumn (col : string) : string := if String.eqb col "meta_data" then "meta_data" else "".

(** The key rebuilt character by character, or empty. *)
Fixpoint rebuild (s : string) : option string :=
  match s with
  | "" => Some ""
  | String c s' => if isLetter c || isDigit c || bool_decide (c = "_"%char)
                   then String c <$> rebuild s' else None
  end.
Definition sanitizeJSONKey (key : string) : string :=
  match key with
  | "" => ""
  | String c _ => if isLetter c then default "" (rebuild key) else ""
  end.

Definition bool_text (b : bool) : string := if b then "true" else "false".

(** Booleans are compared as text. *)
Definition json_arg (v : value) : arg :=
  match v with VBool b => AText (bool_text b) | _ => extractValueForSQL v end.

(** The operators that compare text; the others cast to numbers. *)
Definition text_operator (op : Operator) : bool :=
  String.eqb op OpNotEqual || String.eqb op OpLike || String.eqb op OpILike.

Definition buildJSONPathCondition (f : QueryFilter) (alias : string) (argPos : Z) : built :=
  match split "." (f_Field f) with
  | part :: (_ :: _) as rest =>
      let jsonCol := resolveJSONColumn part in
      if String.eqb jsonCol "" then nothing argPos
      else
        let jsonKey := sanitizeJSONKey (join "." rest) in
        if String.eqb jsonKey "" then nothing argPos
        else
          let jsonCol := qualified alias jsonCol in
          let path := jsonCol +:+ "->>'" +:+ jsonKey +:+ "'" in
          let number := "(" +:+ path +:+ ")::numeric" in
          let op := f_Operator f in
          if String.eqb op OpEqual then
            match date_range (f_Value f) with
            | Some (floor, ceiling) =>
                ("(" +:+ path +:+ ")::timestamp >= " +:+ ph argPos +:+ " AND (" +:+ path
                 +:+ ")::timestamp < " +:+ ph (argPos + 1), [ATime floor; ATime ceiling], argPos + 2)
            | None =>
                match buildContainmentJSON jsonKey (f_Value f) with
                | None => nothing argPos
                | Some a => (jsonCol +:+ " @> " +:+ ph argPos +:+ "::jsonb", [a], argPos + 1)
                end
            end
          else match sql_operator op with
          | Some o =>
              if text_operator op
              then (path +:+ o +:+ ph argPos,
                    [if String.eqb op OpNotEqual then json_arg (f_Value f) else extractValueForSQL (f_Value f)],
                    argPos + 1)
              else (number +:+ o +:+ ph argPos, [extractValueForSQL (f_Value f)], argPos + 1)
          | None =>
          if String.eqb op OpIn then
            match f_Values f with
            | [] => ("", [], 0)
            | vs => (path +:+ " IN (" +:+ ph_list argPos (length vs) +:+ ")", map json_arg vs,
                     argPos + Z.of_nat (length vs))
            end
          else if String.eqb op OpBetween then
            match f_Values f with
            | [v1; v2] => (number +:+ " BETWEEN " +:+ ph argPos +:+ " AND " +:+ ph (argPos + 1),
                           [extractValueForSQL v1; extractValueForSQL v2], argPos + 2)
            | _ => ("", [], 0)
            end
          else if String.eqb op OpIsNull then
            ("(" +:+ path +:+ " IS NULL OR " +:+ jsonCol +:+ " ? '" +:+ jsonKey +:+ "' = false)", [], argPos)
          else if String.eqb op OpIsNotNull then
            ("(" +:+ path +:+ " IS NOT NULL AND " +:+ jsonCol +:+ " ? '" +:+ jsonKey +:+ "' = true)", [], argPos)
          else nothing argPos
          end
  | _ => nothing argPos
  end.

(** sql_special.go *)

Definition buildBalanceIdCondition (f : QueryFilter) (alias : string) (argPos : Z) : built :=
  let src := qualified alias "source" in let dst := qualified alias "destination" in
  let op := f_Operator f in
  if String.eqb op OpEqual then
    ("(" +:+ src +:+ " = " +:+ ph argPos +:+ " OR " +:+ dst +:+ " = " +:+ ph argPos +:+ ")",
     [extractValueForSQL (f_Value f)], argPos + 1)
  else if String.eqb op OpNotEqual then
    ("(" +:+ src +:+ " != " +:+ ph argPos +:+ " AND " +:+ dst +:+ " != " +:+ ph argPos +:+ ")",
     [extractValueForSQL (f_Value f)], argPos + 1)
  else if String.eqb op OpIn then
    match f_Values f with
    | [] => ("", [], 0)
    | vs =>
        if isStringArray vs
        then ("(" +:+ src +:+ " = ANY(" +:+ ph argPos +:+ ") OR " +:+ dst +:+ " = ANY(" +:+ ph argPos +:+ "))",
              [AStrings (convertToStringArray vs)], argPos + 1)
        else ("(" +:+ src +:+ " IN (" +:+ ph_list argPos (length vs) +:+ ") OR " +:+ dst +:+ " IN ("
              +:+ ph_list argPos (length vs) +:+ "))", map extractValueForSQL vs, argPos + Z.of_nat (length vs))
    end
  else if String.eqb op OpIsNull then ("(" +:+ src +:+ " IS NULL AND " +:+ dst +:+ " IS NULL)", [], argPos)
  else if String.eqb op OpIsNotNull then
    ("(" +:+ src +:+ " IS NOT NULL OR " +:+ dst +:+ " IS NOT NULL)", [], argPos)
  else nothing argPos.

(** The condition of the subquery, or [None] where the function returns early. *)
Definition indicator_subquery (f : QueryFilter) (argPos : Z) : option built :=
  let op := f_Operator f in
  let column := "b.indicator" in
  if String.eqb op OpEqual then
    Some (column +:+ " = " +:+ ph argPos, [extractValueForSQL (f_Value f)], argPos + 1)
  else match sql_operator op with
  | Some o => Some (column +:+ o +:+ ph argPos, [extractValueForSQL (f_Value f)], argPos + 1)
  | None =>
  if String.eqb op OpIn then
    match f_Values f with
    | [] => None
    | vs => Some (if isStringArray vs
                  then (column +:+ " = ANY(" +:+ ph argPos +:+ ")", [AStrings (convertToStringArray vs)], argPos + 1)
                  else (column +:+ " IN (" +:+ ph_list argPos (length vs) +:+ ")", map extractValueForSQL vs,
                        argPos + Z.of_nat (length vs)))
    end
  else if String.eqb op OpBetween then
    match f_Values f with
    | [v1; v2] => Some (column +:+ " BETWEEN " +:+ ph argPos +:+ " AND " +:+ ph (argPos + 1),
                        [extractValueForSQL v1; extractValueForSQL v2], argPos + 2)
    | _ => None
    end
  else if String.eqb op OpIsNull then Some (column +:+ " IS NULL", [], argPos)
  else if String.eqb op OpIsNotNull then Some (column +:+ " IS NOT NULL", [], argPos)
  else None
  end.

Definition indicator_cte (subqueryCondition : string) : string :=
  "_indicator_matches AS (SELECT b.balance_id FROM blnk.balances b WHERE " +:+ subqueryCondition +:+ ")".

Definition buildIndicatorCondition (f : QueryFilter) (alias : string) (argPos : Z) : built * list string :=
  match indicator_subquery f argPos with
  | None => (nothing argPos, [])
  | Some (subqueryCondition, args, next) =>
      let src := qualified alias "source" in let dst := qualified alias "destination" in
      ("(" +:+ src +:+ " IN (SELECT balance_id FROM _indicator_matches) OR " +:+ dst
       +:+ " IN (SELECT balance_id FROM _indicator_matches))", args, next, [indicator_cte subqueryCondition])
  end.

(** ** sql_builder.go: the query *)

Record BuildResult := mkBuildResult {
  CTEs : list string;
  Conditions : list string;
  Args : list arg;
  NextArgPos : Z;
  OrderBy : string;
}.

(** The condition of one filter. *)
Definition build_filter (table alias : string) (f : QueryFilter) (argPos : Z) : built * list string :=
  if contains (f_Field f) "." && has_prefix "meta_data" (f_Field f)
  then (buildJSONPathCondition f alias argPos, [])
  else if String.eqb (f_Field f) "balance_id" && String.eqb table "transactions"
  then (buildBalanceIdCondition f alias argPos, [])
  else if String.eqb (f_Field f) "indicator" && String.eqb table "transactions"
  then buildIndicatorCondition f alias argPos
  else (buildStandardCondition f table alias argPos, []).

(** One turn of the loop; a filter without a condition leaves everything as it
    was. *)
Definition build_step (table alias : string) (r : BuildResult) (f : QueryFilter) : BuildResult :=
  let '(cond, args, next, ctes) := build_filter table alias f (NextArgPos r) in
  if String.eqb cond "" then r
  else mkBuildResult (CTEs r ++ ctes) (Conditions r ++ [cond]) (Args r ++ args) next (OrderBy r).

Definition Build (filters : option QueryFilterSet) (table alias : string) (startArgPos : Z) : result BuildResult :=
  let empty := mkBuildResult [] [] [] startArgPos "" in
  match filters with
  | None => Ok empty
  | Some fs =>
      if Nat.eqb (length (qs_Filters fs)) 0 then Ok empty
      else _ ← Validate filters table; Ok (fold_left (build_step table alias) (qs_Filters fs) empty)
  end.

Definition BuildConditionExpression (conditions : list string) (logicalOperator : LogicalOperator) : string :=
  if Nat.eqb (length conditions) 0 then ""
  else if String.eqb logicalOperator LogicalOr
  then join " OR " (map (λ cond, "(" +:+ cond +:+ ")") conditions)
  else join " AND " conditions.

Definition BuildWithOptions (filters : option QueryFilterSet) (table alias : string) (startArgPos : Z)
    (opts : option QueryOptions) : result BuildResult :=
  r ← Build filters table alias startArgPos;
  let order := match opts with Some o => DefaultSortOrder o | None => SortDesc end in
  let sortBy := match opts with Some o => SortBy o | None => "" end in
  _ ← ValidateSortField sortBy table;
  Ok (mkBuildResult (CTEs r) (Conditions r) (Args r) (NextArgPos r) (BuildOrderBy sortBy order table alias)).

(** ** The listings of the datasource *)

(** The line breaks and indents of the base query. *)
Definition lf : string := String "010" "".
Definition tab : string := String "009" "".

(** What the listings share: the text and the arguments handed to the driver. *)
Definition listing_query (table selectFields : string) (with_ctes : bool) (filters : option QueryFilterSet)
    (opts : option QueryOptions) (limit offset : Z) : result (string * list arg) :=
  opts ← match ValidateSortByForTable (default (mkQueryOptions "" "" false) opts) table with
         | Ok o => Ok o
         | Err _ => Err (EAPI "BAD_REQUEST" "Invalid sort_by field")
         end;
  r ← match BuildWithOptions filters table "" 1 (Some opts) with
      | Ok r => Ok r
      | Err e => Err (EAPI "BAD_REQUEST" ("Invalid filter: " +:+ error_text e))
      end;
  let selectFields := if IncludeCount opts then selectFields +:+ ", COUNT(*) OVER() AS total_count"
                      else selectFields in
  let baseQuery := lf +:+ tab +:+ tab +:+ "SELECT " +:+ selectFields +:+ lf +:+ tab +:+ tab
                   +:+ "FROM blnk." +:+ table +:+ lf +:+ tab in
  let where_ :=
    match Conditions r with
    | [] => ""
    | conds => " WHERE " +:+ BuildConditionExpression conds
                 (match filters with Some fs => qs_LogicalOperator fs | None => LogicalAnd end)
    end in
  let with_ := if with_ctes && negb (Nat.eqb (length (CTEs r)) 0)
               then "WITH " +:+ join ", " (CTEs r) +:+ " " else "" in
  Ok (with_ +:+ baseQuery +:+ where_ +:+ " ORDER BY " +:+ OrderBy r
      +:+ " LIMIT " +:+ ph (NextArgPos r) +:+ " OFFSET " +:+ ph (NextArgPos r + 1),
      Args r ++ [AInt limit; AInt offset]).

Definition capped (limit lo cap : Z) : Z := if (limit <=? 0) || (cap <? limit) then lo else limit.

Definition GetAllTransactionsWithFilterAndOptions (filters : option QueryFilterSet) (opts : option QueryOptions)
    (limit offset : Z) : result (string * list arg) :=
  listing_query "transactions"
    "transaction_id, source, reference, amount, precise_amount, precision, currency, destination, description, status, hash, created_at, effective_date, meta_data"
    true filters opts (capped limit 1000 1000) offset.

Definition GetAllBalancesWithFilterAndOptions (filters : option QueryFilterSet) (opts : option QueryOptions)
    (limit offset : Z) : result (string * list arg) :=
  listing_query "balances"
    "balance_id, indicator, balance, credit_balance, debit_balance, inflight_balance, inflight_credit_balance, inflight_debit_balance, currency, ledger_id, COALESCE(identity_id, '') as identity_id, created_at, meta_data"
    false filters opts (capped limit 1000 1000) offset.

Definition GetAllLedgersWithFilterAndOptions (filters : option QueryFilterSet) (opts : option QueryOptions)
    (limit offset : Z) : result (string * list arg) :=
  listing_query "ledgers" "ledger_id, name, created_at, meta_data" false filters opts (capped limit 20 100) offset.

Definition GetAllIdentitiesWithFilterAndOptions (filters : option QueryFilterSet) (opts : option QueryOptions)
    (limit offset : Z) : result (string * list arg) :=
  listing_query "identity"
    "identity_id, identity_type, first_name, last_name, other_names, gender, dob, email_address, phone_number, nationality, organization_name, category, street, country, state, post_code, city, created_at, meta_data"
    false filters opts (capped limit 20 100) offset.

Definition GetAllAccountsWithFilterAndOptions (filters : option QueryFilterSet) (opts : option QueryOptions)
    (limit offset : Z) : result (string * list arg) :=
  listing_query "accounts"
    "account_id, name, number, bank_name, currency, ledger_id, identity_id, balance_id, created_at, meta_data"
    false filters opts (capped limit 20 100) offset.

(** ** api/filter_helper.go *)

Record FilterRequest := mkFilterRequest {
  fr_Filters : list QueryFilter;
  fr_LogicalOperator : string;
  fr_Limit : Z;
  fr_Offset : Z;
  fr_SortBy : string;
  fr_SortOrder : string;
  fr_IncludeCount : bool;
}.

Definition sanitized_order (s : string) : SortOrder :=
  let s := to_lower (TrimSpace s) in
  if negb (String.eqb s "asc") && negb (String.eqb s "desc") then "desc" else s.

Definition sanitized_sort (s table : string) : string :=
  let s := to_lower (TrimSpace s) in
  if negb (String.eqb s "") && negb (valid_field table s) then "" else s.

(** From a decoded JSON body. *)
Definition ParseFiltersFromBody (req : FilterRequest) (table : string)
    : result (QueryFilterSet * QueryOptions * Z * Z) :=
  let limit := capped (fr_Limit req) 20 100 in
  let offset := if fr_Offset req <? 0 then 0 else fr_Offset req in
  let opts := mkQueryOptions (sanitized_sort (fr_SortBy req) table) (sanitized_order (fr_SortOrder req))
                (fr_IncludeCount req) in
  op ← (if negb (String.eqb (TrimSpace (fr_LogicalOperator req)) "") then
          let op := ResolveLogicalOperator (fr_LogicalOperator req) in
          if String.eqb op "" then Err (ENew "invalid logical_operator: must be 'and' or 'or'") else Ok op
        else Ok LogicalAnd);
  Ok (mkQueryFilterSet (fr_Filters req) op, opts, limit, offset).

Definition ParseFiltersFromContext `{MapIter} (q : url_Values) (opts : option ParseOptions)
    : QueryFilterSet * list ParseError :=
  let r := ParseFromQuery q opts in (pr_Filters r, pr_Errors r).

Definition HasFilters `{MapIter} (q : url_Values) : bool :=
  let r := ParseFromQuery q None in
  negb (Nat.eqb (length (qs_Filters (pr_Filters r))) 0) || negb (Nat.eqb (length (pr_Errors r)) 0).

Definition DefaultQuery (q : url_Values) (key default_ : string) : string :=
  match q !! key with Some (v :: _) => v | _ => default_ end.

Definition ParseQueryOptions (q : url_Values) (table : string) : QueryOptions :=
  mkQueryOptions (sanitized_sort (DefaultQuery q "sort_by" "") table)
    (sanitized_order (DefaultQuery q "sort_order" "desc"))
    (String.eqb (DefaultQuery q "include_count" "") "true").

(** ** The parameters of a text *)

(** The numbers after dollar signs, as PostgreSQL's lexer reads them. *)
Fixpoint placeholders (s : string) : list Z :=
  match s with
  | "" => []
  | String c s' => if bool_decide (c = "$"%char)
                   then (Float64.read_digits s' 0 0).1.1 :: placeholders s'
                   else placeholders s'
  end.

(** Without parameters, and no continuation of one. *)
Definition inert (s : string) : Prop := free_of "$" s = true ∧ Float64.starts_digit s = false.

Lemma read_digits_app a b acc cnt :
  Float64.starts_digit b = false →
  (Float64.read_digits (a +:+ b) acc cnt).1.1 = (Float64.read_digits a acc cnt).1.1.
Proof.
  intros Hb. revert acc cnt. induction a as [|c a IH]; intros acc cnt.
  - rewrite string_app_nil_l. by rewrite Float64.read_digits_stop.
  - rewrite string_app_cons. cbn [Float64.read_digits]. destruct (Float64.digit_of c); [apply IH|done].
Qed.

Lemma placeholders_app a b :
  Float64.starts_digit b = false → placeholders (a +:+ b) = placeholders a ++ placeholders b.
Proof.
  intros Hb. induction a as [|c a IH]; [by rewrite string_app_nil_l|].
  rewrite string_app_cons. cbn [placeholders]. case_bool_decide; [|done].
  by rewrite read_digits_app, IH.
Qed.

Lemma placeholders_free s : free_of "$" s = true → placeholders s = [].
Proof.
  induction s as [|c s IH]; [done|]. cbn [free_of placeholders].
  intros [Hc Hs]%andb_true_iff. apply negb_true_iff, Ascii.eqb_neq in Hc.
  rewrite bool_decide_eq_false_2 by done. by apply IH.
Qed.

Lemma placeholders_inert s : inert s → placeholders s = [].
Proof. intros [? _]. by apply placeholders_free. Qed.

Lemma uint_free c u : Float64.digit_of c = None → free_of c (DecimalString.NilEmpty.string_of_uint u) = true.
Proof.
  intros Hc. induction u; [done|..]; cbn [DecimalString.NilEmpty.string_of_uint free_of]; rewrite IHu, andb_true_r;
    apply negb_true_iff, Ascii.eqb_neq; by intros <-.
Qed.

Lemma number_free c n : 0 <= n → Float64.digit_of c = None → free_of c (Z_to_string n) = true.
Proof.
  intros Hn Hc. unfold Z_to_string. destruct n as [|q|q]; [|by apply uint_free|lia].
  change (negb (Ascii.eqb "0"%char c) && true = true). rewrite andb_true_r.
  apply negb_true_iff, Ascii.eqb_neq. by intros <-.
Qed.

Lemma placeholders_ph n : 0 <= n → placeholders (ph n) = [n].
Proof.
  intros Hn. change (ph n) with (String "$" (Z_to_string n)).
  change ((Float64.read_digits (Z_to_string n) 0 0).1.1 :: placeholders (Z_to_string n) = [n]).
  rewrite placeholders_free by (by apply number_free). f_equal.
  destruct (Float64.read_Z_to_string n "" 0) as (cnt & Hr & _); [done|done|].
  rewrite string_app_nil_r in Hr. by rewrite Hr.
Qed.

Lemma starts_digit_app a b :
  Float64.starts_digit a = false → Float64.starts_digit b = false → Float64.starts_digit (a +:+ b) = false.
Proof. destruct a as [|c a]; [by rewrite string_app_nil_l|done]. Qed.

Lemma starts_digit_ph n : Float64.starts_digit (ph n) = false.
Proof. done. Qed.

Lemma free_of_app c a b : free_of c (a +:+ b) = free_of c a && free_of c b.
Proof. induction a as [|x a IH]; [by rewrite string_app_nil_l|]. rewrite string_app_cons. cbn. by rewrite IH, andb_assoc. Qed.

Lemma inert_app a b : inert a → inert b → inert (a +:+ b).
Proof.
  intros [H1 H2] [H3 H4]. split; [by rewrite free_of_app, H1, H3|by apply starts_digit_app].
Qed.

(** ** Each condition carries its own parameters *)

(** Texts built at [argPos]: there is one argument for each number up to the next
    position, and the parameters of the texts are these numbers. *)
Definition numbered (argPos : Z) (texts : list string) (args : list arg) (next : Z) : Prop :=
  next = argPos + Z.of_nat (length args)
  ∧ ∀ n, n ∈ flat_map placeholders texts ↔ argPos <= n < next.

(** What a filter builds: nothing, or a condition with its subqueries. *)
Definition well_built (argPos : Z) (b : built * list string) : Prop :=
  let '(cond, args, next, ctes) := b in
  cond = "" ∨ Forall (λ s, Float64.starts_digit s = false) (ctes ++ [cond])
              ∧ numbered argPos (ctes ++ [cond]) args next.

Lemma ph_from_app n k : join ", " (ph_from n (S (S k))) = ph n +:+ ", " +:+ join ", " (ph_from (n + 1) (S k)).
Proof. done. Qed.

Lemma starts_digit_ph_list n k : Float64.starts_digit (ph_list n k) = false.
Proof. by destruct k as [|[|k]]. Qed.

Lemma placeholders_ph_list n k : 0 <= n → ∀ m, m ∈ placeholders (ph_list n k) ↔ n <= m < n + Z.of_nat k.
Proof.
  unfold ph_list. revert n. induction k as [|[|k] IH]; intros n Hn m.
  - cbn. rewrite elem_of_nil. lia.
  - cbn [ph_from join]. rewrite placeholders_ph by done. rewrite list_elem_of_singleton. lia.
  - rewrite ph_from_app, (placeholders_app (ph n)) by done.
    rewrite (placeholders_app ", ") by apply (starts_digit_ph_list (n + 1) (S k)).
    rewrite placeholders_ph by done.
    rewrite !elem_of_app, IH by lia. rewrite list_elem_of_singleton.
    change (placeholders ", ") with (@nil Z). rewrite elem_of_nil. lia.
Qed.

Lemma qualified_inert alias col : inert alias → inert col → inert (qualified alias col).
Proof. intros Ha Hc. unfold qualified. destruct (String.eqb alias ""); [done|]. by repeat apply inert_app. Qed.

Lemma sql_operator_inert op o : sql_operator op = Some o → inert o.
Proof. unfold sql_operator. repeat (case_match; [by intros [= <-]|]). done. Qed.

Lemma safe_columns_inert table : Forall inert (safe_columns table).
Proof. unfold safe_columns. repeat case_match; repeat constructor. Qed.

Lemma safe_column_inert table field : inert (safeColumnForTableAndField table field).
Proof.
  unfold safeColumnForTableAndField. destruct (List.find _ _) as [c|] eqn:Hf; [|by constructor].
  apply find_some in Hf as [Hin%list_elem_of_In _]. cbn.
  by apply (proj1 (Forall_forall _ _) (safe_columns_inert table)).
Qed.

Lemma one_text argPos cond args next :
  Float64.starts_digit cond = false → next = argPos + Z.of_nat (length args) →
  (∀ n, n ∈ placeholders cond ↔ argPos <= n < next) → well_built argPos (cond, args, next, []).
Proof.
  intros H1 H2 H3. right. split; [by repeat constructor|]. split; [done|]. intros n.
  cbn [flat_map app]. by rewrite app_nil_r.
Qed.

Lemma ph_nonempty n : ph n ≠ "".
Proof. done. Qed.

#[local] Opaque ph ph_list qualified.

(** Splits a text at its pieces and counts. *)
Ltac pieces :=
  repeat first [ done | apply starts_digit_ph | apply starts_digit_ph_list
               | match goal with H : inert ?s |- Float64.starts_digit ?s = false => exact (proj2 H) end
               | apply starts_digit_app ].
Ltac params :=
  rewrite ?placeholders_app by pieces;
  rewrite ?placeholders_ph by lia;
  repeat match goal with
         | H : inert ?s |- context [placeholders ?s] => rewrite (placeholders_inert s H)
         | |- context [placeholders ?s] => rewrite (placeholders_free s eq_refl)
         end;
  rewrite ?app_nil_l, ?app_nil_r;
  rewrite ?elem_of_app, ?elem_of_cons, ?elem_of_nil;
  rewrite ?placeholders_ph_list by lia.
Ltac one_condition := apply one_text; [pieces|cbn [length map]; rewrite ?length_map; lia|intros n; params; cbn [length]; try lia].

Lemma buildStandardCondition_built f table alias argPos :
  inert alias → 0 <= argPos → well_built argPos (buildStandardCondition f table alias argPos, []).
Proof.
  intros Ha Hpos. unfold buildStandardCondition.
  destruct (String.eqb _ ""); [by left|].
  pose proof (qualified_inert alias _ Ha (safe_column_inert table (f_Field f))) as Hf.
  set (fieldName := qualified alias _) in *. clearbody fieldName. cbv zeta.
  destruct (String.eqb (f_Operator f) OpEqual).
  { destruct (date_range (f_Value f)) as [[floor ceiling]|]; one_condition. }
  destruct (sql_operator (f_Operator f)) as [o|] eqn:Ho; [apply sql_operator_inert in Ho; one_condition|].
  destruct (String.eqb (f_Operator f) OpIn).
  { destruct (f_Values f) as [|v vs]; [by left|]. destruct (isStringArray _); one_condition. }
  destruct (String.eqb (f_Operator f) OpBetween).
  { destruct (f_Values f) as [|v1 [|v2 [|]]]; try by left. one_condition. }
  destruct (String.eqb (f_Operator f) OpIsNull); [one_condition|].
  destruct (String.eqb (f_Operator f) OpIsNotNull); [one_condition|]. by left.
Qed.

Lemma rebuild_same s t : rebuild s = Some t → t = s ∧ free_of "$" s = true.
Proof.
  revert t. induction s as [|c s IH]; intros t; [by intros [= <-]|]. cbn [rebuild].
  destruct (isLetter c || isDigit c || bool_decide (c = "_"%char)) eqn:Hc; [|done].
  intros (t' & Ht & ->)%fmap_Some. destruct (IH t' Ht) as [-> Hs]. split; [done|].
  cbn [free_of]. rewrite Hs, andb_true_r. apply negb_true_iff, Ascii.eqb_neq. by intros ->.
Qed.

Lemma sanitizeJSONKey_inert key : inert (sanitizeJSONKey key).
Proof.
  destruct key as [|c key]; [by constructor|]. cbn [sanitizeJSONKey].
  destruct (isLetter c) eqn:Hl; [|by constructor].
  destruct (rebuild (String c key)) as [t|] eqn:Hr; [|by constructor].
  apply rebuild_same in Hr as [-> Hf]. split; [done|].
  unfold isLetter in Hl. cbn. unfold Float64.digit_of. case_match eqn:E; [|done].
  destruct ((48 <=? _) && _) eqn:Hd in E; [|done]. exfalso.
  rewrite orb_true_iff, !andb_true_iff, !N.leb_le in Hl. rewrite andb_true_iff, !Z.leb_le in Hd. lia.
Qed.

Lemma resolveJSONColumn_inert c : inert (resolveJSONColumn c).
Proof. unfold resolveJSONColumn. by destruct (String.eqb c _). Qed.

Lemma buildJSONPathCondition_built f alias argPos :
  inert alias → 0 <= argPos → well_built argPos (buildJSONPathCondition f alias argPos, []).
Proof.
  intros Ha Hpos. unfold buildJSONPathCondition.
  destruct (split "." (f_Field f)) as [|part [|p2 rest]]; [by left..|].
  pose proof (resolveJSONColumn_inert part) as Hcol.
  set (col := resolveJSONColumn part) in *. clearbody col. cbv zeta.
  destruct (String.eqb col ""); [by left|].
  pose proof (sanitizeJSONKey_inert (join "." (p2 :: rest))) as Hkey.
  set (key := sanitizeJSONKey _) in *. clearbody key.
  destruct (String.eqb key ""); [by left|].
  pose proof (qualified_inert alias col Ha Hcol) as Hq. set (jsonCol := qualified alias col) in *. clearbody jsonCol.
  assert (inert (jsonCol +:+ "->>'" +:+ key +:+ "'")) as Hpath by (repeat apply inert_app; first [done|by split]).
  set (path := jsonCol +:+ "->>'" +:+ key +:+ "'") in *. clearbody path.
  assert (inert ("(" +:+ path +:+ ")::numeric")) as Hnum by (repeat apply inert_app; first [done|by split]).
  set (number := "(" +:+ path +:+ ")::numeric") in *. clearbody number.
  destruct (String.eqb (f_Operator f) OpEqual).
  { destruct (date_range (f_Value f)) as [[floor ceiling]|]; [one_condition|].
    destruct (buildContainmentJSON key (f_Value f)); [one_condition|by left]. }
  destruct (sql_operator (f_Operator f)) as [o|] eqn:Ho.
  { apply sql_operator_inert in Ho. destruct (text_operator _); one_condition. }
  destruct (String.eqb (f_Operator f) OpIn).
  { destruct (f_Values f) as [|v vs]; [by left|]. one_condition. }
  destruct (String.eqb (f_Operator f) OpBetween).
  { destruct (f_Values f) as [|v1 [|v2 [|]]]; try by left. one_condition. }
  destruct (String.eqb (f_Operator f) OpIsNull); [one_condition|].
  destruct (String.eqb (f_Operator f) OpIsNotNull); [one_condition|]. by left.
Qed.

Lemma buildBalanceIdCondition_built f alias argPos :
  inert alias → 0 <= argPos → well_built argPos (buildBalanceIdCondition f alias argPos, []).
Proof.
  intros Ha Hpos. unfold buildBalanceIdCondition.
  assert (inert "source" ∧ inert "destination") as [Hs Hd] by (by repeat constructor).
  pose proof (qualified_inert alias _ Ha Hs) as Hsrc. pose proof (qualified_inert alias _ Ha Hd) as Hdst.
  set (src := qualified alias "source") in *. clearbody src.
  set (dst := qualified alias "destination") in *. clearbody dst. cbv zeta.
  destruct (String.eqb (f_Operator f) OpEqual); [one_condition|].
  destruct (String.eqb (f_Operator f) OpNotEqual); [one_condition|].
  destruct (String.eqb (f_Operator f) OpIn).
  { destruct (f_Values f) as [|v vs]; [by left|]. destruct (isStringArray _); one_condition. }
  destruct (String.eqb (f_Operator f) OpIsNull); [one_condition|].
  destruct (String.eqb (f_Operator f) OpIsNotNull); [one_condition|]. by left.
Qed.

Lemma indicator_subquery_built f argPos cond args next :
  0 <= argPos → indicator_subquery f argPos = Some (cond, args, next) →
  cond ≠ "" ∧ well_built argPos (cond, args, next, []).
Proof.
  intros Hpos. unfold indicator_subquery. cbv zeta.
  destruct (String.eqb (f_Operator f) OpEqual); [intros [= <- <- <-]; split; [done|one_condition]|].
  destruct (sql_operator (f_Operator f)) as [o|] eqn:Ho.
  { apply sql_operator_inert in Ho. intros [= <- <- <-]. split; [done|one_condition]. }
  destruct (String.eqb (f_Operator f) OpIn).
  { destruct (f_Values f) as [|v vs]; [done|].
    destruct (isStringArray _); intros [= <- <- <-]; (split; [done|one_condition]). }
  destruct (String.eqb (f_Operator f) OpBetween).
  { destruct (f_Values f) as [|v1 [|v2 [|]]]; try done. intros [= <- <- <-]. split; [done|one_condition]. }
  destruct (String.eqb (f_Operator f) OpIsNull); [intros [= <- <- <-]; split; [done|one_condition]|].
  destruct (String.eqb (f_Operator f) OpIsNotNull); [intros [= <- <- <-]; split; [done|one_condition]|]. done.
Qed.

Lemma buildIndicatorCondition_built f alias argPos :
  inert alias → 0 <= argPos → well_built argPos (buildIndicatorCondition f alias argPos).
Proof.
  intros Ha Hpos. unfold buildIndicatorCondition.
  destruct (indicator_subquery f argPos) as [[[cond args] next]|] eqn:Hq; [|by left].
  apply indicator_subquery_built in Hq as [Hne [->|[Hst [Hlen Hnum]]]]; [done| |done].
  assert (inert "source" ∧ inert "destination") as [Hs Hd] by (by repeat constructor).
  pose proof (qualified_inert alias _ Ha Hs) as Hsrc. pose proof (qualified_inert alias _ Ha Hd) as Hdst.
  set (src := qualified alias "source") in *. clearbody src.
  set (dst := qualified alias "destination") in *. clearbody dst.
  right. split; [by repeat constructor|]. split; [done|]. intros n. rewrite <-Hnum.
  unfold indicator_cte. cbn [flat_map app]. apply Forall_inv in Hst.
  rewrite !app_nil_r. params. naive_solver.
Qed.

Lemma build_filter_built table alias f argPos :
  inert alias → 0 <= argPos → well_built argPos (build_filter table alias f argPos).
Proof.
  intros Ha Hpos. unfold build_filter.
  destruct (contains _ _ && _); [by apply buildJSONPathCondition_built|].
  destruct (_ && _); [by apply buildBalanceIdCondition_built|].
  destruct (_ && _); [by apply buildIndicatorCondition_built|]. by apply buildStandardCondition_built.
Qed.

(** ** The whole set of filters *)

Record all_built (start : Z) (table : string) (r : BuildResult) : Prop := {
  ab_numbered : numbered start (CTEs r ++ Conditions r) (Args r) (NextArgPos r);
  ab_starts : Forall (λ s, Float64.starts_digit s = false) (CTEs r ++ Conditions r);
  ab_ctes : table ≠ "transactions" → CTEs r = [];
}.

Lemma elem_of_flat_map {A B} (f : A → list B) l x : x ∈ flat_map f l ↔ ∃ y, y ∈ l ∧ x ∈ f y.
Proof. rewrite list_elem_of_In, in_flat_map. by setoid_rewrite list_elem_of_In. Qed.

Lemma params_numbered_app start l l' args args' next next' :
  numbered start l args next → numbered next l' args' next' → numbered start (l ++ l') (args ++ args') next'.
Proof.
  intros [-> H1] [-> H2]. split; [rewrite length_app; lia|]. intros n.
  rewrite flat_map_app, elem_of_app, H1, H2. lia.
Qed.

Lemma numbered_perm start l l' args next : l ≡ₚ l' → numbered start l args next → numbered start l' args next.
Proof.
  intros Hp [-> H]. split; [done|]. intros n. rewrite <-H, !elem_of_flat_map. by setoid_rewrite Hp.
Qed.

Lemma build_filter_ctes table alias f argPos :
  table ≠ "transactions" → (build_filter table alias f argPos).2 = [].
Proof.
  intros Ht%String.eqb_neq. unfold build_filter. rewrite Ht, !andb_false_r. by destruct (_ && _).
Qed.

Lemma build_step_built start table alias r f :
  inert alias → 0 <= start → all_built start table r → all_built start table (build_step table alias r f).
Proof.
  intros Ha Hs [Hn Hst Hc]. assert (0 <= NextArgPos r) as Hpos by (destruct Hn as [-> _]; lia).
  pose proof (build_filter_built table alias f (NextArgPos r) Ha Hpos) as Hb.
  pose proof (build_filter_ctes table alias f (NextArgPos r)) as Hct.
  unfold build_step. destruct (build_filter table alias f (NextArgPos r)) as [[[cond args] next] ctes].
  destruct (String.eqb_spec cond "") as [|Hne]; [done|]. destruct Hb as [|[Hst' Hn']]; [done|].
  assert ((CTEs r ++ Conditions r) ++ (ctes ++ [cond]) ≡ₚ (CTEs r ++ ctes) ++ Conditions r ++ [cond]) as Hp
    by solve_Permutation.
  split; cbn [CTEs Conditions Args NextArgPos].
  - eapply numbered_perm; [exact Hp|]. by eapply params_numbered_app.
  - rewrite <-Hp. by apply Forall_app.
  - intros Ht. rewrite (Hc Ht). by apply Hct.
Qed.

Lemma build_loop_built start table alias fs r :
  inert alias → 0 <= start → all_built start table r →
  all_built start table (fold_left (build_step table alias) fs r).
Proof.
  intros Ha Hs. revert r. induction fs as [|f fs IH]; intros r Hr; [done|]. cbn [fold_left].
  by apply IH, build_step_built.
Qed.

Lemma Build_built filters table alias start r :
  inert alias → 0 <= start → Build filters table alias start = Ok r → all_built start table r.
Proof.
  intros Ha Hs. assert (all_built start table (mkBuildResult [] [] [] start "")) as H0.
  { split; [|done|done]. split; [cbn; lia|]. intros n. cbn. rewrite elem_of_nil. lia. }
  unfold Build. destruct filters as [fs|]; [|by intros [= <-]].
  destruct (Nat.eqb _ 0); [by intros [= <-]|].
  destruct (Validate (Some fs) table) as [[]|e]; [|done]. cbn. intros [= <-].
  by apply build_loop_built.
Qed.

(** ** The text of a query *)

Lemma starts_digit_join sep l :
  inert sep → Forall (λ s, Float64.starts_digit s = false) l → Float64.starts_digit (join sep l) = false.
Proof.
  intros [_ Hsep]. induction 1 as [|x [|y l] Hx Hl IH]; [done|done|].
  change (join sep (x :: y :: l)) with (x +:+ sep +:+ join sep (y :: l)).
  by repeat apply starts_digit_app.
Qed.

Lemma placeholders_join sep l :
  inert sep → Forall (λ s, Float64.starts_digit s = false) l → placeholders (join sep l) = flat_map placeholders l.
Proof.
  intros Hsep. induction 1 as [|x [|y l] Hx Hl IH]; [done|by cbn; rewrite app_nil_r|].
  change (join sep (x :: y :: l)) with (x +:+ sep +:+ join sep (y :: l)).
  assert (Float64.starts_digit (join sep (y :: l)) = false) as Hj by by apply starts_digit_join.
  rewrite placeholders_app by (apply starts_digit_app; [apply Hsep|done]).
  rewrite placeholders_app, (placeholders_inert sep), IH by done. done.
Qed.

Lemma placeholders_wrapped l :
  Forall (λ s, Float64.starts_digit s = false) l →
  flat_map placeholders (map (λ cond, "(" +:+ cond +:+ ")") l) = flat_map placeholders l.
Proof.
  induction 1 as [|c l Hc Hl IH]; [done|]. cbn [map flat_map]. rewrite IH. f_equal.
  rewrite placeholders_app by by apply starts_digit_app.
  rewrite placeholders_app by done. by rewrite app_nil_r.
Qed.

Lemma placeholders_expression l op :
  Forall (λ s, Float64.starts_digit s = false) l →
  placeholders (BuildConditionExpression l op) = flat_map placeholders l
  ∧ Float64.starts_digit (BuildConditionExpression l op) = false.
Proof.
  intros Hl. unfold BuildConditionExpression. destruct l as [|x l0]; [done|]. cbn [length Nat.eqb].
  set (l := x :: l0) in *. clearbody l.
  assert (inert " OR " ∧ inert " AND ") as [Hor Hand] by by repeat split.
  destruct (String.eqb op LogicalOr); [|split; [by apply placeholders_join|by apply starts_digit_join]].
  assert (Forall (λ s, Float64.starts_digit s = false) (map (λ cond, "(" +:+ cond +:+ ")") l)) as Hw
    by (apply Forall_map, Forall_true; done).
  split; [|by apply starts_digit_join]. rewrite placeholders_join by done. by apply placeholders_wrapped.
Qed.

Lemma ResolveSortField_inert table sortBy : inert (ResolveSortField table sortBy).
Proof.
  assert (inert "created_at") as Hd by by split.
  unfold ResolveSortField, safeColumnForSort, GetDefaultSortField.
  destruct (String.eqb _ ""); [done|]. destruct (negb (valid_field _ _)); [done|].
  destruct (negb _); [apply safe_column_inert|done].
Qed.

Lemma BuildOrderBy_inert sortBy order table alias : inert alias → inert (BuildOrderBy sortBy order table alias).
Proof.
  intros Ha. unfold BuildOrderBy. destruct (String.eqb order SortAsc);
    repeat apply inert_app; first [apply qualified_inert; [done|apply ResolveSortField_inert]|by split].
Qed.

(** The parameters of a listing's text are those of its conditions and the two
    of its page. *)
Lemma listing_query_parameters table fields with_ctes filters opts limit offset sql args :
  inert table → inert fields → (with_ctes = false → table ≠ "transactions") →
  listing_query table fields with_ctes filters opts limit offset = Ok (sql, args) →
  ∀ n, n ∈ placeholders sql ↔ 1 <= n <= Z.of_nat (length args).
Proof.
  intros Ht Hfields Hw. unfold listing_query, mbind, result_bind.
  destruct (ValidateSortByForTable _ table) as [o|e]; [|done].
  unfold BuildWithOptions, mbind, result_bind.
  destruct (Build filters table "" 1) as [r|e] eqn:Hb; [|done].
  destruct (ValidateSortField _ table) as [[]|e]; [|done]. cbn [CTEs Conditions Args NextArgPos OrderBy].
  apply Build_built in Hb as [[Hlen Hnum] Hst Hc]; [|by split|lia].
  apply Forall_app in Hst as [Hct Hcond].
  set (op := match filters with Some fs => qs_LogicalOperator fs | None => LogicalAnd end). clearbody op.
  assert (inert (BuildOrderBy (SortBy o) (DefaultSortOrder o) table "")) as Hob by by apply BuildOrderBy_inert.
  set (ob := BuildOrderBy _ _ _ _) in *. clearbody ob.
  set (fields' := if IncludeCount o then _ else fields).
  assert (inert fields') as Hf' by (unfold fields'; destruct (IncludeCount o); [apply inert_app; [done|by split]|done]).
  clearbody fields'. intros [= <- <-] n.
  set (where_ := match Conditions r with [] => "" | c :: cs => _ end).
  assert (placeholders where_ = flat_map placeholders (Conditions r) ∧ Float64.starts_digit where_ = false) as [Hwh Hwd].
  { unfold where_. destruct (Conditions r) as [|c cs]; [done|]. split; [|done].
    destruct (placeholders_expression (c :: cs) op Hcond) as [He Hd]. by rewrite placeholders_app, He by done. }
  clearbody where_. set (with_ := if with_ctes && _ then _ else "").
  assert (placeholders with_ = flat_map placeholders (CTEs r) ∧ Float64.starts_digit with_ = false) as [Hwi _].
  { unfold with_. destruct with_ctes; cbn [andb]; [|by rewrite Hc by by apply Hw].
    destruct (CTEs r) as [|c cs]; [done|]. cbn [length Nat.eqb negb]. split; [|done].
    assert (inert ", ") as Hsep by by split.
    rewrite placeholders_app by (apply starts_digit_app; [by apply starts_digit_join|done]).
    rewrite placeholders_app, placeholders_join by done. cbn [placeholders]. by rewrite app_nil_r. }
  clearbody with_. unfold lf, tab.
  assert (0 <= NextArgPos r) by lia.
  params. rewrite Hwi, Hwh, length_app. cbn [length].
  transitivity (n ∈ flat_map placeholders (CTEs r ++ Conditions r) ∨ NextArgPos r <= n <= NextArgPos r + 1).
  - rewrite flat_map_app, elem_of_app. intuition lia.
  - rewrite Hnum. lia.
Qed.

(** ** Only the shape of a request reaches the text

    A filter's field, operator, the number of its values, which values are
    dates or texts, and whether JSON can write them. *)

Inductive kind : Type := KDate | KText | KUnwritable | KPlain.

Definition kind_of (v : value) : kind :=
  match v with
  | VTimestamp _ | VTime _ _ => KDate
  | VString _ => KText
  | VFloat x => if finite x then KPlain else KUnwritable
  | _ => KPlain
  end.

Definition same_shape (f f' : QueryFilter) : Prop :=
  f_Field f = f_Field f' ∧ f_Operator f = f_Operator f'
  ∧ kind_of (f_Value f) = kind_of (f_Value f') ∧ map kind_of (f_Values f) = map kind_of (f_Values f').

(** The text of a built condition, and how many arguments it has. *)
Definition text_of (b : built * list string) : string * nat * Z * list string :=
  let '(cond, args, next, ctes) := b in (cond, length args, next, ctes).

Lemma kind_date v v' : kind_of v = kind_of v' → is_Some (date_range v) ↔ is_Some (date_range v').
Proof.
  intros Hk. destruct v, v'; cbn in *; try done; repeat case_match; try done;
    rewrite ?is_Some_alt; done.
Qed.

Lemma kinds_strings vs vs' : map kind_of vs = map kind_of vs' → isStringArray vs = isStringArray vs'.
Proof.
  revert vs'. induction vs as [|v vs IH]; intros [|v' vs'] Hk; try done. cbn in Hk. injection Hk as Hv Hvs.
  cbn. fold (isStringArray vs) (isStringArray vs'). rewrite (IH vs' Hvs). f_equal.
  destruct v, v'; cbn in *; repeat case_match; done.
Qed.

Lemma kinds_length vs vs' : map kind_of vs = map kind_of vs' → length vs = length vs'.
Proof. intros H%(f_equal length). by rewrite !length_map in H. Qed.

Lemma kind_marshals v v' : kind_of v = kind_of v' → marshals v = marshals v'.
Proof. destruct v, v'; cbn; repeat case_match; try done; congruence. Qed.

(** Two values or lists of one shape, case by case. *)
Lemma date_cases v v' : kind_of v = kind_of v' →
  (∃ a b c d, date_range v = Some (a, b) ∧ date_range v' = Some (c, d))
  ∨ date_range v = None ∧ date_range v' = None.
Proof.
  intros Hk%kind_date. destruct (date_range v) as [[a b]|], (date_range v') as [[c d]|].
  - left. by exists a, b, c, d.
  - by destruct (proj1 Hk (mk_is_Some _ _ eq_refl)).
  - by destruct (proj2 Hk (mk_is_Some _ _ eq_refl)).
  - by right.
Qed.

(** Splits on the dates of the first values and on the lists of both filters. *)
Ltac split_shapes :=
  repeat match goal with
  | H : kind_of ?v = kind_of ?v' |- context [date_range ?v] =>
      destruct (date_cases v v' H) as [(? & ? & ? & ? & -> & ->)|[-> ->]]
  | H : map kind_of ?l = map kind_of ?l' |- context [isStringArray ?l] => rewrite (kinds_strings l l' H)
  | |- context [if String.eqb ?a ?b then _ else _] => destruct (String.eqb a b)
  | |- context [match sql_operator ?o with _ => _ end] => destruct (sql_operator o)
  | |- context [if isStringArray ?l then _ else _] => destruct (isStringArray l)
  end.

(** The lists of values, unfolded as far as the builders look. *)
Lemma lists_cases (vs vs' : list value) : map kind_of vs = map kind_of vs' →
  (vs = [] ∧ vs' = [])
  ∨ (∃ a a', vs = [a] ∧ vs' = [a'])
  ∨ (∃ a b a' b', vs = [a; b] ∧ vs' = [a'; b'])
  ∨ (∃ a b c l a' b' c' l', vs = a :: b :: c :: l ∧ vs' = a' :: b' :: c' :: l' ∧ length l = length l').
Proof.
  intros Hl%kinds_length. destruct vs as [|a [|b [|c l]]], vs' as [|a' [|b' [|c' l']]]; try done.
  - by left.
  - right; left. by exists a, a'.
  - do 2 right; left. by exists a, b, a', b'.
  - do 3 right. exists a, b, c, l, a', b', c', l'. split_and!; [done..|]. by injection Hl.
Qed.

Ltac split_lists :=
  match goal with
  | H : map kind_of ?l = map kind_of ?l' |- _ =>
      destruct (lists_cases l l' H) as
        [[El El']|[(? & ? & El & El')|[(? & ? & ? & ? & El & El')|
          (? & ? & ? & ? & ? & ? & ? & ? & El & El' & Hlen)]]];
      rewrite ?El, ?El' in *
  end.
Ltac same_text :=
  split_lists; split_shapes; cbn [text_of length map nothing]; rewrite ?length_map; congruence.

Lemma buildStandardCondition_shape f f' table alias argPos :
  same_shape f f' →
  text_of (buildStandardCondition f table alias argPos, [])
  = text_of (buildStandardCondition f' table alias argPos, []).
Proof.
  intros (Hf & Ho & Hv & Hvs). unfold buildStandardCondition. rewrite <-Hf, <-Ho. cbv zeta. same_text.
Qed.

Lemma buildBalanceIdCondition_shape f f' alias argPos :
  same_shape f f' →
  text_of (buildBalanceIdCondition f alias argPos, []) = text_of (buildBalanceIdCondition f' alias argPos, []).
Proof.
  intros (Hf & Ho & Hv & Hvs). unfold buildBalanceIdCondition. rewrite <-Ho. cbv zeta. same_text.
Qed.

Lemma indicator_subquery_shape f f' argPos :
  same_shape f f' →
  (λ b, text_of (b, [])) <$> indicator_subquery f argPos = (λ b, text_of (b, [])) <$> indicator_subquery f' argPos.
Proof.
  intros (Hf & Ho & Hv & Hvs). unfold indicator_subquery. rewrite <-Ho. cbv zeta.
  split_lists; split_shapes; cbn [fmap option_fmap option_map text_of length map]; rewrite ?length_map; congruence.
Qed.

Lemma buildIndicatorCondition_shape f f' alias argPos :
  same_shape f f' →
  text_of (buildIndicatorCondition f alias argPos) = text_of (buildIndicatorCondition f' alias argPos).
Proof.
  intros Hs%(indicator_subquery_shape f f' argPos). unfold buildIndicatorCondition.
  destruct (indicator_subquery f argPos) as [[[c a] n]|], (indicator_subquery f' argPos) as [[[c' a'] n']|];
    cbn in *; try done; congruence.
Qed.

Lemma buildContainmentJSON_shape key v v' : kind_of v = kind_of v' →
  (∃ a a', buildContainmentJSON key v = Some a ∧ buildContainmentJSON key v' = Some a')
  ∨ buildContainmentJSON key v = None ∧ buildContainmentJSON key v' = None.
Proof.
  intros Hk%kind_marshals. unfold buildContainmentJSON. rewrite Hk.
  destruct (marshals v'); [left; by repeat eexists|by right].
Qed.

Lemma buildJSONPathCondition_shape f f' alias argPos :
  same_shape f f' →
  text_of (buildJSONPathCondition f alias argPos, []) = text_of (buildJSONPathCondition f' alias argPos, []).
Proof.
  intros (Hf & Ho & Hv & Hvs). unfold buildJSONPathCondition. rewrite <-Hf, <-Ho.
  destruct (split "." (f_Field f)) as [|part [|p2 rest]]; [done..|]. cbv zeta.
  destruct (buildContainmentJSON_shape (sanitizeJSONKey (join "." (p2 :: rest))) _ _ Hv)
    as [(a & a' & -> & ->)|[-> ->]]; destruct (text_operator (f_Operator f)); same_text.
Qed.

Lemma build_filter_shape table alias f f' argPos :
  same_shape f f' →
  text_of (build_filter table alias f argPos) = text_of (build_filter table alias f' argPos).
Proof.
  intros Hs. pose proof Hs as (Hf & _). unfold build_filter. rewrite <-Hf.
  destruct (contains _ _ && _); [by apply buildJSONPathCondition_shape|].
  destruct (_ && _); [by apply buildBalanceIdCondition_shape|].
  destruct (_ && _); [by apply buildIndicatorCondition_shape|]. by apply buildStandardCondition_shape.
Qed.

(** ** Results that differ in their arguments only *)

Definition same_text_result (r r' : BuildResult) : Prop :=
  CTEs r = CTEs r' ∧ Conditions r = Conditions r' ∧ NextArgPos r = NextArgPos r' ∧ OrderBy r = OrderBy r'
  ∧ length (Args r) = length (Args r').

Lemma build_loop_shape table alias fs fs' r r' :
  Forall2 same_shape fs fs' → same_text_result r r' →
  same_text_result (fold_left (build_step table alias) fs r) (fold_left (build_step table alias) fs' r').
Proof.
  intros Hfs. revert r r'. induction Hfs as [|f f' fs fs' Hf Hfs IH]; intros r r' Hr; [done|].
  cbn [fold_left]. apply IH. destruct Hr as (H1 & H2 & H3 & H4 & H5). unfold build_step.
  pose proof (build_filter_shape table alias f f' (NextArgPos r) Hf) as Ht. rewrite <-H3.
  destruct (build_filter table alias f (NextArgPos r)) as [[[c a] n] ct],
    (build_filter table alias f' (NextArgPos r)) as [[[c' a'] n'] ct'].
  cbn [text_of] in Ht. injection Ht as <- Hla <- <-.
  destruct (String.eqb c ""); [done|]. split_and!; cbn [CTEs Conditions Args NextArgPos OrderBy];
    rewrite ?length_app; congruence.
Qed.

Lemma validate_filters_shape table fs fs' :
  Forall2 same_shape fs fs' → validate_filters table fs = validate_filters table fs'.
Proof.
  induction 1 as [|f f' fs fs' (Hf & Ho & _ & Hl%kinds_length) _ IH]; [done|].
  cbn [validate_filters]. rewrite IH. f_equal. unfold validate_filter. by rewrite Hf, Ho, Hl.
Qed.

Definition same_shapes (fs fs' : option QueryFilterSet) : Prop :=
  match fs, fs' with
  | None, None => True
  | Some s, Some s' => qs_LogicalOperator s = qs_LogicalOperator s'
                       ∧ Forall2 same_shape (qs_Filters s) (qs_Filters s')
  | _, _ => False
  end.

Lemma Build_shape fs fs' table alias start r :
  same_shapes fs fs' → Build fs table alias start = Ok r →
  ∃ r', Build fs' table alias start = Ok r' ∧ same_text_result r r'.
Proof.
  intros Hs. unfold Build. destruct fs as [s|], fs' as [s'|]; try done;
    [|intros [= <-]; by eexists].
  destruct Hs as [Hop Hfs]. rewrite (Forall2_length _ _ _ Hfs).
  destruct (Nat.eqb _ 0); [intros [= <-]; by eexists|].
  unfold Validate. rewrite <-Hop, (validate_filters_shape table _ _ Hfs).
  destruct (negb _); [done|]. destruct (Nat.eqb _ 0); [done|].
  destruct (validate_filters table (qs_Filters s')) as [[]|e]; [|done]. cbn. intros [= <-].
  eexists. split; [done|]. by apply build_loop_shape.
Qed.

Lemma listing_query_shape table fields with_ctes fs fs' opts limit limit' offset offset' sql args :
  same_shapes fs fs' →
  listing_query table fields with_ctes fs opts limit offset = Ok (sql, args) →
  ∃ args', listing_query table fields with_ctes fs' opts limit' offset' = Ok (sql, args')
           ∧ length args' = length args.
Proof.
  intros Hs. unfold listing_query, mbind, result_bind.
  destruct (ValidateSortByForTable _ table) as [o|e]; [|done].
  unfold BuildWithOptions, mbind, result_bind.
  destruct (Build fs table "" 1) as [r|e] eqn:Hb; [|done].
  destruct (Build_shape fs fs' table "" 1 r Hs Hb) as (r' & -> & H1 & H2 & H3 & H4 & H5).
  destruct (ValidateSortField _ table) as [[]|e]; [|done]. cbn [CTEs Conditions Args NextArgPos OrderBy].
  rewrite <-H1, <-H2, <-H3. intros [= <- <-]. eexists. split.
  - destruct fs as [s|], fs' as [s'|]; try done. by destruct Hs as [<- _].
  - by rewrite !length_app, H5.
Qed.

(** ** No filter is dropped *)

Lemma has_prefix_app p s : has_prefix p s = true → ∃ k, s = p +:+ k.
Proof.
  unfold has_prefix. revert s. induction p as [|c p IH]; intros s H; [by exists s|].
  destruct s as [|d s]; [done|]. cbn [String.prefix] in H. destruct (ascii_dec c d) as [<-|]; [|done].
  destruct (IH s H) as [k ->]. by exists k.
Qed.

Lemma substring_full s : String.substring 0 (String.length s) s = s.
Proof. induction s as [|c s IH]; [done|]. cbn. by rewrite IH. Qed.

Lemma drop_prefix_app p k : drop_prefix p (p +:+ k) = k.
Proof.
  unfold drop_prefix, has_prefix.
  rewrite prefix_app.
  assert (String.length (p +:+ k) - String.length p = String.length k)%nat as -> by (rewrite string_length_app; lia).
  induction p as [|c p IH]; [by rewrite string_app_nil_l, substring_full|]. rewrite string_app_cons. exact IH.
Qed.

Lemma append_nonempty a b : b ≠ "" → a +:+ b ≠ "".
Proof. destruct a; [by rewrite string_app_nil_l|done]. Qed.

Ltac nonempty := repeat first [done | apply ph_nonempty | apply append_nonempty].

Lemma safe_columns_valid table : safe_columns table = GetValidFieldsForTable table.
Proof.
  unfold safe_columns, GetValidFieldsForTable.
  repeat match goal with |- context [String.eqb table ?t] => destruct (String.eqb_spec table t) as [->|] end; done.
Qed.

Lemma valid_field_column table field :
  valid_field table field = true → safeColumnForTableAndField table field = field.
Proof.
  unfold valid_field, safeColumnForTableAndField. rewrite safe_columns_valid.
  induction (GetValidFieldsForTable table) as [|c l IH]; [done|]. cbn [existsb List.find].
  destruct (String.eqb_spec field c) as [->|]; [done|]. exact IH.
Qed.

Lemma valid_field_shape table field : valid_field table field = true → contains field "." = false ∧ field ≠ "".
Proof.
  unfold valid_field. intros H. apply existsb_exists in H as (c & Hin & ->%String.eqb_eq).
  assert (Forall (λ c, contains c "." = false ∧ c ≠ "") (GetValidFieldsForTable table)) as Hall
    by (unfold GetValidFieldsForTable; repeat case_match; repeat constructor; done).
  rewrite Forall_forall in Hall. by apply Hall, list_elem_of_In.
Qed.

Definition writable (f : QueryFilter) : Prop := f_Operator f = OpEqual → kind_of (f_Value f) ≠ KUnwritable.

Lemma key_char_safe s : all_chars key_char s = true → rebuild s = Some s ∧ free_of "." s = true.
Proof.
  induction s as [|c s IH]; [done|]. cbn [all_chars rebuild free_of]. intros [Hc Hs]%andb_true_iff.
  destruct (IH Hs) as [-> Hf]. unfold key_char in Hc. rewrite Hc, Hf, andb_true_r. split; [done|].
  apply negb_true_iff, Ascii.eqb_neq. by intros ->.
Qed.

Lemma json_key_parts k :
  jsonKeyRegex k = true → split "." ("meta_data" +:+ String "." k) = ["meta_data"; k] ∧ sanitizeJSONKey k = k ∧ k ≠ "".
Proof.
  destruct k as [|c k]; [done|]. cbn [jsonKeyRegex]. intros [Hl Hk]%andb_true_iff.
  assert (all_chars key_char (String c k) = true) as Hall by (cbn; unfold key_char at 1; by rewrite Hl, Hk).
  destruct (key_char_safe _ Hall) as [Hr Hf]. split_and!; [|cbn [sanitizeJSONKey]; by rewrite Hl, Hr|done].
  by rewrite split_first, split_free.
Qed.

(** What a valid filter names: a key of the metadata, or a column. *)
Lemma validate_filter_field table f :
  validate_filter table f = Ok tt →
  (∃ k, f_Field f = "meta_data" +:+ String "." k ∧ jsonKeyRegex k = true)
  ∨ valid_field table (f_Field f) = true.
Proof.
  unfold validate_filter. repeat (case_match; [done|]).
  destruct (_ && valid_field table "meta_data") eqn:Hm; [|destruct (valid_field table (f_Field f)); [by right|done]].
  apply andb_true_iff in Hm as [[k Hk]%has_prefix_app _].
  rewrite Hk, drop_prefix_app. destruct (jsonKeyRegex k) eqn:Hj; [|done]. intros _. left. by exists k.
Qed.

(** What it says of the operator. *)
Lemma validate_filter_arity table f :
  validate_filter table f = Ok tt →
  arity_ok f ∧ (table = "transactions" → f_Field f = "balance_id" → f_Operator f ∈ balance_id_operators).
Proof.
  unfold validate_filter. destruct (IsValidOperator _) eqn:Hop; [|done]. cbn [negb].
  destruct (String.eqb _ OpIn && _) eqn:Hin; [done|]. destruct (String.eqb _ OpBetween && _) eqn:Hb; [done|].
  destruct (_ && negb (existsb _ balance_id_operators)) eqn:Hbal; [done|]. intros _. split; [split; [done|split]|].
  - intros E. rewrite E in Hin. cbn [andb String.eqb] in Hin. by destruct (f_Values f).
  - intros E. rewrite E in Hb. cbn in Hb. apply negb_false_iff in Hb. by apply Nat.eqb_eq in Hb.
  - intros -> Hf. rewrite Hf in Hbal. cbn [andb String.eqb] in Hbal.
    change (String.eqb "transactions" "transactions" && String.eqb "balance_id" "balance_id") with true in Hbal.
    cbn [andb] in Hbal. apply negb_false_iff, existsb_exists in Hbal as (x & Hx & <-%String.eqb_eq).
    by apply list_elem_of_In.
Qed.

(** An operator that is known is one of the twelve. *)
Lemma valid_operator_cases op (P : Operator → Prop) :
  IsValidOperator op = true → Forall P operators → P op.
Proof.
  intros Hop Hall. apply existsb_exists in Hop as (x & Hx & ->%String.eqb_eq).
  rewrite Forall_forall in Hall. by apply Hall, list_elem_of_In.
Qed.

Lemma operator_cases op : IsValidOperator op = true →
  op = OpEqual ∨ is_Some (sql_operator op) ∨ op = OpIn ∨ op = OpBetween ∨ op = OpIsNull ∨ op = OpIsNotNull.
Proof.
  intros H. pattern op. apply (valid_operator_cases op); [done|].
  unfold operators. repeat (apply Forall_cons; split;
    [repeat first [reflexivity | left; reflexivity | left; eexists; reflexivity | right]|]).
  by apply Forall_nil.
Qed.

(** The branches of a builder for a filter whose arity is right; the last one,
    for operators that are not known, does not arise. *)
Ltac by_operator Har :=
  let Hop := fresh "Hop" in let Hin := fresh "Hin" in let Hbt := fresh "Hbt" in
  destruct Har as (Hop & Hin & Hbt);
  match goal with |- context [String.eqb (f_Operator ?f) OpEqual] =>
    apply operator_cases in Hop;
    destruct (String.eqb_spec (f_Operator f) OpEqual) as [Heq|Hne1];
    [|destruct (sql_operator (f_Operator f)) as [o|] eqn:Ho;
      [|destruct (String.eqb_spec (f_Operator f) OpIn) as [Ei|Hne2];
        [specialize (Hin Ei); destruct (f_Values f) as [|v vs]; [done|]
        |destruct (String.eqb_spec (f_Operator f) OpBetween) as [Eb|Hne3];
          [specialize (Hbt Eb); destruct (f_Values f) as [|v1 [|v2 [|]]]; try done
          |destruct (String.eqb_spec (f_Operator f) OpIsNull);
            [|destruct (String.eqb_spec (f_Operator f) OpIsNotNull); [|exfalso; naive_solver]]]]]]
  end.

Lemma buildStandardCondition_nonempty f table alias argPos :
  valid_field table (f_Field f) = true → arity_ok f → (buildStandardCondition f table alias argPos).1.1 ≠ "".
Proof.
  intros Hf Har. unfold buildStandardCondition. rewrite valid_field_column by done.
  rewrite (proj2 (String.eqb_neq (f_Field f) "")) by (by eapply valid_field_shape).
  cbv zeta. by_operator Har; repeat case_match; cbn [fst]; nonempty.
Qed.

Lemma buildIndicatorCondition_nonempty f alias argPos :
  arity_ok f → (buildIndicatorCondition f alias argPos).1.1.1 ≠ "".
Proof.
  intros Har. unfold buildIndicatorCondition.
  enough (is_Some (indicator_subquery f argPos)) as [[[c a] n] ->] by done.
  unfold indicator_subquery. cbv zeta. by_operator Har; repeat case_match; by eexists.
Qed.

Lemma buildBalanceIdCondition_nonempty f alias argPos :
  arity_ok f → f_Operator f ∈ balance_id_operators → (buildBalanceIdCondition f alias argPos).1.1 ≠ "".
Proof.
  intros (_ & Hin & _) Hop. unfold buildBalanceIdCondition. cbv zeta.
  destruct (f_Values f) as [|v vs] eqn:Hvs.
  - assert (f_Operator f ≠ OpIn) as Hne by (intros E; by apply Hin).
    unfold balance_id_operators in Hop. rewrite !elem_of_cons in Hop.
    destruct Hop as [E|[E|[E|[E|[E|E]]]]]; try done; try by rewrite E. by apply not_elem_of_nil in E.
  - unfold balance_id_operators in Hop. rewrite !elem_of_cons in Hop.
    destruct Hop as [E|[E|[E|[E|[E|E]]]]]; rewrite ?E; try done; cbn; try by case_match.
    by apply not_elem_of_nil in E.
Qed.

Lemma buildJSONPathCondition_nonempty f k alias argPos :
  f_Field f = "meta_data" +:+ String "." k → jsonKeyRegex k = true → arity_ok f → writable f →
  (buildJSONPathCondition f alias argPos).1.1 ≠ "".
Proof.
  intros Hf Hk Har Hw. destruct (json_key_parts k Hk) as (Hsp & Hs & Hne).
  unfold buildJSONPathCondition. rewrite Hf, Hsp. cbv zeta. cbn [join]. rewrite Hs.
  change (String.eqb (resolveJSONColumn "meta_data") "") with false. cbn [negb].
  rewrite (proj2 (String.eqb_neq k "") Hne).
  by_operator Har; [|try destruct (text_operator _); nonempty..].
  specialize (Hw Heq). destruct (date_range (f_Value f)) as [[a b]|]; [nonempty|].
  unfold buildContainmentJSON. assert (marshals (f_Value f) = true) as ->.
  { destruct (f_Value f); cbn in *; try done. by destruct (finite x). }
  nonempty.
Qed.

Lemma build_filter_nonempty table alias f argPos :
  validate_filter table f = Ok tt → writable f → (build_filter table alias f argPos).1.1.1 ≠ "".
Proof.
  intros Hv Hw. destruct (validate_filter_arity table f Hv) as [Har Hbal]. unfold build_filter.
  destruct (validate_filter_field table f Hv) as [(k & Hf & Hk)|Hf].
  - assert (contains (f_Field f) "." && has_prefix "meta_data" (f_Field f) = true) as ->
      by (rewrite Hf; by destruct k).
    by eapply buildJSONPathCondition_nonempty.
  - destruct (valid_field_shape table (f_Field f) Hf) as [-> _]. cbn [andb].
    destruct (String.eqb (f_Field f) "balance_id" && _) eqn:Hb.
    { apply andb_true_iff in Hb as [H1%String.eqb_eq H2%String.eqb_eq].
      apply buildBalanceIdCondition_nonempty; [done|by apply Hbal]. }
    destruct (String.eqb (f_Field f) "indicator" && _); [by apply buildIndicatorCondition_nonempty|].
    by apply buildStandardCondition_nonempty.
Qed.

Lemma build_loop_count table alias fs r :
  validate_filters table fs = Ok tt → Forall writable fs →
  length (Conditions (fold_left (build_step table alias) fs r)) = (length (Conditions r) + length fs)%nat.
Proof.
  revert r. induction fs as [|f fs IH]; intros r; [cbn; lia|]. cbn [validate_filters fold_left length].
  destruct (validate_filter table f) as [[]|e] eqn:Hv; [|done]. intros Hvs [Hw Hws]%Forall_cons.
  rewrite IH by done. pose proof (build_filter_nonempty table alias f (NextArgPos r) Hv Hw) as Hne.
  unfold build_step. destruct (build_filter _ _ _ _) as [[[c a] n] ct]. cbn [fst] in Hne.
  rewrite (proj2 (String.eqb_neq c "") Hne). cbn [Conditions]. rewrite length_app. cbn. lia.
Qed.

(** A listing never drops a filter: where a set of filters builds at all,
    every filter has its condition, so no request runs unfiltered; the one
    exception are equalities on metadata with a number JSON cannot write. *)
Theorem filters_not_dropped fs table alias start r :
  Build (Some fs) table alias start = Ok r → Forall writable (qs_Filters fs) →
  length (Conditions r) = length (qs_Filters fs).
Proof.
  unfold Build. destruct (Nat.eqb (length (qs_Filters fs)) 0) eqn:Hn.
  { intros [= <-] _. apply Nat.eqb_eq in Hn. by rewrite Hn. }
  unfold Validate. destruct (negb _); [done|]. destruct (Nat.eqb _ 0) in |- *; [done|].
  destruct (validate_filters table (qs_Filters fs)) as [[]|e] eqn:Hv; [|done]. cbn. intros [= <-] Hw.
  by rewrite build_loop_count.
Qed.

(** ** The listings *)

Inductive listing : Type := LTransactions | LBalances | LLedgers | LIdentities | LAccounts.

Definition run_listing (l : listing) : option QueryFilterSet → option QueryOptions → Z → Z → result (string * list arg) :=
  match l with
  | LTransactions => GetAllTransactionsWithFilterAndOptions
  | LBalances => GetAllBalancesWithFilterAndOptions
  | LLedgers => GetAllLedgersWithFilterAndOptions
  | LIdentities => GetAllIdentitiesWithFilterAndOptions
  | LAccounts => GetAllAccountsWithFilterAndOptions
  end.

Lemma run_listing_query l : ∃ table fields ctes lo cap,
  inert table ∧ inert fields ∧ (ctes = false → table ≠ "transactions") ∧
  ∀ fs opts limit offset, run_listing l fs opts limit offset
    = listing_query table fields ctes fs opts (capped limit lo cap) offset.
Proof.
  destruct l; do 5 eexists; (split_and!; [| | |intros fs opts limit offset;
    unfold run_listing, GetAllTransactionsWithFilterAndOptions, GetAllBalancesWithFilterAndOptions,
      GetAllLedgersWithFilterAndOptions, GetAllIdentitiesWithFilterAndOptions,
      GetAllAccountsWithFilterAndOptions; reflexivity]); first [by split|done].
Qed.

(** C22. No text of a list filter reaches SQL.  Whatever filters, sorting and page
    a listing is asked for, the numbers of the parameters in its query are
    exactly 1 up to the number of arguments it binds; and the query text depends
    on the shape of the filters only: other values of the same kinds, and
    another page, give the same text and as many arguments. *)
Theorem listings_are_parameterized l fs opts limit offset sql args :
  run_listing l fs opts limit offset = Ok (sql, args) →
  (∀ n, n ∈ placeholders sql ↔ 1 <= n <= Z.of_nat (length args))
  ∧ ∀ fs' limit' offset', same_shapes fs fs' →
      ∃ args', run_listing l fs' opts limit' offset' = Ok (sql, args') ∧ length args' = length args.
Proof.
  destruct (run_listing_query l) as (table & fields & ctes & lo & cap & Ht & Hf & Hc & Hl).
  rewrite Hl. intros Hq. split; [eapply listing_query_parameters; [exact Ht|exact Hf|exact Hc|exact Hq]|].
  intros fs' limit' offset' Hs. rewrite Hl. eapply listing_query_shape; [exact Hs|exact Hq].
Qed.

(** ** Examples *)

Definition sample_filters (a b : value) : QueryFilterSet :=
  mkQueryFilterSet
    [mkQueryFilter "meta_data.note" OpEqual a []; mkQueryFilter "indicator" OpLike b [];
     mkQueryFilter "amount" OpBetween VNil [VInt 1; VInt 9]] LogicalOr.

(** A quote in a value stays in the arguments. *)
Definition hostile : QueryFilterSet := sample_filters (VString "x'; DROP TABLE y; --") (VString "%$9%").
Definition sample_sql : string * list arg :=
  match GetAllTransactionsWithFilterAndOptions (Some hostile) None 10 0 with Ok q => q | Err _ => ("", []) end.

Lemma listings_are_parameterized_witness :
  run_listing LTransactions (Some hostile) None 10 0 = Ok sample_sql
  ∧ length sample_sql.2 = 6%nat
  ∧ (∀ n, n ∈ placeholders sample_sql.1 ↔ 1 <= n <= Z.of_nat (length sample_sql.2))
  ∧ ∀ fs' limit' offset', same_shapes (Some hostile) fs' →
      ∃ args', run_listing LTransactions fs' None limit' offset' = Ok (sample_sql.1, args')
               ∧ length args' = length sample_sql.2.
Proof.
  split; [vm_compute; reflexivity|]. split; [vm_compute; reflexivity|].
  apply (listings_are_parameterized LTransactions (Some hostile) None 10 0 sample_sql.1 sample_sql.2).
  vm_compute. reflexivity.
Defined.

Definition sample_build : BuildResult :=
  match Build (Some hostile) "transactions" "" 1 with Ok r => r | Err _ => mkBuildResult [] [] [] 0 "" end.

Lemma filters_not_dropped_witness :
  Build (Some hostile) "transactions" "" 1 = Ok sample_build
  ∧ Forall writable (qs_Filters hostile) ∧ length (Conditions sample_build) = length (qs_Filters hostile).
Proof.
  assert (Build (Some hostile) "transactions" "" 1 = Ok sample_build) as Hb by (vm_compute; reflexivity).
  assert (Forall writable (qs_Filters hostile)) as Hw by (repeat constructor; done).
  split; [done|]. split; [done|].
  apply (filters_not_dropped hostile "transactions" "" 1 sample_build); done.
Defined.

(** The exception: a filter on metadata with the value [NaN] is dropped, and the
    listing is not filtered at all. *)
Lemma nan_filter_dropped :
  let fs := mkQueryFilterSet [mkQueryFilter "meta_data.rate" OpEqual (parseValue "NaN") []] LogicalAnd in
  GetAllTransactionsWithFilterAndOptions (Some fs) None 10 0
  = GetAllTransactionsWithFilterAndOptions None None 10 0.
Proof. vm_compute. reflexivity. Qed.

(** Two filters on the indicator give two subqueries of one name, which
    PostgreSQL refuses. *)
Lemma two_indicators_one_name v w :
  (λ r, map (String.substring 0 21) (CTEs r)) <$>
    Build (Some (mkQueryFilterSet [mkQueryFilter "indicator" OpNotEqual v [];
                                   mkQueryFilter "indicator" OpNotEqual w []] LogicalAnd)) "transactions" "" 1
  = Ok ["_indicator_matches AS"; "_indicator_matches AS"].
Proof. reflexivity. Qed.

(** The tables of reconciliation have no column [created_at], by which listings
    sort unless asked otherwise. *)
Lemma default_sort_missing :
  valid_field "reconciliations" (ResolveSortField "reconciliations" "") = false
  ∧ valid_field "external_transactions" (ResolveSortField "external_transactions" "") = false.
Proof. done. Qed.

(** [sort_by] is not needed to name a column: the default is used for others. *)
Lemma ResolveSortField_column table sortBy :
  ResolveSortField table sortBy = "created_at" ∨ valid_field table (ResolveSortField table sortBy) = true.
Proof.
  unfold ResolveSortField. destruct (String.eqb _ ""); [by left|].
  destruct (valid_field table (to_lower (TrimSpace sortBy))) eqn:Hv; [|by left]. cbn [negb].
  unfold safeColumnForSort. rewrite valid_field_column by done. destruct (negb _); [by right|by left].
Qed.

End Filters.
