(* ===== verification/ApiErrors.v ===== *)
(** * Errors as clients see them

    [internal/apierror/], [api/errors.go]: the catalogue of error codes with
    their HTTP statuses, and the way an error of the service becomes a code:
    by its type, by the sentinels it wraps, or else by its text. *)

From S2P Require Import Prelude Float64 Types.

Module ApiErrors.

(** ** internal/apierror/codes.go *)

Abbreviation ErrorCode := string (only parsing).

Definition catalog_codes : list ErrorCode :=
  ["GEN_MALFORMED_REQUEST"; "GEN_VALIDATION_ERROR"; "GEN_MISSING_PARAMETER"; "GEN_BAD_REQUEST";
   "GEN_NOT_FOUND"; "GEN_CONFLICT"; "GEN_RESOURCE_LOCKED"; "GEN_PAYLOAD_TOO_LARGE";
   "GEN_RATE_LIMITED"; "GEN_INTERNAL"; "AUTH_MISSING_API_KEY"; "AUTH_INVALID_API_KEY";
   "AUTH_EXPIRED_API_KEY"; "AUTH_MISSING_PRINCIPAL"; "AUTH_INSUFFICIENT_PERMISSIONS";
   "AUTH_UNKNOWN_RESOURCE"; "AUTH_MASTER_KEY_REQUIRED"; "AUTH_CROSS_OWNER_ACCESS";
   "AUTH_SCOPE_ESCALATION"; "AUTH_METRICS_TOKEN_REQUIRED"; "AUTH_INVALID_BEARER_TOKEN";
   "AUTH_METRICS_DISABLED"; "APIKEY_NOT_FOUND"; "APIKEY_OWNER_REQUIRED"; "APIKEY_INVALID";
   "TXN_NOT_FOUND"; "TXN_INSUFFICIENT_FUNDS"; "TXN_INVALID_AMOUNT"; "TXN_PRECISION_NOT_INTEGER";
   "TXN_INVALID_DISTRIBUTION"; "TXN_DUPLICATE_REFERENCE"; "TXN_NOT_INFLIGHT";
   "TXN_ALREADY_COMMITTED"; "TXN_ALREADY_VOIDED"; "TXN_COMMIT_AMOUNT_EXCEEDED";
   "TXN_INVALID_STATUS_ACTION"; "TXN_BULK_EMPTY"; "TXN_BULK_LIMIT_EXCEEDED"; "TXN_VALIDATION_ERROR";
   "BAL_NOT_FOUND"; "BAL_HISTORY_NOT_FOUND"; "BAL_INVALID_TIMESTAMP"; "BAL_VALIDATION_ERROR";
   "BAL_MONITOR_NOT_FOUND"; "LGR_NOT_FOUND"; "LGR_DUPLICATE"; "ACC_NOT_FOUND"; "ACC_DUPLICATE";
   "ACC_GENERATION_FAILED"; "IDT_NOT_FOUND"; "IDT_VALIDATION_ERROR"; "IDT_FIELD_NOT_TOKENIZABLE";
   "IDT_FIELD_ALREADY_TOKENIZED"; "IDT_FIELD_NOT_TOKENIZED"; "IDT_FIELD_NOT_FOUND";
   "IDT_TOKENIZATION_DISABLED"; "RECON_NOT_FOUND"; "RECON_RULE_NOT_FOUND"; "RECON_UPLOAD_FAILED";
   "RECON_UPLOAD_PROCESSING_FAILED"; "RECON_RULE_INVALID"; "RECON_MATCHING_RULES_REQUIRED";
   "RECON_EXTERNAL_TXNS_REQUIRED"; "RECON_START_FAILED"; "META_ENTITY_NOT_FOUND";
   "META_UNSUPPORTED_ENTITY"; "META_INVALID_ENTITY_ID"; "HOOK_NOT_FOUND"; "HOOK_INVALID";
   "HOOK_OPERATION_FAILED"; "SRCH_QUERY_INVALID"; "SRCH_FAILED"; "SRCH_REINDEX_IN_PROGRESS";
   "SRCH_REINDEX_NOT_STARTED"; "ADMIN_BACKUP_FAILED"].

Definition legacy_codes : list ErrorCode :=
  ["NOT_FOUND"; "CONFLICT"; "BAD_REQUEST"; "INVALID_INPUT"; "INTERNAL_SERVER_ERROR"; "RATE_LIMITED"].

Definition statusByCode : list (ErrorCode * Z) :=
  [("GEN_MALFORMED_REQUEST", 400); ("GEN_VALIDATION_ERROR", 400); ("GEN_MISSING_PARAMETER", 400);
   ("GEN_BAD_REQUEST", 400); ("GEN_NOT_FOUND", 404); ("GEN_CONFLICT", 409);
   ("GEN_RESOURCE_LOCKED", 423); ("GEN_PAYLOAD_TOO_LARGE", 413); ("GEN_RATE_LIMITED", 429);
   ("GEN_INTERNAL", 500); ("AUTH_MISSING_API_KEY", 401); ("AUTH_INVALID_API_KEY", 401);
   ("AUTH_EXPIRED_API_KEY", 401); ("AUTH_MISSING_PRINCIPAL", 401);
   ("AUTH_INSUFFICIENT_PERMISSIONS", 403); ("AUTH_UNKNOWN_RESOURCE", 403);
   ("AUTH_MASTER_KEY_REQUIRED", 403); ("AUTH_CROSS_OWNER_ACCESS", 403);
   ("AUTH_SCOPE_ESCALATION", 403); ("AUTH_METRICS_TOKEN_REQUIRED", 401);
   ("AUTH_INVALID_BEARER_TOKEN", 401); ("AUTH_METRICS_DISABLED", 403); ("APIKEY_NOT_FOUND", 404);
   ("APIKEY_OWNER_REQUIRED", 400); ("APIKEY_INVALID", 400); ("TXN_NOT_FOUND", 404);
   ("TXN_INSUFFICIENT_FUNDS", 400); ("TXN_INVALID_AMOUNT", 400); ("TXN_PRECISION_NOT_INTEGER", 400);
   ("TXN_INVALID_DISTRIBUTION", 400); ("TXN_DUPLICATE_REFERENCE", 409); ("TXN_NOT_INFLIGHT", 400);
   ("TXN_ALREADY_COMMITTED", 409); ("TXN_ALREADY_VOIDED", 409); ("TXN_COMMIT_AMOUNT_EXCEEDED", 400);
   ("TXN_INVALID_STATUS_ACTION", 400); ("TXN_BULK_EMPTY", 400); ("TXN_BULK_LIMIT_EXCEEDED", 400);
   ("TXN_VALIDATION_ERROR", 400); ("BAL_NOT_FOUND", 404); ("BAL_HISTORY_NOT_FOUND", 404);
   ("BAL_INVALID_TIMESTAMP", 400); ("BAL_VALIDATION_ERROR", 400); ("BAL_MONITOR_NOT_FOUND", 404);
   ("LGR_NOT_FOUND", 404); ("LGR_DUPLICATE", 409); ("ACC_NOT_FOUND", 404); ("ACC_DUPLICATE", 409);
   ("ACC_GENERATION_FAILED", 500); ("IDT_NOT_FOUND", 404); ("IDT_VALIDATION_ERROR", 400);
   ("IDT_FIELD_NOT_TOKENIZABLE", 400); ("IDT_FIELD_ALREADY_TOKENIZED", 409);
   ("IDT_FIELD_NOT_TOKENIZED", 400); ("IDT_FIELD_NOT_FOUND", 400);
   ("IDT_TOKENIZATION_DISABLED", 403); ("RECON_NOT_FOUND", 404); ("RECON_RULE_NOT_FOUND", 404);
   ("RECON_UPLOAD_FAILED", 400); ("RECON_UPLOAD_PROCESSING_FAILED", 500);
   ("RECON_RULE_INVALID", 400); ("RECON_MATCHING_RULES_REQUIRED", 400);
   ("RECON_EXTERNAL_TXNS_REQUIRED", 400); ("RECON_START_FAILED", 500);
   ("META_ENTITY_NOT_FOUND", 404); ("META_UNSUPPORTED_ENTITY", 400);
   ("META_INVALID_ENTITY_ID", 400); ("HOOK_NOT_FOUND", 404); ("HOOK_INVALID", 400);
   ("HOOK_OPERATION_FAILED", 500); ("SRCH_QUERY_INVALID", 400); ("SRCH_FAILED", 500);
   ("SRCH_REINDEX_IN_PROGRESS", 409); ("SRCH_REINDEX_NOT_STARTED", 404);
   ("ADMIN_BACKUP_FAILED", 500); ("NOT_FOUND", 404); ("CONFLICT", 409); ("BAD_REQUEST", 400);
   ("INVALID_INPUT", 400); ("INTERNAL_SERVER_ERROR", 500); ("RATE_LIMITED", 429)].

Definition legacyToCanonical : list (ErrorCode * ErrorCode) :=
  [("NOT_FOUND", "GEN_NOT_FOUND"); ("CONFLICT", "GEN_CONFLICT"); ("BAD_REQUEST", "GEN_BAD_REQUEST");
   ("INVALID_INPUT", "GEN_VALIDATION_ERROR"); ("INTERNAL_SERVER_ERROR", "GEN_INTERNAL");
   ("RATE_LIMITED", "GEN_RATE_LIMITED")].

(** A map lookup. *)
Definition assoc {A} (l : list (string * A)) (k : string) : option A :=
  snd <$> List.find (λ e, String.eqb e.1 k) l.

Definition Normalize (code : ErrorCode) : ErrorCode := default code (assoc legacyToCanonical code).
Definition StatusForCode (code : ErrorCode) : Z := default 500 (assoc statusByCode code).

(** [errors.As(err, &apiErr)]: the first [APIError] of the chain. *)
Fixpoint find_api (e : error) : option (ErrorCode * string) :=
  match e with
  | EAPI code message => Some (code, message)
  | EWrap _ e | EMsg _ e => find_api e
  | ENew _ | ESentinel _ _ | EPanic _ => None
  end.

Definition MapErrorToHTTPStatus (e : error) : Z :=
  match find_api e with
  | Some (code, _) => StatusForCode (Normalize code)
  | None => 500
  end.

(** [APIError] as JSON; [details] is left out when nil. *)
Definition detail (code : ErrorCode) (message : string) (details : option metaval) : metaval :=
  MObj ([("code", MStr code); ("message", MStr message)]
        ++ match details with Some d => [("details", d)] | None => [] end).

Definition NewErrorResponse (code : ErrorCode) (message : string) (details : option metaval) : metaval :=
  detail (Normalize code) message details.

(** ** api/errors.go *)

Definition errorDetailKey : string := "error_detail".
Definition sanitizedInternalMessage : string := "internal server error".

(** The options of a response; a later upgrade of a code replaces an earlier
    one. *)
Record respondOptions := mkOptions {
  defaultCode : ErrorCode;
  fallbackMessage : string;
  upgrades : gmap ErrorCode ErrorCode;
  legacyKey : string;
  legacyValue : option metaval;
}.
#[global] Instance respondOptions_eta : Eta respondOptions := λ o,
  mkOptions (defaultCode o) (fallbackMessage o) (upgrades o) (legacyKey o) (legacyValue o).

Abbreviation respondOpt := (respondOptions → respondOptions).

Definition withDefault (code : ErrorCode) : respondOpt := λ o, o <| defaultCode := code |>.
Definition withFallbackMessage (msg : string) : respondOpt := λ o, o <| fallbackMessage := msg |>.
Definition withUpgrade (from to : ErrorCode) : respondOpt := λ o,
  o <| upgrades := <[from := to]> (upgrades o) |>.
Definition withLegacyKey (key : string) : respondOpt := λ o, o <| legacyKey := key |>.
Definition withLegacyValue (v : metaval) : respondOpt := λ o, o <| legacyValue := Some v |>.

Definition buildOptions (opts : list respondOpt) : respondOptions :=
  foldl (λ o opt, opt o) (mkOptions "" "" ∅ "error" None) opts.

(** A JSON object with its status. *)
Record error_response := mkErrorResponse {
  er_status : Z;
  er_body : list (string * metaval);
}.

Definition resolve_code (code : ErrorCode) (o : respondOptions) : ErrorCode :=
  let code := Normalize code in default code (upgrades o !! code).

Definition writeError (code : ErrorCode) (message : string) (details : option metaval)
    (o : respondOptions) : error_response :=
  let code := resolve_code code o in
  mkErrorResponse (StatusForCode code)
    [(legacyKey o, default (MStr message) (legacyValue o)); (errorDetailKey, detail code message details)].

Definition respondCode (code : ErrorCode) (message : string) (details : option metaval)
    (opts : list respondOpt) : error_response :=
  writeError code message details (buildOptions opts).

(** In the order of the [switch]. *)
Definition sentinelCodes : list (sentinel * ErrorCode) :=
  [(ErrAPIKeyNotFound, "APIKEY_NOT_FOUND"); (ErrInvalidAPIKey, "AUTH_INVALID_API_KEY");
   (ErrTokenizationDisabled, "IDT_TOKENIZATION_DISABLED"); (ErrLockHeld, "GEN_RESOURCE_LOCKED");
   (ErrLockWaitTimeout, "GEN_RESOURCE_LOCKED");
   (ErrPrecisionMustBeInteger, "TXN_PRECISION_NOT_INTEGER");
   (ErrEntityNotFound, "META_ENTITY_NOT_FOUND"); (ErrNoRows, "GEN_NOT_FOUND")].

Definition classifySentinel (e : error) : option ErrorCode :=
  snd <$> List.find (λ p, errors_is e p.1) sentinelCodes.

Record messagePattern := mkPattern { mp_contains : list string; mp_code : ErrorCode }.

Definition messagePatterns : list messagePattern :=
  [mkPattern ["transaction"; "not found"] "TXN_NOT_FOUND";
   mkPattern ["not in inflight status"] "TXN_NOT_INFLIGHT";
   mkPattern ["Transaction already committed"] "TXN_ALREADY_COMMITTED";
   mkPattern ["has already been voided"] "TXN_ALREADY_VOIDED";
   mkPattern ["has already been refunded"] "GEN_CONFLICT";
   mkPattern ["has already been used"] "TXN_DUPLICATE_REFERENCE";
   mkPattern ["cannot commit more than"] "TXN_COMMIT_AMOUNT_EXCEEDED";
   mkPattern ["insufficient funds"] "TXN_INSUFFICIENT_FUNDS";
   mkPattern ["transaction amount must be positive"] "TXN_INVALID_AMOUNT";
   mkPattern ["transaction validation failed"] "TXN_VALIDATION_ERROR";
   mkPattern ["reference is required"] "TXN_VALIDATION_ERROR";
   mkPattern ["no balance data found for time"] "BAL_HISTORY_NOT_FOUND";
   mkPattern ["invalid timestamp format"] "BAL_INVALID_TIMESTAMP";
   mkPattern ["balance validation failed"] "BAL_VALIDATION_ERROR";
   mkPattern ["identity validation failed"] "BAL_VALIDATION_ERROR";
   mkPattern ["is not tokenizable"] "IDT_FIELD_NOT_TOKENIZABLE";
   mkPattern ["is already tokenized"] "IDT_FIELD_ALREADY_TOKENIZED";
   mkPattern ["is not tokenized"] "IDT_FIELD_NOT_TOKENIZED";
   mkPattern ["field"; "not found"] "IDT_FIELD_NOT_FOUND";
   mkPattern ["rule name is required"] "RECON_RULE_INVALID";
   mkPattern ["matching criteria is required"] "RECON_RULE_INVALID";
   mkPattern ["field and operator are required"] "RECON_RULE_INVALID";
   mkPattern ["invalid operator"] "RECON_RULE_INVALID";
   mkPattern ["invalid field"] "RECON_RULE_INVALID"; mkPattern ["drift for"] "RECON_RULE_INVALID";
   mkPattern ["entity not found"] "META_ENTITY_NOT_FOUND";
   mkPattern ["unsupported entity type"] "META_UNSUPPORTED_ENTITY";
   mkPattern ["invalid entity ID"] "META_INVALID_ENTITY_ID";
   mkPattern ["does not have fund lineage tracking enabled"] "GEN_BAD_REQUEST";
   mkPattern ["failed to acquire lock"] "GEN_RESOURCE_LOCKED";
   mkPattern ["no rows in result set"] "GEN_NOT_FOUND"; mkPattern ["not found"] "GEN_NOT_FOUND"].

Definition matches (msg : string) (p : messagePattern) : bool :=
  forallb (contains msg) (mp_contains p).

Definition classifyMessage (msg : string) : option ErrorCode :=
  mp_code <$> List.find (matches msg) messagePatterns.

(** A nil error is [None]. *)
Definition respondError (err : option error) (opts : list respondOpt) : error_response :=
  let o := buildOptions opts in
  match err with
  | None => writeError "GEN_INTERNAL" sanitizedInternalMessage None o
  | Some e =>
      match find_api e with
      | Some (code, message) => writeError code message None o
      | None =>
          match classifySentinel e with
          | Some code => writeError code (error_text e) None o
          | None =>
              match classifyMessage (error_text e) with
              | Some code => writeError code (error_text e) None o
              | None =>
                  if negb (String.eqb (defaultCode o) "")
                  then writeError (defaultCode o)
                         (if String.eqb (fallbackMessage o) "" then error_text e else fallbackMessage o)
                         None o
                  else writeError "GEN_INTERNAL" sanitizedInternalMessage None o
              end
          end
      end
  end.

(** [legacy] is its code and message. *)
Definition respondBareAPIError (legacy : ErrorCode * string) (details : option metaval)
    (code : ErrorCode) : error_response :=
  let code := Normalize code in
  mkErrorResponse (StatusForCode code)
    [("code", MStr legacy.1); ("message", MStr legacy.2); ("details", default MNil details);
     (errorDetailKey, detail code legacy.2 details)].

Definition respondNestedAPIError (legacy : ErrorCode * string) (details : option metaval)
    (code : ErrorCode) : error_response :=
  let code := Normalize code in
  mkErrorResponse (StatusForCode code)
    [("error", detail legacy.1 legacy.2 details); (errorDetailKey, detail code legacy.2 details)].

(** What a client reads out of [error_detail]. *)
Definition detail_field (name : string) (r : error_response) : option string :=
  match assoc (er_body r) errorDetailKey with
  | Some (MObj fields) => match assoc fields name with Some (MStr s) => Some s | _ => None end
  | _ => None
  end.
Definition error_code : error_response → option string := detail_field "code".
Definition error_message : error_response → option string := detail_field "message".

(** ** The catalogue *)

Lemma assoc_elem {A} (l : list (string * A)) k a : assoc l k = Some a → (k, a) ∈ l.
Proof.
  unfold assoc. intros ([k' a'] & Hf & ->)%fmap_Some. apply find_some in Hf as [Hin Heq].
  apply String.eqb_eq in Heq as <-. by apply list_elem_of_In.
Qed.

(** Every declared code has its status, none twice, and every status is one of
    an error. *)
Lemma catalog_complete :
  map fst statusByCode ≡ₚ catalog_codes ++ legacy_codes ∧ NoDup (map fst statusByCode)
  ∧ Forall (λ s, 400 <= s < 600) (map snd statusByCode).
Proof. split_and!; apply (bool_decide_unpack _); by vm_compute. Qed.

Lemma StatusForCode_error code : 400 <= StatusForCode code < 600.
Proof.
  unfold StatusForCode. destruct (assoc statusByCode code) as [s|] eqn:Es; cbn; [|lia].
  apply assoc_elem in Es. destruct catalog_complete as (_ & _ & Hall).
  rewrite Forall_forall in Hall. apply Hall. by apply (list_elem_of_fmap_2 snd) in Es.
Qed.

(** Old codes become new ones that keep the status; new ones stay. *)
Lemma Normalize_spec code :
  StatusForCode (Normalize code) = StatusForCode code
  ∧ Normalize (Normalize code) = Normalize code
  ∧ (code ∈ catalog_codes → Normalize code = code)
  ∧ (code ∈ legacy_codes → Normalize code ∈ catalog_codes).
Proof.
  destruct (assoc legacyToCanonical code) as [c|] eqn:El.
  - apply assoc_elem, list_elem_of_In in El.
    repeat (destruct El as [El|El];
            [injection El as <- <-; split_and!; [reflexivity|reflexivity| |];
             apply (bool_decide_unpack _); vm_compute; reflexivity|]).
    destruct El.
  - assert (Normalize code = code) as En by (unfold Normalize; by rewrite El). rewrite !En.
    do 3 (split; [done|]). intros Hin%list_elem_of_In. exfalso.
    repeat (destruct Hin as [<-|Hin]; [discriminate El|]). destruct Hin.
Qed.

(** ** Responses *)

Lemma buildOptions_nil : buildOptions [] = mkOptions "" "" ∅ "error" None.
Proof. reflexivity. Qed.

(** A legacy field that does not hide [error_detail]. *)
Definition legacy_apart (o : respondOptions) : Prop := legacyKey o ≠ errorDetailKey.

Lemma writeError_detail code message details o :
  legacy_apart o →
  er_status (writeError code message details o) = StatusForCode (resolve_code code o)
  ∧ error_code (writeError code message details o) = Some (resolve_code code o)
  ∧ error_message (writeError code message details o) = Some message.
Proof.
  intros Hl%String.eqb_neq. unfold error_code, error_message, detail_field, writeError, assoc.
  cbn [er_status er_body List.find fst snd]. rewrite Hl. by repeat split.
Qed.

(** Where the code of an error comes from, and the message that goes with it. *)
Definition explained (e : error) (o : respondOptions) : ErrorCode * string :=
  match find_api e with
  | Some (code, message) => (code, message)
  | None =>
      match (match classifySentinel e with Some code => Some code | None => classifyMessage (error_text e) end) with
      | Some code => (code, error_text e)
      | None =>
          if String.eqb (defaultCode o) "" then ("GEN_INTERNAL", sanitizedInternalMessage)
          else (defaultCode o, if String.eqb (fallbackMessage o) "" then error_text e else fallbackMessage o)
      end
  end.

Lemma respondError_explained e opts :
  respondError (Some e) opts
  = let o := buildOptions opts in
    writeError (explained e o).1 (explained e o).2 None o.
Proof.
  unfold respondError, explained. cbv zeta. destruct (find_api e) as [[code message]|]; [done|].
  destruct (classifySentinel e); [done|]. destruct (classifyMessage (error_text e)); [done|].
  by destruct (String.eqb (defaultCode _) "").
Qed.

(** An error is never reported as a success, whatever the handler's options. *)
Lemma respondError_status err opts : 400 <= er_status (respondError err opts) < 600.
Proof.
  destruct err as [e|]; [rewrite respondError_explained|]; apply StatusForCode_error.
Qed.

(** Text of an error that nothing classifies does not leave the server. *)
Lemma respondError_hides e opts :
  find_api e = None → classifySentinel e = None → classifyMessage (error_text e) = None →
  defaultCode (buildOptions opts) = "" →
  respondError (Some e) opts = respondError None opts.
Proof. intros Ea Es Em Ed. rewrite respondError_explained. unfold explained. by rewrite Ea, Es, Em, Ed. Qed.

(** No entry of the table is shadowed by the ones before it: the text made of
    its own fragments gets its code. *)
Lemma patterns_reachable :
  Forall (λ p, classifyMessage (join " " (mp_contains p)) = Some (mp_code p)) messagePatterns.
Proof. apply (bool_decide_unpack _). by vm_compute. Qed.

Lemma find_first {A} (p : A → bool) l x :
  List.find p l = Some x → ∃ l1 l2, l = l1 ++ x :: l2 ∧ p x = true ∧ Forall (λ y, p y = false) l1.
Proof.
  induction l as [|y l IH]; [done|]. cbn. destruct (p y) eqn:Ey.
  - intros [= ->]. by exists [], l.
  - intros (l1 & l2 & -> & Hx & Hall)%IH. exists (y :: l1), l2. split_and!; [done..|]. by constructor.
Qed.

(** The code of a text is the one of the first entry all of whose fragments it
    has. *)
Lemma classifyMessage_first msg code :
  classifyMessage msg = Some code →
  ∃ l1 p l2, messagePatterns = l1 ++ p :: l2 ∧ mp_code p = code
    ∧ Forall (λ f, contains msg f = true) (mp_contains p)
    ∧ Forall (λ q, ∃ f, f ∈ mp_contains q ∧ contains msg f = false) l1.
Proof.
  unfold classifyMessage. intros (p & Hf & ->)%fmap_Some.
  apply find_first in Hf as (l1 & l2 & E & Hp & Hall). exists l1, p, l2. split_and!; [done..| |].
  - unfold matches in Hp. rewrite forallb_forall in Hp. rewrite Forall_forall.
    intros f Hin. by apply Hp, list_elem_of_In.
  - eapply Forall_impl; [exact Hall|]. intros q Hq. unfold matches in Hq.
    induction (mp_contains q) as [|f fs IH]; [done|]. cbn in Hq.
    destruct (contains msg f) eqn:Ef; [|exists f; split; [left|done]].
    destruct (IH Hq) as (f' & Hin & Hf'). exists f'. split; [by right|done].
Qed.

(** ** What the table makes of texts of the service *)

Definition used_twice (reference : string) : error :=
  EWrap "transaction validation failed" (ENew ("reference " +:+ reference +:+ " has already been used")).

(** The reference is the client's text, and the table reads it. *)
Lemma reference_text_decides :
  error_code (respondError (Some (used_twice "invoice-7")) []) = Some "TXN_DUPLICATE_REFERENCE"
  ∧ er_status (respondError (Some (used_twice "invoice-7")) []) = 409
  ∧ error_code (respondError (Some (used_twice "item not found")) []) = Some "TXN_NOT_FOUND"
  ∧ er_status (respondError (Some (used_twice "item not found")) []) = 404.
Proof. by vm_compute. Qed.

End ApiErrors.
