(* ===== verification/Replies.v ===== *)
(** * Replies of the endpoints

    What the handlers of [api/] have in common: they decode a request, call one
    operation of the service and answer with its result or its error.  A reply
    is a value; its body depends on the endpoint.  The paging and filter
    parameters of the listings are read here too. *)

From S2P Require Import Prelude Float64 Types Distributions Inflight FilterParse Filters ApiErrors.

Module Replies.

Import FilterParse Filters ApiErrors.

(** [Recovered] is the empty 500 of the recovery middleware. *)
Inductive reply_of (B : Type) :=
| Failed (r : error_response)
| Recovered
| Answered (status : Z) (b : B).
Arguments Failed {B} r.
Arguments Recovered {B}.
Arguments Answered {B} status b.

Definition status_of {B} (r : reply_of B) : Z :=
  match r with Failed r => er_status r | Recovered => 500 | Answered s _ => s end.

(** [if err != nil { respondError(c, err, opts...); return }; c.JSON(...)]. *)
Definition answer {W A B} (opts : list respondOpt) (m : prog W A) (ok : A → reply_of B)
    : prog W (reply_of B) := λ y,
  match m y with
  | (y, Ok a) => (y, Ok (ok a))
  | (y, Err e) => (y, Ok (if Inflight.is_panic e then Recovered else Failed (respondError (Some e) opts)))
  end.

Definition refuse {W B} (code message : string) (opts : list respondOpt) : prog W (reply_of B) :=
  mret (Failed (respondCode code message None opts)).

Definition with_body {W A B} (b : result A) (message : error → string) (k : A → prog W (reply_of B))
    : prog W (reply_of B) :=
  match b with
  | Ok a => k a
  | Err e => refuse "GEN_MALFORMED_REQUEST" (message e) []
  end.

(** A parameter of the route. *)
Definition with_param {W B} (p : option string) (message : string) (k : string → prog W (reply_of B))
    : prog W (reply_of B) :=
  match p with
  | Some v => k v
  | None => refuse "GEN_MISSING_PARAMETER" message []
  end.

Definition required (name route : string) : string :=
  name +:+ " is required. pass " +:+ name +:+ " in the route " +:+ route.

(** ** Listings *)

(** [strconv.Atoi] with the defaults of a lenient listing. *)
Definition page_limit (s : string) : nat :=
  match Float64.parse_int64 s with
  | Some n => if n <=? 0 then 20%nat else Z.to_nat n
  | None => 20%nat
  end.
Definition page_offset (s : string) : nat :=
  match Float64.parse_int64 s with
  | Some n => if n <? 0 then 0%nat else Z.to_nat n
  | None => 0%nat
  end.

(** A strict listing refuses what it cannot read. *)
Definition at_least (lo : Z) (s : string) : option Z :=
  match Float64.parse_int64 s with
  | Some n => if n <? lo then None else Some n
  | None => None
  end.

Definition parse_errors (l : list ParseError) : metaval :=
  MList (map (λ e, MObj [("Param", MStr (pe_Param e)); ("Message", MStr (pe_Message e))]) l).

Definition bad_filters {B} (l : list ParseError) : reply_of B :=
  Failed (respondCode "GEN_VALIDATION_ERROR" "invalid filter parameters" (Some (parse_errors l))
            [withLegacyKey "errors"; withLegacyValue (parse_errors l)]).

(** A query of [Filters]: filters, options, limit and offset. *)
Abbreviation listing_sql :=
  (option QueryFilterSet → option QueryOptions → Z → Z → result (string * list arg)).

(** With filters in the query string the rows come from the query built of
    them; [run] executes it on the database. *)
Definition filtered_or {W A B} `{MapIter} (sql : listing_sql) (run : string * list arg → result (list A))
    (q : url_Values) (limit offset : Z) (ok : list A → reply_of B) (plain : prog W (reply_of B))
    : prog W (reply_of B) :=
  if HasFilters q then
    match ParseFiltersFromContext q None with
    | (filters, []) =>
        answer [] (lift (query ← sql (Some filters) None limit offset; run query)) ok
    | (_, errs) => mret (bad_filters errs)
    end
  else plain.

(** Filters in a body, with a count on request. *)
Definition filter_body {W A B} (table : string) (sql : listing_sql)
    (run : string * list arg → result (list A * option Z)) (b : result FilterRequest)
    (ok : list A → option (option Z) → B) : prog W (reply_of B) :=
  match (req ← b; ParseFiltersFromBody req table) with
  | Err e => refuse "GEN_VALIDATION_ERROR" (error_text e) []
  | Ok (filters, opts, limit, offset) =>
      answer [] (lift (query ← sql (Some filters) (Some opts) limit offset; run query))
        (λ '(l, count), Answered 200 (ok l (if IncludeCount opts then Some count else None)))
  end.

(** ** Every reply is a success of the operation or an error *)

Section answers.
Context {W A B : Type}.
Implicit Types (m : prog W A) (ok : A → reply_of B).

Lemma answer_status opts m ok w r :
  (answer opts m ok w).2 = Ok r → status_of r < 400 → ∃ a, (m w).2 = Ok a ∧ r = ok a.
Proof.
  unfold answer. destruct (m w) as [w' [a|e]]; cbn [snd].
  - intros [= <-] _. by exists a.
  - pose proof (respondError_status (Some e) opts) as Hr. revert Hr.
    generalize (respondError (Some e) opts). intros er Hr [= <-] Hs. exfalso.
    destruct (Inflight.is_panic e); unfold status_of in Hs; lia.
Qed.

Lemma answer_total opts m ok w : ∃ r, (answer opts m ok w).2 = Ok r.
Proof. unfold answer. destruct (m w) as [w' [a|e]]; by eexists. Qed.

Lemma answer_state opts m ok w : (answer opts m ok w).1 = (m w).1.
Proof. unfold answer. by destruct (m w) as [w' [a|e]]. Qed.

Lemma respondCode_status code message details opts :
  400 <= er_status (respondCode code message details opts) < 600.
Proof. apply StatusForCode_error. Qed.

(** An operation that fails without touching the store is an error reply that
    does not either. *)
Lemma answer_error opts m ok w w' e :
  m w = (w', Err e) → ∃ r, answer opts m ok w = (w', Ok r) ∧ 400 <= status_of r.
Proof.
  intros Hm. unfold answer. rewrite Hm. eexists. split; [done|].
  pose proof (respondError_status (Some e) opts). destruct (Inflight.is_panic e); unfold status_of; lia.
Qed.

End answers.

End Replies.
