(* ===== verification/Requests.v ===== *)
(** * Requests that create transactions, balances and monitors

    [api/model/]: the bodies of the requests as they are decoded from JSON,
    what is required of them, and the transactions, balances and monitors made
    of them.  The validation library (go-ozzo) is an interface. *)

From Stdlib Require Import Floats.SpecFloat.
From S2P Require Import Prelude Float64 Decimal Types Time Balances FilterParse Queueing.

Module Requests.

Import FilterParse Queueing.

(** ** go-ozzo/ozzo-validation *)

(** The first error of each field; a later field with the same tag replaces an
    earlier one. *)
Fixpoint first_error (rules : list (option error)) : option error :=
  match rules with
  | [] => None
  | Some e :: _ => Some e
  | None :: rules => first_error rules
  end.

Definition field_errors (fields : list (string * list (option error))) : gmap string error :=
  foldl (λ errs f, match first_error f.2 with Some e => <[f.1 := e]> errs | None => errs end) ∅ fields.

(** What the models rely on.  A rule is the error it finds; fields are named by
    their JSON tags; an empty value passes every rule but [Required]. *)
Class Ozzo := {
  Required : bool → option error;
  In_ : string → list string → option error;
  Min : Z → Z → option error;
  Length1 : nat → option error;
  ErrorText : string → option error → option error;
  When : bool → option error → option error;
  ValidateStruct : list (string * list (option error)) → option (gmap string error);
  Errors_Error : gmap string error → string;
  Required_ok : ∀ empty, Required empty = None ↔ empty = false;
  In_ok : ∀ v l, In_ v l = None ↔ v = "" ∨ v ∈ l;
  Min_ok : ∀ lo v, Min lo v = None ↔ v = 0 ∨ lo <= v;
  Length1_ok : ∀ n, Length1 n = None;
  ErrorText_ok : ∀ msg r, ErrorText msg r = (λ _, ENew msg) <$> r;
  When_ok : ∀ b r, When b r = if b then r else None;
  ValidateStruct_ok : ∀ fields,
    ValidateStruct fields
    = if bool_decide (field_errors fields = ∅) then None else Some (field_errors fields);
}.

(** The library with its English texts. *)
#[export] Program Instance plain_ozzo : Ozzo := {|
  Required empty := if empty then Some (ENew "cannot be blank") else None;
  In_ v l := if String.eqb v "" || bool_decide (v ∈ l) then None else Some (ENew "must be a valid value");
  Min lo v := if (v =? 0) || (lo <=? v) then None
              else Some (ENew ("must be no less than " +:+ Z_to_string lo));
  Length1 _ := None;
  ErrorText msg r := (λ _, ENew msg) <$> r;
  When b r := if b then r else None;
  ValidateStruct fields :=
    if bool_decide (field_errors fields = ∅) then None else Some (field_errors fields);
  Errors_Error errs :=
    join "; " (map (λ p, p.1 +:+ ": " +:+ error_text p.2) (map_to_list errs)) +:+ ".";
|}.
Next Obligation. by intros []. Qed.
Next Obligation.
  intros v l. cbn. destruct (String.eqb_spec v ""), (bool_decide_reflect (v ∈ l)); cbn; naive_solver.
Qed.
Next Obligation.
  intros lo v. cbn. destruct (Z.eqb_spec v 0), (Z.leb_spec lo v); cbn; naive_solver lia.
Qed.
Next Obligation. done. Qed.
Next Obligation. done. Qed.
Next Obligation. done. Qed.
Next Obligation. done. Qed.

Lemma first_error_None rules : first_error rules = None ↔ Forall (λ r, r = None) rules.
Proof.
  induction rules as [|[e|] rules IH]; cbn; [by split|split; [done|by intros [? _]%Forall_cons]|].
  rewrite IH, Forall_cons. naive_solver.
Qed.

Lemma field_errors_app fields f :
  field_errors (fields ++ [f])
  = match first_error f.2 with
    | Some e => <[f.1 := e]> (field_errors fields)
    | None => field_errors fields
    end.
Proof. unfold field_errors. by rewrite foldl_app. Qed.

(** A struct is valid exactly when every rule of every field passes. *)
Lemma ValidateStruct_None `{Ozzo} fields :
  ValidateStruct fields = None ↔ Forall (λ f, Forall (λ r, r = None) f.2) fields.
Proof.
  rewrite ValidateStruct_ok. rewrite <- (Forall_iff (λ f, first_error f.2 = None)) by
    (intros f; apply first_error_None).
  destruct (bool_decide_reflect (field_errors fields = ∅)) as [E|E]; split; try done.
  - intros _. induction fields as [|f fields IH] using rev_ind; [done|].
    rewrite field_errors_app in E. apply Forall_app. destruct (first_error f.2) eqn:Ef.
    + by apply insert_non_empty in E.
    + split; [by apply IH|]. by constructor.
  - intros Hall. exfalso. apply E. clear E. induction fields as [|f fields IH] using rev_ind; [done|].
    apply Forall_app in Hall as [Hfs Hf]. inversion_clear Hf as [|? ? Hf' _].
    rewrite field_errors_app, Hf'. by apply IH.
Qed.

(** ** api/model/transaction.go *)

Definition MaxBulkInflightItems : nat := 100.
Definition MaxBulkTransactionItems : nat := 10000.

Record RecordTransaction := mkRecordTransaction {
  rt_Amount : float64;
  rt_Precision : float64;
  rt_OverdraftLimit : float64;
  rt_PreciseAmount : option Z;
  rt_AllowOverDraft : bool;
  rt_Inflight : bool;
  rt_SkipQueue : bool;
  rt_Atomic : bool;
  rt_Source : string;
  rt_Reference : string;
  rt_Destination : string;
  rt_Description : string;
  rt_Currency : string;
  rt_BalanceId : string;
  rt_ScheduledFor : string;
  rt_InflightExpiryDate : string;
  rt_InflightCommitDate : string;
  rt_Sources : list Distribution;
  rt_Destinations : list Distribution;
  rt_MetaData : metadata;
  rt_EffectiveDate : option time;
}.
#[global] Instance RecordTransaction_eta : Eta RecordTransaction := λ t,
  mkRecordTransaction (rt_Amount t) (rt_Precision t) (rt_OverdraftLimit t) (rt_PreciseAmount t)
    (rt_AllowOverDraft t) (rt_Inflight t) (rt_SkipQueue t) (rt_Atomic t) (rt_Source t)
    (rt_Reference t) (rt_Destination t) (rt_Description t) (rt_Currency t) (rt_BalanceId t)
    (rt_ScheduledFor t) (rt_InflightExpiryDate t) (rt_InflightCommitDate t) (rt_Sources t)
    (rt_Destinations t) (rt_MetaData t) (rt_EffectiveDate t).

(** ** api/model/model.go *)

Definition ErrPrecisionMustBeInteger : error :=
  ESentinel Prelude.ErrPrecisionMustBeInteger "precision must be an integer value".

(** [math.Trunc]. *)
Definition trunc (x : float64) : float64 :=
  match x with
  | S754_finite s m e => if 0 <=? e then x
                         else if Zpos m / 2 ^ (- e) =? 0 then S754_zero s
                         else Float64.of_Z (Float64.to_int x)
  | _ => x
  end.

Definition validatePrecisionIsInteger (precision : float64) : option error :=
  if Float64.eqb (trunc precision) precision then None else Some ErrPrecisionMustBeInteger.

Definition nonempty {A} (l : list A) : bool := match l with [] => false | _ => true end.
Definition empty (s : string) : bool := String.eqb s "".

(** One end: neither or both of its two forms are refused. *)
Definition one_end (single : string) (several : list Distribution) : bool :=
  negb ((empty single && negb (nonempty several)) || (negb (empty single) && nonempty several)).

Definition sourceOrSourcesValidation (t : RecordTransaction) : option error :=
  if one_end (rt_Source t) (rt_Sources t) then None
  else Some (ENew "either source or sources is required, not both").
Definition destinationOrDestinationsValidation (t : RecordTransaction) : option error :=
  if one_end (rt_Destination t) (rt_Destinations t) then None
  else Some (ENew "either destination or destinations is required, not both").

(** [time.Parse("2006-01-02T15:04:05Z07:00", value)]. *)
Definition rfc3339 : list elem := date_with "-" ++ [ELit "T"] ++ hms ++ [EZone].
Definition parse_moment (value : string) : option time := fst <$> time_Parse rfc3339 value.

Definition validateDateFormat (value : string) : option error :=
  match parse_moment value with
  | Some _ => None
  | None => Some (ENew "please format the scheduled date as 'YYYY-MM-DDTHH:MM:SS+00:00' (e.g., 2024-04-22T15:28:03+00:00)")
  end.

(** [strings.Replace(s, ".", "", 1)] and [strings.TrimLeft(s, "0")]. *)
Fixpoint drop_point (s : string) : string :=
  match s with
  | "" => ""
  | String c s' => if bool_decide (c = "."%char) then s' else String c (drop_point s')
  end.
Fixpoint trim_left_zeros (s : string) : string :=
  match s with
  | String c s' => if bool_decide (c = "0"%char) then trim_left_zeros s' else s
  | "" => ""
  end.

Definition significantDigits (amount : float64) : nat :=
  String.length (trim_left_zeros (drop_point (Float64.format_shortest amount))).

Definition is_zero (x : float64) : bool := Float64.eqb x Float64.zero.

Definition validate_amount (t : RecordTransaction) : option error :=
  if negb (is_zero (rt_Amount t)) && bool_decide (is_Some (rt_PreciseAmount t))
  then Some (ENew "either amount or precise_amount should be provided, not both")
  else if is_zero (rt_Amount t) && bool_decide (rt_PreciseAmount t = None)
  then Some (ENew "either amount or precise_amount is required")
  else if negb (is_zero (rt_Amount t)) && Nat.ltb 15 (significantDigits (rt_Amount t))
  then Some (ENew "amount has more than 15 significant digits which may cause rounding errors; use precise_amount instead")
  else None.

Definition ToTransaction (t : RecordTransaction) : Transaction :=
  let moment s := if empty s then 0 else default 0 (parse_moment s) in
  empty_transaction
    <| t_Currency := rt_Currency t |> <| t_Source := rt_Source t |>
    <| t_Description := rt_Description t |> <| t_Reference := rt_Reference t |>
    <| t_ScheduledFor := moment (rt_ScheduledFor t) |> <| t_Destination := rt_Destination t |>
    <| t_Amount := rt_Amount t |> <| t_AllowOverdraft := rt_AllowOverDraft t |>
    <| t_MetaData := rt_MetaData t |> <| t_Sources := rt_Sources t |>
    <| t_Destinations := rt_Destinations t |> <| t_Inflight := rt_Inflight t |>
    <| t_Precision := rt_Precision t |>
    <| t_InflightExpiryDate := moment (rt_InflightExpiryDate t) |>
    <| t_InflightCommitDate := moment (rt_InflightCommitDate t) |>
    <| t_SkipQueue := rt_SkipQueue t |> <| t_EffectiveDate := rt_EffectiveDate t |>
    <| t_OverdraftLimit := rt_OverdraftLimit t |> <| t_PreciseAmount := rt_PreciseAmount t |>
    <| t_Atomic := rt_Atomic t |>.

(** [BulkTransactionRequest]; a null item is [None]. *)
Record BulkRequest := mkBulkRequestBody {
  bk_Transactions : list (option RecordTransaction);
  bk_Inflight : bool;
  bk_Atomic : bool;
  bk_RunAsync : bool;
  bk_SkipQueue : bool;
}.

(** The handler refuses null items first. *)
Definition ToBulkTransactionRequest (r : BulkRequest) : BulkTransactionRequest :=
  mkBulkRequest (map ToTransaction (omap id (bk_Transactions r))) (bk_Inflight r) (bk_Atomic r)
    (bk_RunAsync r) (bk_SkipQueue r).

Record InflightUpdate := mkInflightUpdate {
  iu_Status : string;
  iu_Amount : float64;
  iu_PreciseAmount : option Z;
  iu_SkipQueue : bool;
}.

Record BulkInflightVoidRequest := mkVoidRequest {
  bv_TransactionIDs : list string;
  bv_SkipQueue : bool;
}.

Record BulkInflightCommitItem := mkCommitItem {
  ci_TransactionID : string;
  ci_Amount : float64;
  ci_PreciseAmount : option Z;
}.
Record BulkInflightCommitRequest := mkCommitRequest {
  bc_Transactions : list BulkInflightCommitItem;
  bc_SkipQueue : bool;
}.

(** ** api/model/balance.go *)

Record CreateBalance := mkCreateBalance {
  cb_LedgerId : string;
  cb_IdentityId : string;
  cb_Currency : string;
  cb_Precision : float64;
  cb_MetaData : metadata;
  cb_TrackFundLineage : bool;
  cb_AllocationStrategy : string;
}.
#[global] Instance CreateBalance_eta : Eta CreateBalance := λ b,
  mkCreateBalance (cb_LedgerId b) (cb_IdentityId b) (cb_Currency b) (cb_Precision b)
    (cb_MetaData b) (cb_TrackFundLineage b) (cb_AllocationStrategy b).

Record MonitorCondition := mkMonitorCondition {
  mc_Precision : float64;
  mc_Field : string;
  mc_Operator : string;
  mc_Value : float64;
}.
Record CreateBalanceMonitor := mkCreateBalanceMonitor {
  cm_BalanceId : string;
  cm_Condition : MonitorCondition;
  cm_CallBackURL : string;
  cm_MetaData : metadata;
}.

Definition strategies : list string := ["FIFO"; "LIFO"; "PROPORTIONAL"].

Definition ToBalance (b : CreateBalance) : Balance :=
  empty_balance
    <| b_LedgerID := cb_LedgerId b |> <| b_IdentityID := cb_IdentityId b |>
    <| b_Currency := cb_Currency b |> <| b_MetaData := cb_MetaData b |>
    <| b_TrackFundLineage := cb_TrackFundLineage b |>
    <| b_AllocationStrategy := if empty (cb_AllocationStrategy b) then "FIFO" else cb_AllocationStrategy b |>.

(** The precision and the metadata of the request are not passed on. *)
Definition ToBalanceMonitor (b : CreateBalanceMonitor) : BalanceMonitor :=
  let c := cm_Condition b in
  mkBalanceMonitor "" (cm_BalanceId b) "" (cm_CallBackURL b) 0
    (mkAlertCondition (mc_Value c) (mc_Precision c) None (mc_Field c) (mc_Operator c)).

Section validation.
Context `{Ozzo}.

Abbreviation errors := (option (gmap string error)) (only parsing).

Definition date_field (tag value : string) : string * list (option error) :=
  (tag, [When (negb (empty value)) (validateDateFormat value)]).

Definition ValidateRecordTransaction (t : RecordTransaction) : errors :=
  ValidateStruct
    [("amount", [validate_amount t]);
     ("precision", [validatePrecisionIsInteger (rt_Precision t)]);
     ("currency", [Required (empty (rt_Currency t))]);
     ("reference", [Required (empty (rt_Reference t))]);
     ("description", [Required (empty (rt_Description t))]);
     ("source", [sourceOrSourcesValidation t]);
     ("destination", [destinationOrDestinationsValidation t]);
     date_field "scheduled_for" (rt_ScheduledFor t);
     date_field "inflight_expiry_date" (rt_InflightExpiryDate t);
     date_field "inflight_commit_date" (rt_InflightCommitDate t)].

(** The request as the method leaves it, with its errors. *)
Definition ValidateCreateBalance (b : CreateBalance) : CreateBalance * errors :=
  let b := if empty (cb_AllocationStrategy b) then b
           else b <| cb_AllocationStrategy := TrimSpace (to_upper (cb_AllocationStrategy b)) |> in
  (b, ValidateStruct
        [("ledger_id", [Required (empty (cb_LedgerId b))]);
         ("currency", [Required (empty (cb_Currency b))]);
         ("identity_id",
          [When (cb_TrackFundLineage b)
             (ErrorText "identity_id is required when track_fund_lineage is enabled"
                (Required (empty (cb_IdentityId b))))]);
         ("allocation_strategy",
          [When (negb (empty (cb_AllocationStrategy b)))
             (ErrorText "allocation_strategy must be one of: FIFO, LIFO, PROPORTIONAL"
                (In_ (cb_AllocationStrategy b) strategies))])]).

Definition ValidateMonitorCondition (c : MonitorCondition) : errors :=
  ValidateStruct
    [("field", [Required (empty (mc_Field c));
                In_ (mc_Field c) ["debit_balance"; "credit_balance"; "balance"; "inflight_debit_balance";
                                  "inflight_credit_balance"; "inflight_balance"]]);
     ("operator", [Required (empty (mc_Operator c))]);
     ("precision", [Required (is_zero (mc_Precision c))]);
     ("value", [Required (is_zero (mc_Value c))])].

(** A struct is never empty. *)
Definition ValidateCreateBalanceMonitor (b : CreateBalanceMonitor) : errors :=
  ValidateStruct
    [("balance_id", [Required (empty (cm_BalanceId b))]);
     ("condition", [Required false;
                    (λ errs, ENew (Errors_Error errs)) <$> ValidateMonitorCondition (cm_Condition b)])].

(** ** What a valid request is *)

Definition amount_ok (t : RecordTransaction) : Prop :=
  (is_zero (rt_Amount t) = true ∧ is_Some (rt_PreciseAmount t))
  ∨ (is_zero (rt_Amount t) = false ∧ rt_PreciseAmount t = None
     ∧ (significantDigits (rt_Amount t) <= 15)%nat).

Definition date_ok (value : string) : Prop := value = "" ∨ is_Some (parse_moment value).

Record record_ok (t : RecordTransaction) : Prop := {
  ok_amount : amount_ok t;
  ok_precision : Float64.eqb (trunc (rt_Precision t)) (rt_Precision t) = true;
  ok_currency : rt_Currency t ≠ "";
  ok_reference : rt_Reference t ≠ "";
  ok_description : rt_Description t ≠ "";
  ok_source : rt_Source t = "" ↔ rt_Sources t ≠ [];
  ok_destination : rt_Destination t = "" ↔ rt_Destinations t ≠ [];
  ok_scheduled : date_ok (rt_ScheduledFor t);
  ok_expiry : date_ok (rt_InflightExpiryDate t);
  ok_commit : date_ok (rt_InflightCommitDate t);
}.

Lemma Required_empty s : Required (empty s) = None ↔ s ≠ "".
Proof. rewrite Required_ok. unfold empty. apply String.eqb_neq. Qed.

Lemma validate_amount_None t : validate_amount t = None ↔ amount_ok t.
Proof.
  unfold validate_amount, amount_ok.
  destruct (is_zero (rt_Amount t)), (rt_PreciseAmount t) as [p|]; cbn -[Nat.ltb significantDigits].
  - naive_solver.
  - split; [done|]. by intros [[_ []%is_Some_None]|[? _]].
  - split; [done|]. by intros [[? _]|(_ & ? & _)].
  - destruct (Nat.ltb_spec 15 (significantDigits (rt_Amount t))); split; try done.
    + intros [[? _]|(_ & _ & ?)]; [done|lia].
    + intros _. right. split_and!; [done..|lia].
Qed.

Lemma one_end_spec single several : one_end single several = true ↔ (single = "" ↔ several ≠ []).
Proof.
  unfold one_end, empty. destruct (String.eqb_spec single "") as [->|Hs], several as [|d l]; cbn;
    naive_solver.
Qed.

Lemma when_date value : When (negb (empty value)) (validateDateFormat value) = None ↔ date_ok value.
Proof.
  rewrite When_ok. unfold date_ok, empty, validateDateFormat.
  destruct (String.eqb_spec value ""); cbn [negb].
  - split; [intros _; by left|done].
  - destruct (parse_moment value) as [m|]; split; try done.
    + intros _. right. by exists m.
    + by intros [?|[]%is_Some_None].
Qed.

(** The rules accept exactly the well-formed requests. *)
Lemma ValidateRecordTransaction_spec t : ValidateRecordTransaction t = None ↔ record_ok t.
Proof.
  unfold ValidateRecordTransaction, date_field. rewrite ValidateStruct_None.
  rewrite !Forall_cons, Forall_nil. cbn [snd]. rewrite !Forall_singleton.
  rewrite validate_amount_None, !Required_empty, !when_date.
  assert (validatePrecisionIsInteger (rt_Precision t) = None
          ↔ Float64.eqb (trunc (rt_Precision t)) (rt_Precision t) = true) as ->.
  { unfold validatePrecisionIsInteger. by destruct (Float64.eqb _ _). }
  assert (sourceOrSourcesValidation t = None ↔ (rt_Source t = "" ↔ rt_Sources t ≠ [])) as ->.
  { unfold sourceOrSourcesValidation. rewrite <- one_end_spec. by destruct (one_end _ _). }
  assert (destinationOrDestinationsValidation t = None
          ↔ (rt_Destination t = "" ↔ rt_Destinations t ≠ [])) as ->.
  { unfold destinationOrDestinationsValidation. rewrite <- one_end_spec. by destruct (one_end _ _). }
  split; [intros (?&?&?&?&?&?&?&?&?&?&_); by split|intros []; by split_and!].
Qed.

(** A valid request loses no date on the way to the transaction. *)
Lemma ToTransaction_dates t :
  record_ok t →
  ∀ value moment,
    (value, moment) ∈ [(rt_ScheduledFor t, t_ScheduledFor (ToTransaction t));
                       (rt_InflightExpiryDate t, t_InflightExpiryDate (ToTransaction t));
                       (rt_InflightCommitDate t, t_InflightCommitDate (ToTransaction t))] →
    (value = "" ∧ moment = 0) ∨ (value ≠ "" ∧ parse_moment value = Some moment).
Proof.
  assert (∀ v, date_ok v → (v = "" ∧ (if empty v then 0 else default 0 (parse_moment v)) = 0)
    ∨ (v ≠ "" ∧ parse_moment v = Some (if empty v then 0 else default 0 (parse_moment v)))) as Hd.
  { intros v Hv. unfold empty. destruct (String.eqb_spec v ""); [by left|right].
    split; [done|]. destruct Hv as [?|[m ->]]; done. }
  intros Hok value moment Hin%list_elem_of_In.
  destruct Hin as [[= <- <-]|[[= <- <-]|[[= <- <-]|[]]]]; apply Hd, Hok.
Qed.

(** A valid balance request names one of the three strategies, or none, which
    means the first. *)
Lemma ValidateCreateBalance_strategy b b' :
  ValidateCreateBalance b = (b', None) →
  b_AllocationStrategy (ToBalance b') ∈ strategies
  ∧ (cb_AllocationStrategy b' ≠ "" →
     b_AllocationStrategy (ToBalance b') = TrimSpace (to_upper (cb_AllocationStrategy b)))
  ∧ (cb_TrackFundLineage b = true → cb_IdentityId b ≠ "").
Proof.
  unfold ValidateCreateBalance. cbv zeta.
  set (n := if empty (cb_AllocationStrategy b) then b else _).
  assert (cb_AllocationStrategy n ≠ "" → cb_AllocationStrategy n = TrimSpace (to_upper (cb_AllocationStrategy b))) as Hn.
  { unfold n, empty. by destruct (String.eqb_spec (cb_AllocationStrategy b) ""). }
  assert (cb_TrackFundLineage n = cb_TrackFundLineage b ∧ cb_IdentityId n = cb_IdentityId b) as [El Ei].
  { unfold n. by destruct (empty _). }
  clearbody n. intros [= <- Hv]. rewrite ValidateStruct_None, !Forall_cons in Hv. cbn [snd] in Hv.
  rewrite !Forall_singleton in Hv. destruct Hv as (_ & _ & Hi & Hs & _).
  rewrite When_ok in Hi, Hs. unfold ToBalance. cbn [b_AllocationStrategy set].
  split_and!.
  - destruct (empty (cb_AllocationStrategy n)) eqn:Ee; [by left|]. cbn [negb] in Hs.
    rewrite ErrorText_ok, fmap_None, In_ok in Hs. unfold empty in Ee. apply String.eqb_neq in Ee.
    by destruct Hs.
  - intros Hne. unfold empty. rewrite (proj2 (String.eqb_neq _ _) Hne). by apply Hn.
  - intros Ht. rewrite El, Ht, ErrorText_ok, fmap_None, Required_empty in Hi. by rewrite <- Ei.
Qed.

(** A condition on the value zero is refused: zero is no value to the library. *)
Lemma zero_condition_refused c :
  is_zero (mc_Value c) = true → ValidateMonitorCondition c ≠ None.
Proof.
  intros Hz Hv. unfold ValidateMonitorCondition in Hv. rewrite ValidateStruct_None, !Forall_cons in Hv.
  destruct Hv as (_ & _ & _ & Hv & _). cbn [snd] in Hv. rewrite Forall_singleton, Required_ok in Hv.
  congruence.
Qed.

End validation.

(** ** Requests the rules accept and refuse *)

Definition sample_request (amount precision : float64) : RecordTransaction :=
  mkRecordTransaction amount precision Float64.zero None false false false false "bln_a" "ref" "bln_b"
    "rent" "USD" "" "" "" "" [] [] ∅ None.

Definition float (c e : Z) : float64 := Float64.of_decimal c e.

(** Zeros at the end count as significant: a thousand billion is too long. *)
Lemma round_amount_refused :
  significantDigits (float 1 15) = 16%nat ∧ significantDigits (float 1 14) = 15%nat
  ∧ is_Some (ValidateRecordTransaction (sample_request (float 1 15) (float 100 0)))
  ∧ ValidateRecordTransaction (sample_request (float 123456789012345 (-2)) (float 100 0)) = None.
Proof. split_and!; try (by vm_compute). by eexists; vm_compute. Qed.

(** The sign keeps the zeros of a negative fraction, and is counted. *)
Lemma negative_fraction_counted :
  significantDigits (float 12345678901234 (-15)) = 14%nat
  ∧ significantDigits (float (-12345678901234) (-15)) = 17%nat.
Proof. by vm_compute. Qed.

(** Signs are not checked: a negative amount passes, and with a negative
    precision it becomes a positive amount in minor units. *)
Lemma negative_request_accepted :
  ValidateRecordTransaction (sample_request (float (-5) 0) (float 100 0)) = None
  ∧ let t := sample_request (float (-5) 0) (float (-100) 0) in
    ValidateRecordTransaction t = None
    ∧ (Balances.ApplyPrecision (ToTransaction t)).1 = 500
    ∧ Balances.validate (Balances.ApplyPrecision (ToTransaction t)).2 = Ok tt.
Proof. by vm_compute. Qed.

End Requests.
