(* ===== verification/TransactionsApi.v ===== *)
(** * The transaction routes

    [api/transactions.go]: each handler binds and checks its request, calls the
    service and answers.  A handler is a program on the service's state; its
    reply is a value.  The decoded body is an argument (or the error of
    decoding it), as are what a filtered query finds and which worker takes
    which item of a bulk request. *)

From Stdlib Require Import Floats.SpecFloat.
From S2P Require Import Prelude Float64 Decimal Types Time Balances Distributions Lock Datastore HotPairs Execution TaskQueue Inflight Coalescing Queueing Workers Lineage FilterParse Filters ApiErrors Replies Requests.

Module TransactionsApi.

Import Datastore Execution TaskQueue Inflight Coalescing Queueing Workers FilterParse Filters ApiErrors Replies Requests.

(** ** Replies *)

Record BulkInflightResult := mkInflightResult {
  ir_TransactionID : string;
  ir_Status : string;
  ir_Code : string;
  ir_Message : string;
}.
Record BulkInflightResponse := mkInflightResponse {
  bi_Succeeded : nat;
  bi_Failed : nat;
  bi_Results : list BulkInflightResult;
}.

Inductive body :=
| BTransaction (t : Transaction)
| BQueued (t : Transaction)      (* the transaction with ["queued": true] *)
| BTransactions (l : list Transaction)
| BCounted (l : list Transaction) (total : option Z)
| BFields (fields : list (string * metaval))
| BBulk (r : BulkInflightResponse)
| BLineage (allocation : list (list (string * metaval))) (shadows : list Transaction)
| BRecovered (count : nat) (threshold : Z).

Abbreviation reply := (reply_of body).

(** [transformTransaction]: a flag kept in the metadata moves to its field. *)
Definition transformTransaction (t : Transaction) : Transaction :=
  match t_MetaData t !! "inflight" with
  | Some (MBool true) => t <| t_Inflight := true |> <| t_MetaData := delete "inflight" (t_MetaData t) |>
  | _ => t
  end.

(** ** [time.ParseDuration] *)

Definition quote (s : string) : string :=
  let q := String (ascii_of_nat 34) "" in q +:+ s +:+ q.

Definition duration_units : list (string * Z) :=
  let micro a b := String (ascii_of_nat a) (String (ascii_of_nat b) "s") in
  [("ns", 1); ("us", 1000); (micro 194%nat 181%nat, 1000); (micro 206%nat 188%nat, 1000);
   ("ms", 1000000); ("s", Time.second); ("m", Time.minute); ("h", Time.hour)].

(** The digits at the head; [None] beyond [2^63]. *)
Fixpoint leadingInt (x : Z) (s : string) : option (Z * string) :=
  match s with
  | String c s' =>
      match Float64.digit_of c with
      | Some d => if 2 ^ 63 / 10 <? x then None
                  else if 2 ^ 63 <? 10 * x + d then None else leadingInt (10 * x + d) s'
      | None => Some (x, s)
      end
  | "" => Some (x, "")
  end.

(** Digits that do not fit are skipped. *)
Fixpoint leadingFraction (x scale : Z) (overflow : bool) (s : string) : Z * Z * string :=
  match s with
  | String c s' =>
      match Float64.digit_of c with
      | Some d => if overflow || ((2 ^ 63 - 1) / 10 <? x) || (2 ^ 63 <? 10 * x + d)
                  then leadingFraction x scale true s'
                  else leadingFraction (10 * x + d) (10 * scale) false s'
      | None => (x, scale, s)
      end
  | "" => (x, scale, "")
  end.

(** The text up to a point or a digit. *)
Fixpoint read_unit (s : string) : string * string :=
  match s with
  | String c s' =>
      if bool_decide (c = "."%char) || bool_decide (is_Some (Float64.digit_of c)) then ("", s)
      else let '(u, r) := read_unit s' in (String c u, r)
  | "" => ("", "")
  end.

Definition fraction_of (f scale unit : Z) : Z :=
  Float64.to_int (Float64.mul (Float64.of_Z f) (Float64.div (Float64.of_Z unit) (Float64.of_Z scale))).

(** Each turn reads one number with its unit; [fuel] is the length of the text. *)
Fixpoint read_durations (fuel : nat) (orig : string) (d : Z) (s : string) : result Z :=
  let invalid := Err (ENew ("time: invalid duration " +:+ quote orig)) in
  match fuel, s with
  | _, "" => Ok d
  | O, _ => invalid
  | Datatypes.S fuel, _ =>
      match leadingInt 0 s with
      | None => invalid
      | Some (v, r) =>
          let pre := negb (Nat.eqb (String.length r) (String.length s)) in
          let '(f, scale, r', post) :=
            match r with
            | String "." r => let '(f, scale, r') := leadingFraction 0 1 false r in
                              (f, scale, r', negb (Nat.eqb (String.length r') (String.length r)))
            | _ => (0, 1, r, false)
            end in
          if negb pre && negb post then invalid
          else
            let '(u, rest) := read_unit r' in
            if String.eqb u "" then Err (ENew ("time: missing unit in duration " +:+ quote orig))
            else match assoc duration_units u with
                 | None => Err (ENew ("time: unknown unit " +:+ quote u +:+ " in duration " +:+ quote orig))
                 | Some unit =>
                     if 2 ^ 63 / unit <? v then invalid
                     else
                       let v := v * unit + (if 0 <? f then fraction_of f scale unit else 0) in
                       if (2 ^ 63 <? v) || (2 ^ 63 <? d + v) then invalid
                       else read_durations fuel orig (d + v) rest
                 end
      end
  end.

Definition ParseDuration (orig : string) : result Z :=
  let invalid := Err (ENew ("time: invalid duration " +:+ quote orig)) in
  let '(neg, s) := Float64.read_sign orig in
  if String.eqb s "0" then Ok 0
  else if String.eqb s "" then invalid
  else
    d ← read_durations (String.length s) orig 0 s;
    if neg then Ok (- d) else if 2 ^ 63 - 1 <? d then invalid else Ok d.

Example duration_texts :
  ParseDuration "5m" = Ok (5 * Time.minute) ∧ ParseDuration "1h30m" = Ok (90 * Time.minute)
  ∧ ParseDuration "-1.5s" = Ok (-1500000000) ∧ ParseDuration ".5ms" = Ok 500000
  ∧ is_ok (ParseDuration "5") = false ∧ is_ok (ParseDuration "") = false
  ∧ ParseDuration "0" = Ok 0 ∧ is_ok (ParseDuration "3000000h") = false.
Proof. by vm_compute. Qed.

(** What [GetAllTransactions] selects. *)
Definition scan_listed (r : Transaction) : Transaction :=
  empty_transaction
    <| t_TransactionID := t_TransactionID r |> <| t_Source := t_Source r |>
    <| t_Reference := t_Reference r |> <| t_Amount := t_Amount r |> <| t_Currency := t_Currency r |>
    <| t_Destination := t_Destination r |> <| t_Description := t_Description r |>
    <| t_Status := t_Status r |> <| t_Hash := t_Hash r |> <| t_CreatedAt := t_CreatedAt r |>
    <| t_MetaData := t_MetaData r |>.

Definition GetAllTransactions (d : db) (limit offset : nat) : list Transaction :=
  limit_offset limit offset (map scan_listed (order_desc t_CreatedAt (db_transactions d))).

Section handlers.
Context `{Decimal, MapIter, Asynq, Ozzo}.

Abbreviation S := (prog sys).

Definition txn_not_found : respondOpt := withUpgrade "GEN_NOT_FOUND" "TXN_NOT_FOUND".

(** ** Creating a transaction *)

(** The map is asked for the Go field, and has no [Unwrap]. *)
Definition handleRecordTransactionValidationError (errs : gmap string error) : reply :=
  match errs !! "Precision" with
  | Some e =>
      if errors_is e Prelude.ErrPrecisionMustBeInteger
      then Failed (respondCode "TXN_PRECISION_NOT_INTEGER" (error_text e) None [])
      else Failed (respondCode "TXN_VALIDATION_ERROR" (Errors_Error errs) None [withLegacyKey "errors"])
  | None => Failed (respondCode "TXN_VALIDATION_ERROR" (Errors_Error errs) None [withLegacyKey "errors"])
  end.

Definition queue_service (E : senv) (t : Transaction) : S Transaction :=
  with_txn t (_ ← Queueing.QueueTransaction 2 E; own).

Definition api_QueueTransaction (E : senv) (b : result RecordTransaction) : S reply :=
  with_body b (λ _, "Invalid input") (λ newTransaction,
    match ValidateRecordTransaction newTransaction with
    | Some errs => mret (handleRecordTransactionValidationError errs)
    | None =>
        answer [txn_not_found; withDefault "TXN_VALIDATION_ERROR"]
          (queue_service E (ToTransaction newTransaction))
          (λ t, Answered 201 (BTransaction (transformTransaction t)))
    end).

(** ** Refunds; an empty body means the default *)

Definition api_RefundTransaction (E : senv) (id : option string) (b : result bool) : S reply :=
  with_param id (required "id" "/:id") (λ id,
  with_body b error_text (λ skipQueue,
    answer [txn_not_found; withDefault "GEN_BAD_REQUEST"]
      (ProcessTransactionInBatches E (λ d, GetRefundableTransactionsByParentID d id)
         (RefundWorkerWithOptions E skipQueue))
      (λ txns, match txns with
               | [] => Failed (respondCode "TXN_NOT_FOUND" "no transaction to refund" None [])
               | t :: _ => Answered 201 (BTransaction (transformTransaction t))
               end))).

(** ** Reads *)

Definition read_sys {A} (f : db → result A) : S A := inc (read f).

Definition api_GetTransaction (id : option string) : S reply :=
  with_param id (required "id" "/:id") (λ id,
    answer [txn_not_found] (read_sys (λ d, Datastore.GetTransaction d id))
      (λ t, Answered 200 (BTransaction (transformTransaction t)))).

Definition api_GetTransactionByRef (reference : option string) : S reply :=
  with_param reference (required "reference" "/ref/:reference") (λ reference,
    answer [txn_not_found] (read_sys (λ d, Datastore.GetTransactionByRef d reference))
      (λ t, Answered 200 (BTransaction (transformTransaction t)))).

(** [run] executes a query on the database. *)
Definition api_GetAllTransactions
    (run : string * list arg → result (list Transaction)) (q : url_Values) : S reply :=
  let limit := page_limit (DefaultQuery q "limit" "20") in
  let offset := page_offset (DefaultQuery q "offset" "0") in
  let ok l := Answered 200 (BTransactions (map transformTransaction l)) in
  filtered_or GetAllTransactionsWithFilterAndOptions run q (Z.of_nat limit) (Z.of_nat offset) ok
    (answer [] (read_sys (λ d, Ok (GetAllTransactions d limit offset))) ok).

Definition api_FilterTransactions
    (run : string * list arg → result (list Transaction * option Z)) (b : result FilterRequest) : S reply :=
  filter_body "transactions" GetAllTransactionsWithFilterAndOptions run b (λ l count,
    let l := map transformTransaction l in
    match count with Some count => BCounted l count | None => BTransactions l end).

(** ** Commits and voids *)

(** [model.ApplyPrecisionWithDBLookup] on an amount; the lookup, by the id of
    the transaction or of its parent and through a cache, is an argument. *)
Definition lookup_amount (precision : string → option float64) (id : string) (amount : float64) : Z :=
  (Balances.ApplyPrecisionWithDBLookup
     (empty_transaction <| t_Amount := amount |> <| t_TransactionID := id |>) (precision id)).1.

Definition settled_reply (verb : string) (txns : list Transaction) : reply :=
  match txns with
  | [] => Failed (respondCode "TXN_NOT_INFLIGHT" ("no transaction to " +:+ verb) None [])
  | t :: _ => Answered 200 (BTransaction (transformTransaction t))
  end.

(** [conn] is the configuration and the connection. *)
Definition api_UpdateInflightStatus (E : senv) (precision : string → option float64)
    (conn : result unit) (id : option string) (b : result InflightUpdate) : S reply :=
  with_param id (required "id" "/:id") (λ id,
  with_body b error_text (λ req,
  match conn with
  | Err e => mret (Failed (respondError (Some e) []))
  | Ok _ =>
      let settle amount :=
        if negb (String.eqb (iu_Status req) InflightActionCommit)
           && negb (String.eqb (iu_Status req) InflightActionVoid)
        then refuse "TXN_INVALID_STATUS_ACTION" "status not supported. use either commit or void" []
        else
          let opts := [txn_not_found; withDefault "GEN_BAD_REQUEST"] in
          if negb (iu_SkipQueue req) then λ y,
            match inq (QueueInflightAction (s_ienv E) id (Some amount) (iu_Status req)) y with
            | (y, Ok parent) => (y, Ok (Answered 200 (BQueued (transformTransaction parent))))
            | (y, Err e) =>
                (y, Ok (if is_panic e then Recovered
                        else if errors_is e ErrInflightActionQueued
                        then Failed (respondCode "GEN_CONFLICT"
                               "a commit or void is already queued for this transaction" None [])
                        else Failed (respondError (Some e) opts)))
            end
          else if String.eqb (iu_Status req) InflightActionCommit then
            answer opts
              (ProcessTransactionInBatches E (λ d, GetInflightTransactionsByParentID d id)
                 (CommitWorker E amount))
              (settled_reply "commit")
          else
            answer opts
              (ProcessTransactionInBatches E (λ d, GetInflightTransactionsByParentID d id)
                 (VoidWorker E))
              (settled_reply "void") in
      match iu_PreciseAmount req with
      | Some p => if p <=? 0 then refuse "TXN_INVALID_AMOUNT" "precise_amount must be positive" []
                  else settle p
      | None => settle (lookup_amount precision id (iu_Amount req))
      end
  end)).

(** ** Bulk requests *)

Definition indexed (i : nat) (text : string) : string :=
  "transactions[" +:+ Z_to_string (Z.of_nat i) +:+ "]" +:+ text.

(** The first item that is missing or invalid. *)
Fixpoint check_items (i : nat) (items : list (option RecordTransaction)) : option error_response :=
  match items with
  | [] => None
  | item :: items =>
      let failed text := Some (respondCode "TXN_VALIDATION_ERROR" (indexed i text)
                                 (Some (MObj [("index", MNum (Float64.of_Z (Z.of_nat i)))]))
                                 [withLegacyKey "errors"]) in
      match item with
      | None => failed " is required"
      | Some t => match ValidateRecordTransaction t with
                  | Some errs => failed (": " +:+ Errors_Error errs)
                  | None => check_items (Datatypes.S i) items
                  end
      end
  end.

Definition bulk_failed (r : BulkTransactionResult) : error_response :=
  let code := default "GEN_BAD_REQUEST" (classifyMessage (br_Error r)) in
  mkErrorResponse (StatusForCode code)
    [("error", MStr (br_Error r)); ("batch_id", MStr (br_BatchID r));
     (errorDetailKey, NewErrorResponse code (br_Error r) (Some (MObj [("batch_id", MStr (br_BatchID r))])))].

Definition bulk_created (req : BulkTransactionRequest) (r : BulkTransactionResult) : reply :=
  if bq_RunAsync req then
    Answered 202 (BFields [("message", MStr "Bulk transaction processing started");
                           ("batch_id", MStr (br_BatchID r)); ("status", MStr (br_Status r))])
  else
    Answered 201 (BFields [("batch_id", MStr (br_BatchID r)); ("status", MStr (br_Status r));
                           ("transaction_count", MNum (Float64.of_Z (Z.of_nat (br_TransactionCount r))))]).

Definition api_CreateBulkTransactions (E : senv) (b : result BulkRequest) : S reply :=
  with_body b (λ e, "Invalid request body: " +:+ error_text e) (λ req,
    match bk_Transactions req with
    | [] => refuse "TXN_BULK_EMPTY" "transactions cannot be empty" []
    | items =>
        if Nat.ltb MaxBulkTransactionItems (length items)
        then refuse "TXN_BULK_LIMIT_EXCEEDED" "too many transactions; max is 10000" []
        else match check_items 0 items with
             | Some r => mret (Failed r)
             | None =>
                 let bulkReq := ToBulkTransactionRequest req in
                 answer [withDefault "GEN_BAD_REQUEST"] (CreateBulkTransactions E bulkReq)
                   (λ '(r, err), match err with
                                 | Some _ => Failed (bulk_failed r)
                                 | None => bulk_created bulkReq r
                                 end)
             end
    end).

Definition api_GetTransactionLineage (id : option string) : prog Lineage.lsys reply :=
  with_param id (required "id" "/:id") (λ id,
    answer [txn_not_found] (λ y, (y, Lineage.GetTransactionLineage y id))
      (λ '(allocation, shadows), Answered 200 (BLineage allocation shadows))).

Definition api_RecoverQueuedTransactions (E : senv) (thresholdStr : string) : S reply :=
  match (if empty thresholdStr then Ok (2 * Time.minute) else ParseDuration thresholdStr) with
  | Err e => refuse "GEN_VALIDATION_ERROR" ("invalid threshold duration: " +:+ error_text e) []
  | Ok threshold =>
      answer [] (RecoverQueuedTransactions E threshold)
        (λ n, Answered 200 (BRecovered n threshold))
  end.

(** ** Bulk commits and voids *)

Definition succeeded (r : BulkInflightResult) : bool := negb (String.eqb (ir_Status r) "failed").

(** The counters of the response follow its results. *)
Definition counted (results : list BulkInflightResult) : BulkInflightResponse :=
  mkInflightResponse (length (List.filter succeeded results))
    (length (List.filter (λ r, negb (succeeded r)) results)) results.

Definition outcome_result (o : BulkInflightOutcome) : BulkInflightResult :=
  match o_txn o with
  | Ok _ => mkInflightResult (o_id o) "succeeded" "" ""
  | Err e => mkInflightResult (o_id o) "failed" (o_code o) (error_text e)
  end.

(** A slot no worker filled is a zero value, which counts as a success. *)
Definition toAPIResults (outcomes : list (option BulkInflightOutcome)) : BulkInflightResponse :=
  counted (map (λ o, match o with
                     | Some o => outcome_result o
                     | None => mkInflightResult "" "succeeded" "" ""
                     end) outcomes).

Definition queued_result (id : string) (r : result Transaction) : BulkInflightResult :=
  match r with
  | Ok _ => mkInflightResult id "queued" "QUEUED" ""
  | Err e => if errors_is e ErrInflightActionQueued
             then mkInflightResult id "queued" "ALREADY_QUEUED" (error_text e)
             else mkInflightResult id "failed" (classifyInflightError e) (error_text e)
  end.

Fixpoint queue_items (E : senv) (action : string) (items : list (string * option Z))
    : S (list BulkInflightResult) :=
  match items with
  | [] => mret []
  | (id, amount) :: items => λ y,
      let '(y, r) := inq (QueueInflightAction (s_ienv E) id amount action) y in
      match r with
      | Err (EPanic msg) => (y, Err (EPanic msg))
      | _ => (rs ← queue_items E action items; mret (queued_result id r :: rs)) y
      end
  end.

Definition queueBulkInflight (E : senv) (action : string) (items : list (string * option Z)) : S reply :=
  answer [] (queue_items E action items) (λ rs, Answered 200 (BBulk (counted rs))).

Definition bulk_now_inflight (E : senv) (action : BulkInflightAction) (items : list (string * Z))
    (schedule : list nat) : S reply :=
  answer [withDefault "GEN_BAD_REQUEST"] (inq (BulkInflightUpdate (s_ienv E) action items schedule))
    (λ outcomes, Answered 200 (BBulk (toAPIResults outcomes))).

Definition bulk_limits {A} (items : list A) (name : string) (k : S reply) : S reply :=
  match items with
  | [] => refuse "TXN_BULK_EMPTY" (name +:+ " cannot be empty") []
  | _ => if Nat.ltb MaxBulkInflightItems (length items)
         then refuse "TXN_BULK_LIMIT_EXCEEDED" ("too many " +:+ name +:+ "; max is 100") []
         else k
  end.

Definition api_BulkVoidInflight (E : senv) (schedule : list nat) (b : result BulkInflightVoidRequest)
    : S reply :=
  with_body b error_text (λ req,
    bulk_limits (bv_TransactionIDs req) "transaction_ids"
      (if negb (bv_SkipQueue req)
       then queueBulkInflight E InflightActionVoid (map (λ id, (id, None)) (bv_TransactionIDs req))
       else bulk_now_inflight E BulkInflightVoid (map (λ id, (id, 0)) (bv_TransactionIDs req)) schedule)).

Definition commit_amount (precision : string → option float64) (it : BulkInflightCommitItem) : Z :=
  match ci_PreciseAmount it with
  | Some p => p
  | None => lookup_amount precision (ci_TransactionID it) (ci_Amount it)
  end.

Definition api_BulkCommitInflight (E : senv) (precision : string → option float64) (conn : result unit)
    (schedule : list nat) (b : result BulkInflightCommitRequest) : S reply :=
  with_body b error_text (λ req,
    bulk_limits (bc_Transactions req) "transactions"
      (match conn with
       | Err e => mret (Failed (respondError (Some e) []))
       | Ok _ =>
           let items := map (λ it, (ci_TransactionID it, commit_amount precision it))
                          (bc_Transactions req) in
           if negb (bc_SkipQueue req)
           then queueBulkInflight E InflightActionCommit (map (λ p, (p.1, Some p.2)) items)
           else bulk_now_inflight E BulkInflightCommit items schedule
       end)).

(** ** A posted transaction *)

Lemma validation_reply errs :
  ∃ r, handleRecordTransactionValidationError errs = Failed r ∧ er_status r = 400.
Proof.
  unfold handleRecordTransactionValidationError.
  destruct (errs !! "Precision") as [e|]; [destruct (errors_is e _)|]; by eexists.
Qed.

(** Accepted for the queue: nothing but a goroutine for the transaction. *)
Definition handed_over (r : RecordTransaction) (y y' : sys) (t : Transaction) : Prop :=
  queued_as (ToTransaction r) t
  ∧ w_db (q_core (s_world y')) = w_db (q_core (s_world y))
  ∧ ∃ legs id, s_jobs y' = s_jobs y ++ [JQueue t legs (rt_Reference r) id].

Lemma queue_service_async E t y y' t' :
  queue_service E t y = (y', Ok t') → t_SkipQueue t = false →
  queued_as t t' ∧ w_db (q_core (s_world y')) = w_db (q_core (s_world y))
  ∧ ∃ legs id, s_jobs y' = s_jobs y ++ [JQueue t' legs (t_Reference t) id].
Proof.
  unfold queue_service, with_txn, mbind, prog_bind. rewrite QueueTransaction_eq.
  destruct (queue_transaction _ E (y, t)) as [[y1 t1] [u|e]] eqn:Eq; [|done].
  intros [= -> ->] Hsk. destruct (queue_async _ _ _ _ _ _ _ Eq Hsk) as (Hd & Hq & Hj). done.
Qed.

Lemma queue_service_sync E t y p :
  t_SkipQueue t = true → t_Sources t = [] → t_Destinations t = [] →
  t_PreciseAmount t = Some p → 0 < p →
  adds_own_row t p (is_ok (queue_service E t y).2) (table y) (table (queue_service E t y).1).
Proof.
  intros Hsk Hs Hd Hp Hpos. unfold queue_service, with_txn, mbind, prog_bind. rewrite QueueTransaction_eq.
  pose proof (queue_sync_rows (bulk_failure (refund_with (Queueing.QueueTransaction 1 E) E) E)
                E y t p Hsk Hs Hd Hp Hpos) as Hr.
  unfold outcome_row in Hr. by destruct (queue_transaction _ E (y, t)) as [[y1 t1] [u|e]].
Qed.


(** ** No route rewrites the tables *)

Inductive api_request :=
| RQueue (b : result RecordTransaction)
| RRefund (id : option string) (b : result bool)
| RGet (id : option string)
| RGetByRef (reference : option string)
| RList (run : string * list arg → result (list Transaction)) (q : url_Values)
| RFilter (run : string * list arg → result (list Transaction * option Z)) (b : result FilterRequest)
| RInflight (conn : result unit) (id : option string) (b : result InflightUpdate)
| RBulk (b : result BulkRequest)
| RRecover (threshold : string)
| RBulkVoid (schedule : list nat) (b : result BulkInflightVoidRequest)
| RBulkCommit (conn : result unit) (schedule : list nat) (b : result BulkInflightCommitRequest).

Definition handle (E : senv) (precision : string → option float64) (rq : api_request) : S reply :=
  match rq with
  | RQueue b => api_QueueTransaction E b
  | RRefund id b => api_RefundTransaction E id b
  | RGet id => api_GetTransaction id
  | RGetByRef reference => api_GetTransactionByRef reference
  | RList run q => api_GetAllTransactions run q
  | RFilter run b => api_FilterTransactions run b
  | RInflight conn id b => api_UpdateInflightStatus E precision conn id b
  | RBulk b => api_CreateBulkTransactions E b
  | RRecover threshold => api_RecoverQueuedTransactions E threshold
  | RBulkVoid schedule b => api_BulkVoidInflight E schedule b
  | RBulkCommit conn schedule b => api_BulkCommitInflight E precision conn schedule b
  end.

Lemma appends_answer {A} opts (m : S A) (ok : A → reply) : appends m → appends (answer opts m ok).
Proof. intros Hm y. rewrite answer_state. apply Hm. Qed.

Lemma appends_body {A} (b : result A) message (k : A → S reply) :
  (∀ a, appends (k a)) → appends (with_body b message k).
Proof. intros Hk. destruct b; [apply Hk|apply appends_ret]. Qed.

Lemma appends_param p message (k : string → S reply) :
  (∀ id, appends (k id)) → appends (with_param p message k).
Proof. intros Hk. destruct p; [apply Hk|apply appends_ret]. Qed.

Lemma appends_refuse code message opts : appends (refuse code message opts : S reply).
Proof. apply appends_ret. Qed.

Lemma appends_read_sys {A} (f : db → result A) : appends (read_sys f).
Proof. apply appends_same. intros y. unfold read_sys, inc, inq, core, read. by destruct (f _). Qed.

Lemma appends_fetch_inflight E id : appends (fetch_inflight E id).
Proof.
  apply appends_same. intros w. unfold fetch_inflight.
  destruct (Datastore.GetTransaction _ _); [done|]. destruct (error_is_exactly _ _); [|done].
  by destruct (GetTransactionFromQueue _ _ _) as [[?|]|].
Qed.

Lemma appends_pre E id action amount : appends (preValidateInflightAction E id action amount).
Proof.
  unfold preValidateInflightAction, fetchAndValidateInflightTransaction, calculateRemainingAmount.
  repeat first [apply appends_bind; [|intros ?] | apply appends_if | apply appends_fetch_inflight
               | solve [auto with appends] | by apply appends_same].
Qed.

Lemma appends_QueueInflightAction E id amount action : appends (QueueInflightAction E id amount action).
Proof.
  unfold QueueInflightAction. apply appends_bind; [apply appends_pre|]. intros t.
  apply appends_bind; [by apply appends_same|]. intros a. cbv zeta.
  apply appends_bind; [|auto with appends]. apply appends_same. intros w. unfold queue.
  by destruct (EnqueueInflightAction _ _ _).
Qed.

Lemma appends_queue_items E action items : appends (queue_items E action items).
Proof.
  induction items as [|[id amount] items IH]; [apply appends_ret|].
  eapply appends_ext; [|apply (appends_handle (inq (QueueInflightAction (s_ienv E) id amount action))
    (λ t, rs ← queue_items E action items; mret (queued_result id (Ok t) :: rs))
    (λ e, if is_panic e then raise e
          else rs ← queue_items E action items; mret (queued_result id (Err e) :: rs)))].
  - intros y. cbn [queue_items].
    destruct (inq (QueueInflightAction (s_ienv E) id amount action) y) as [y1 [t|[]]]; done.
  - apply appends_inq, appends_QueueInflightAction.
  - intros t. apply appends_bind; [exact IH|auto with appends].
  - intros e. apply appends_if; [auto with appends|]. apply appends_bind; [exact IH|auto with appends].
Qed.

Lemma appends_queue_service E t : appends (queue_service E t).
Proof.
  apply appends_with_txn, appends_bind; [apply appends_QueueTransaction|auto with appends].
Qed.

Lemma appends_limits {A} (items : list A) name k : appends k → appends (bulk_limits items name k).
Proof. intros Hk. destruct items; [apply appends_ret|]. apply appends_if; [apply appends_ret|exact Hk]. Qed.

Lemma appends_now_inflight E action items schedule : appends (bulk_now_inflight E action items schedule).
Proof. apply appends_answer, appends_inq, (closed_bulk _ appends_closed). Qed.

Lemma appends_update_inflight E precision conn id b : appends (api_UpdateInflightStatus E precision conn id b).
Proof.
  unfold api_UpdateInflightStatus. apply appends_param. intros i. apply appends_body. intros req.
  destruct conn as [[]|e]; [|apply appends_ret]. cbv zeta.
  match goal with |- context [settled_reply "commit"] =>
    match goal with |- appends (match _ with Some p => if _ then _ else @?k p | None => _ end) =>
      assert (∀ amount, appends (k amount)) as Hk end end.
  { intros amount. cbv beta. apply appends_if; [apply appends_ret|]. apply appends_if.
    - eapply appends_ext; [|apply (appends_handle (inq (QueueInflightAction (s_ienv E) i (Some amount) (iu_Status req))))].
      + intros y. cbv beta. reflexivity.
      + apply appends_inq, appends_QueueInflightAction.
      + intros t. apply appends_ret.
      + intros e. apply appends_ret.
    - apply appends_if; apply appends_answer, appends_batches; intros t;
        [apply appends_commit_worker|apply appends_void_worker]. }
  destruct (iu_PreciseAmount req); [apply appends_if; [apply appends_ret|]|]; apply Hk.
Qed.

(** Whatever a client sends to these routes, transaction rows and outbox entries
    are only added, under references that were free. *)
Lemma handle_appends E precision rq : appends (handle E precision rq).
Proof.
  destruct rq; cbn [handle].
  - apply appends_body. intros r. destruct (ValidateRecordTransaction r); [apply appends_ret|].
    apply appends_answer, appends_queue_service.
  - apply appends_param. intros i. apply appends_body. intros skip.
    apply appends_answer, appends_batches. intros t. apply appends_RefundTransaction.
  - apply appends_param. intros i. apply appends_answer, appends_read_sys.
  - apply appends_param. intros i. apply appends_answer, appends_read_sys.
  - unfold api_GetAllTransactions, filtered_or. cbv zeta.
    apply appends_if; [|apply appends_answer, appends_read_sys].
    destruct (ParseFiltersFromContext q None) as [fs [|pe pes]]; [|apply appends_ret].
    apply appends_answer, appends_lift.
  - unfold api_FilterTransactions, filter_body.
    match goal with |- appends (match ?r with _ => _ end) => destruct r as [[[[fs opts] l] o]|e] end;
      [|apply appends_ret].
    apply appends_answer, appends_lift.
  - apply appends_update_inflight.
  - apply appends_body. intros req. destruct (bk_Transactions req) as [|it its]; [apply appends_ret|].
    apply appends_if; [apply appends_ret|]. destruct (check_items 0 _); [apply appends_ret|].
    apply appends_answer, appends_CreateBulkTransactions.
  - unfold api_RecoverQueuedTransactions. 
    match goal with |- appends (match ?r with _ => _ end) => destruct r end; [|apply appends_ret].
    apply appends_answer, appends_recover.
  - apply appends_body. intros req. apply appends_limits, appends_if; [|apply appends_now_inflight].
    apply appends_answer, appends_queue_items.
  - apply appends_body. intros req. apply appends_limits. destruct conn; [|apply appends_ret]. cbv zeta.
    apply appends_if; [|apply appends_now_inflight]. apply appends_answer, appends_queue_items.
Qed.

(** ** Bulk requests *)

Lemma counted_total rs :
  (bi_Succeeded (counted rs) + bi_Failed (counted rs) = length (bi_Results (counted rs)))%nat.
Proof.
  unfold counted. cbn [bi_Succeeded bi_Failed bi_Results].
  induction rs as [|r rs IH]; [done|]. cbn [List.filter]. destruct (succeeded r); cbn [negb length]; lia.
Qed.

Lemma check_items_None i items :
  check_items i items = None ↔ Forall (λ it, ∃ r, it = Some r ∧ record_ok r) items.
Proof.
  revert i. induction items as [|[r|] items IH]; intros i; cbn [check_items].
  - by split.
  - rewrite Forall_cons. destruct (ValidateRecordTransaction r) as [errs|] eqn:Ev.
    + split; [done|]. intros [(r' & [= <-] & Hok) _]. apply ValidateRecordTransaction_spec in Hok. congruence.
    + apply ValidateRecordTransaction_spec in Ev. rewrite IH. naive_solver.
  - rewrite Forall_cons. split; [done|]. by intros [(r' & [=] & _) _].
Qed.

(** A batch is accepted only within its bounds and with every item valid, and
    the service gets all of them in order. *)
Lemma bulk_accepted E req y :
  let '(y', res) := api_CreateBulkTransactions E (Ok req) y in
  ∃ rep, res = Ok rep
  ∧ (status_of rep < 400 →
     (0 < length (bk_Transactions req) <= MaxBulkTransactionItems)%nat
     ∧ ∃ rs, bk_Transactions req = map Some rs ∧ Forall record_ok rs
        ∧ ∃ r, CreateBulkTransactions E
                 (mkBulkRequest (map ToTransaction rs) (bk_Inflight req) (bk_Atomic req)
                    (bk_RunAsync req) (bk_SkipQueue req)) y = (y', Ok (r, None)))
  ∧ (¬ Forall (λ it, ∃ r, it = Some r ∧ record_ok r) (bk_Transactions req) →
     y' = y ∧ status_of rep = 400).
Proof.
  unfold api_CreateBulkTransactions, with_body, refuse.
  destruct (bk_Transactions req) as [|it its] eqn:Eit.
  { eexists. split; [done|]. split; [intros Hlt|intros Hn; by destruct Hn].
    pose proof (respondCode_status "TXN_BULK_EMPTY" "transactions cannot be empty" None []) as Hs.
    unfold status_of in Hlt. lia. }
  rewrite <- Eit. assert (0 < length (bk_Transactions req))%nat by (rewrite Eit; cbn; lia).
  destruct (Nat.ltb_spec MaxBulkTransactionItems (length (bk_Transactions req))).
  { eexists. split; [done|]. split; [intros Hlt|done].
    pose proof (respondCode_status "TXN_BULK_LIMIT_EXCEEDED" "too many transactions; max is 10000" None []) as Hs.
    unfold status_of in Hlt. lia. }
  destruct (check_items 0 (bk_Transactions req)) as [er|] eqn:Ec.
  { eexists. split; [done|]. assert (er_status er = 400) as Her.
    { clear -Ec. revert Ec. generalize 0%nat. induction (bk_Transactions req) as [|[r|] l IH]; [done|..];
        intros i; cbn [check_items].
      - destruct (ValidateRecordTransaction r); [by intros [= <-]|apply IH].
      - by intros [= <-]. }
    cbn [status_of]. split; [lia|done]. }
  apply check_items_None in Ec.
  assert (∃ rs, bk_Transactions req = map Some rs ∧ Forall record_ok rs) as (rs & Ers & Hrs).
  { clear -Ec. induction Ec as [|it l (r & -> & Hr) _ (rs & -> & Hrs)]; [by exists []|].
    exists (r :: rs). split; [done|]. by constructor. }
  assert (omap id (bk_Transactions req) = rs) as Eo.
  { rewrite Ers. clear. induction rs as [|r rs IH]; [done|]. cbn. by f_equal. }
  unfold ToBulkTransactionRequest. rewrite Eo. cbv zeta.
  set (br := mkBulkRequest _ _ _ _ _). set (ok := λ p : BulkTransactionResult * option error, _).
  destruct (answer [withDefault "GEN_BAD_REQUEST"] (CreateBulkTransactions E br) ok y) as [y' res] eqn:Ea.
  pose proof (answer_state [withDefault "GEN_BAD_REQUEST"] (CreateBulkTransactions E br) ok y) as Hy.
  destruct (answer_total [withDefault "GEN_BAD_REQUEST"] (CreateBulkTransactions E br) ok y) as [rep Hrep].
  pose proof (answer_status _ _ _ _ rep Hrep) as Hst. rewrite Ea in Hy, Hrep. cbn [fst snd] in Hy, Hrep.
  exists rep. split_and!; [done| |by intros Hn].
  intros Hlt. destruct (Hst Hlt) as ([r err] & Hr & ->). split; [lia|].
  exists rs. split_and!; [done..|]. exists r.
  destruct err as [e|].
  - exfalso. unfold ok, status_of, bulk_failed in Hlt. cbn [er_status] in Hlt.
    pose proof (StatusForCode_error (default "GEN_BAD_REQUEST" (classifyMessage (br_Error r)))). lia.
  - rewrite Hy. rewrite (surjective_pairing (CreateBulkTransactions E br y)). by rewrite Hr.
Qed.

(** The table of errors is keyed by JSON tags, so the handler never finds the
    entry it looks for: a precision that is no integer gets the general code. *)
Lemma precision_code_unreachable r errs :
  ValidateRecordTransaction r = Some errs →
  handleRecordTransactionValidationError errs
  = Failed (respondCode "TXN_VALIDATION_ERROR" (Errors_Error errs) None [withLegacyKey "errors"]).
Proof.
  unfold ValidateRecordTransaction, handleRecordTransactionValidationError. rewrite ValidateStruct_ok.
  match goal with |- context [field_errors ?fs] => set (fields := fs) end.
  assert (field_errors fields !! "Precision" = None) as Hn.
  { assert (Forall (λ f, f.1 ≠ "Precision") fields) as Hk by (by repeat constructor).
    clearbody fields. induction fields as [|f fs IH] using rev_ind; [apply lookup_empty|].
    apply Forall_app in Hk as [Hfs Hf]. inversion_clear Hf as [|? ? Hne _].
    rewrite field_errors_app. destruct (first_error f.2); [|by apply IH].
    rewrite lookup_insert_ne by done. by apply IH. }
  destruct (bool_decide _); [done|]. intros [= <-]. by rewrite Hn.
Qed.

End handlers.

(** ** Concrete requests *)

Definition ex_request (amount : option Z) (decimal precision : float64) (skip overdraft : bool)
    (reference : string) : RecordTransaction :=
  (sample_request decimal precision) <| rt_PreciseAmount := amount |> <| rt_SkipQueue := skip |>
    <| rt_AllowOverDraft := overdraft |> <| rt_Source := "@alice" |> <| rt_Destination := "@bob" |>
    <| rt_Reference := reference |>.

Definition ex_precise (amount : Z) (skip overdraft : bool) (reference : string) : RecordTransaction :=
  ex_request (Some amount) Float64.zero (float 100 0) skip overdraft reference.

Definition ex_post (r : RecordTransaction) (y : sys) : sys * result reply :=
  api_QueueTransaction ex_senv (Ok r) y.

(** Status and code of a reply. *)
Definition shown (p : sys * result reply) : Z * string :=
  match p.2 with
  | Ok (Failed r) => (er_status r, default "" (error_code r))
  | Ok r => (status_of r, "")
  | Err _ => (0, "")
  end.

Lemma replies :
  shown (ex_post (ex_precise 500 true true "r1") ex_idle) = (201, "")
  ∧ shown (ex_post (ex_precise 500 false false "r1") ex_idle) = (201, "")
  ∧ shown (ex_post (ex_precise 500 true false "r1") ex_idle) = (400, "TXN_INSUFFICIENT_FUNDS")
  ∧ shown (ex_post (ex_precise 500 true true "r1") (ex_post (ex_precise 500 true true "r1") ex_idle).1)
    = (409, "TXN_DUPLICATE_REFERENCE").
Proof. by vm_compute. Qed.

(** The same refusal as the last, under a reference with two other words. *)
Lemma duplicate_not_found :
  let y := (ex_post (ex_precise 500 true true "item not found") ex_idle).1 in
  shown (ex_post (ex_precise 500 true true "item not found") y) = (404, "TXN_NOT_FOUND").
Proof. by vm_compute. Qed.

(** Amounts that are not positive never get the code made for them: the service
    words the check of the precise amount differently, and an amount in
    decimals fails earlier, with a message about distributions. *)
Lemma invalid_amount_code :
  shown (ex_post (ex_precise (-500) true true "r1") ex_idle) = (400, "TXN_VALIDATION_ERROR")
  ∧ shown (ex_post (ex_request None (float (-5) 0) (float 100 0) true true "r1") ex_idle)
    = (400, "TXN_VALIDATION_ERROR")
  ∧ ∀ prefix, classifyMessage (prefix +:+ ": transaction amount must be positive") ≠ None.
Proof.
  split_and!; [by vm_compute..|]. intros prefix Hn. unfold classifyMessage in Hn.
  apply fmap_None in Hn.
  pose proof (find_none _ _ Hn (mkPattern ["transaction amount must be positive"] "TXN_INVALID_AMOUNT")) as Hm.
  unfold matches in Hm. cbn [mp_contains forallb] in Hm. rewrite andb_true_r in Hm.
  pose proof (contains_wrap prefix ": transaction amount must be positive"
    "transaction amount must be positive" eq_refl) as Hw. rewrite Hw in Hm. assert (true = false); [|done].
  apply Hm. cbn. tauto.
Qed.

(** Queued, a negative amount is accepted, and fails in the background. *)
Lemma negative_queued :
  shown (ex_post (ex_precise (-500) false true "r1") ex_idle) = (201, "").
Proof. by vm_compute. Qed.


End TransactionsApi.
