(* ===== verification/Accounts.v ===== *)
(** * Ledgers, accounts and metadata

    [ledger.go], [account.go], [metadata.go], [database/ledger.go],
    [database/account.go], [database/metadata.go], and the requests that create
    ledgers and accounts ([api/model/model.go]).  An account gives a balance a
    bank number; metadata of any entity is merged under its id.  The balances,
    transactions and identities beside them are those of [Datastore] and
    [Identities].  Webhooks and search indexing after a change are left out. *)

From S2P Require Import Prelude Float64 Types Datastore TaskQueue Inflight Workers Identities Requests.
Import Datastore.

Module Accounts.

Import TaskQueue Workers Identities Requests.

Record Ledger := mkLedger {
  l_LedgerID : string;
  l_Name : string;
  l_CreatedAt : time;
  l_MetaData : metadata;
}.
#[global] Instance Ledger_eta : Eta Ledger := λ l,
  mkLedger (l_LedgerID l) (l_Name l) (l_CreatedAt l) (l_MetaData l).

Record Account := mkAccount {
  a_AccountID : string;
  a_Name : string;
  a_Number : string;
  a_BankName : string;
  a_Currency : string;
  a_BalanceID : string;
  a_IdentityID : string;
  a_LedgerID : string;
  a_Ledger : option Ledger;
  a_Balance : option Balance;
  a_Identity : option Identity;
  a_CreatedAt : time;
  a_MetaData : metadata;
}.
#[global] Instance Account_eta : Eta Account := λ a,
  mkAccount (a_AccountID a) (a_Name a) (a_Number a) (a_BankName a) (a_Currency a) (a_BalanceID a)
    (a_IdentityID a) (a_LedgerID a) (a_Ledger a) (a_Balance a) (a_Identity a) (a_CreatedAt a)
    (a_MetaData a).

(** What a store of the other entities and these is. *)
Record store := mkStore {
  st_db : db;
  st_identities : istore;
  st_ledgers : list Ledger;
  st_accounts : list Account;
}.
#[global] Instance store_eta : Eta store := λ s,
  mkStore (st_db s) (st_identities s) (st_ledgers s) (st_accounts s).

Abbreviation P := (prog store).

Definition find_ledger (s : store) (id : string) : option Ledger :=
  List.find (λ l, String.eqb (l_LedgerID l) id) (st_ledgers s).

Definition db_fault (msg : string) : error := EAPI "INTERNAL_SERVER_ERROR" msg.

(** [json.Marshal] of metadata. *)
Definition marshals (m : metadata) : bool := forallb (λ kv, TaskQueue.meta_json_ok kv.2) (map_to_list m).

(** ** Ledgers

    A name is not unique; ids are.  [new_id] and [now] are drawn by the server. *)

Definition CreateLedger (new_id : string) (now : time) (ledger : Ledger) : P Ledger := λ s,
  if negb (marshals (l_MetaData ledger)) then (s, Err (db_fault "Failed to marshal metadata"))
  else
    let ledger := ledger <| l_LedgerID := new_id |> <| l_CreatedAt := now |> in
    match find_ledger s new_id with
    | Some _ => (s, Err (EAPI "CONFLICT" "Ledger with this name or ID already exists"))
    | None => (s <| st_ledgers := st_ledgers s ++ [ledger] |>, Ok ledger)
    end.

Definition GetAllLedgers (limit offset : Z) : P (list Ledger) := λ s,
  let limit := if (limit <=? 0) || (100 <? limit) then 20 else limit in
  if offset <? 0 then (s, Err (db_fault "pq: OFFSET must not be negative"))
  else (s, Ok (limit_offset (Z.to_nat limit) (Z.to_nat offset) (order_desc l_CreatedAt (st_ledgers s)))).

Definition GetLedgerByID (id : string) : P Ledger := λ s,
  match find_ledger s id with
  | Some l => (s, Ok l)
  | None => (s, Err (EAPI "NOT_FOUND" "Ledger not found"))
  end.

Definition on_ledger (id : string) (f : Ledger → Ledger) (s : store) : store :=
  s <| st_ledgers := map (λ l, if String.eqb (l_LedgerID l) id then f l else l) (st_ledgers s) |>.

Definition UpdateLedger (id name : string) : P Ledger :=
  existing ← GetLedgerByID id;
  (λ s, (on_ledger id (λ l, l <| l_Name := name |>) s, Ok (existing <| l_Name := name |>))) : P Ledger.

(** ** Accounts *)

Definition quoted (s : string) : string := let q := String (ascii_of_nat 34) "" in q +:+ s +:+ q.
Definition duplicate (constraint : string) : error :=
  ENew ("pq: duplicate key value violates unique constraint " +:+ quoted constraint).
Definition no_such (column : string) : error :=
  ENew ("pq: insert or update on table " +:+ quoted "accounts" +:+ " violates foreign key constraint "
        +:+ quoted ("accounts_" +:+ column +:+ "_fkey")).

(** Ids and numbers are unique; the other entities are foreign keys. *)
Definition violates (s : store) (a : Account) : option error :=
  if existsb (λ x, String.eqb (a_AccountID x) (a_AccountID a)) (st_accounts s)
  then Some (duplicate "accounts_account_id_key")
  else if existsb (λ x, String.eqb (a_Number x) (a_Number a)) (st_accounts s)
  then Some (duplicate "accounts_number_key")
  else if negb (bool_decide (is_Some (find_ledger s (a_LedgerID a)))) then Some (no_such "ledger_id")
  else if negb (bool_decide (is_Some (is_rows (st_identities s) !! a_IdentityID a)))
  then Some (no_such "identity_id")
  else if negb (bool_decide (is_Some (db_balances (st_db s) !! a_BalanceID a)))
  then Some (no_such "balance_id")
  else None.

(** The account is returned beside the error. *)
Definition insert_account (new_id : string) (now : time) (account : Account) : P Account := λ s,
  if negb (marshals (a_MetaData account)) then (s, Err json_error)
  else
    let account := account <| a_AccountID := new_id |> <| a_CreatedAt := now |> in
    match violates s account with
    | Some e => (s, Err e)
    | None => (s <| st_accounts := st_accounts s ++ [account] |>, Ok account)
    end.

(** [generated] is the reply of the number service, when it is switched on:
    a number and the name of a bank. *)
Definition applyExternalAccount (generated : option (result (string * string))) (account : Account)
    : result Account :=
  match generated with
  | None => Ok account
  | Some (Err e) => Err e
  | Some (Ok (number, bank)) =>
      if negb (String.eqb number "") && negb (String.eqb bank "")
      then Ok (account <| a_Number := number |> <| a_BankName := bank |>) else Ok account
  end.

Definition read_identity (id : string) : P Identity := λ s, (s, (GetIdentityByID id (st_identities s)).2).

Definition applyAccountName (account : Account) : P Account :=
  if String.eqb (a_Name account) "" then
    identity ← read_identity (a_IdentityID account);
    mret (account <| a_Name := if String.eqb (i_IdentityType identity) "organization"
                               then i_OrganizationName identity
                               else i_FirstName identity +:+ " " +:+ i_LastName identity |>)
  else mret account.

Definition unless_empty (v old : string) : string := if String.eqb v "" then old else v.

Definition overrideLedgerAndIdentity (account : Account) : P Account := λ s,
  (s, balance ← GetBalanceByIDLite (st_db s) (a_BalanceID account);
      Ok (account <| a_IdentityID := unless_empty (b_IdentityID balance) (a_IdentityID account) |>
                  <| a_LedgerID := unless_empty (b_LedgerID balance) (a_LedgerID account) |>
                  <| a_Currency := unless_empty (b_Currency balance) (a_Currency account) |>)).

Definition CreateAccount (new_id : string) (now : time) (generated : option (result (string * string)))
    (account : Account) : P Account :=
  account ← overrideLedgerAndIdentity account;
  account ← applyAccountName account;
  account ← lift (applyExternalAccount generated account);
  insert_account new_id now account.

(** What the joined query reads of the other entities. *)
Definition joined_ledger (l : Ledger) : Ledger := l <| l_MetaData := ∅ |>.
Definition joined_balance (b : Balance) : Balance :=
  empty_balance <| b_BalanceID := b_BalanceID b |> <| b_Balance := b_Balance b |>
    <| b_CreditBalance := b_CreditBalance b |> <| b_DebitBalance := b_DebitBalance b |>
    <| b_Currency := b_Currency b |> <| b_LedgerID := b_LedgerID b |>
    <| b_IdentityID := b_IdentityID b |> <| b_CreatedAt := b_CreatedAt b |>
    <| b_MetaData := b_MetaData b |>.

Definition included (include : list string) (what : string) : bool := existsb (String.eqb what) include.

Definition scanAccountRow (s : store) (include : list string) (a : Account) : Account :=
  a <| a_Ledger := if included include "ledger" then joined_ledger <$> find_ledger s (a_LedgerID a) else None |>
    <| a_Balance := if included include "balance"
                    then joined_balance <$> db_balances (st_db s) !! a_BalanceID a else None |>
    <| a_Identity := if included include "identity"
                     then is_rows (st_identities s) !! a_IdentityID a else None |>.

Definition GetAccountByID (id : string) (include : list string) : P Account := λ s,
  match List.find (λ a, String.eqb (a_AccountID a) id) (st_accounts s) with
  | Some a => (s, Ok (scanAccountRow s include a))
  | None => (s, Err (ENew ("account with ID '" +:+ id +:+ "' not found")))
  end.

(** The columns both other reads leave out. *)
Definition listed_account (a : Account) : Account :=
  a <| a_LedgerID := "" |> <| a_IdentityID := "" |> <| a_BalanceID := "" |>.

Definition GetAllAccounts : P (list Account) := λ s,
  (s, Ok (map listed_account (order_desc a_CreatedAt (st_accounts s)))).

Definition GetAccountByNumber (number : string) : P Account := λ s,
  match List.find (λ a, String.eqb (a_Number a) number) (st_accounts s) with
  | Some a => (s, Ok (listed_account a <| a_Currency := "" |>))
  | None => (s, Err (ENew ("account with number '" +:+ number +:+ "' not found")))
  end.

(** No row with the id is no error. *)
Definition UpdateAccount (account : Account) : P unit := λ s,
  if negb (marshals (a_MetaData account)) then (s, Err json_error)
  else if existsb (λ x, String.eqb (a_AccountID x) (a_AccountID account)) (st_accounts s)
          && existsb (λ x, String.eqb (a_Number x) (a_Number account)
                           && negb (String.eqb (a_AccountID x) (a_AccountID account))) (st_accounts s)
  then (s, Err (duplicate "accounts_number_key"))
  else (s <| st_accounts :=
              map (λ x, if String.eqb (a_AccountID x) (a_AccountID account)
                        then x <| a_Name := a_Name account |> <| a_Number := a_Number account |>
                               <| a_BankName := a_BankName account |> <| a_MetaData := a_MetaData account |>
                        else x) (st_accounts s) |>, Ok tt).

Definition DeleteAccount (id : string) : P unit := λ s,
  (s <| st_accounts := List.filter (λ x, negb (String.eqb (a_AccountID x) id)) (st_accounts s) |>, Ok tt).

(** ** Metadata *)

Definition ErrEntityNotFound : error := ESentinel Prelude.ErrEntityNotFound "entity not found".

Definition getEntityTypeFromID (id : string) : result string :=
  if has_prefix "txn_" id then Ok "transactions"
  else if has_prefix "bulk_" id then Ok "transactions"
  else if has_prefix "ldg_" id then Ok "ledgers"
  else if has_prefix "bln_" id then Ok "balances"
  else if has_prefix "idt_" id then Ok "identities"
  else Err (ENew ("invalid entity ID format: " +:+ id)).

(** New keys replace old ones. *)
Definition mergeMetadata {V} (current new : gmap string V) : gmap string V := new ∪ current.

Definition json_map (m : metadata) : gometa := GJson <$> m.

(** A read of an entity, whose error is replaced. *)
Definition must_exist {A} (m : P A) : P A := map_err (λ _, ErrEntityNotFound) m.

Definition get_balance (id : string) : P Balance := λ s, (s, GetBalanceByID (st_db s) id false).

Definition UpdateLedgerMetadata (id : string) (m : metadata) : P unit := λ s,
  if marshals m then (on_ledger id (λ l, l <| l_MetaData := m |>) s, Ok tt) else (s, Err json_error).

Definition UpdateBalanceMetadata (id : string) (m : metadata) : P unit := λ s,
  if marshals m
  then (s <| st_db := (st_db s) <| db_balances := alter (λ b, b <| b_MetaData := m |>) id (db_balances (st_db s)) |> |>,
        Ok tt)
  else (s, Err json_error).

Definition value_ok (v : goval) : bool :=
  match v with GJson v => TaskQueue.meta_json_ok v | GBoolMap _ => true end.

Definition UpdateIdentityMetadata (id : string) (m : gometa) : P unit := λ s,
  if forallb (λ kv, value_ok kv.2) (map_to_list m)
  then (s <| st_identities := (st_identities s) <| is_rows :=
              alter (λ i, i <| i_MetaData := stored_meta (Some m) |>) id (is_rows (st_identities s)) |> |>, Ok tt)
  else (s, Err json_error).

Definition update_transactions (id : string) (m : metadata) : P unit := λ s,
  match UpdateTransactionMetadata (st_db s) id m with
  | Ok d => (s <| st_db := d |>, Ok tt)
  | Err e => (s, Err e)
  end.

Definition failed_update {A} (m : P A) : P A := ctx_err "failed to update metadata" m.

(** What the caller is told the metadata is now. *)
Definition UpdateMetadata (entityID : string) (newMetadata : metadata) : P gometa :=
  entityType ← lift (getEntityTypeFromID entityID);
  if String.eqb entityType "ledgers" then
    ledger ← must_exist (GetLedgerByID entityID);
    let merged := mergeMetadata (l_MetaData ledger) newMetadata in
    _ ← failed_update (UpdateLedgerMetadata entityID merged); mret (json_map merged)
  else if String.eqb entityType "transactions" then
    exists_ ← (λ s, (s, Ok (TransactionExistsByIDOrParentID (st_db s) entityID))) : P bool;
    if negb exists_ then raise ErrEntityNotFound
    else _ ← failed_update (update_transactions entityID newMetadata); mret (json_map newMetadata)
  else if String.eqb entityType "balances" then
    balance ← must_exist (get_balance entityID);
    let merged := mergeMetadata (b_MetaData balance) newMetadata in
    _ ← failed_update (UpdateBalanceMetadata entityID merged); mret (json_map merged)
  else
    identity ← must_exist (read_identity entityID);
    let merged := mergeMetadata (default ∅ (i_MetaData identity)) (json_map newMetadata) in
    _ ← failed_update (UpdateIdentityMetadata entityID merged); mret merged.

(** ** Requests ([api/model]) *)

Record LedgerRequest := mkLedgerRequest { lr_Name : string; lr_MetaData : metadata }.

Record AccountRequest := mkAccountRequest {
  ar_BankName : string;
  ar_Number : string;
  ar_Currency : string;
  ar_IdentityId : string;
  ar_LedgerId : string;
  ar_BalanceId : string;
  ar_MetaData : metadata;
}.

Definition ToLedger (l : LedgerRequest) : Ledger := mkLedger "" (lr_Name l) 0 (lr_MetaData l).

Definition ToAccount (a : AccountRequest) : Account :=
  mkAccount "" "" (ar_Number a) (ar_BankName a) (ar_Currency a) (ar_BalanceId a) (ar_IdentityId a)
    (ar_LedgerId a) None None None 0 (ar_MetaData a).

Definition not_both (a : AccountRequest) (field : string) (value : string) : option error :=
  if negb (String.eqb (ar_BalanceId a) "") && negb (String.eqb value "")
  then Some (ENew ("either " +:+ field +:+ " or BalanceId must be provided, not both")) else None.

Section validation.
Context `{Ozzo}.

Definition ValidateName (name : string) : option (gmap string error) :=
  ValidateStruct [("name", [Required (String.eqb name "")])].
Definition ValidateCreateLedger (l : LedgerRequest) := ValidateName (lr_Name l).
Definition ValidateUpdateLedger := ValidateName.

Definition without_balance (a : AccountRequest) (msg value : string) : option error :=
  When (String.eqb (ar_BalanceId a) "") (ErrorText msg (Required (String.eqb value ""))).

Definition ValidateCreateAccount (a : AccountRequest) : option (gmap string error) :=
  ValidateStruct
    [("ledger_id", [without_balance a "Ledger ID is required when Balance ID is not provided" (ar_LedgerId a)]);
     ("identity_id", [without_balance a "Identity ID is required when Balance ID is not provided" (ar_IdentityId a)]);
     ("currency", [without_balance a "currency is required when Balance ID is not provided" (ar_Currency a)]);
     ("ledger_id", [not_both a "LedgerId" (ar_LedgerId a)]);
     ("currency", [not_both a "Currency" (ar_Currency a)])].

Lemma without_balance_None a msg value :
  without_balance a msg value = None ↔ (ar_BalanceId a = "" → value ≠ "").
Proof.
  unfold without_balance. rewrite When_ok. destruct (String.eqb_spec (ar_BalanceId a) ""); [|naive_solver].
  rewrite ErrorText_ok, fmap_None, Required_ok, String.eqb_neq. naive_solver.
Qed.

Lemma not_both_None a field value :
  not_both a field value = None ↔ ar_BalanceId a = "" ∨ value = "".
Proof.
  unfold not_both. destruct (String.eqb_spec (ar_BalanceId a) ""), (String.eqb_spec value ""); naive_solver.
Qed.

(** A valid request names a balance and neither ledger nor currency, or no
    balance and all three. *)
Lemma ValidateCreateAccount_spec a :
  ValidateCreateAccount a = None ↔
  (ar_BalanceId a ≠ "" ∧ ar_LedgerId a = "" ∧ ar_Currency a = "")
  ∨ (ar_BalanceId a = "" ∧ ar_LedgerId a ≠ "" ∧ ar_IdentityId a ≠ "" ∧ ar_Currency a ≠ "").
Proof.
  unfold ValidateCreateAccount. rewrite ValidateStruct_None, !Forall_cons, Forall_nil. cbn [snd].
  rewrite !Forall_singleton, !without_balance_None, !not_both_None.
  destruct (decide (ar_BalanceId a = "")); naive_solver.
Qed.

End validation.

(** ** What holds of accounts *)

(** Ids and numbers are unique, and what an account refers to is there. *)
Record wf (s : store) : Prop := {
  wf_ledgers : NoDup (map l_LedgerID (st_ledgers s));
  wf_ids : NoDup (map a_AccountID (st_accounts s));
  wf_numbers : NoDup (map a_Number (st_accounts s));
  wf_keys : ∀ a, a ∈ st_accounts s →
    a_LedgerID a ∈ map l_LedgerID (st_ledgers s)
    ∧ is_Some (is_rows (st_identities s) !! a_IdentityID a)
    ∧ is_Some (db_balances (st_db s) !! a_BalanceID a);
}.

(** No row is named by the empty string. *)
Definition named (s : store) : Prop := db_balances (st_db s) !! "" = None.

Lemma override_Ok a s s' a' :
  overrideLedgerAndIdentity a s = (s', Ok a') →
  s' = s ∧ ∃ b, db_balances (st_db s) !! a_BalanceID a = Some b
    ∧ a' = a <| a_IdentityID := unless_empty (b_IdentityID b) (a_IdentityID a) |>
            <| a_LedgerID := unless_empty (b_LedgerID b) (a_LedgerID a) |>
            <| a_Currency := unless_empty (b_Currency b) (a_Currency a) |>.
Proof.
  unfold overrideLedgerAndIdentity, GetBalanceByIDLite.
  destruct (db_balances (st_db s) !! a_BalanceID a) as [b|] eqn:Eb; cbn; [|done].
  intros [= <- <-]. split; [done|]. by exists b.
Qed.

Lemma read_identity_Ok id s s' i :
  read_identity id s = (s', Ok i) → s' = s ∧ is_rows (st_identities s) !! id = Some i.
Proof.
  unfold read_identity, GetIdentityByID. cbn. destruct (_ !! _) eqn:Ei; [|done]. by intros [= <- <-].
Qed.

(** Naming an account and asking for its number change nothing else. *)
Lemma applyAccountName_Ok a s s' a' :
  applyAccountName a s = (s', Ok a') → s' = s ∧ ∃ name, a' = a <| a_Name := name |>.
Proof.
  unfold applyAccountName. destruct (String.eqb _ _).
  - intros Hm. apply prog_bind_Ok in Hm as (s1 & i & Hi & Hm).
    apply read_identity_Ok in Hi as [-> Hi]. injection Hm as <- <-. split; [done|]. by eexists.
  - intros [= <- <-]. split; [done|]. exists (a_Name a). by destruct a.
Qed.

Lemma applyExternalAccount_Ok generated a a' :
  applyExternalAccount generated a = Ok a' →
  ∃ number bank, a' = a <| a_Number := number |> <| a_BankName := bank |>
    ∧ (generated = None → number = a_Number a ∧ bank = a_BankName a).
Proof.
  unfold applyExternalAccount. destruct generated as [[[number bank]|e]|]; [|done|].
  - destruct (_ && _); intros [= <-].
    + by exists number, bank.
    + exists (a_Number a), (a_BankName a). by destruct a.
  - intros [= <-]. exists (a_Number a), (a_BankName a). by destruct a.
Qed.

Lemma insert_account_Ok new_id now a a' s s' :
  insert_account new_id now a s = (s', Ok a') →
  a' = a <| a_AccountID := new_id |> <| a_CreatedAt := now |>
  ∧ violates s a' = None ∧ s' = s <| st_accounts := st_accounts s ++ [a'] |>.
Proof.
  unfold insert_account. case_goal; [done|]. cbv zeta.
  destruct (violates s _) eqn:Ev; intros [= <- <-]; by split_and!.
Qed.

(** An account that is created belongs to the balance it names: its ledger,
    its identity and its currency are those of the balance, whatever the
    request said. *)
Lemma CreateAccount_of_balance new_id now generated a a' s s' :
  CreateAccount new_id now generated a s = (s', Ok a') →
  ∃ b, db_balances (st_db s) !! a_BalanceID a = Some b
    ∧ a_AccountID a' = new_id ∧ a_BalanceID a' = a_BalanceID a
    ∧ a_IdentityID a' = unless_empty (b_IdentityID b) (a_IdentityID a)
    ∧ a_LedgerID a' = unless_empty (b_LedgerID b) (a_LedgerID a)
    ∧ a_Currency a' = unless_empty (b_Currency b) (a_Currency a)
    ∧ violates s a' = None
    ∧ s' = s <| st_accounts := st_accounts s ++ [a'] |>.
Proof.
  unfold CreateAccount. intros Hm.
  apply prog_bind_Ok in Hm as (s1 & a1 & H1 & Hm). apply override_Ok in H1 as [-> (b & Hb & ->)].
  apply prog_bind_Ok in Hm as (s2 & a2 & H2 & Hm). apply applyAccountName_Ok in H2 as [-> [name ->]].
  apply prog_bind_Ok in Hm as (s3 & a3 & H3 & Hm). unfold lift in H3. injection H3 as <- H3.
  apply applyExternalAccount_Ok in H3 as (number & bank & -> & _).
  apply insert_account_Ok in Hm as (-> & Hv & ->). by exists b.
Qed.

(** A request without a balance passes the rules that ask for ledger,
    identity and currency in its place, and is never served. *)
Lemma account_needs_balance `{Ozzo} new_id now generated a s :
  named s → ValidateCreateAccount a = None → ar_LedgerId a ≠ "" →
  ∃ e, CreateAccount new_id now generated (ToAccount a) s = (s, Err e).
Proof.
  rewrite ValidateCreateAccount_spec. intros Hs [(_ & El & _)|(Eb & _)] Hl; [done|].
  unfold CreateAccount, mbind, prog_bind, overrideLedgerAndIdentity, ToAccount. cbn [a_BalanceID].
  rewrite Eb. unfold GetBalanceByIDLite. rewrite Hs. cbn. by eexists.
Qed.

(** *** The operations that write *)

Inductive op : Type :=
| OCreateLedger (new_id : string) (now : time) (l : Ledger)
| OUpdateLedger (id name : string)
| OCreateAccount (new_id : string) (now : time) (generated : option (result (string * string))) (a : Account)
| OUpdateAccount (a : Account)
| ODeleteAccount (id : string)
| OUpdateMetadata (id : string) (m : metadata).

Definition run (o : op) (s : store) : store :=
  match o with
  | OCreateLedger new_id now l => (CreateLedger new_id now l s).1
  | OUpdateLedger id name => (UpdateLedger id name s).1
  | OCreateAccount new_id now generated a => (CreateAccount new_id now generated a s).1
  | OUpdateAccount a => (UpdateAccount a s).1
  | ODeleteAccount id => (DeleteAccount id s).1
  | OUpdateMetadata id m => (UpdateMetadata id m s).1
  end.

(** What the invariant looks at. *)
Definition keys (s : store) :=
  (map l_LedgerID (st_ledgers s), st_accounts s, dom (is_rows (st_identities s)), dom (db_balances (st_db s))).

Lemma wf_same_keys s s' : keys s' = keys s → wf s → wf s'.
Proof.
  intros [= El Ea Ei Eb] [W1 W2 W3 W4]. split; rewrite ?El, ?Ea; try done.
  intros a Ha. rewrite <- !elem_of_dom, Ei, Eb, !elem_of_dom. by apply W4.
Qed.

Lemma on_ledger_keys id f s : (∀ l, l_LedgerID (f l) = l_LedgerID l) → keys (on_ledger id f s) = keys s.
Proof.
  intros Hf. unfold keys, on_ledger. cbn. f_equal. f_equal. f_equal. rewrite map_map. apply map_ext.
  intros l. by destruct (String.eqb _ _).
Qed.

Lemma find_ledger_In s id : is_Some (find_ledger s id) ↔ id ∈ map l_LedgerID (st_ledgers s).
Proof.
  unfold find_ledger. rewrite list_elem_of_fmap. split.
  - intros [l Hl%find_some]. exists l. destruct Hl as [Hin Heq%String.eqb_eq].
    by split; [|apply list_elem_of_In].
  - intros (l & -> & Hin%list_elem_of_In). destruct (List.find _ _) eqn:Ef; [by eexists|].
    by eapply find_none in Ef; [rewrite String.eqb_refl in Ef|exact Hin].
Qed.

(** The schema's check of a new row is what the invariant asks of it. *)
Lemma violates_None s a :
  violates s a = None ↔
  (a_AccountID a ∉ map a_AccountID (st_accounts s)) ∧ (a_Number a ∉ map a_Number (st_accounts s))
  ∧ a_LedgerID a ∈ map l_LedgerID (st_ledgers s)
  ∧ is_Some (is_rows (st_identities s) !! a_IdentityID a)
  ∧ is_Some (db_balances (st_db s) !! a_BalanceID a).
Proof.
  assert (∀ f : Account → string, existsb (λ x, String.eqb (f x) (f a)) (st_accounts s) = true
    ↔ f a ∈ map f (st_accounts s)) as Hin.
  { intros f. rewrite existsb_exists, list_elem_of_fmap. setoid_rewrite list_elem_of_In.
    setoid_rewrite String.eqb_eq. naive_solver. }
  unfold violates. rewrite <- find_ledger_In.
  destruct (existsb _ _) eqn:E1; [apply (Hin a_AccountID) in E1; naive_solver|].
  rewrite <- not_true_iff_false, (Hin a_AccountID) in E1.
  destruct (existsb _ _) eqn:E2; [apply (Hin a_Number) in E2; naive_solver|].
  rewrite <- not_true_iff_false, (Hin a_Number) in E2.
  do 3 (case_bool_decide; cbn [negb]; [|naive_solver]). naive_solver.
Qed.

Lemma wf_create_ledger new_id now l s : wf s → wf (CreateLedger new_id now l s).1.
Proof.
  intros [W1 W2 W3 W4]. unfold CreateLedger. case_goal; [done|]. cbv zeta.
  destruct (find_ledger s new_id) eqn:Ef; [done|]. cbn [fst].
  assert (new_id ∉ map l_LedgerID (st_ledgers s)) as Hn.
  { rewrite <- find_ledger_In, Ef. by intros []. }
  split; cbn; rewrite ?map_app; [|done|done|].
  - apply NoDup_app. split_and!; [done| |apply NoDup_singleton].
    intros x Hx ->%list_elem_of_singleton. done.
  - intros a Ha. rewrite elem_of_app. destruct (W4 a Ha) as (? & ? & ?). by split_and!; [left| |].
Qed.

Lemma CreateAccount_Err new_id now generated a e s s' :
  CreateAccount new_id now generated a s = (s', Err e) → s' = s.
Proof.
  unfold CreateAccount. intros Hm.
  apply prog_bind_Err in Hm as [Hm|(s1 & a1 & H1 & Hm)]; [by injection Hm|].
  apply override_Ok in H1 as [-> _].
  apply prog_bind_Err in Hm as [Hm|(s1 & a2 & H2 & Hm)].
  { revert Hm. unfold applyAccountName. destruct (String.eqb _ _); [|done]. intros Hm.
    apply prog_bind_Err in Hm as [Hm|(? & ? & _ & Hm)]; [by injection Hm|done]. }
  apply applyAccountName_Ok in H2 as [-> _].
  apply prog_bind_Err in Hm as [Hm|(s1 & a3 & H3 & Hm)]; [by injection Hm|].
  injection H3 as <- _. revert Hm. unfold insert_account. repeat case_goal; by intros [= <- _].
Qed.

Lemma wf_create_account new_id now generated a s :
  wf s → wf (CreateAccount new_id now generated a s).1.
Proof.
  intros W. destruct (CreateAccount _ _ _ _ _) as [s' [a'|e]] eqn:Ec; cbn [fst];
    [|by apply CreateAccount_Err in Ec as ->].
  apply CreateAccount_of_balance in Ec as (b & _ & _ & _ & _ & _ & _ & Hv & ->).
  apply violates_None in Hv as (V1 & V2 & V3). destruct W as [W1 W2 W3 W4].
  split; cbn; rewrite ?map_app; [done|..].
  - apply NoDup_app. split_and!; [done| |apply NoDup_singleton]. by intros x Hx ->%list_elem_of_singleton.
  - apply NoDup_app. split_and!; [done| |apply NoDup_singleton]. by intros x Hx ->%list_elem_of_singleton.
  - intros x [Hx| ->%list_elem_of_singleton]%elem_of_app; [by apply W4|done].
Qed.

(** Setting the number of the one account with an id keeps numbers unique when
    no other account has it. *)
Lemma NoDup_renumbered (a : Account) (f : Account → Account) l :
  NoDup (map a_AccountID l) → NoDup (map a_Number l) →
  (∀ x, a_Number (f x) = if String.eqb (a_AccountID x) (a_AccountID a) then a_Number a else a_Number x) →
  (∀ x y, x ∈ l → y ∈ l → a_AccountID x = a_AccountID a → a_AccountID y ≠ a_AccountID a →
     a_Number y ≠ a_Number a) →
  NoDup (map (λ x, a_Number (f x)) l).
Proof.
  intros W2 W3 Hf Hother.
  apply (NoDup_fmap_2_strong (λ x, a_Number (f x))); [|by apply (NoDup_fmap_1 a_AccountID)].
  intros x y Hx Hy. rewrite !Hf.
  destruct (String.eqb_spec (a_AccountID x) (a_AccountID a)) as [Ex|Ex],
    (String.eqb_spec (a_AccountID y) (a_AccountID a)) as [Ey|Ey]; intros E.
  - apply (NoDup_map_eq _ _ _ _ W2); congruence.
  - by destruct (Hother x y Hx Hy Ex Ey).
  - by destruct (Hother y x Hy Hx Ey Ex).
  - by apply (NoDup_map_eq _ _ _ _ W3).
Qed.

Lemma wf_update_account a s : wf s → wf (UpdateAccount a s).1.
Proof.
  intros [W1 W2 W3 W4]. unfold UpdateAccount. case_goal; [done|].
  destruct (existsb (λ x, String.eqb (a_AccountID x) (a_AccountID a)) (st_accounts s) && _) eqn:Ec; [done|].
  cbn [fst]. split; cbn; rewrite ?map_map; [done| | |].
  - rewrite (map_ext _ a_AccountID); [done|]. intros x. by case_goal.
  - apply (NoDup_renumbered a); [done..| |].
    + intros x. by case_goal.
    + intros x y Hx%list_elem_of_In Hy%list_elem_of_In Ex Ey En.
      apply not_true_iff_false in Ec. apply Ec. apply andb_true_iff. rewrite !existsb_exists.
      split; [exists x|exists y]; (split; [done|]).
      * by apply String.eqb_eq.
      * apply andb_true_iff. split; [by apply String.eqb_eq|]. by apply negb_true_iff, String.eqb_neq.
  - intros x (y & -> & Hy)%list_elem_of_fmap. specialize (W4 y Hy). by case_goal.
Qed.

Lemma wf_delete_account id s : wf s → wf (DeleteAccount id s).1.
Proof.
  intros [W1 W2 W3 W4]. split; cbn; [done|by apply NoDup_map_filter..|].
  intros a [Ha _]%list_elem_of_In%filter_In. by apply W4, list_elem_of_In.
Qed.

Lemma keys_update_ledger id name s : keys (UpdateLedger id name s).1 = keys s.
Proof.
  unfold UpdateLedger, mbind, prog_bind, GetLedgerByID. destruct (find_ledger s id); [|done].
  by apply on_ledger_keys.
Qed.

(** *** Metadata *)

(** An update leaves every id and every account as it was. *)
Lemma keys_update_metadata id m s : keys (UpdateMetadata id m s).1 = keys s.
Proof.
  unfold UpdateMetadata, mbind, prog_bind, lift. destruct (getEntityTypeFromID id) as [k|e]; [|done].
  destruct (String.eqb k "ledgers"); [|destruct (String.eqb k "transactions");
    [|destruct (String.eqb k "balances")]].
  - unfold must_exist, map_err, GetLedgerByID. destruct (find_ledger s id); [|done].
    unfold failed_update, ctx_err, map_err, UpdateLedgerMetadata. case_goal; [|done].
    by apply on_ledger_keys.
  - case_goal; [done|]. unfold failed_update, ctx_err, map_err, update_transactions, UpdateTransactionMetadata.
    by case_goal.
  - unfold must_exist, map_err, get_balance. destruct (GetBalanceByID _ _ _); [|done].
    unfold failed_update, ctx_err, map_err, UpdateBalanceMetadata. case_goal; [|done].
    unfold keys. cbn. by rewrite dom_alter_L.
  - unfold must_exist, map_err. cbn. destruct (_ !! id); [|done].
    unfold failed_update, ctx_err, map_err, UpdateIdentityMetadata. case_goal; [|done].
    unfold keys. cbn. by rewrite dom_alter_L.
Qed.

Lemma accounts_wf o s : wf s → wf (run o s).
Proof.
  intros W. destruct o; cbn [run].
  - by apply wf_create_ledger.
  - eapply wf_same_keys; [apply keys_update_ledger|done].
  - by apply wf_create_account.
  - by apply wf_update_account.
  - by apply wf_delete_account.
  - eapply wf_same_keys; [apply keys_update_metadata|done].
Qed.

(** The metadata of a ledger, a balance or an identity. *)
Definition metadata_of (s : store) (id : string) : option gometa :=
  match getEntityTypeFromID id with
  | Ok kind =>
      if String.eqb kind "ledgers" then json_map ∘ l_MetaData <$> find_ledger s id
      else if String.eqb kind "balances" then json_map ∘ b_MetaData <$> db_balances (st_db s) !! id
      else if String.eqb kind "identities" then default ∅ ∘ i_MetaData <$> is_rows (st_identities s) !! id
      else None
  | Err _ => None
  end.

Definition written (md : gometa) : gometa := fmap (M := gmap string) json_form md.

Lemma json_map_union m old : json_map (m ∪ old) = json_map m ∪ json_map old.
Proof. apply map_fmap_union. Qed.

Lemma written_json m : written (json_map m) = json_map m.
Proof. unfold written, json_map. rewrite <- map_fmap_compose. by apply map_fmap_ext. Qed.

Lemma find_on_ledger id f s id' :
  (∀ l, l_LedgerID (f l) = l_LedgerID l) →
  find_ledger (on_ledger id f s) id' = (if String.eqb id' id then f else Datatypes.id) <$> find_ledger s id'.
Proof.
  intros Hf. unfold find_ledger, on_ledger. cbn. induction (st_ledgers s) as [|l ls IH]; [done|]. cbn.
  destruct (String.eqb_spec (l_LedgerID l) id) as [E|E]; rewrite ?Hf;
    destruct (String.eqb_spec (l_LedgerID l) id') as [E'|E']; try apply IH; cbn;
    destruct (String.eqb_spec id' id); unfold Datatypes.id; congruence.
Qed.

Lemma balance_read d id b :
  GetBalanceByID d id false = Ok b → ∃ b0, db_balances d !! id = Some b0 ∧ b_MetaData b = b_MetaData b0.
Proof. unfold GetBalanceByID. destruct (_ !! id) as [b0|]; [|done]. intros [= <-]. by exists b0. Qed.

#[local] Arguments json_map : simpl never.
#[local] Arguments on_ledger : simpl never.

(** The metadata of an entity is what it was with the new keys over it; the
    caller is told what is stored, and no other entity's changes. *)
Lemma UpdateMetadata_merged id m s s' md :
  getEntityTypeFromID id ≠ Ok "transactions" →
  UpdateMetadata id m s = (s', Ok md) →
  ∃ old, metadata_of s id = Some old ∧ md = json_map m ∪ old
    ∧ metadata_of s' id = Some (written md)
    ∧ ∀ id', id' ≠ id → metadata_of s' id' = metadata_of s id'.
Proof.
  intros Hk. unfold UpdateMetadata, metadata_of, mbind, prog_bind, lift.
  destruct (getEntityTypeFromID id) as [k|e] eqn:Ek; [|done].
  destruct (String.eqb_spec k "ledgers") as [->|H1];
    [|destruct (String.eqb_spec k "transactions") as [->|H2]; [done|];
      destruct (String.eqb_spec k "balances") as [->|H3]].
  - unfold must_exist, map_err, GetLedgerByID. destruct (find_ledger s id) as [l|] eqn:El; [|done].
    unfold failed_update, ctx_err, map_err, UpdateLedgerMetadata. case_goal; [|done].
    intros [= <- <-]. exists (json_map (l_MetaData l)). rewrite !find_on_ledger, String.eqb_refl, El by done.
    cbn. unfold mergeMetadata. rewrite written_json, json_map_union. split_and!; [done..|].
    intros id' Hne. case_goal; [|done]. case_goal; [|done].
    rewrite find_on_ledger, (proj2 (String.eqb_neq _ _) Hne) by done. by destruct (find_ledger s id').
  - unfold must_exist, map_err, get_balance. destruct (GetBalanceByID _ _ _) as [b|] eqn:Eb; [|done].
    apply balance_read in Eb as (b0 & Eb & Em).
    unfold failed_update, ctx_err, map_err, UpdateBalanceMetadata. case_goal; [|done].
    intros [= <- <-]. exists (json_map (b_MetaData b0)). cbn. rewrite lookup_alter_eq, Eb. cbn.
    unfold mergeMetadata. rewrite written_json, Em, json_map_union. split_and!; [done..|].
    intros id' Hne. by rewrite lookup_alter_ne by done.
  - assert (k = "identities") as ->.
    { revert Ek. unfold getEntityTypeFromID. repeat case_goal; intros [= <-]; done. }
    unfold must_exist, map_err. cbn. destruct (_ !! id) as [i|] eqn:Ei; [|done].
    unfold failed_update, ctx_err, map_err, UpdateIdentityMetadata. case_goal; [|done].
    intros [= <- <-]. exists (default ∅ (i_MetaData i)). cbn. rewrite lookup_alter_eq, Ei. cbn.
    split_and!; [done..|]. intros id' Hne. by rewrite lookup_alter_ne by done.
Qed.

(** The rows of a transaction are its own and its children's; the caller is told
    the new keys alone. *)
Lemma UpdateMetadata_transactions id m s s' md :
  getEntityTypeFromID id = Ok "transactions" →
  UpdateMetadata id m s = (s', Ok md) →
  md = json_map m
  ∧ db_transactions (st_db s') = map (merge_metadata id m) (db_transactions (st_db s)).
Proof.
  intros Hk. unfold UpdateMetadata, mbind, prog_bind, lift. rewrite Hk. cbn. case_goal; [done|].
  unfold failed_update, ctx_err, map_err, update_transactions, UpdateTransactionMetadata.
  case_goal; cbn; [|done]. by intros [= <- <-].
Qed.

(** *** What callers can do *)

Definition empty_store : store := mkStore empty_db (Identities.mkStore ∅ ∅) [] [].

Definition with_row (t : Transaction) : store :=
  empty_store <| st_db := empty_db <| db_transactions := [t] |> |>.

Definition a_row : Transaction :=
  empty_transaction <| t_TransactionID := "txn_1" |> <| t_Status := StatusQueued |>
    <| t_MetaData := {["kept" := MStr "yes"]} |>.

(** The reply leaves out the keys a transaction keeps. *)
Lemma transaction_reply_not_merged :
  let '(s', r) := UpdateMetadata "txn_1" {["new" := MStr "v"]} (with_row a_row) in
  r = Ok (json_map {["new" := MStr "v"]})
  ∧ map t_MetaData (db_transactions (st_db s')) = [{["kept" := MStr "yes"; "new" := MStr "v"]}].
Proof. by vm_compute. Qed.

(** Commit and void take a queued row for an inflight one by its metadata,
    which anybody may write: the row need not have been inflight. *)
Lemma metadata_opens_commit :
  t_Inflight a_row = false ∧ Inflight.IsInflightTransaction a_row = false
  ∧ map Inflight.IsInflightTransaction
      (db_transactions (st_db (UpdateMetadata "txn_1" {["inflight" := MBool true]} (with_row a_row)).1)) = [true].
Proof. by vm_compute. Qed.

(** The marks of tokenized fields are metadata too: taking them away leaves the
    token in the field, where it is served as the name. *)
Lemma metadata_unmarks_tokenized :
  let marked := MarkFieldAsTokenized (put FFirstName "dG9rZW4=" ada) "FirstName" in
  let s := empty_store <| st_identities := Identities.mkStore {["idt_1" := marked]} ∅ |> in
  IsFieldTokenized marked "FirstName" = true
  ∧ (λ i, (i_FirstName i, IsFieldTokenized i "FirstName"))
    <$> is_rows (st_identities (UpdateMetadata "idt_1" {["tokenized_fields" := MObj []]} s).1) !! "idt_1"
    = Some ("dG9rZW4=", false).
Proof. by vm_compute. Qed.

(** No account without a number can be made beside another: numbers are unique,
    and the empty one is a number. *)
Lemma one_account_without_number new_id now a a' s s' :
  CreateAccount new_id now None a s = (s', Ok a') → a_Number a = "" → "" ∉ map a_Number (st_accounts s).
Proof.
  intros Hc Hn.
  assert (a_Number a' = a_Number a) as Ha.
  { revert Hc. unfold CreateAccount. intros Hm.
    apply prog_bind_Ok in Hm as (s1 & a1 & H1 & Hm). apply override_Ok in H1 as [-> (b & Hb & ->)].
    apply prog_bind_Ok in Hm as (s2 & a2 & H2 & Hm). apply applyAccountName_Ok in H2 as [-> [name ->]].
    apply prog_bind_Ok in Hm as (s3 & a3 & [= <- <-] & Hm). by apply insert_account_Ok in Hm as (-> & _). }
  apply CreateAccount_of_balance in Hc as (b & _ & _ & _ & _ & _ & _ & Hv & _).
  apply violates_None in Hv as (_ & Hv & _). by rewrite Ha, Hn in Hv.
Qed.

End Accounts.
