(* ===== verification/RecordsApi.v ===== *)
(** * The endpoints of balances, monitors, ledgers, accounts and identities

    [api/balance.go], [api/ledger.go], [api/accounts.go], [api/identity.go] and
    the metadata route of [api/api.go]: what each handler requires of its
    request, the operation it calls and the reply it makes.  A handler is a
    program on the store its operation works on.  The decoded body is an
    argument (or the error of decoding it), as are the parameters of the route
    and the query string; [run] executes a query on the database. *)

From S2P Require Import Prelude Float64 Types Time Distributions Datastore Execution TaskQueue Lineage Tokenization Identities Snapshots Monitors BalanceQueries FilterParse Filters ApiErrors Replies Requests Accounts.

Module RecordsApi.

Import Datastore Tokenization Identities Snapshots Monitors BalanceQueries FilterParse Filters ApiErrors Replies Requests Accounts.

(** Rows, with a count where one was asked for. *)
Record listed (A : Type) := mkListed { ls_Rows : list A; ls_Count : option (option Z) }.
Arguments mkListed {A} ls_Rows ls_Count.
Arguments ls_Rows {A} _.
Arguments ls_Count {A} _.

Definition not_found_as (code : ErrorCode) : respondOpt := withUpgrade "GEN_NOT_FOUND" code.
Definition done_ (message : string) {A} (_ : A) : reply_of string := Answered 200 message.
Definition found {A} (a : A) : reply_of A := Answered 200 a.
Definition need_id {W B} (id : option string) : (string → prog W (reply_of B)) → prog W (reply_of B) :=
  with_param id (required "id" "/:id").

(** [respondCode(c, ErrGenValidation, err.Error(), nil, withLegacyKey("errors"))]. *)
Definition invalid {W B} (message : string) : prog W (reply_of B) :=
  refuse "GEN_VALIDATION_ERROR" message [withLegacyKey "errors"].

(** The parts of the shared store. *)
Definition on_db {A} (f : db → result A) : P A := λ s, (s, f (st_db s)).
Definition on_ids {A} (m : I A) : P A := λ s,
  let '(i, r) := m (st_identities s) in (s <| st_identities := i |>, r).
Definition on_tables {A} (m : prog tables A) : P A := λ s,
  let '((d, i), r) := m (st_db s, st_identities s) in (s <| st_db := d |> <| st_identities := i |>, r).

(** Identities that accounts and balances refer to cannot be deleted. *)
Definition with_refs (s : store) : istore :=
  (st_identities s) <| is_refs := is_refs (st_identities s) ∪ list_to_set (map a_IdentityID (st_accounts s))
                         ∪ list_to_set (map (λ kv, b_IdentityID kv.2) (map_to_list (db_balances (st_db s)))) |>.
Definition delete_identity (id : string) : P unit := λ s,
  let '(i, r) := DeleteIdentity id (with_refs s) in
  (s <| st_identities := (st_identities s) <| is_rows := is_rows i |> |>, r).

(** ** Balances *)

(** The ledger is a foreign key, and the identity where there is one. *)
Definition create_balance (new_id : string) (now : time) (b : Balance) : P Balance := λ s,
  if negb (marshals (b_MetaData b)) then (s, Err (db_fault "Failed to marshal metadata"))
  else
    match Datastore.CreateBalance (st_db s) b new_id now with
    | Err e => (s, Err e)
    | Ok (d, b') =>
        if bool_decide (b_BalanceID b' = "") then (s, Ok b')
        else if negb (bool_decide (is_Some (find_ledger s (b_LedgerID b))))
                || negb (String.eqb (b_IdentityID b) ""
                         || bool_decide (is_Some (is_rows (st_identities s) !! b_IdentityID b)))
        then (s, Err (EAPI "BAD_REQUEST" "Invalid ledger ID"))
        else (s <| st_db := d |>, Ok b')
    end.

(** A balance with what was asked to come with it. *)
Record BalanceWith := mkBalanceWith {
  bw_Balance : Balance;
  bw_Identity : option Identity;
  bw_Ledger : option Ledger;
}.

(** What the joined query reads of an identity. *)
Definition joined_identity (i : Identity) : Identity :=
  i <| i_IdentityType := "" |> <| i_MetaData := None |>.

(** The columns of a missing row are NULL, which no string can be read from. *)
Definition get_balance_with (id : string) (include : list string) (withQueued : bool) : P BalanceWith := λ s,
  match db_balances (st_db s) !! id with
  | None => (s, Err (EAPI "NOT_FOUND" ("Balance with ID '" +:+ id +:+ "' not found")))
  | Some row =>
      let identity := joined_identity <$> is_rows (st_identities s) !! b_IdentityID row in
      let ledger := joined_ledger <$> find_ledger s (b_LedgerID row) in
      if (included include "identity" && bool_decide (identity = None))
         || (included include "ledger" && bool_decide (ledger = None))
      then (s, Err (db_fault "Failed to scan balance data"))
      else (s, b ← GetBalanceByID (st_db s) id withQueued;
               Ok (mkBalanceWith b (if included include "identity" then identity else None)
                                   (if included include "ledger" then ledger else None)))
  end.

Section balances.
Context `{Ozzo, MapIter, TaskQueue.Asynq}.

Definition api_CreateBalance (new_id : string) (now : time) (b : result CreateBalance) : P (reply_of Balance) :=
  with_body b error_text (λ newBalance,
    match ValidateCreateBalance newBalance with
    | (_, Some errs) => invalid (Errors_Error errs)
    | (newBalance, None) =>
        answer [withUpgrade "GEN_VALIDATION_ERROR" "BAL_VALIDATION_ERROR"]
          (create_balance new_id now (ToBalance newBalance)) (Answered 201)
    end).

Definition api_GetBalance (id : option string) (q : url_Values) : P (reply_of BalanceWith) :=
  need_id id (λ id,
    answer [not_found_as "BAL_NOT_FOUND"]
      (get_balance_with id (default [] (q !! "include"))
         (String.eqb (DefaultQuery q "with_queued" "false") "true")) found).

Definition api_GetBalances (run : string * list arg → result (list Balance)) (q : url_Values)
    : P (reply_of (list Balance)) :=
  match at_least 1 (DefaultQuery q "limit" "10"), at_least 0 (DefaultQuery q "offset" "0") with
  | None, _ => refuse "GEN_VALIDATION_ERROR" "invalid limit value" []
  | _, None => refuse "GEN_VALIDATION_ERROR" "invalid offset value" []
  | Some limit, Some offset =>
      filtered_or GetAllBalancesWithFilterAndOptions run q limit offset found
        (answer [] (on_db (λ d, GetAllBalances d limit offset)) found)
  end.

Definition api_FilterBalances (run : string * list arg → result (list Balance * option Z))
    (b : result FilterRequest) : P (reply_of (listed Balance)) :=
  filter_body "balances" GetAllBalancesWithFilterAndOptions run b mkListed.

Definition api_GetBalanceByIndicator (indicator currency : option string) : P (reply_of Balance) :=
  with_param indicator (required "indicator" "/indicator/:indicator") (λ indicator,
  with_param currency (required "currency" "/currency/:currency") (λ currency,
    answer [not_found_as "BAL_NOT_FOUND"]
      (on_db (λ d, Execution.GetBalanceByIndicator d indicator currency)) found)).

(** [b] is [identity_id]. *)
Definition api_UpdateBalanceIdentity (id : option string) (b : result string) : P (reply_of string) :=
  with_param id "balance id is required. pass id in the route /:id" (λ balanceID,
    with_body b error_text (λ identityID,
      if String.eqb identityID "" then refuse "GEN_VALIDATION_ERROR" "identity_id is required" []
      else answer [not_found_as "BAL_NOT_FOUND"] (on_tables (UpdateBalanceIdentity balanceID identityID))
             (done_ "Balance identity updated successfully"))).

Definition api_GetBalanceLineage (id : option string)
    : prog Lineage.lsys (reply_of Lineage.BalanceLineage) :=
  need_id id (λ id,
    answer [not_found_as "BAL_NOT_FOUND"] (λ y, (y, Lineage.GetBalanceLineage y id)) found).

(** The message, and the batch size of the run that is started in the
    background. *)
Definition api_TakeBalanceSnapshots (q : url_Values) : P (reply_of (string * Z)) :=
  match at_least 1 (DefaultQuery q "batch_size" "1000") with
  | None => refuse "GEN_VALIDATION_ERROR" "invalid batch_size value" []
  | Some batchSize => mret (Answered 200 ("Snapshotting in progress. should be completed shortly", batchSize))
  end.

(** The balance, the time it is for, and [from_source]. *)
Definition api_GetBalanceAtTime (snaps : list Snapshot) (now : time) (id : option string) (q : url_Values)
    : P (reply_of (Balance * time * bool)) :=
  with_param id "balance ID is required" (λ balanceID,
    let timestampStr := DefaultQuery q "timestamp" "" in
    match (if empty timestampStr then Some now else parse_moment timestampStr) with
    | None =>
        refuse "BAL_INVALID_TIMESTAMP"
          "invalid timestamp format. Please use ISO 8601 format (e.g., 2024-01-01T15:04:05Z)" []
    | Some timestamp =>
        let from := DefaultQuery q "from_source" "" in
        let fromSource := String.eqb from "true" || String.eqb from "1" in
        answer [not_found_as "BAL_NOT_FOUND"]
          (on_db (λ d, service_GetBalanceAtTime d snaps balanceID timestamp fromSource))
          (λ b, Answered 200 (b, timestamp, fromSource))
    end).

(** *** Monitors *)

Definition api_CreateBalanceMonitor (cf : cache_faults) (new_id : string) (now : time)
    (b : result CreateBalanceMonitor) : B (reply_of BalanceMonitor) :=
  with_body b error_text (λ newMonitor,
    match ValidateCreateBalanceMonitor newMonitor with
    | Some errs => invalid (Errors_Error errs)
    | None => answer [] (CreateMonitor cf new_id now (ToBalanceMonitor newMonitor)) (Answered 201)
    end).

Definition monitor_opts : list respondOpt := [not_found_as "BAL_MONITOR_NOT_FOUND"].

Definition api_GetBalanceMonitor (id : option string) : B (reply_of BalanceMonitor) :=
  need_id id (λ id, answer monitor_opts (GetMonitorByID id) found).

Definition api_GetAllBalanceMonitors : B (reply_of (list BalanceMonitor)) :=
  answer [] (λ s, (s, Ok (GetAllMonitors s))) found.

Definition api_GetBalanceMonitorsByBalanceID (balanceID : option string) : B (reply_of (list BalanceMonitor)) :=
  with_param balanceID (required "balance_id" "/:balance_id") (λ balanceID,
    answer [] (λ s, (s, Ok (GetBalanceMonitors s balanceID))) found).

Definition api_UpdateBalanceMonitor (cf : cache_faults) (id : option string) (b : result BalanceMonitor)
    : B (reply_of string) :=
  need_id id (λ id,
    with_body b error_text (λ monitor,
      answer monitor_opts (UpdateMonitor cf (monitor <| m_MonitorID := id |>))
        (done_ "BalanceMonitor updated successfully"))).

Definition api_DeleteBalanceMonitor (cf : cache_faults) (id : option string) : B (reply_of string) :=
  need_id id (λ id, answer monitor_opts (DeleteMonitor cf id) (done_ "BalanceMonitor deleted successfully")).

End balances.

(** ** Ledgers and accounts *)

Section ledgers.
Context `{Ozzo, MapIter}.

(** A body that cannot be decoded, under the plural key. *)
Definition with_body_errors {W A C} (b : result A) (k : A → prog W (reply_of C)) : prog W (reply_of C) :=
  match b with
  | Ok a => k a
  | Err e => refuse "GEN_MALFORMED_REQUEST" (error_text e) [withLegacyKey "errors"]
  end.

Definition api_CreateLedger (new_id : string) (now : time) (b : result LedgerRequest) : P (reply_of Ledger) :=
  with_body_errors b (λ newLedger,
    match ValidateCreateLedger newLedger with
    | Some errs => invalid (Errors_Error errs)
    | None =>
        answer [withUpgrade "GEN_CONFLICT" "LGR_DUPLICATE"] (CreateLedger new_id now (ToLedger newLedger))
          (Answered 201)
    end).

Definition need_ledger {W C} (id : option string) : (string → prog W (reply_of C)) → prog W (reply_of C) :=
  with_param id "id is required. Pass id in the route /:id".

Definition api_GetLedger (id : option string) : P (reply_of Ledger) :=
  need_ledger id (λ id, answer [not_found_as "LGR_NOT_FOUND"] (GetLedgerByID id) found).

Definition api_GetAllLedgers (run : string * list arg → result (list Ledger)) (q : url_Values)
    : P (reply_of (list Ledger)) :=
  match at_least 1 (DefaultQuery q "limit" "10"), at_least 0 (DefaultQuery q "offset" "0") with
  | None, _ => refuse "GEN_VALIDATION_ERROR" "Invalid limit value" []
  | _, None => refuse "GEN_VALIDATION_ERROR" "Invalid offset value" []
  | Some limit, Some offset =>
      filtered_or GetAllLedgersWithFilterAndOptions run q limit offset found
        (answer [] (GetAllLedgers limit offset) found)
  end.

Definition api_FilterLedgers (run : string * list arg → result (list Ledger * option Z))
    (b : result FilterRequest) : P (reply_of (listed Ledger)) :=
  filter_body "ledgers" GetAllLedgersWithFilterAndOptions run b mkListed.

(** [b] is the new name. *)
Definition api_UpdateLedger (id : option string) (b : result string) : P (reply_of Ledger) :=
  need_ledger id (λ id,
    with_body_errors b (λ name,
      match ValidateUpdateLedger name with
      | Some errs => invalid (Errors_Error errs)
      | None => answer [not_found_as "LGR_NOT_FOUND"] (UpdateLedger id name) found
      end)).

Definition api_CreateAccount (new_id : string) (now : time) (generated : option (result (string * string)))
    (b : result AccountRequest) : P (reply_of Account) :=
  with_body b error_text (λ newAccount,
    match ValidateCreateAccount newAccount with
    | Some errs => invalid (Errors_Error errs)
    | None =>
        answer [withUpgrade "GEN_CONFLICT" "ACC_DUPLICATE"]
          (CreateAccount new_id now generated (ToAccount newAccount)) (Answered 201)
    end).

Definition api_GetAccount (id : string) (q : url_Values) : P (reply_of Account) :=
  answer [not_found_as "ACC_NOT_FOUND"] (GetAccountByID id (default [] (q !! "include"))) found.

Definition api_GetAllAccounts (run : string * list arg → result (list Account)) (q : url_Values)
    : P (reply_of (list Account)) :=
  filtered_or GetAllAccountsWithFilterAndOptions run q
    (Z.of_nat (page_limit (DefaultQuery q "limit" "20"))) (Z.of_nat (page_offset (DefaultQuery q "offset" "0")))
    found (answer [] GetAllAccounts found).

Definition api_FilterAccounts (run : string * list arg → result (list Account * option Z))
    (b : result FilterRequest) : P (reply_of (listed Account)) :=
  filter_body "accounts" GetAllAccountsWithFilterAndOptions run b mkListed.

End ledgers.

(** ** Identities *)

Section identities.
Context (uuid_Parse : string → bool).
Context (tk : TokenizationService) (json_text : gometa → string).
Context `{MapIter}.

Definition identity_opts : list respondOpt := [not_found_as "IDT_NOT_FOUND"].

(** The message of the parameters [id] and [field]. *)
Definition with_identity {W C} (id : option string) : (string → prog W (reply_of C)) → prog W (reply_of C) :=
  with_param id "identity ID is required".
Definition with_field {W C} (id field : option string) (k : string → string → prog W (reply_of C))
    : prog W (reply_of C) :=
  with_identity id (λ id, with_param field "field name is required" (k id)).

Definition api_CreateIdentity (generated : string) (now : time) (b : result Identity) : P (reply_of Identity) :=
  with_body b error_text (λ identity,
    answer [withUpgrade "GEN_CONFLICT" "IDT_VALIDATION_ERROR"; withUpgrade "GEN_BAD_REQUEST" "IDT_VALIDATION_ERROR"]
      (on_ids (CreateIdentity uuid_Parse generated now identity)) (Answered 201)).

Definition api_GetIdentity (id : option string) : P (reply_of Identity) :=
  need_id id (λ id, answer identity_opts (on_ids (GetIdentityByID id)) found).

Definition api_UpdateIdentity (id : option string) (b : result Identity) : P (reply_of string) :=
  need_id id (λ id,
    with_body b error_text (λ identity,
      answer identity_opts (on_ids (UpdateIdentity (identity <| i_IdentityID := id |>)))
        (done_ "Identity updated successfully"))).

Definition api_DeleteIdentity (id : option string) : P (reply_of string) :=
  need_id id (λ id,
    answer identity_opts (delete_identity id) (done_ "Identity deleted successfully")).

Definition api_GetAllIdentities (run : string * list arg → result (list Identity)) (q : url_Values)
    : P (reply_of (list Identity)) :=
  filtered_or GetAllIdentitiesWithFilterAndOptions run q
    (Z.of_nat (Replies.page_limit (DefaultQuery q "limit" "20")))
    (Z.of_nat (page_offset (DefaultQuery q "offset" "0")))
    found (answer [] (on_ids GetAllIdentities) found).

Definition api_FilterIdentities (run : string * list arg → result (list Identity * option Z))
    (b : result FilterRequest) : P (reply_of (listed Identity)) :=
  filter_body "identity" GetAllIdentitiesWithFilterAndOptions run b mkListed.

Definition api_TokenizeIdentityField (rand : result (list ascii)) (id field : option string)
    : P (reply_of string) :=
  with_field id field (λ id field,
    answer identity_opts (on_ids (TokenizeIdentityField tk rand id field)) (done_ "Field tokenized successfully")).

Definition api_DetokenizeIdentityField (id field : option string) : P (reply_of (string * string)) :=
  with_field id field (λ id field,
    answer identity_opts (on_ids (DetokenizeIdentityField tk json_text id field))
      (λ value, Answered 200 (field, value))).

(** Each field of the request with the nonce its token will take. *)
Definition api_TokenizeIdentity (id : option string) (b : result (list (string * result (list ascii))))
    : P (reply_of string) :=
  with_identity id (λ id,
    with_body b error_text (λ fields,
      match fields with
      | [] => refuse "GEN_VALIDATION_ERROR" "at least one field must be specified" []
      | _ => answer identity_opts (on_ids (TokenizeIdentity tk id fields)) (done_ "Fields tokenized successfully")
      end)).

Fixpoint detokenize_fields (id : string) (fields : list string) (result : gmap string string)
    : I (gmap string string) :=
  match fields with
  | [] => mret result
  | field :: fields =>
      value ← DetokenizeIdentityField tk json_text id field;
      detokenize_fields id fields (<[field := value]> result)
  end.

(** No field means all. *)
Definition api_DetokenizeIdentity (id : option string) (b : result (list string))
    : P (reply_of (gmap string string)) :=
  with_identity id (λ id,
    with_body b error_text (λ fields,
      answer identity_opts
        (on_ids (match fields with
                 | [] => DetokenizeIdentity tk json_text id
                 | _ => detokenize_fields id fields ∅
                 end)) found)).

(** The marked fields; the metadata itself where the marks are no object. *)
Definition api_GetTokenizedFields (id : option string)
    : P (reply_of (list string * option gometa)) :=
  with_identity id (λ id,
    answer identity_opts (on_ids (GetIdentityByID id)) (λ identity,
      let raw := md ← i_MetaData identity; md !! "tokenized_fields" in
      let marked := map fst (List.filter snd (map_iter (tokenized_fields identity))) in
      Answered 200
        match raw with
        | None | Some (GBoolMap _) | Some (GJson (MObj _)) => (marked, None)
        | Some _ => ([], i_MetaData identity)
        end)).

End identities.

(** ** Metadata *)

Definition api_UpdateMetadata (entityID : string) (b : result metadata) : P (reply_of gometa) :=
  if String.eqb entityID "" then refuse "META_INVALID_ENTITY_ID" "entity ID is required" []
  else with_body b error_text (λ newMetadata, answer [] (UpdateMetadata entityID newMetadata) found).

(** ** Every request *)

(** Accounts are well formed, and the ledger and the identity of a balance are
    there. *)
Record integrity (s : store) : Prop := {
  in_accounts : wf s;
  in_balances : ∀ id b, db_balances (st_db s) !! id = Some b →
    b_LedgerID b ∈ map l_LedgerID (st_ledgers s)
    ∧ (b_IdentityID b = "" ∨ is_Some (is_rows (st_identities s) !! b_IdentityID b));
}.

(** An operation keeps it, and changes nothing when it fails. *)
Definition op_ok {A} (m : P A) : Prop := ∀ s, integrity s →
  integrity (m s).1 ∧ (is_ok (m s).2 = false → (m s).1 = s).

Definition status {A} (r : result (reply_of A)) : option Z :=
  match r with Ok r => Some (status_of r) | Err _ => None end.

(** A handler replies, keeps it, and changes nothing when it replies with an
    error. *)
Definition sound {A} (m : P (reply_of A)) : Prop := ∀ s, integrity s →
  integrity (m s).1 ∧ ∃ n, status (m s).2 = Some n ∧ (400 <= n → (m s).1 = s).

Lemma sound_reply {A} (r : reply_of A) : sound (mret r).
Proof. intros s Hs. split; [done|]. by exists (status_of r). Qed.

Lemma sound_refuse {A} code message opts : sound (refuse (B := A) code message opts).
Proof. apply sound_reply. Qed.

Lemma sound_body {A C} (b : result A) message (k : A → P (reply_of C)) :
  (∀ a, sound (k a)) → sound (with_body b message k).
Proof. intros Hk. destruct b; [apply Hk|apply sound_refuse]. Qed.

Lemma sound_param {C} p message (k : string → P (reply_of C)) :
  (∀ v, sound (k v)) → sound (with_param p message k).
Proof. intros Hk. destruct p; [apply Hk|apply sound_refuse]. Qed.

Lemma sound_answer {A C} opts (m : P A) (ok : A → reply_of C) :
  op_ok m → (∀ a, status_of (ok a) < 400) → sound (answer opts m ok).
Proof.
  intros Hm Hok s Hs. destruct (Hm s Hs) as [Hi He]. rewrite answer_state. split; [done|].
  destruct (answer_total opts m ok s) as [r Hr]. exists (status_of r). rewrite Hr. split; [done|].
  intros H4. apply He. destruct (m s) as [s' [a|e]] eqn:Em; [|done]. unfold answer in Hr. rewrite Em in Hr.
  injection Hr as <-. specialize (Hok a). lia.
Qed.

(** *** The operations *)

Lemma op_ok_read {A} (m : P A) : (∀ s, (m s).1 = s) → op_ok m.
Proof. intros Hm s Hs. by rewrite Hm. Qed.

Lemma on_db_ok {A} (f : db → result A) : op_ok (on_db f).
Proof. by apply op_ok_read. Qed.

Lemma lift_ok {A} (r : result A) : op_ok (lift r).
Proof. by apply op_ok_read. Qed.

(** More rows to refer to. *)
Lemma integrity_grows s s' :
  integrity s → st_accounts s' = st_accounts s → NoDup (map l_LedgerID (st_ledgers s')) →
  (∀ id, id ∈ map l_LedgerID (st_ledgers s) → id ∈ map l_LedgerID (st_ledgers s')) →
  (∀ id, is_Some (is_rows (st_identities s) !! id) → is_Some (is_rows (st_identities s') !! id)) →
  (∀ id, is_Some (db_balances (st_db s) !! id) → is_Some (db_balances (st_db s') !! id)) →
  (∀ id b, db_balances (st_db s') !! id = Some b →
     (∃ id' b', db_balances (st_db s) !! id' = Some b' ∧ b_LedgerID b' = b_LedgerID b ∧ b_IdentityID b' = b_IdentityID b)
     ∨ (b_LedgerID b ∈ map l_LedgerID (st_ledgers s')
        ∧ (b_IdentityID b = "" ∨ is_Some (is_rows (st_identities s') !! b_IdentityID b)))) →
  integrity s'.
Proof.
  intros [[W1 W2 W3 W4] Hb] Ea Hnd Hl Hi Hbal Hnew. split; [split|].
  - done.
  - by rewrite Ea.
  - by rewrite Ea.
  - intros a Ha. rewrite Ea in Ha. destruct (W4 a Ha) as (? & ? & ?). split_and!; auto.
  - intros id b Hb'. destruct (Hnew id b Hb') as [(id' & b' & H' & <- & <-)|]; [|done].
    destruct (Hb id' b' H') as [? [?|?]]; auto.
Qed.

Lemma on_ids_ok {A} (m : I A) :
  (∀ i, is_ok (m i).2 = false → (m i).1 = i) →
  (∀ i id, is_Some (is_rows i !! id) → is_Some (is_rows (m i).1 !! id)) → op_ok (on_ids m).
Proof.
  intros He Hr s Hs. specialize (He (st_identities s)). specialize (Hr (st_identities s)).
  unfold on_ids. destruct (m (st_identities s)) as [i r]. cbn [fst snd] in *. split.
  - apply (integrity_grows s); [done|done|apply Hs|done|exact Hr|done|]. intros id b Hb. left. by exists id, b.
  - intros ->%He. by destruct s.
Qed.

Lemma create_identity_ok uuid generated now i : op_ok (on_ids (CreateIdentity uuid generated now i)).
Proof.
  apply on_ids_ok; intros st; unfold CreateIdentity; cbv zeta; repeat case_goal; cbn; try done;
    intros id Hid; rewrite lookup_insert_is_Some'; by right.
Qed.

Lemma update_identity_ok i : op_ok (on_ids (UpdateIdentity i)).
Proof.
  apply on_ids_ok; intros st; unfold UpdateIdentity; repeat case_goal; cbn; try done.
  intros id Hid. rewrite lookup_insert_is_Some'. by right.
Qed.

Lemma tokenize_field_ok tk rand id field : op_ok (on_ids (TokenizeIdentityField tk rand id field)).
Proof.
  assert (∀ st, (TokenizeIdentityField tk rand id field st).1 = st
    ∨ ∃ i, TokenizeIdentityField tk rand id field st = UpdateIdentity i st) as K.
  { intros st. unfold TokenizeIdentityField. case_goal; [by left|]. unfold mbind, prog_bind, GetIdentityByID, lift.
    destruct (is_rows st !! id) as [i|]; [|by left].
    destruct (tokenized tk rand field i) as [i'|]; [right|by left]. by exists i'. }
  apply on_ids_ok; intros st.
  - destruct (K st) as [E|[i E]]; [done|]. rewrite E. unfold UpdateIdentity. by repeat case_goal.
  - intros id'. destruct (K st) as [E|[i E]]; rewrite E; [done|]. unfold UpdateIdentity. repeat case_goal; cbn; try done.
    intros Hid. rewrite lookup_insert_is_Some'. by right.
Qed.

Lemma delete_identity_ok id : op_ok (delete_identity id).
Proof.
  intros s Hs. unfold delete_identity, DeleteIdentity. cbn.
  destruct (is_rows (st_identities s) !! id) as [i|] eqn:Ei; cbn; [|by destruct s as [? [] ? ?]; split].
  case_bool_decide as Hr; cbn; [by destruct s as [? [] ? ?]; split|].
  split; [|done]. destruct Hs as [[W1 W2 W3 W4] Hb].
  assert (∀ k, k ≠ id → is_Some (is_rows (st_identities s) !! k) → is_Some (delete id (is_rows (st_identities s)) !! k)) as Hk.
  { intros k Hne Hk. by rewrite lookup_delete_ne by congruence. }
  split; [split; cbn|cbn].
  - done.
  - done.
  - done.
  - intros a Ha. destruct (W4 a Ha) as (? & ? & ?). split_and!; [done| |done]. apply Hk; [|done].
    intros <-. apply Hr. rewrite !elem_of_union, !elem_of_list_to_set. left. right. by apply list_elem_of_fmap_2.
  - intros k b Hb'. destruct (Hb k b Hb') as [? [?|?]]; (split; [done|]); [by left|right].
    apply Hk; [|done]. intros <-. apply Hr. rewrite !elem_of_union, !elem_of_list_to_set. right.
    apply list_elem_of_fmap. exists (k, b). split; [done|]. by apply elem_of_map_to_list.
Qed.

(** The row of a new balance, under a name no other row has. *)
Lemma datastore_create d b new_id now d' b' :
  Datastore.CreateBalance d b new_id now = Ok (d', b') → new_id ≠ "" →
  (d' = d ∧ b_BalanceID b' = "")
  ∨ (b_BalanceID b' = new_id ∧ ∃ row, db_balances d' = <[new_id := row]> (db_balances d)
     ∧ b_LedgerID row = b_LedgerID b ∧ b_IdentityID row = b_IdentityID b).
Proof.
  unfold Datastore.CreateBalance. cbv zeta. intros Hc Hne. revert Hc.
  destruct (existsb _ _); [intros [= <- <-]; by left|].
  destruct (bool_decide _); [done|]. intros [= <- <-]. right. split; [done|]. by eexists.
Qed.

Lemma create_balance_ok new_id now b : new_id ≠ "" → op_ok (create_balance new_id now b).
Proof.
  intros Hne s Hs. unfold create_balance. case_goal; [done|].
  destruct (Datastore.CreateBalance _ _ _ _) as [[d b']|e] eqn:Ec; [|done].
  apply datastore_create in Ec as [[-> E]|(E & row & Ed & El & Ei)]; [| |done].
  { rewrite bool_decide_eq_true_2 by done. done. }
  rewrite bool_decide_eq_false_2 by congruence. case_goal; [done|]. cbn. split; [|done].
  zbool. destruct_and?. apply (integrity_grows s); cbn; try done; try apply Hs.
  - intros id Hid. rewrite Ed, lookup_insert_is_Some'. by right.
  - intros id x Hx. rewrite Ed in Hx. apply lookup_insert_Some in Hx as [[_ <-]|[_ Hx]]; [right|left; by exists id, x].
    rewrite El, Ei. rewrite <- find_ledger_In.
    split; [done|]. apply orb_true_iff in H0 as [?%String.eqb_eq|?%bool_decide_eq_true]; [by left|by right].
Qed.

Lemma get_balance_with_ok id include q : op_ok (get_balance_with id include q).
Proof. apply op_ok_read. intros s. unfold get_balance_with. case_goal; [|done]. cbv zeta. by case_goal. Qed.

Lemma update_balance_identity_ok id identity : op_ok (on_tables (UpdateBalanceIdentity id identity)).
Proof.
  intros s Hs. pose proof (UpdateBalanceIdentity_effect (st_db s) (st_identities s) id identity) as K.
  unfold on_tables. destruct (UpdateBalanceIdentity _ _ _) as [[d i] r]. cbn [fst snd].
  destruct K as [-> [(-> & Hi & (b & Hb & Ed) & _)|[Hr ->]]].
  - split; [|done]. apply (integrity_grows s); cbn; try done; try apply Hs.
    + intros k Hk. rewrite Ed, lookup_insert_is_Some'. by right.
    + intros k x Hx. rewrite Ed in Hx. apply lookup_insert_Some in Hx as [[_ <-]|[_ Hx]]; [right|left; by exists k, x].
      cbn. split; [|by right]. by apply (in_balances s Hs id b).
  - by destruct s.
Qed.

Lemma integrity_keys s s' : wf s' → keys s' = keys s →
  (∀ id b, db_balances (st_db s') !! id = Some b → ∃ b', db_balances (st_db s) !! id = Some b'
     ∧ b_LedgerID b' = b_LedgerID b ∧ b_IdentityID b' = b_IdentityID b) →
  integrity s → integrity s'.
Proof.
  intros W [= El _ Ei _] Hb [_ Hs]. split; [done|]. intros id b (b' & Hb' & <- & <-)%Hb.
  rewrite El, <- elem_of_dom, Ei, elem_of_dom. by apply (Hs id).
Qed.

Lemma create_ledger_ok new_id now l : op_ok (CreateLedger new_id now l).
Proof.
  intros s Hs. split.
  - pose proof (wf_create_ledger new_id now l s (in_accounts s Hs)) as W. revert W. unfold CreateLedger.
    case_goal; [done|]. cbv zeta. destruct (find_ledger s new_id); [done|]. cbn [fst]. intros W.
    apply (integrity_grows s); cbn; try done; [apply W| |].
    + intros id Hid. rewrite map_app, elem_of_app. by left.
    + intros id b Hb. left. by exists id, b.
  - unfold CreateLedger. case_goal; [done|]. cbv zeta. by destruct (find_ledger s new_id).
Qed.

Lemma update_ledger_ok id name : op_ok (UpdateLedger id name).
Proof.
  intros s Hs. split.
  - apply (integrity_keys s); [| |intros k b Hb|done].
    + eapply wf_same_keys; [apply keys_update_ledger|apply Hs].
    + apply keys_update_ledger.
    + exists b. split; [|done]. revert Hb. unfold UpdateLedger, mbind, prog_bind, GetLedgerByID.
      by destruct (find_ledger s id).
  - unfold UpdateLedger, mbind, prog_bind, GetLedgerByID. by destruct (find_ledger s id).
Qed.

Lemma create_account_ok new_id now generated a : op_ok (CreateAccount new_id now generated a).
Proof.
  intros s Hs. pose proof (wf_create_account new_id now generated a s (in_accounts s Hs)) as W.
  destruct (CreateAccount new_id now generated a s) as [s' [a'|e]] eqn:Ec; cbn [fst snd] in *.
  - apply CreateAccount_of_balance in Ec as (b & _ & _ & _ & _ & _ & _ & _ & ->). split; [split; [done|apply Hs]|done].
  - by apply CreateAccount_Err in Ec as ->.
Qed.

Lemma get_account_ok id include : op_ok (GetAccountByID id include).
Proof. apply op_ok_read. intros s. unfold GetAccountByID. by case_goal. Qed.

(** An update of metadata that fails has written nothing. *)
Lemma UpdateMetadata_Err id m s : is_ok (UpdateMetadata id m s).2 = false → (UpdateMetadata id m s).1 = s.
Proof.
  unfold UpdateMetadata, mbind, prog_bind, lift. destruct (getEntityTypeFromID id) as [k|e]; [|done].
  destruct (String.eqb k "ledgers"); [|destruct (String.eqb k "transactions");
    [|destruct (String.eqb k "balances")]].
  - unfold must_exist, map_err, GetLedgerByID. destruct (find_ledger s id); [|done].
    unfold failed_update, ctx_err, map_err, UpdateLedgerMetadata. by case_goal.
  - case_goal; [done|]. unfold failed_update, ctx_err, map_err, update_transactions.
    by destruct (Workers.Workers.UpdateTransactionMetadata _ _ _).
  - unfold must_exist, map_err, get_balance. destruct (GetBalanceByID _ _ _); [|done].
    unfold failed_update, ctx_err, map_err, UpdateBalanceMetadata. by case_goal.
  - unfold must_exist, map_err. cbn. destruct (_ !! id); [|done].
    unfold failed_update, ctx_err, map_err, UpdateIdentityMetadata. by case_goal.
Qed.

(** The references of balances survive it. *)
Lemma UpdateMetadata_balances id m s k b :
  db_balances (st_db (UpdateMetadata id m s).1) !! k = Some b →
  ∃ b', db_balances (st_db s) !! k = Some b' ∧ b_LedgerID b' = b_LedgerID b ∧ b_IdentityID b' = b_IdentityID b.
Proof.
  assert (db_balances (st_db s) !! k = Some b → ∃ b', db_balances (st_db s) !! k = Some b'
    ∧ b_LedgerID b' = b_LedgerID b ∧ b_IdentityID b' = b_IdentityID b) as K by (intros; by exists b).
  unfold UpdateMetadata, mbind, prog_bind, lift. destruct (getEntityTypeFromID id) as [t|e]; [|done].
  destruct (String.eqb t "ledgers"); [|destruct (String.eqb t "transactions");
    [|destruct (String.eqb t "balances")]].
  - unfold must_exist, map_err, GetLedgerByID. destruct (find_ledger s id); [|done].
    unfold failed_update, ctx_err, map_err, UpdateLedgerMetadata. by case_goal.
  - case_goal; [done|]. unfold failed_update, ctx_err, map_err, update_transactions, Workers.Workers.UpdateTransactionMetadata.
    by case_goal.
  - unfold must_exist, map_err, get_balance. destruct (GetBalanceByID _ _ _); [|done].
    unfold failed_update, ctx_err, map_err, UpdateBalanceMetadata. case_goal; [|done]. cbn.
    intros Hb. apply lookup_alter_Some in Hb as [(_ & b0 & Hb & ->)|[_ Hb]]; [by exists b0|by apply K].
  - unfold must_exist, map_err. cbn. destruct (_ !! id); [|done].
    unfold failed_update, ctx_err, map_err, UpdateIdentityMetadata. by case_goal.
Qed.

Lemma update_metadata_ok id m : op_ok (UpdateMetadata id m).
Proof.
  intros s Hs. split; [|apply UpdateMetadata_Err]. apply (integrity_keys s); [| | |done].
  - eapply wf_same_keys; [apply keys_update_metadata|apply Hs].
  - apply keys_update_metadata.
  - intros k b. apply UpdateMetadata_balances.
Qed.

(** ** Requests *)

Section requests.
Context (uuid_Parse : string → bool) (tk : TokenizationService) (json_text : gometa → string).
Context `{Ozzo, MapIter, TaskQueue.Asynq}.
Context (snaps : list Snapshot).

Inductive record_request : Type :=
| QCreateBalance (new_id : string) (now : time) (b : result CreateBalance)
| QGetBalance (id : option string) (q : url_Values)
| QGetBalances (run : string * list arg → result (list Balance)) (q : url_Values)
| QFilterBalances (run : string * list arg → result (list Balance * option Z)) (b : result FilterRequest)
| QGetBalanceByIndicator (indicator currency : option string)
| QUpdateBalanceIdentity (id : option string) (b : result string)
| QTakeBalanceSnapshots (q : url_Values)
| QGetBalanceAtTime (now : time) (id : option string) (q : url_Values)
| QCreateLedger (new_id : string) (now : time) (b : result LedgerRequest)
| QGetLedger (id : option string)
| QGetAllLedgers (run : string * list arg → result (list Ledger)) (q : url_Values)
| QFilterLedgers (run : string * list arg → result (list Ledger * option Z)) (b : result FilterRequest)
| QUpdateLedger (id : option string) (b : result string)
| QCreateAccount (new_id : string) (now : time) (generated : option (result (string * string)))
    (b : result AccountRequest)
| QGetAccount (id : string) (q : url_Values)
| QGetAllAccounts (run : string * list arg → result (list Account)) (q : url_Values)
| QFilterAccounts (run : string * list arg → result (list Account * option Z)) (b : result FilterRequest)
| QCreateIdentity (generated : string) (now : time) (b : result Identity)
| QGetIdentity (id : option string)
| QUpdateIdentity (id : option string) (b : result Identity)
| QDeleteIdentity (id : option string)
| QGetAllIdentities (run : string * list arg → result (list Identity)) (q : url_Values)
| QFilterIdentities (run : string * list arg → result (list Identity * option Z)) (b : result FilterRequest)
| QTokenizeIdentityField (rand : result (list ascii)) (id field : option string)
| QDetokenizeIdentityField (id field : option string)
| QDetokenizeIdentity (id : option string) (b : result (list string))
| QGetTokenizedFields (id : option string)
| QUpdateMetadata (entityID : string) (b : result metadata).

(** The status of the reply, whatever its body. *)
Definition status_only {A} (m : P (reply_of A)) : P Z := λ s,
  let '(s, r) := m s in (s, r ← r; Ok (status_of r)).

Definition serve (rq : record_request) : P Z :=
  match rq with
  | QCreateBalance new_id now b => status_only (api_CreateBalance new_id now b)
  | QGetBalance id q => status_only (api_GetBalance id q)
  | QGetBalances run q => status_only (api_GetBalances run q)
  | QFilterBalances run b => status_only (api_FilterBalances run b)
  | QGetBalanceByIndicator i c => status_only (api_GetBalanceByIndicator i c)
  | QUpdateBalanceIdentity id b => status_only (api_UpdateBalanceIdentity id b)
  | QTakeBalanceSnapshots q => status_only (api_TakeBalanceSnapshots q)
  | QGetBalanceAtTime now id q => status_only (api_GetBalanceAtTime snaps now id q)
  | QCreateLedger new_id now b => status_only (api_CreateLedger new_id now b)
  | QGetLedger id => status_only (api_GetLedger id)
  | QGetAllLedgers run q => status_only (api_GetAllLedgers run q)
  | QFilterLedgers run b => status_only (api_FilterLedgers run b)
  | QUpdateLedger id b => status_only (api_UpdateLedger id b)
  | QCreateAccount new_id now generated b => status_only (api_CreateAccount new_id now generated b)
  | QGetAccount id q => status_only (api_GetAccount id q)
  | QGetAllAccounts run q => status_only (api_GetAllAccounts run q)
  | QFilterAccounts run b => status_only (api_FilterAccounts run b)
  | QCreateIdentity generated now b => status_only (api_CreateIdentity uuid_Parse generated now b)
  | QGetIdentity id => status_only (api_GetIdentity id)
  | QUpdateIdentity id b => status_only (api_UpdateIdentity id b)
  | QDeleteIdentity id => status_only (api_DeleteIdentity id)
  | QGetAllIdentities run q => status_only (api_GetAllIdentities run q)
  | QFilterIdentities run b => status_only (api_FilterIdentities run b)
  | QTokenizeIdentityField rand id field => status_only (api_TokenizeIdentityField tk rand id field)
  | QDetokenizeIdentityField id field => status_only (api_DetokenizeIdentityField tk json_text id field)
  | QDetokenizeIdentity id b => status_only (api_DetokenizeIdentity tk json_text id b)
  | QGetTokenizedFields id => status_only (api_GetTokenizedFields id)
  | QUpdateMetadata id b => status_only (api_UpdateMetadata id b)
  end.

(** Ids the server draws are not empty. *)
Definition drawn (rq : record_request) : Prop :=
  match rq with QCreateBalance new_id _ _ => new_id ≠ "" | _ => True end.

Definition served (m : P Z) : Prop := ∀ s, integrity s →
  integrity (m s).1 ∧ ∃ n, (m s).2 = Ok n ∧ (400 <= n → (m s).1 = s).

Lemma served_sound {A} (m : P (reply_of A)) : sound m → served (status_only m).
Proof.
  intros Hm s Hs. destruct (Hm s Hs) as (Hi & n & Hn & He). unfold status_only.
  destruct (m s) as [s' [r|e]]; [|done]. injection Hn as <-. split; [done|]. by exists (status_of r).
Qed.

Lemma sound_filtered {A C} sql (run : string * list arg → result (list A)) q limit offset
    (ok : list A → reply_of C) plain :
  (∀ l, status_of (ok l) < 400) → sound plain → sound (filtered_or sql run q limit offset ok plain).
Proof.
  intros Hok Hp. unfold filtered_or. case_goal; [|done].
  destruct (ParseFiltersFromContext q None) as [fs [|e es]]; [|apply sound_reply].
  apply sound_answer; [apply lift_ok|done].
Qed.

Lemma sound_filter_body {A C} table sql (run : string * list arg → result (list A * option Z)) b
    (ok : list A → option (option Z) → C) : sound (filter_body table sql run b ok).
Proof.
  unfold filter_body. match goal with |- sound (match ?r with _ => _ end) => destruct r as [[[[fs o] l] n]|e] end.
  - apply sound_answer; [apply lift_ok|]. by intros [l' c].
  - apply sound_refuse.
Qed.

#[local] Hint Resolve sound_reply sound_refuse sound_filter_body on_db_ok lift_ok create_identity_ok update_identity_ok
  tokenize_field_ok delete_identity_ok create_balance_ok get_balance_with_ok update_balance_identity_ok
  create_ledger_ok update_ledger_ok create_account_ok get_account_ok update_metadata_ok : records.

(** Reading identities changes nothing. *)
Lemma on_ids_read {A} (m : I A) : (∀ i, (m i).1 = i) → op_ok (on_ids m).
Proof.
  intros Hm. apply op_ok_read. intros s. unfold on_ids. specialize (Hm (st_identities s)).
  destruct (m (st_identities s)) as [i r]. cbn in *. subst i. by destruct s.
Qed.

Lemma detokenize_field_read id field i : (DetokenizeIdentityField tk json_text id field i).1 = i.
Proof. unfold DetokenizeIdentityField, mbind, prog_bind, GetIdentityByID, lift. by destruct (is_rows i !! id). Qed.

Lemma detokenize_fields_read id fields res i : (detokenize_fields tk json_text id fields res i).1 = i.
Proof.
  revert res. induction fields as [|f fields IH]; intros res; [done|]. cbn. unfold mbind, prog_bind.
  pose proof (detokenize_field_read id f i) as Hf.
  destruct (DetokenizeIdentityField tk json_text id f i) as [i' [v|e]]; cbn in Hf; subst i'; [apply IH|done].
Qed.

Lemma detokenize_each_read id fields res i : (detokenize_each tk json_text id fields res i).1 = i.
Proof.
  revert res. induction fields as [|[f b] fields IH]; intros res; [done|]. cbn. destruct b; [|apply IH].
  unfold mbind, prog_bind. pose proof (detokenize_field_read id f i) as Hf.
  destruct (DetokenizeIdentityField tk json_text id f i) as [i' [v|e]]; cbn in Hf; subst i'; [apply IH|done].
Qed.

Lemma DetokenizeIdentity_read id i : (DetokenizeIdentity tk json_text id i).1 = i.
Proof.
  unfold DetokenizeIdentity, mbind, prog_bind, GetIdentityByID. destruct (is_rows i !! id); [|done].
  apply detokenize_each_read.
Qed.

Lemma sound_invalid {C} message : sound (invalid (B := C) message).
Proof. apply sound_reply. Qed.

Lemma sound_body_errors {A C} (b : result A) (k : A → P (reply_of C)) :
  (∀ a, sound (k a)) → sound (with_body_errors b k).
Proof. intros Hk. destruct b; [apply Hk|apply sound_refuse]. Qed.

Lemma get_ledger_ok id : op_ok (GetLedgerByID id).
Proof. apply op_ok_read. intros s. unfold GetLedgerByID. by case_goal. Qed.

Lemma all_ledgers_ok limit offset : op_ok (GetAllLedgers limit offset).
Proof. apply op_ok_read. intros s. unfold GetAllLedgers. cbv zeta. by case_goal. Qed.

Lemma get_identity_ok id : op_ok (on_ids (GetIdentityByID id)).
Proof. by apply on_ids_read. Qed.

Lemma all_identities_ok : op_ok (on_ids GetAllIdentities).
Proof. by apply on_ids_read. Qed.

Lemma detokenize_field_ok id field : op_ok (on_ids (DetokenizeIdentityField tk json_text id field)).
Proof. apply on_ids_read, detokenize_field_read. Qed.

Lemma detokenize_fields_ok id fields :
  op_ok (on_ids (match fields with
                 | [] => DetokenizeIdentity tk json_text id
                 | _ => detokenize_fields tk json_text id fields ∅
                 end)).
Proof. apply on_ids_read. intros i. destruct fields; [apply DetokenizeIdentity_read|apply detokenize_fields_read]. Qed.

#[local] Hint Resolve sound_invalid get_ledger_ok all_ledgers_ok get_identity_ok all_identities_ok
  detokenize_field_ok detokenize_fields_ok : records.

#[local] Ltac solve_sound :=
  repeat first
    [ done
    | solve [auto with records]
    | apply sound_filtered
    | apply sound_body; intros ?
    | apply sound_body_errors; intros ?
    | apply sound_param; intros ?
    | apply sound_answer
    | progress intros
    | progress cbv zeta
    | case_goal ].


End requests.

(** ** On a concrete store *)

Definition ex_ledgers : store := empty_store <| st_ledgers := [mkLedger "ldg_1" "customers" 0 ∅] |>.

Lemma ex_integrity : integrity ex_ledgers.
Proof.
  split; [split|]; cbn.
  - apply NoDup_singleton.
  - constructor.
  - constructor.
  - by intros a Ha%elem_of_nil.
  - intros id b. by rewrite lookup_empty.
Qed.

Definition ex_balance (ledger identity : string) : CreateBalance :=
  mkCreateBalance ledger identity "USD" Float64.zero ∅ false "".

Definition ex_serve (rq : record_request) : store → store * result Z :=
  serve (λ _, true) sample_tk no_text [] rq.


(** The one request that may be answered with an error after a change:
    tokenizing several fields stops at the first that fails. *)
Lemma tokenize_partial :
  let s := ex_ledgers <| st_identities := sample_store |> in
  let '(s', r) := api_TokenizeIdentity sample_tk (Some "idt_ada")
                    (Ok [("FirstName", sample_rand 0); ("Nickname", sample_rand 1)]) s in
  status r = Some 400
  ∧ (λ i, String.eqb (i_FirstName i) "Ada") <$> is_rows (st_identities s') !! "idt_ada" = Some false.
Proof. by vm_compute. Qed.

Definition ex_no_identity : store := (ex_serve (QCreateBalance "bln_1" 5 (Ok (ex_balance "ldg_1" ""))) ex_ledgers).1.

(** A balance without an identity cannot be read together with it. *)
Lemma no_identity_to_include :
  (ex_serve (QGetBalance (Some "bln_1") ∅) ex_no_identity).2 = Ok 200
  ∧ (ex_serve (QGetBalance (Some "bln_1") {["include" := ["identity"]]}) ex_no_identity).2 = Ok 500.
Proof. by vm_compute. Qed.

(** Where the marks are no object the reply holds the whole metadata. *)
Lemma tokenized_fields_debug i s md :
  is_rows (st_identities s) !! "idt_1" = Some i → i_MetaData i = Some md →
  md !! "tokenized_fields" = Some (GJson MNil) →
  (api_GetTokenizedFields (Some "idt_1") s).2 = Ok (Answered 200 ([], Some md)).
Proof.
  intros Hi Hm Ht. unfold api_GetTokenizedFields, with_identity, with_param, answer, on_ids, GetIdentityByID.
  rewrite Hi. cbn. rewrite Hm. cbn. by rewrite Ht.
Qed.

(** A strict listing of balances has no largest page. *)
Lemma any_page_size d : is_ok (GetAllBalances d (2 ^ 62) 0) = true ∧ at_least 1 "4611686018427387904" = Some (2 ^ 62).
Proof. split; [done|by vm_compute]. Qed.

End RecordsApi.
