(* ===== verification/Hooks.v ===== *)
(** * Hooks

    [internal/hooks/] and [api/hooks.go]: webhooks that users register for the
    start and the end of a transaction.  A hook is a value in Redis and a member
    of the set of its type; running hooks puts a task for each on a queue, and
    the worker posts it, signed, and writes the outcome back.  What becomes of
    each Redis command and of each request is drawn from the environment.
    Logging is left out. *)

From S2P Require Import Prelude Types Time Encoding Aes ApiErrors.

Module Hooks.

Import Encoding Aes ApiErrors.

(** ** Data *)

Abbreviation HookType := string.
Definition PreTransaction : HookType := "PRE_TRANSACTION".
Definition PostTransaction : HookType := "POST_TRANSACTION".

Record Hook := mkHook {
  hk_ID : string;
  hk_Name : string;
  hk_URL : string;
  hk_Type : HookType;
  hk_Active : bool;
  hk_Timeout : Z;
  hk_RetryCount : Z;
  hk_CreatedAt : time;
  hk_LastRun : time;
  hk_LastSuccess : bool;
}.
#[global] Instance Hook_eta : Eta Hook := λ h,
  mkHook (hk_ID h) (hk_Name h) (hk_URL h) (hk_Type h) (hk_Active h) (hk_Timeout h) (hk_RetryCount h)
    (hk_CreatedAt h) (hk_LastRun h) (hk_LastSuccess h).

(** [hp_Data] is the JSON text of what the hook is about. *)
Record HookPayload := mkPayload {
  hp_TransactionID : string;
  hp_HookType : HookType;
  hp_Timestamp : time;
  hp_Data : string;
}.

(** A task on the webhook queue, with the retries it is allowed. *)
Record hook_task := mkTask {
  ht_Hook : Hook;
  ht_Payload : HookPayload;
  ht_MaxRetry : Z;
}.
#[global] Instance hook_task_eta : Eta hook_task := λ t, mkTask (ht_Hook t) (ht_Payload t) (ht_MaxRetry t).

Definition hookKeyPrefix : string := "hooks:".
Definition preHookKeyPrefix : string := "hooks:pre".
Definition postHookKeyPrefix : string := "hooks:post".
Definition maxHookRetryCount : Z := 10.

Definition hook_key (id : string) : string := hookKeyPrefix +:+ ":" +:+ id.

Definition getTypeKey (hookType : HookType) : string :=
  if String.eqb hookType PreTransaction then preHookKeyPrefix
  else if String.eqb hookType PostTransaction then postHookKeyPrefix
  else hookKeyPrefix.

(** A set is listed in an order of its own. *)
Class RedisSet := {
  SMembers : gset string → list string;
  SMembers_perm : ∀ X, SMembers X ≡ₚ elements X;
}.
#[export] Program Instance sorted_set : RedisSet := {| SMembers := elements |}.
Next Obligation. done. Qed.

(** What becomes of a command: done, refused, or done with its reply lost. *)
Inductive outcome :=
| Done
| Refused (e : error)
| Lost (e : error).

(** The two kinds of keys never meet ([type_key_no_hook]). *)
Record hstore := mkStore {
  hs_hooks : gmap string Hook;
  hs_sets : gmap string (gset string);
  hs_tasks : list hook_task;
  hs_notified : list error;
  hs_ahead : list outcome;       (* of the next commands; all the others are done *)
}.
#[global] Instance hstore_eta : Eta hstore := λ s,
  mkStore (hs_hooks s) (hs_sets s) (hs_tasks s) (hs_notified s) (hs_ahead s).

Abbreviation H := (prog hstore).

Definition command {A} (reply : hstore → A) (effect : hstore → hstore) : H A := λ s,
  match hs_ahead s with
  | [] => (effect s, Ok (reply s))
  | o :: ahead =>
      let s := s <| hs_ahead := ahead |> in
      match o with
      | Done => (effect s, Ok (reply s))
      | Refused e => (s, Err e)
      | Lost e => (effect s, Err e)
      end
  end.

Definition members (s : hstore) (typeKey : string) : gset string := default ∅ (hs_sets s !! typeKey).

Definition SET (id : string) (h : Hook) : H unit :=
  command (λ _, tt) (λ s, s <| hs_hooks := <[hook_key id := h]> (hs_hooks s) |>).
Definition GET (id : string) : H (option Hook) := command (λ s, hs_hooks s !! hook_key id) (λ s, s).
Definition DEL (id : string) : H unit :=
  command (λ _, tt) (λ s, s <| hs_hooks := delete (hook_key id) (hs_hooks s) |>).
Definition set_members (typeKey : string) (f : gset string → gset string) (s : hstore) : hstore :=
  s <| hs_sets := <[typeKey := f (members s typeKey)]> (hs_sets s) |>.
Definition SADD (typeKey id : string) : H unit :=
  command (λ _, tt) (set_members typeKey (λ X, {[id]} ∪ X)).
Definition SREM (typeKey id : string) : H unit :=
  command (λ _, tt) (set_members typeKey (λ X, X ∖ {[id]})).

(** [r, err := m], whatever it is. *)
Definition attempt {S A} (m : prog S A) : prog S (result A) := λ s, let '(s, r) := m s in (s, Ok r).

(** ** manager.go *)

Definition validateHook (hook : Hook) : result Hook :=
  if String.eqb (hk_URL hook) "" then Err (ENew "hook URL is required")
  else if negb (String.eqb (hk_Type hook) PreTransaction) && negb (String.eqb (hk_Type hook) PostTransaction)
  then Err (ENew ("invalid hook type: " +:+ hk_Type hook))
  else
    let hook := if hk_Timeout hook <=? 0 then hook <| hk_Timeout := 30 |> else hook in
    let hook := if hk_RetryCount hook <? 0 then hook <| hk_RetryCount := 3 |> else hook in
    Ok (if maxHookRetryCount <? hk_RetryCount hook
        then hook <| hk_RetryCount := maxHookRetryCount |> else hook).

Section manager.
Context `{RedisSet}.

Definition not_found (hookID : string) : error := ENew ("hook not found: " +:+ hookID).

(** The hook is given back as it is stored. *)
Definition RegisterHook (new_id : string) (now : time) (hook : Hook) : H Hook :=
  let hook := if String.eqb (hk_ID hook) "" then hook <| hk_ID := new_id |> else hook in
  let hook := hook <| hk_CreatedAt := now |> in
  hook ← lift (validateHook hook);
  _ ← ctx_err "failed to store hook" (SET (hk_ID hook) hook);
  _ ← ctx_err "failed to add hook to type set" (SADD (getTypeKey (hk_Type hook)) (hk_ID hook));
  mret hook.

Definition GetHook (hookID : string) : H Hook :=
  data ← GET hookID;
  match data with Some hook => mret hook | None => raise (not_found hookID) end.

Definition change_type (hookID : string) (old new : HookType) : H unit :=
  if String.eqb old new then mret tt
  else _ ← SREM (getTypeKey old) hookID; SADD (getTypeKey new) hookID.

Definition UpdateHook (hookID : string) (hook : Hook) : H Hook :=
  existing ← map_err (λ _, not_found hookID) (GetHook hookID);
  let hook := hook <| hk_ID := hk_ID existing |> <| hk_CreatedAt := hk_CreatedAt existing |>
                   <| hk_LastRun := hk_LastRun existing |> <| hk_LastSuccess := hk_LastSuccess existing |> in
  _ ← change_type hookID (hk_Type existing) (hk_Type hook);
  _ ← SET hookID hook;
  mret hook.

(** Both commands of a pipeline are sent; the first error is its error. *)
Definition DeleteHook (hookID : string) : H unit :=
  hook ← GetHook hookID;
  r1 ← attempt (DEL hookID);
  r2 ← attempt (SREM (getTypeKey (hk_Type hook)) hookID);
  _ ← lift r1; lift r2.

(** A hook that cannot be read is passed over. *)
Fixpoint get_hooks (ids : list string) : H (list Hook) :=
  match ids with
  | [] => mret []
  | id :: ids =>
      r ← attempt (GetHook id);
      hooks ← get_hooks ids;
      mret (match r with Ok hook => hook :: hooks | Err _ => hooks end)
  end.

Definition ListHooks (hookType : HookType) : H (list Hook) :=
  ids ← command (λ s, SMembers (members s (getTypeKey hookType))) (λ s, s);
  get_hooks ids.

Definition queueHook (hook : Hook) (payload : HookPayload) : H unit :=
  ctx_err "failed to enqueue hook task"
    (command (λ _, tt)
       (λ s, s <| hs_tasks := hs_tasks s ++ [mkTask hook payload (Z.max 0 (hk_RetryCount hook))] |>)).

Definition NotifyError (e : error) : H unit := λ s, (s <| hs_notified := hs_notified s ++ [e] |>, Ok tt).

Fixpoint queue_hooks (hooks : list Hook) (payload : HookPayload) : H unit :=
  match hooks with
  | [] => mret tt
  | hook :: hooks =>
      _ ← (if hk_Active hook then
             r ← attempt (queueHook hook payload);
             match r with
             | Ok _ => mret tt
             | Err e => NotifyError (EWrap ("failed to queue hook execution for hook " +:+ hk_ID hook) e)
             end
           else mret tt);
      queue_hooks hooks payload
  end.

(** [data] is what [json.Marshal] makes of the transaction. *)
Definition ExecuteHooks (now : time) (hooks : list Hook) (hookType : HookType) (transactionID : string)
    (data : result string) : H unit :=
  dataBytes ← ctx_err "failed to marshal hook data" (lift data);
  queue_hooks hooks (mkPayload transactionID hookType now dataBytes).

Definition ExecutePreHooks (now : time) (transactionID : string) (data : result string) : H unit :=
  hooks ← ListHooks PreTransaction; ExecuteHooks now hooks PreTransaction transactionID data.
Definition ExecutePostHooks (now : time) (transactionID : string) (data : result string) : H unit :=
  hooks ← ListHooks PostTransaction; ExecuteHooks now hooks PostTransaction transactionID data.

End manager.

(** ** client.go and worker.go *)

Record http_request := mkRequest {
  rq_URL : string;
  rq_Body : string;
  rq_Headers : list (string * string);
}.

(** A body as [json.Valid] and [json.Unmarshal] see it. *)
Inductive hook_body :=
| BEmpty
| BText (text : string)
| BMisfit (e : error)                         (* JSON, but no [HookResponse] *)
| BResponse (success : bool) (message : string).

(** [Unsent] with the error of the context, where there is one. *)
Inductive http_result :=
| Unsent (e : error) (ctx : option error)
| Unread (e : error)
| Replied (status : Z) (body : hook_body).

Definition DeadlineExceeded : error := ENew "context deadline exceeded".

Section client.
Context (marshal : HookPayload → result string).   (* json.Marshal *)
Context (valid_url : string → result unit).        (* http.NewRequest *)
Context (secret : option string).                  (* the key, once the configuration is there *)

Definition updateHookStatus (now : time) (hook : Hook) (success : bool) : H unit :=
  SET (hk_ID hook) (hook <| hk_LastRun := now |> <| hk_LastSuccess := success |>).

Definition unix_second (t : time) : Z := (t - 62135596800 * Time.second) / Time.second.

Definition hook_signature (secret timestamp payload : string) : string :=
  hex_of (hmac_sha256 (list_ascii_of_string secret)
            (list_ascii_of_string (timestamp +:+ "." +:+ payload))).

Definition hook_request (secret : string) (now : time) (hook : Hook) (payload : string) : http_request :=
  let timestamp := Z_to_string (unix_second now) in
  mkRequest (hk_URL hook) payload
    [("Content-Type", "application/json");
     ("X-Blnk-Signature", hook_signature secret timestamp payload); ("X-Blnk-Timestamp", timestamp);
     ("X-Hook-ID", hk_ID hook); ("X-Hook-Type", hk_Type hook)].

Definition ok_status (status : Z) : bool := (200 <=? status) && (status <? 300).

(** What is made of the reply. *)
Definition verdict (r : http_result) : result unit :=
  match r with
  | Unsent e (Some ctx) => Err ctx
  | Unsent e None => Err (EWrap "failed to execute request" e)
  | Unread e => Err (EWrap "failed to read response body" e)
  | Replied status BEmpty =>
      if ok_status status then Ok tt
      else Err (ENew ("hook returned empty response with status " +:+ Z_to_string status))
  | Replied status (BText text) =>
      if ok_status status then Ok tt
      else if 400 <=? status
      then Err (ENew ("hook returned non-JSON error response (status " +:+ Z_to_string status +:+ "): " +:+ text))
      else Ok tt
  | Replied status (BMisfit e) =>
      if 400 <=? status then Err (EWrap "invalid JSON error response" e) else Ok tt
  | Replied _ (BResponse success message) =>
      if success then Ok tt else Err (ENew ("hook execution failed: " +:+ message))
  end.

(** [send] is the network, within the timeout of the hook.  A status that
    cannot be written is no error. *)
Definition executeHook (send : http_request → http_result) (now : time) (hook : Hook)
    (payload : HookPayload) : H unit :=
  payloadBytes ← ctx_err "failed to marshal payload" (lift (marshal payload));
  match secret with
  | None => raise (ENew "config is not initialized")
  | Some secret =>
      _ ← ctx_err "failed to create request" (lift (valid_url (hk_URL hook)));
      let r := verdict (send (hook_request secret now hook payloadBytes)) in
      _ ← attempt (updateHookStatus now hook (is_ok r));
      lift r
  end.

(** A context whose time is over stops the request before it is sent. *)
Definition within (timeout : Z) (send : http_request → http_result) : http_request → http_result := λ rq,
  if timeout <=? 0 then Unsent DeadlineExceeded (Some DeadlineExceeded) else send rq.

(** [time.Duration(n) * time.Second] is an [int64]. *)
Definition int64_of (n : Z) : Z := (n + 2 ^ 63) mod 2 ^ 64 - 2 ^ 63.
Definition timeout_of (hook : Hook) : Z := int64_of (hk_Timeout hook * Time.second).

Definition ProcessHookTask (send : http_request → http_result) (now : time) (task : hook_task) : H unit :=
  let hook := ht_Hook task in
  executeHook (within (timeout_of hook) send) now hook (ht_Payload task).

(** The worker takes a task off the queue and puts a failed one back while it has
    retries left. *)
Definition work (i : nat) (send : http_request → http_result) (now : time) : H unit := λ s,
  match hs_tasks s !! i with
  | None => (s, Ok tt)
  | Some task =>
      let '(s, r) := ProcessHookTask send now task (s <| hs_tasks := delete i (hs_tasks s) |>) in
      (match r with
       | Ok _ => s
       | Err _ => if 0 <? ht_MaxRetry task
                  then s <| hs_tasks := hs_tasks s ++ [task <| ht_MaxRetry := ht_MaxRetry task - 1 |>] |>
                  else s
       end, r)
  end.

End client.

(** ** api/hooks.go *)

Section api.
Context `{RedisSet}.
Context (json_value : error → metaval).            (* an error as JSON *)

Inductive hook_reply :=
| HFailed (r : error_response)
| HHook (status : Z) (h : Hook)
| HHooks (l : list Hook)
| HMessage (message : string).

Definition hookFailureCode (e : error) : ErrorCode :=
  match classifyMessage (error_text e) with
  | Some code => if StatusForCode code =? 404 then "HOOK_NOT_FOUND" else "HOOK_OPERATION_FAILED"
  | None => "HOOK_OPERATION_FAILED"
  end.

Definition ensureHookManagementAuthorized (isMaster : bool) (k : H hook_reply) : H hook_reply :=
  if isMaster then k
  else mret (HFailed (respondCode "AUTH_MASTER_KEY_REQUIRED" "hook management requires master key" None [])).

Definition bare (legacy message : string) (e : error) (code : ErrorCode) : hook_reply :=
  HFailed (respondBareAPIError (legacy, message) (Some (json_value e)) code).

Definition hook_answer {A} (legacy message : string) (code : error → ErrorCode) (m : H A)
    (ok : A → hook_reply) : H hook_reply :=
  r ← attempt m;
  mret (match r with Ok a => ok a | Err e => bare legacy message e (code e) end).

Definition hook_body_of (b : result Hook) (k : Hook → H hook_reply) : H hook_reply :=
  match b with
  | Ok hook => k hook
  | Err e => mret (bare "INVALID_INPUT" "invalid hook data" e "HOOK_INVALID")
  end.

Definition api_RegisterHook (isMaster : bool) (new_id : string) (now : time) (b : result Hook) : H hook_reply :=
  ensureHookManagementAuthorized isMaster (hook_body_of b (λ hook,
    hook_answer "INVALID_INPUT" "failed to register hook" (λ _, "HOOK_OPERATION_FAILED")
      (RegisterHook new_id now hook) (HHook 201))).

Definition api_UpdateHook (isMaster : bool) (hookID : string) (b : result Hook) : H hook_reply :=
  ensureHookManagementAuthorized isMaster (hook_body_of b (λ hook,
    hook_answer "INVALID_INPUT" "failed to update hook" hookFailureCode (UpdateHook hookID hook) (HHook 200))).

Definition api_GetHook (isMaster : bool) (hookID : string) : H hook_reply :=
  ensureHookManagementAuthorized isMaster
    (hook_answer "NOT_FOUND" "hook not found" (λ _, "HOOK_NOT_FOUND") (GetHook hookID) (HHook 200)).

Definition api_ListHooks (isMaster : bool) (hookType : HookType) : H hook_reply :=
  ensureHookManagementAuthorized isMaster
    (hook_answer "INVALID_INPUT" "failed to list hooks" (λ _, "HOOK_OPERATION_FAILED")
       (ListHooks hookType) HHooks).

Definition api_DeleteHook (isMaster : bool) (hookID : string) : H hook_reply :=
  ensureHookManagementAuthorized isMaster
    (hook_answer "INVALID_INPUT" "failed to delete hook" hookFailureCode (DeleteHook hookID)
       (λ _, HMessage "hook deleted successfully")).

End api.

(** ** Keys *)

Lemma hook_key_inj : Inj (=) (=) hook_key.
Proof. intros id id' E. unfold hook_key, hookKeyPrefix in E. cbn in E. by injection E. Qed.
#[local] Existing Instance hook_key_inj.

Lemma type_key_no_hook T id : getTypeKey T ≠ hook_key id.
Proof. unfold getTypeKey. by repeat case_goal. Qed.

Definition stored (s : hstore) (id : string) : option Hook := hs_hooks s !! hook_key id.

(** ** What a command does *)

Lemma command_Ok {A} (reply : hstore → A) effect s s' a :
  command reply effect s = (s', Ok a) →
  ∃ ahead, s' = effect (s <| hs_ahead := ahead |>) ∧ a = reply (s <| hs_ahead := ahead |>).
Proof.
  unfold command. destruct (hs_ahead s) as [|[] ahead] eqn:Ea; intros [= <- <-].
  - exists []. rewrite <- Ea. by destruct s.
  - by exists ahead.
Qed.

(** The registry: all but the tasks and the environment. *)
Definition registry (s : hstore) := (hs_hooks s, hs_sets s).

Lemma stored_registry s s' id : registry s' = registry s → stored s' id = stored s id.
Proof. unfold stored. by intros [= -> _]. Qed.
Lemma members_registry s s' k : registry s' = registry s → members s' k = members s k.
Proof. unfold members. by intros [= _ ->]. Qed.

Lemma read_registry {A} (reply : hstore → A) s : registry (command reply (λ s, s) s).1 = registry s.
Proof. unfold command. by destruct (hs_ahead s) as [|[] ahead]. Qed.

Lemma GetHook_registry id s : registry (GetHook id s).1 = registry s.
Proof.
  unfold GetHook, mbind, prog_bind, GET. pose proof (read_registry (λ s, hs_hooks s !! hook_key id) s) as Hr.
  destruct (command _ _ s) as [s1 [[h|]|e]]; exact Hr.
Qed.

Lemma GetHook_Ok id s s' h : GetHook id s = (s', Ok h) → registry s' = registry s ∧ stored s id = Some h.
Proof.
  intros Hg. split; [by rewrite <- (GetHook_registry id s), Hg|].
  apply prog_bind_Ok in Hg as (s1 & d & Hc & Hg). apply command_Ok in Hc as (ahead & -> & ->).
  unfold stored. cbn in Hg. destruct (hs_hooks s !! _); [|done]. by injection Hg as _ <-.
Qed.

Lemma SET_Ok id h s s' u : SET id h s = (s', Ok u) →
  (∀ id', stored s' id' = if String.eqb id' id then Some h else stored s id')
  ∧ ∀ k, members s' k = members s k.
Proof.
  intros (ahead & -> & _)%command_Ok. split; [|done]. intros id'. unfold stored. cbn.
  destruct (String.eqb_spec id' id) as [->|Hne]; [by rewrite lookup_insert_eq|].
  rewrite lookup_insert_ne; [done|]. intros E%hook_key_inj. congruence.
Qed.

Lemma DEL_Ok id s s' u : DEL id s = (s', Ok u) →
  (∀ id', stored s' id' = if String.eqb id' id then None else stored s id')
  ∧ ∀ k, members s' k = members s k.
Proof.
  intros (ahead & -> & _)%command_Ok. split; [|done]. intros id'. unfold stored. cbn.
  destruct (String.eqb_spec id' id) as [->|Hne]; [by rewrite lookup_delete_eq|].
  rewrite lookup_delete_ne; [done|]. intros E%hook_key_inj. congruence.
Qed.

Lemma set_members_spec typeKey f s :
  (∀ id, stored (set_members typeKey f s) id = stored s id)
  ∧ ∀ k, members (set_members typeKey f s) k
         = if String.eqb k typeKey then f (members s typeKey) else members s k.
Proof.
  split; [done|]. intros k. unfold members, set_members. cbn.
  destruct (String.eqb_spec k typeKey) as [->|Hne]; [by rewrite lookup_insert_eq|].
  by rewrite lookup_insert_ne by congruence.
Qed.

Lemma SADD_Ok k0 id s s' u : SADD k0 id s = (s', Ok u) →
  (∀ id', stored s' id' = stored s id')
  ∧ ∀ k, members s' k = if String.eqb k k0 then {[id]} ∪ members s k0 else members s k.
Proof. intros (ahead & -> & _)%command_Ok. exact (set_members_spec k0 (λ X, {[id]} ∪ X) (s <| hs_ahead := ahead |>)). Qed.

Lemma SREM_Ok k0 id s s' u : SREM k0 id s = (s', Ok u) →
  (∀ id', stored s' id' = stored s id')
  ∧ ∀ k, members s' k = if String.eqb k k0 then members s k0 ∖ {[id]} else members s k.
Proof. intros (ahead & -> & _)%command_Ok. exact (set_members_spec k0 (λ X, X ∖ {[id]}) (s <| hs_ahead := ahead |>)). Qed.

Lemma attempt_Ok {S A} (m : prog S A) s s' r : attempt m s = (s', Ok r) → m s = (s', r).
Proof. unfold attempt. destruct (m s). by intros [= <- <-]. Qed.

(** ** The sets list the hooks *)

(** Every hook is stored under its id, and is a member of the set of its type
    and of no other. *)
Record consistent (s : hstore) : Prop := {
  co_id : ∀ id h, stored s id = Some h → hk_ID h = id;
  co_listed : ∀ k id, id ∈ members s k ↔ ∃ h, stored s id = Some h ∧ getTypeKey (hk_Type h) = k;
}.

Lemma consistent_registry s s' : registry s' = registry s → consistent s → consistent s'.
Proof.
  intros Hr [C1 C2]. split; intros *.
  - rewrite (stored_registry s s') by done. apply C1.
  - rewrite (members_registry s s'), (stored_registry s s') by done. apply C2.
Qed.

(** A hook is written: it is new, or of the type it had. *)
Lemma consistent_written s s' id h :
  consistent s → hk_ID h = id →
  (∀ id', stored s' id' = if String.eqb id' id then Some h else stored s id') →
  (∀ k id', id' ∈ members s' k ↔ if String.eqb id' id then k = getTypeKey (hk_Type h) else id' ∈ members s k) →
  consistent s'.
Proof.
  intros [C1 C2] Hid Hs Hm. split.
  - intros id' h'. rewrite Hs. destruct (String.eqb_spec id' id) as [->|Hne]; [by intros [= <-]|apply C1].
  - intros k id'. rewrite Hm, Hs. destruct (String.eqb_spec id' id) as [->|Hne]; [|apply C2]. naive_solver.
Qed.

Lemma consistent_empty : consistent (mkStore ∅ ∅ [] [] []).
Proof. split; intros *; unfold stored, members; cbn; rewrite ?lookup_empty; set_solver. Qed.

Lemma validateHook_Ok h h' : validateHook h = Ok h' →
  hk_ID h' = hk_ID h ∧ hk_Type h' = hk_Type h ∧ hk_URL h' ≠ "" ∧ hk_CreatedAt h' = hk_CreatedAt h
  ∧ (hk_Type h' = PreTransaction ∨ hk_Type h' = PostTransaction)
  ∧ 0 < hk_Timeout h' ∧ 0 <= hk_RetryCount h' <= maxHookRetryCount.
Proof.
  unfold validateHook, maxHookRetryCount. destruct (String.eqb_spec (hk_URL h) ""); [done|].
  destruct (String.eqb_spec (hk_Type h) PreTransaction), (String.eqb_spec (hk_Type h) PostTransaction);
    cbn [negb andb]; intros [= <-];
    destruct (Z.leb_spec (hk_Timeout h) 0), (Z.ltb_spec (hk_RetryCount h) 0); cbn;
    repeat case_goal; zbool; cbn; split_and!; first [done|lia|by left|by right].
Qed.

(** The set of a type that a hook may be written under. *)
Definition same_type (s : hstore) (id : string) (T : HookType) : Prop :=
  ∀ h, stored s id = Some h → getTypeKey (hk_Type h) = getTypeKey T.

Lemma RegisterHook_Ok new_id now hook s s' h :
  RegisterHook new_id now hook s = (s', Ok h) →
  hk_ID h = (if String.eqb (hk_ID hook) "" then new_id else hk_ID hook) ∧ hk_Type h = hk_Type hook
  ∧ (hk_Type h = PreTransaction ∨ hk_Type h = PostTransaction) ∧ hk_URL h ≠ ""
  ∧ 0 < hk_Timeout h ∧ 0 <= hk_RetryCount h <= maxHookRetryCount
  ∧ (∀ id, stored s' id = if String.eqb id (hk_ID h) then Some h else stored s id)
  ∧ ∀ k, members s' k = if String.eqb k (getTypeKey (hk_Type h)) then {[hk_ID h]} ∪ members s k else members s k.
Proof.
  unfold RegisterHook. cbv zeta. intros Hm.
  apply prog_bind_Ok in Hm as (s1 & h1 & Hv & Hm). unfold lift in Hv. injection Hv as <- Hv.
  apply validateHook_Ok in Hv as (Hid & HT & Hu & _ & Ht & Hto & Hre).
  apply prog_bind_Ok in Hm as (s2 & u & Hset%map_err_Ok & Hm). apply SET_Ok in Hset as [S1 M1].
  apply prog_bind_Ok in Hm as (s3 & u' & Hadd%map_err_Ok & Hm). apply SADD_Ok in Hadd as [S2 M2].
  injection Hm as <- <-. split_and!; try done; try lia.
  - rewrite Hid. by destruct (String.eqb (hk_ID hook) "").
  - rewrite HT. by destruct (String.eqb (hk_ID hook) "").
  - intros id. by rewrite S2, S1.
  - intros k. rewrite M2, !M1. by destruct (String.eqb_spec k (getTypeKey (hk_Type h1))) as [->|].
Qed.

Lemma consistent_register new_id now hook s s' h :
  consistent s → RegisterHook new_id now hook s = (s', Ok h) → same_type s (hk_ID h) (hk_Type h) →
  consistent s'.
Proof.
  intros C Hr Hsame. apply RegisterHook_Ok in Hr as (_ & _ & _ & _ & _ & _ & Hs & Hm).
  apply (consistent_written s s' (hk_ID h) h C eq_refl Hs).
  intros k id. rewrite Hm. destruct (String.eqb_spec id (hk_ID h)) as [->|Hne];
    destruct (String.eqb_spec k (getTypeKey (hk_Type h))) as [->|Hk]; try set_solver.
  split; [|done]. intros (h' & Hh & <-)%(co_listed _ C). by destruct Hk, (Hsame h' Hh).
Qed.

Lemma change_type_Ok id old new s s' u :
  change_type id old new s = (s', Ok u) →
  (∀ id', stored s' id' = stored s id')
  ∧ ∀ k id', id' ∈ members s' k ↔
      if String.eqb old new then id' ∈ members s k
      else (k = getTypeKey new ∧ id' = id)
           ∨ (id' ∈ members s k ∧ ¬ (k = getTypeKey old ∧ id' = id)).
Proof.
  unfold change_type. destruct (String.eqb old new); [by intros [= <- _]|].
  intros Hm. apply prog_bind_Ok in Hm as (s1 & u1 & Hrem & Hadd).
  apply SREM_Ok in Hrem as [S1 M1]. apply SADD_Ok in Hadd as [S2 M2].
  split; [intros id'; by rewrite S2, S1|]. intros k id'. rewrite M2, !M1.
  destruct (String.eqb_spec k (getTypeKey new)) as [->|Hk].
  - destruct (String.eqb_spec (getTypeKey new) (getTypeKey old)) as [<-|]; set_solver.
  - destruct (String.eqb_spec k (getTypeKey old)) as [->|]; set_solver.
Qed.

Lemma UpdateHook_Ok id hook s s' h :
  UpdateHook id hook s = (s', Ok h) →
  ∃ old, stored s id = Some old
    ∧ h = hook <| hk_ID := hk_ID old |> <| hk_CreatedAt := hk_CreatedAt old |>
               <| hk_LastRun := hk_LastRun old |> <| hk_LastSuccess := hk_LastSuccess old |>
    ∧ (∀ id', stored s' id' = if String.eqb id' id then Some h else stored s id')
    ∧ ∀ k id', id' ∈ members s' k ↔
        if String.eqb (hk_Type old) (hk_Type h) then id' ∈ members s k
        else (k = getTypeKey (hk_Type h) ∧ id' = id)
             ∨ (id' ∈ members s k ∧ ¬ (k = getTypeKey (hk_Type old) ∧ id' = id)).
Proof.
  unfold UpdateHook. intros Hm.
  apply prog_bind_Ok in Hm as (s1 & old & Hg%map_err_Ok & Hm). cbv zeta in Hm.
  apply GetHook_Ok in Hg as [Hr Ho].
  apply prog_bind_Ok in Hm as (s2 & u & Hc & Hm). apply change_type_Ok in Hc as [S2 M2].
  apply prog_bind_Ok in Hm as (s3 & u' & Hset & Hm). apply SET_Ok in Hset as [S3 M3].
  injection Hm as <- <-. exists old. split_and!; [done|done| |].
  - intros id'. by rewrite S3, S2, (stored_registry s s1).
  - intros k id'. rewrite M3, M2, !(members_registry s s1) by done. done.
Qed.

Lemma consistent_update id hook s s' h :
  consistent s → UpdateHook id hook s = (s', Ok h) → consistent s'.
Proof.
  intros C Hu. apply UpdateHook_Ok in Hu as (old & Ho & Hh & Hs & Hm).
  assert (hk_ID h = id) as Hid by (rewrite Hh; exact (co_id _ C _ _ Ho)).
  apply (consistent_written s s' id h C Hid Hs). intros k id'. rewrite Hm.
  destruct (String.eqb_spec id' id) as [->|Hne].
  - destruct (String.eqb_spec (hk_Type old) (hk_Type h)) as [<-|Ht]; rewrite (co_listed _ C); [naive_solver|].
    split; [intros [[-> _]|[(h' & Hh' & <-) Hn]]; [done|]|by left]. destruct Hn. naive_solver.
  - destruct (String.eqb _ _); [done|]. naive_solver.
Qed.

Lemma consistent_delete id s s' u : consistent s → DeleteHook id s = (s', Ok u) → consistent s'.
Proof.
  intros C Hm. unfold DeleteHook in Hm.
  apply prog_bind_Ok in Hm as (s1 & h & Hg & Hm). apply GetHook_Ok in Hg as [Hr Hh].
  apply prog_bind_Ok in Hm as (s2 & r1 & H1%attempt_Ok & Hm).
  apply prog_bind_Ok in Hm as (s3 & r2 & H2%attempt_Ok & Hm).
  apply prog_bind_Ok in Hm as (s4 & u1 & E1 & E2). unfold lift in E1, E2. injection E1 as <- ->. injection E2 as <- ->.
  apply DEL_Ok in H1 as [S1 M1]. apply SREM_Ok in H2 as [S2 M2].
  apply (consistent_registry s s1 Hr) in C. rewrite <- (stored_registry s s1 id Hr) in Hh. destruct C as [C1 C2].
  split.
  - intros id' h'. rewrite S2, S1. destruct (String.eqb_spec id' id); [done|apply C1].
  - intros k id'. rewrite M2, !M1, S2, S1.
    destruct (String.eqb_spec k (getTypeKey (hk_Type h))) as [->|Hk].
    + rewrite elem_of_difference, C2. destruct (String.eqb_spec id' id) as [->|Hne]; set_solver.
    + rewrite C2. destruct (String.eqb_spec id' id) as [->|Hne]; [|done]. naive_solver.
Qed.

(** *** Listing and queueing *)

Section listing.
Context `{RedisSet}.

Lemma get_hooks_registry ids s : registry (get_hooks ids s).1 = registry s.
Proof.
  revert s. induction ids as [|id ids IH]; intros s; [done|]. cbn [get_hooks]. unfold mbind, prog_bind.
  unfold attempt at 1. pose proof (GetHook_registry id s) as Hr. destruct (GetHook id s) as [s1 r].
  specialize (IH s1). destruct (get_hooks ids s1) as [s2 [l|e]]; cbn in *; congruence.
Qed.

Lemma ListHooks_registry T s : registry (ListHooks T s).1 = registry s.
Proof.
  unfold ListHooks, mbind, prog_bind.
  pose proof (read_registry (λ s, SMembers (members s (getTypeKey T))) s) as Hr.
  destruct (command _ _ s) as [s1 [ids|e]]; [|exact Hr]. by rewrite get_hooks_registry.
Qed.

Lemma queue_hooks_registry hooks p s : registry (queue_hooks hooks p s).1 = registry s.
Proof.
  revert s. induction hooks as [|h hooks IH]; intros s; [done|]. cbn [queue_hooks]. unfold mbind, prog_bind.
  destruct (hk_Active h); [|apply IH]. unfold attempt.
  assert (registry (queueHook h p s).1 = registry s) as Hq.
  { unfold queueHook, ctx_err. rewrite map_err_state. unfold command.
    by destruct (hs_ahead s) as [|[] ahead]. }
  destruct (queueHook h p s) as [s1 [u|e]]; cbn in Hq |- *; by rewrite IH.
Qed.

Lemma queue_hooks_total hooks p s : is_ok (queue_hooks hooks p s).2 = true.
Proof.
  revert s. induction hooks as [|h hooks IH]; intros s; [done|]. cbn [queue_hooks]. unfold mbind, prog_bind.
  destruct (hk_Active h); [|apply IH]. unfold attempt. destruct (queueHook h p s) as [s1 [u|e]]; apply IH.
Qed.

Lemma ExecuteHooks_registry now hooks T txn data s : registry (ExecuteHooks now hooks T txn data s).1 = registry s.
Proof.
  unfold ExecuteHooks, mbind, prog_bind, ctx_err, map_err, lift. destruct data; [|done].
  apply queue_hooks_registry.
Qed.

Definition tasks_of (hooks : list Hook) (p : HookPayload) : list hook_task :=
  map (λ h, mkTask h p (Z.max 0 (hk_RetryCount h))) (List.filter hk_Active hooks).

(** Running hooks puts a task for each active one on the queue, in order, and
    none of them can stop the transaction: no reply is waited for, and a task
    that cannot be enqueued is only notified. *)
Lemma ExecuteHooks_queues now hooks T txn data s :
  let '(s', r) := ExecuteHooks now hooks T txn (Ok data) s in
  r = Ok tt ∧ (∃ new, hs_tasks s' = hs_tasks s ++ new
    ∧ new `sublist_of` tasks_of hooks (mkPayload txn T now data))
  ∧ (hs_ahead s = [] → hs_tasks s' = hs_tasks s ++ tasks_of hooks (mkPayload txn T now data)
     ∧ hs_notified s' = hs_notified s).
Proof.
  unfold ExecuteHooks, mbind, prog_bind, ctx_err, map_err, lift. set (p := mkPayload _ _ _ _). clearbody p.
  revert s. induction hooks as [|h hooks IH]; intros s; cbn [queue_hooks].
  { cbn. rewrite app_nil_r. split_and!; [done|by exists []; rewrite app_nil_r|done]. }
  unfold mbind, prog_bind, tasks_of. cbn [List.filter].
  destruct (hk_Active h); [|apply IH]. unfold attempt, queueHook, ctx_err, map_err, command.
  set (t := mkTask h p _). cbn [map].
  assert (∀ l new, new `sublist_of` tasks_of hooks p → (l ++ [t]) ++ new = l ++ t :: new
    ∧ t :: new `sublist_of` t :: tasks_of hooks p) as Ht.
  { intros l new Hn. by split; [rewrite <- app_assoc|apply sublist_skip]. }
  destruct (hs_ahead s) as [|[|e|e] ahead] eqn:Ea; cbn;
    match goal with |- context [queue_hooks _ _ ?s1] => specialize (IH s1) end;
    destruct (queue_hooks _ p _) as [s' r]; cbn in IH |- *;
    destruct IH as (-> & (new & -> & Hn) & Hd); (split; [done|]); (split; [|intros; try done]);
    try (exists (t :: new); by apply Ht); try (exists new; split; [done|by apply sublist_cons]).
  destruct (Hd Ea) as [Hd1 Hd2]. apply app_inv_head in Hd1. subst new.
  split; [|done]. by rewrite <- app_assoc.
Qed.

(** With nothing going wrong the list of a type is the list of its hooks. *)
Lemma get_hooks_calm ids s : hs_ahead s = [] → get_hooks ids s = (s, Ok (omap (stored s) ids)).
Proof.
  intros Ha. assert (∀ id, GetHook id s = (s, match stored s id with Some h => Ok h | None => Err (not_found id) end)) as Hg.
  { intros id. unfold GetHook, mbind, prog_bind, GET, command. rewrite Ha. fold (stored s id). by destruct (stored s id). }
  induction ids as [|id ids IH]; [done|]. cbn [get_hooks]. unfold mbind, prog_bind, attempt.
  rewrite Hg. cbn -[get_hooks]. rewrite IH. by destruct (stored s id).
Qed.

Lemma ListHooks_calm T s : hs_ahead s = [] →
  ListHooks T s = (s, Ok (omap (stored s) (SMembers (members s (getTypeKey T))))).
Proof. intros Ha. unfold ListHooks, mbind, prog_bind, command. rewrite Ha. by apply get_hooks_calm. Qed.

Lemma consistent_list T s l s' :
  consistent s → hs_ahead s = [] → ListHooks T s = (s', Ok l) →
  NoDup l ∧ ∀ h, h ∈ l ↔ stored s (hk_ID h) = Some h ∧ getTypeKey (hk_Type h) = getTypeKey T.
Proof.
  intros C Ha Hl. rewrite ListHooks_calm in Hl by done. injection Hl as _ <-.
  assert (∀ id, id ∈ SMembers (members s (getTypeKey T)) ↔ id ∈ members s (getTypeKey T)) as Hin.
  { intros id. by rewrite SMembers_perm, elem_of_elements. }
  split.
  - assert (NoDup (SMembers (members s (getTypeKey T)))) as Hnd by (rewrite SMembers_perm; apply NoDup_elements).
    revert Hnd. generalize (SMembers (members s (getTypeKey T))). intros ids.
    induction ids as [|id ids IH]; intros Hnd; [constructor|]. apply NoDup_cons in Hnd as [Hid Hnd]. cbn.
    destruct (stored s id) as [h|] eqn:Eh; [|by apply IH]. constructor; [|by apply IH].
    intros (id' & Hin' & Hs')%list_elem_of_omap. apply (co_id _ C) in Eh, Hs'. congruence.
  - intros h. rewrite list_elem_of_omap. setoid_rewrite Hin. setoid_rewrite (co_listed _ C). split.
    + intros (id & (h' & Hs & Ht) & Hs'). rewrite Hs in Hs'. injection Hs' as ->.
      by rewrite (co_id _ C _ _ Hs).
    + intros [Hs Ht]. exists (hk_ID h). split; [|done]. by exists h.
Qed.

End listing.

(** *** The worker *)

Section working.
Context (marshal : HookPayload → result string) (valid_url : string → result unit) (secret : option string).
#[local] Notation executeHook := (executeHook marshal valid_url secret).
#[local] Notation ProcessHookTask := (ProcessHookTask marshal valid_url secret).
#[local] Notation work := (work marshal valid_url secret).

Definition with_status (now : time) (hook : Hook) (success : bool) : Hook :=
  hook <| hk_LastRun := now |> <| hk_LastSuccess := success |>.

Lemma updateHookStatus_effect now hook b s :
  let s' := (attempt (updateHookStatus now hook b) s).1 in
  hs_tasks s' = hs_tasks s ∧
  (registry s' = registry s
   ∨ (∀ k, members s' k = members s k)
     ∧ ∀ id, stored s' id = if String.eqb id (hk_ID hook) then Some (with_status now hook b) else stored s id).
Proof.
  assert (∀ s0, registry s0 = registry s →
    let s' := s0 <| hs_hooks := <[hook_key (hk_ID hook) := with_status now hook b]> (hs_hooks s0) |> in
    (∀ k, members s' k = members s k)
    ∧ ∀ id, stored s' id = if String.eqb id (hk_ID hook) then Some (with_status now hook b) else stored s id) as K.
  { intros s0 Hr. split; [intros k; by apply (members_registry s s0)|]. intros id. unfold stored. cbn.
    destruct (String.eqb_spec id (hk_ID hook)) as [->|Hne]; [by rewrite lookup_insert_eq|].
    rewrite lookup_insert_ne by (intros E%hook_key_inj; congruence). by apply stored_registry. }
  unfold attempt, updateHookStatus, SET, command. cbv zeta.
  destruct (hs_ahead s) as [|[] ahead]; cbn; (split; [done|]).
  - right. exact (K s eq_refl).
  - right. exact (K (s <| hs_ahead := ahead |>) eq_refl).
  - by left.
  - right. exact (K (s <| hs_ahead := ahead |>) eq_refl).
Qed.

(** The outcome written is the outcome returned; a hook that cannot be sent
    leaves none. *)
Lemma executeHook_effect send now hook p s :
  let '(s', r) := executeHook send now hook p s in
  hs_tasks s' = hs_tasks s ∧
  (registry s' = registry s
   ∨ (∀ k, members s' k = members s k)
     ∧ ∀ id, stored s' id = if String.eqb id (hk_ID hook) then Some (with_status now hook (is_ok r)) else stored s id).
Proof.
  unfold Hooks.executeHook, mbind, prog_bind, ctx_err, map_err, lift.
  destruct (marshal p) as [text|e]; [|by split; [|left]].
  destruct secret as [key|]; [|by split; [|left]].
  destruct (valid_url (hk_URL hook)); [|by split; [|left]].
  set (r := verdict _). pose proof (updateHookStatus_effect now hook (is_ok r) s) as K. cbv zeta in K.
  destruct (attempt _ s) as [s' [u|e]] eqn:Ea; [exact K|]. revert Ea. unfold attempt.
  by destruct (updateHookStatus now hook (is_ok r) s).
Qed.

(** A task whose hook is still registered, under the type the task knows. *)
Definition current (s : hstore) (task : hook_task) : Prop :=
  ∃ h, stored s (hk_ID (ht_Hook task)) = Some h
    ∧ getTypeKey (hk_Type h) = getTypeKey (hk_Type (ht_Hook task)).

Lemma consistent_executed send now hook p s :
  consistent s →
  (∃ h, stored s (hk_ID hook) = Some h ∧ getTypeKey (hk_Type h) = getTypeKey (hk_Type hook)) →
  consistent (executeHook send now hook p s).1.
Proof.
  intros C (h & Hh & HT). pose proof (executeHook_effect send now hook p s) as K.
  destruct (executeHook send now hook p s) as [s' r]. cbn [fst].
  destruct K as [_ [Hr|[Hm Hs]]]; [by apply (consistent_registry s)|].
  apply (consistent_written s s' (hk_ID hook) (with_status now hook (is_ok r)) C eq_refl Hs).
  intros k id. rewrite Hm.
  destruct (String.eqb_spec id (hk_ID hook)) as [->|]; [|done]. rewrite (co_listed _ C).
  cbn. rewrite <- HT. naive_solver.
Qed.

Lemma consistent_work i send now s :
  consistent s → (∀ task, hs_tasks s !! i = Some task → current s task) →
  consistent (work i send now s).1.
Proof.
  intros C Hcur. unfold Hooks.work. destruct (hs_tasks s !! i) as [task|] eqn:Ei; [|done].
  set (s0 := s <| hs_tasks := _ |>).
  pose proof (consistent_executed (within (timeout_of (ht_Hook task)) send) now (ht_Hook task) (ht_Payload task)
    s0 (consistent_registry s s0 eq_refl C) (Hcur task eq_refl)) as C'.
  unfold Hooks.ProcessHookTask. destruct (executeHook _ now _ _ s0) as [s1 [u|e]]; cbn [fst] in *; [done|].
  case_goal; [by apply (consistent_registry s1)|done].
Qed.

(** What is left to try: a task, and its retries. *)
Definition attempts_left (s : hstore) : Z := sumZ (λ t, Z.max 0 (ht_MaxRetry t) + 1) (hs_tasks s).

Lemma sumZ_delete {A} (f : A → Z) l i x : l !! i = Some x → sumZ f l = f x + sumZ f (delete i l).
Proof.
  revert i. induction l as [|y l IH]; intros [|i] Hi; try done.
  - by injection Hi as ->.
  - change (delete (S i) (y :: l)) with (y :: delete i l). cbn [sumZ]. rewrite (IH i Hi). lia.
Qed.

(** Every task taken uses one attempt up, so a queue drains in as many steps as
    it has attempts left. *)
Lemma work_decreases i send now s :
  (i < length (hs_tasks s))%nat → attempts_left (work i send now s).1 <= attempts_left s - 1.
Proof.
  intros Hi. unfold Hooks.work. destruct (lookup_lt_is_Some_2 _ _ Hi) as [task Ht]. rewrite Ht.
  pose proof (executeHook_effect (within (timeout_of (ht_Hook task)) send) now (ht_Hook task) (ht_Payload task)
    (s <| hs_tasks := delete i (hs_tasks s) |>)) as K.
  unfold Hooks.ProcessHookTask, attempts_left. destruct (executeHook _ _ _ _ _) as [s1 r]. destruct K as [K _].
  cbn in K. rewrite (sumZ_delete _ _ _ _ Ht).
  destruct r as [u|e]; cbn [fst]; [rewrite K; lia|]. case_goal; zbool; cbn; rewrite ?sumZ_app, K; cbn; lia.
Qed.

(** ** Everything that happens to the registry *)

Context `{RedisSet}.

Inductive hstep : hstore → hstore → Prop :=
| hstep_register new_id now hook s s' h :
    RegisterHook new_id now hook s = (s', Ok h) → same_type s (hk_ID h) (hk_Type h) → hstep s s'
| hstep_update id hook s s' h : UpdateHook id hook s = (s', Ok h) → hstep s s'
| hstep_delete id s s' u : DeleteHook id s = (s', Ok u) → hstep s s'
| hstep_run T now txn data s :
    hstep s ((hooks ← ListHooks T; ExecuteHooks now hooks T txn data) s).1
| hstep_work i send now s :
    (∀ task, hs_tasks s !! i = Some task → current s task) → hstep s (work i send now s).1
| hstep_network ahead s : hstep s (s <| hs_ahead := ahead |>).

Lemma consistent_step s s' : hstep s s' → consistent s → consistent s'.
Proof.
  intros Hs C. destruct Hs as [new_id now hook s s' h Hr Hty|id hook s s' h Hu|id s s' u Hd
    |T now txn data s|i send now s Hcur|ahead s].
  - by apply (consistent_register new_id now hook s s' h).
  - by apply (consistent_update id hook s s' h).
  - by apply (consistent_delete id s s' u).
  - apply (consistent_registry s); [|done]. unfold mbind, prog_bind.
    pose proof (ListHooks_registry T s) as Hr. destruct (ListHooks T s) as [s1 [l|e]]; [|exact Hr].
    by rewrite ExecuteHooks_registry.
  - by apply consistent_work.
  - by apply (consistent_registry s).
Qed.

Definition no_hooks : hstore := mkStore ∅ ∅ [] [] [].

(** The hooks that run for a type are the registered ones.  After any
    sequence of registrations, updates and deletions that were reported done,
    of transactions that run hooks and of tasks of the worker, on any network,
    the list of a type is exactly the stored hooks of the type, each once; an
    id is not registered twice under two types, and no task outlives its hook
    or the type it knows. *)
Lemma listed_hooks s T s' l :
  rtc hstep no_hooks s → hs_ahead s = [] → ListHooks T s = (s', Ok l) →
  NoDup l ∧ ∀ h, h ∈ l ↔ stored s (hk_ID h) = Some h ∧ getTypeKey (hk_Type h) = getTypeKey T.
Proof.
  intros Hr Ha Hl. apply (consistent_list T s l s'); [|done|done].
  clear Ha Hl. pose proof consistent_empty as C. fold no_hooks in C. revert C.
  induction Hr as [|x y z Hst _ IH]; [done|]. intros C. by apply IH, (consistent_step x y).
Qed.

End working.

(** ** What the manager allows *)

Section behaviour.
Context `{RedisSet}.

(** Listing without a type reads a set no registered hook is in. *)
Lemma ListHooks_all_empty s s' l :
  consistent s → hs_ahead s = [] →
  (∀ id h, stored s id = Some h → hk_Type h = PreTransaction ∨ hk_Type h = PostTransaction) →
  ListHooks "" s = (s', Ok l) → l = [].
Proof.
  intros C Ha Hty Hl. destruct l as [|h l]; [done|].
  apply (consistent_list "" s _ s' C Ha) in Hl as [_ Hl].
  destruct (proj1 (Hl h)) as [Hs Hk]; [by left|]. by destruct (Hty _ _ Hs) as [E|E]; rewrite E in Hk.
Qed.

(** A command of an update that fails is answered as a missing hook. *)
Lemma outage_is_not_found id hook s e ahead :
  hs_ahead s = Refused e :: ahead →
  (UpdateHook id hook s).2 = Err (not_found id) ∧ hookFailureCode (not_found "h1") = "HOOK_NOT_FOUND".
Proof.
  intros Ha. split; [|by vm_compute]. unfold UpdateHook, mbind, prog_bind, map_err, GetHook, mbind, prog_bind, GET, command.
  by rewrite Ha.
Qed.

End behaviour.

Definition ex_hook (id : string) (T : HookType) : Hook :=
  mkHook id "audit" "https://example.org/hook" T true 5 2 0 0 false.
Definition ex_text (p : HookPayload) : result string := Ok (hp_Data p).
Definition any_url (url : string) : result unit := Ok tt.
Definition accepts : http_request → http_result := λ _, Replied 200 BEmpty.
Definition ex_run (T : HookType) (s : hstore) : hstore :=
  ((hooks ← ListHooks T; ExecuteHooks 7 hooks T "txn_1" (Ok "{}")) s).1.
Definition ex_work : hstore → hstore := λ s, (work ex_text any_url (Some "secret") 0 accepts 9 s).1.
Definition registered (T : HookType) (s : hstore) : list string :=
  match (ListHooks T s).2 with Ok l => map hk_ID l | Err _ => [] end.

Definition ex_one : hstore := (RegisterHook "" 1 (ex_hook "h1" PreTransaction) no_hooks).1.

(** A hook runs and its outcome is kept. *)
Lemma hook_runs :
  registered PreTransaction ex_one = ["h1"] ∧ registered PostTransaction ex_one = []
  ∧ (λ h, (hk_LastRun h, hk_LastSuccess h)) <$> stored (ex_work (ex_run PreTransaction ex_one)) "h1"
    = Some (9, true).
Proof. by vm_compute. Qed.

(** A task writes back the hook it was made with: one deleted in between is
    there again, in no set, and an update in between is undone. *)
Lemma stale_status_write :
  let s := ex_work (DeleteHook "h1" (ex_run PreTransaction ex_one)).1 in
  let u := ex_work (UpdateHook "h1" ((ex_hook "" PreTransaction) <| hk_Active := false |>)
                      (ex_run PreTransaction ex_one)).1 in
  hk_ID <$> stored s "h1" = Some "h1" ∧ registered PreTransaction s = []
  ∧ hk_Active <$> stored u "h1" = Some true.
Proof. by vm_compute. Qed.

(** Registering a known id under the other type leaves it in both sets, so it
    runs before transactions too. *)
Lemma registered_twice :
  let s := (RegisterHook "" 2 (ex_hook "h1" PostTransaction) ex_one).1 in
  registered PreTransaction s = ["h1"] ∧ registered PostTransaction s = ["h1"]
  ∧ hk_Type <$> stored s "h1" = Some PostTransaction.
Proof. by vm_compute. Qed.

(** An update is not validated: without a timeout the hook is never sent, and
    its retries have no limit. *)
Lemma update_not_validated :
  let h := (ex_hook "h1" PreTransaction) <| hk_URL := "" |> <| hk_Timeout := 0 |> <| hk_RetryCount := 99 |> in
  let s := (UpdateHook "h1" h ex_one).1 in
  is_ok (validateHook h) = false ∧ stored s "h1" = Some (h <| hk_CreatedAt := 1 |>)
  ∧ map ht_MaxRetry (hs_tasks (ex_run PreTransaction s)) = [99]
  ∧ (work ex_text any_url (Some "secret") 0 accepts 9 (ex_run PreTransaction s)).2 = Err DeadlineExceeded.
Proof. by vm_compute. Qed.

(** The flag of a reply counts, not its status. *)
Lemma status_of_reply_ignored :
  verdict (Replied 500 (BResponse true "")) = Ok tt ∧ is_ok (verdict (Replied 200 (BResponse false ""))) = false.
Proof. done. Qed.

(** The second command of a deletion may fail alone: the set keeps the id. *)
Lemma deletion_not_atomic :
  let s := (DeleteHook "h1" (ex_one <| hs_ahead := [Done; Done; Refused (ENew "timeout")] |>)).1 in
  stored s "h1" = None ∧ members s preHookKeyPrefix = {["h1"]}.
Proof. by vm_compute. Qed.

End Hooks.
